(* ===== verification/_CoqProject ===== *)
-Q . S2P
Prelude.v
Seid.v
Log.v
Dpdk.v
Heap.v
Redis.v
StubReply.v
Scripts.v
World.v
StubTxn.v
DbScript.v
SessStore.v
RetransCache.v
IdAlloc.v
DispatchQ.v
Flow.v
NodeState.v
Sweeper.v
Teardown.v
Pod.v
StubVdp.v
StubPfcp.v
StubMem.v
Server.v
SessCas.v
SessHistory.v
Preserve.v
Pools.v
Commands.v
Registers.v
PoolsPod.v
Own.v
OwnPrim.v
OwnCmd.v
OwnCalls.v
OwnFlow.v
OwnPod.v
Transport.v
Races.v
Boot.v
StubDb.v
StubIo.v
Safety.v
Protocol.v
Progress.v
Conform.v
Procedures.v
Records.v
ProtocolRefine.v
Arrival.v
Payload.v
Contents.v
Cluster.v
ClusterInv.v
Versions.v
Effects.v
Atomic.v
Answers.v
Drain.v
Supplies.v
Onward.v
Verdict.v
Main.v
Loops.v
Testbed.v
Runs.v
Scenarios.v
RunExamples.v
SharedState.v
SessExamples.v
SharedExamples.v
IdUnique.v
IdTeid.v
IdExamples.v
StubExamples.v
ClusterExamples.v
