(* ===== verification/Prelude.v ===== *)
(** * vpe: a stateless UPF control plane, verified

    The program answers PFCP session requests (establishment, modification,
    deletion) without keeping sessions in memory: each session is a versioned
    record in Redis, any pod may serve any request, and concurrent requests on
    one session are serialised by compare-and-set on the version.  This
    library models the C code under src/ and proves that it does so.

    ** The program and how its parts interact

    A process has one I/O core and four workers.  The I/O core puts received
    datagrams on a ring (src/v_dispatch), drains the transmit ring, and polls
    the database port; a worker takes datagrams off the ring and starts a
    session procedure (src/v_flow) for each.  A procedure is a chain of
    callbacks over one transaction.  Each link issues one asynchronous
    operation and names the callback that continues it: a retransmit lookup
    (src/v_retrans_cache), a session read, compare-and-set, confirm or delete
    (src/v_sess_store, through the EVALSHA transport src/v_db_script and its
    three Lua scripts) or an operation of the data plane (port v_port_vdp).
    Identifiers come from per-partition rings that are refilled by block
    leases from Redis (src/v_id_alloc).  A sweeper (src/v_txn) reacts to the
    hard timeout of the transaction table.  src/v_node_state keeps the node's
    recovery time stamp and association in Redis.  The ports of
    include/v_port_*.h are implemented by the adapters under stubs/.

    ** How the code is represented

    - [World.world] is the state of one process: the static variables of every
      module, the heaps of transactions, contexts and requests, and the
      queues of commands and data-plane operations in flight.  Operations are
      computations in [Prelude.M]: state passing with failure, and the failure
      [None] stands for undefined behaviour only (a NULL or released object
      dereferenced, an array indexed out of range).  RET_CODE_ERR and NULL are
      ordinary results.
    - A function pointer that the code stores is a constructor of an
      enumeration ([v_db_cb_t], [evalsha_user], [v_sess_cas_cb_t], ...) with
      the arguments it is stored with; Pod.v interprets them.
    - An asynchronous operation appends to [db_queue] or [vdp_queue].  Its
      completion is an event that may come at any time, in any order, with any
      reply the type allows.  [Pod.pod_step] is the reaction of the process to
      one event; a run is a list of events.
    - Integers are Z at their C width, with [u16], [u32], [u64] where the code
      truncates or wraps; buffers are byte lists; snprintf into a buffer of n
      bytes keeps n - 1 of them.
    - DPDK rings and pools, the Redis server, the Lua engine, SHA-1, hiredis
      and, in the process model, the PFCP codec are parameters (type classes)
      with their documented behaviour as laws.  [ListDpdk], [MapServer],
      [FixedSha] and [StubCodec] are concrete instances, used by examples.

    ** Files and sources

    Foundations: Prelude (integers, strings, hashing, decimal printing and
    parsing, the monad, shared tactics), Dpdk (rte_ring and rte_mempool),
    Heap (objects of a pool), Redis (replies, commands, Lua numbers), World.

    Components:
    - Seid: src/v_seid (bit layout of SEID and TEID);
    - Scripts: src/v_db_script/inc/v_db_lua_scripts.h (the three scripts and
      the register contract of two of them);
    - DbScript: src/v_db_script (SHA cache, EVALSHA, NOSCRIPT recovery);
    - SessStore: src/v_sess_store;   RetransCache: src/v_retrans_cache;
    - IdAlloc: src/v_id_alloc;       DispatchQ: src/v_dispatch;
    - Flow: src/v_flow;              NodeState: src/v_node_state;
    - Sweeper: src/v_txn;            Log: src/v_log;
    - Pod: the callbacks of all modules tied together, and the events;
    - Boot, Main, Loops: main.c (initialisation, readiness gates, the loops);
    - Teardown: the release functions of v_dispatch, v_id_alloc and v_txn;
    - Server: one Redis shard as the pods see it (key space, loaded scripts).

    Adapters: StubTxn (stubs/v_stub_txn), StubVdp (stubs/v_stub_vdp), StubMem
    (stubs/v_stub_mem), StubPfcp and StubIo (stubs/v_stub_pfcp and
    v_stub_common.h), StubReply and StubDb (stubs/v_stub_db).  World.v states
    the ports as the process uses them; each adapter is proved to refine that.

    Theories: Preserve (invariants carried through all procedures); Pools and
    PoolsPod (conservation of the pending-object pools); Own, OwnPrim, OwnCmd,
    OwnCalls, OwnFlow and OwnPod (ownership of transactions, contexts and
    requests); Protocol, Progress, Conform, Procedures, ProtocolRefine and
    Answers (the abstract protocol of the procedures, and that v_flow follows
    it); Arrival (what a received datagram does); Drain (how much work is
    left, and that it ends); Supplies, Onward and Verdict (a pod that lacks
    nothing follows a deterministic automaton); SessCas and
    SessHistory (the session register); IdUnique and IdTeid (identifiers
    across pods); SharedState (retransmit cache and node state across pods);
    Transport (the rings); Races (two operations that workers run at the same
    time, statement by statement).

    The composition of pods and shards: Commands (the forms a command of a pod
    can have, and that every procedure issues only those), Registers (what any
    such command does to the session records of a shard), Records (which
    session and which version a transaction holds), Payload and Contents (which
    blob its write carries, and what its request and contexts hold from one
    event to the next), Cluster (the executable system), ClusterInv (its
    invariant), Versions (the life of a record over a run), Effects (what an
    accepted request has done to the database) and Atomic (that it has done so
    in one step, to the record it had read).

    Instances: Testbed, Runs, Scenarios, RunExamples, SessExamples,
    SharedExamples, IdExamples, StubExamples and ClusterExamples evaluate the
    definitions on concrete inputs.  Runs evaluates all scenarios of the
    process once, so that the examples that share them do not repeat it.

    ** What is proved

    - Process safety (Safety, Main, Loops).  Started by main.c and driven by any
      events except hard timeouts, the process has no undefined behaviour
      ([pod_no_undefined_behaviour]); when nothing is in flight every
      transaction, context, request and pending object has been released
      ([quiescent_no_leak]); every live transaction waits for exactly one
      completion, the one its state names ([txn_state_machine]); workers are
      launched only when every partition can allocate ([startup_gate]).  An
      iteration of a worker dispatches exactly the oldest thirty-two received
      datagrams; an iteration of the I/O core runs the due completions and
      sends the oldest sixty-four responses ([loop_iterations]).
    - Session procedures (ProtocolRefine, Answers).  Protocol.v states what a
      procedure does with each completion, as a small transition function.
      Every event of the process makes exactly those steps and sends exactly
      the response they name to the requester ([procedures_refine_protocol]);
      a request is answered once, and an accepting answer implies the
      database and data-plane steps in order ([request_served]); no request
      is stranded, and each is answered after at most six (establishment),
      seventeen (modification) or sixteen (deletion) completions of its own,
      whatever the other requests do ([procedures_terminate]).  Whatever completes next, and in whatever
      order, the process comes to rest after a number of completions that its
      state gives in advance, with every request answered and every object
      released ([pod_comes_to_rest], in Drain).  What a datagram begins
      depends on its bytes alone, and it is dropped only for want of a named
      resource ([datagram_dispatch]).  The protocol leaves open where a
      procedure fails for want of a resource; in a pod that has connections,
      scripts, identifiers and six free objects in each pool whenever a
      completion of the request arrives, the answer is the one the automaton
      [Verdict.next] computes from the completions ([request_outcome]).
    - The cluster (ClusterInv, Effects, Atomic).  [Cluster.cl_do] is a step of any
      number of pods and the shards they share: a pod starts, runs one of its
      events or crashes; a shard serves a command, whose reply travels in a
      slot of the pod that sent it; the reply arrives, or the connection
      breaks; commands left behind are served late or never; leases expire
      and script caches are flushed.  In every run no step is undefined, every
      command in flight has the form of its callback, every reply has the type
      its session callback parses, and every session key holds a versioned
      record or nothing ([cluster_well_typed]).  A request that is answered as
      accepted has had its effect on the session's record since it began, by a
      command of the pod that served it ([accepted_took_effect]), and that
      effect is one atomic step: an establishment stores the session its
      request describes where there was none; a modification replaces a
      record by what the request makes of the record that was read, and both
      have one version; a deletion removes the record that was read.  Unless
      the session was removed in between, the record replaced or removed is
      the one read ([accepted_is_atomic]): a version seen twice without a
      removal in between names one record ([Versions.run_versions]).
    - Session register (SessCas, SessHistory).  The calls of v_sess_store,
      served by a shard, implement a versioned register with a lease
      ([cas_write_refines], [delete_refines], [read_refines],
      [confirm_refines]); over any interleaving of the pods no update is lost
      and no conflict is spurious ([cas_no_lost_update]).
    - Identifiers (Seid, IdUnique, IdTeid).  Layout round trips; no SEID is
      ever granted twice ([seid_unique_across_pods]); no two live sessions
      share a TEID ([teid_unique_while_live]), under lost replies, restarts
      and recycling; the quarantine of freed TEIDs ([teid_quarantine]).
    - Shared state (SharedState).  A stored response is what any pod looks up
      ([retrans_roundtrip]); the association is common to the pods
      ([association_shared]); what the pods adopt as the recovery time stamp
      ([recovery_ts_race]).
    - Adapters and rings: the [stub_*_refines_*] theorems, reply conversion,
      the connection life cycle; the rings are first-in first-out, and a
      datagram is dropped exactly when it is too long, its ring is full or
      rings and workers hold every buffer ([datagram_channels]).
    - Defects, each with a concrete or general theorem: the hard timeout
      releases a transaction whose completion is in flight
      ([timeout_use_after_free]) and leaks its snapshot
      ([timeout_leaks_snapshot]); a branch of the sweeper that no run of a
      cluster reaches ([vdp_timeout_deletes_nothing]); blobs that are admitted
      but can never be written ([cas_write_oversized_blob]); duplicate TEIDs
      beyond 2^32 ([teid_truncation_duplicates]); a dangling connection
      ([failed_connect_dangles]); misread replies ([nested_reply_misread],
      [long_reply_overruns]); the pending pool of v_retrans_cache, whose
      creation by two workers at once can leave the process without it for
      good ([lazy_pool_race]); two transactions in one slot ([slot_race]).

    ** Bounds and fuel

    - [Pod.CALLBACK_DEPTH] = 2 bounds the nesting of synchronous callbacks (a
      command that cannot be issued calls back at once).  Running out would be
      [None], so [pod_no_undefined_behaviour] proves that it is enough.
    - Loops of the code run for the number of iterations the code fixes
      ([V_ID_BLK_SIZE], [V_NUM_PARTS], the batch sizes of the polls,
      [SCRIPT_ITERS], [ID_ITERS], [TS_ITERS]); the Lua pop loop and the
      decimal printer take fuel that their lemmas prove sufficient (20 digits
      for 64 bits).
    - [Protocol.MAX_COMPLETIONS] = 17 is proved, not assumed: the longest
      chain is a modification that loses every retry of its compare-and-set.
    - Uniqueness of SEIDs needs fewer than 2^63, and of TEIDs fewer than 2^32,
      leased indices per partition; the premises of the theorems say so.
    - Lua numbers are exact up to 2^53: the version of a session is assumed
      below that.  A step raises a version by one at most, so the theorems on
      clusters hold for runs of at most 2^53 - 1 steps
      ([ClusterInv.MAX_STEPS]).
    - [Drain.load] counts ten for each round trip that a procedure in flight
      may still need and one for each of a background command; a completion
      lowers it, so it bounds the completions until the process is at rest.

    ** Not modelled

    - The insides of hiredis, libevent, DPDK, the EAL, Redis and Lua: they are
      not part of the repository and enter as parameters with laws.
    - Preemption: an event is processed to its end before the next one
      starts.  The C code shares state between the I/O core, which runs the
      database callbacks, and the workers without locks; the theorems hold for
      every order of events, not for two of them at the same instant.  Only
      the two operations of Races interleave.
    - A hard timeout is an event of the process, but the safety theorems and
      the steps of a cluster exclude it: with it they fail, as the defect
      theorems show.
    - Between two events no worker holds a datagram buffer, and an iteration
      of a loop of main.c runs alone; Transport states the rings for any
      buffers that workers may hold.
    - A connection attempt that fails (connect_cb of stubs/v_stub_db with an
      error) is not an event of the process: it leaves a dangling context, on
      which StubDb proves that every later use is undefined
      ([failed_connect_dangles]).
    - The environment variables that name the Redis host and port of the test
      bed (db_host, db_port): the connection is a parameter.
    - Argument parsing and the text of log messages (the level filter and the
      line prefix are in Log), and the test programs. *)
From Stdlib Require Export ZArith Lia Ascii.
From stdpp Require Export base tactics list gmap strings fin_maps.
Export ListNotations.
#[global] Open Scope Z_scope.
#[export] Set Default Goal Selector "!".

(** ** Byte strings *)

(** C buffers and Redis strings are byte sequences. *)
Abbreviation bytes := (list ascii).

Declare Scope bytes_scope.
Delimit Scope bytes_scope with bytes.

(** A C string literal as a byte sequence. *)
Definition lit (s : string) : bytes := String.list_ascii_of_string s.

Notation "$ s" := (lit s%string) (at level 1, format "$ s") : bytes_scope.
#[global] Open Scope bytes_scope.

(** ** Return codes (include/v_common.h) *)

Definition RET_CODE_OK : Z := 0.
Definition RET_CODE_ERR : Z := -1.

(** ** Machine integers: a w-bit unsigned value is a Z reduced mod 2^w *)

Definition u8 (z : Z) : Z := z mod 2 ^ 8.
Definition u16 (z : Z) : Z := z mod 2 ^ 16.
Definition u32 (z : Z) : Z := z mod 2 ^ 32.
Definition u64 (z : Z) : Z := z mod 2 ^ 64.

Definition is_u8 (z : Z) : Prop := 0 <= z < 2 ^ 8.
Definition is_u16 (z : Z) : Prop := 0 <= z < 2 ^ 16.
Definition is_u32 (z : Z) : Prop := 0 <= z < 2 ^ 32.
Definition is_u64 (z : Z) : Prop := 0 <= z < 2 ^ 64.

(** ** Decimal formatting and parsing (snprintf "%u"/"%lu"/"%d", strtoull) *)

Definition digit_ascii (d : Z) : ascii := ascii_of_N (Z.to_N (48 + d)).
Definition ascii_code (c : ascii) : Z := Z.of_N (N_of_ascii c).
Definition is_digit (c : ascii) : bool := (48 <=? ascii_code c) && (ascii_code c <=? 57).

(** Decimal digits of [n], most significant first, in front of [acc]; 20
    digits hold every 64-bit value. *)
Fixpoint dec_fuel (fuel : nat) (n : Z) (acc : bytes) : bytes :=
  match fuel with
  | O => acc
  | S fuel' =>
      let acc' := digit_ascii (n mod 10) :: acc in
      if n <? 10 then acc' else dec_fuel fuel' (n / 10) acc'
  end.

Definition dec (n : Z) : bytes := dec_fuel 20 n [].

#[global] Arguments dec : simpl never.

(** snprintf writes at most [cap - 1] characters before the terminator. *)
Definition snprintf (cap : nat) (s : bytes) : bytes := take (cap - 1) s.

Definition is_space (c : ascii) : bool :=
  (ascii_code c =? 32) || ((9 <=? ascii_code c) && (ascii_code c <=? 13)).

Fixpoint parse_digits (acc : Z) (s : bytes) : Z :=
  match s with
  | [] => acc
  | c :: s' => if is_digit c then parse_digits (acc * 10 + (ascii_code c - 48)) s' else acc
  end.

Fixpoint skip_space (s : bytes) : bytes :=
  match s with
  | c :: s' => if is_space c then skip_space s' else s
  | [] => []
  end.

Definition ULLONG_MAX : Z := 2 ^ 64 - 1.

(** strtoull(s, NULL, 10): leading white space, an optional sign, digits;
    saturates at ULLONG_MAX, and a minus sign negates modulo 2^64. *)
Definition strtoull (s : bytes) : Z :=
  let s := skip_space s in
  let sat n := if ULLONG_MAX <? n then ULLONG_MAX else n in
  match s with
  | c :: s' =>
      if ascii_code c =? 45 then
        let n := parse_digits 0 s' in
        if ULLONG_MAX <? n then ULLONG_MAX else u64 (- n)
      else if ascii_code c =? 43 then sat (parse_digits 0 s')
      else sat (parse_digits 0 s)
  | [] => 0
  end.

(** The common idiom of the callbacks: copy at most [cap - 1] bytes of a
    reply into a stack buffer, terminate it and parse it. *)
Definition parse_buf (cap : nat) (s : bytes) : Z := strtoull (take (cap - 1) s).

(** ** FNV-1a, 32 bit (the hash the modules use for routing) *)

Definition FNV_OFFSET : Z := 2166136261.
Definition FNV_PRIME : Z := 16777619.

(** One round: [h ^= byte; h *= 16777619u;] on a uint32_t. *)
Definition fnv1a_step (h byte : Z) : Z := u32 (Z.lxor h byte * FNV_PRIME).

Definition fnv1a (l : list Z) : Z := foldl fnv1a_step FNV_OFFSET l.

(** The [n] low bytes of [z], least significant first:
    [(uint8_t)(z >> (i * 8))] for i = 0 .. n-1. *)
Definition le_bytes (n : nat) (z : Z) : list Z :=
  (λ i : nat, u8 (Z.shiftr z (Z.of_nat i * 8))) <$> seq 0 n.

(** ** State-and-crash monad *)

(** A C operation on a process state [W]: [None] is undefined behaviour (a
    dereference of NULL or of an object that is not live). *)
Definition SM (W A : Type) : Type := W → option (A * W).

#[export] Instance SM_ret W : MRet (SM W) := λ A (a : A) w, Some (a, w).
#[export] Instance SM_bind W : MBind (SM W) :=
  λ A B (f : A → SM W B) (m : SM W A) w, match m w with Some (a, w') => f a w' | None => None end.

Definition crash {W A} : SM W A := λ _, None.
Definition gets {W A} (f : W → A) : SM W A := λ w, Some (f w, w).
Definition modify {W} (f : W → W) : SM W () := λ w, Some (tt, f w).

(** [when b m] is [if (b) m;]. *)
Definition when {W} (b : bool) (m : SM W ()) : SM W () := if b then m else mret tt.

(** Total weakest precondition: [m] does not crash in [w] and its result and
    final state satisfy [Q]. *)
Definition wp {W A} (m : SM W A) (Q : A → W → Prop) (w : W) : Prop :=
  match m w with Some (a, w') => Q a w' | None => False end.

Create HintDb vpe.
Create Rewrite HintDb vpe_rw.

(** Turn the powers of two that occur in bounds into numerals for [lia]. *)
Ltac pow2_norm :=
  change (2 ^ 8) with 256 in *; change (2 ^ 10) with 1024 in *;
  change (2 ^ 16) with 65536 in *; change (2 ^ 21) with 2097152 in *;
  change (2 ^ 32) with 4294967296 in *; change (2 ^ 31) with 2147483648 in *;
  change (2 ^ 46) with 70368744177664 in *; change (2 ^ 53) with 9007199254740992 in *;
  change (2 ^ 56) with 72057594037927936 in *; change (2 ^ 60) with 1152921504606846976 in *;
  change (2 ^ 64) with 18446744073709551616 in *.

Ltac u_lia :=
  lazymatch goal with | |- @eq (option _) _ _ => exfalso | _ => idtac end;
  unfold is_u8, is_u16, is_u32, is_u64, u8, u16, u32, u64 in *; pow2_norm;
  Z.div_mod_to_equations; lia.

Lemma u16_small z : is_u16 z → u16 z = z.
Proof. intros. unfold u16. by rewrite Z.mod_small. Qed.

Lemma u32_small z : is_u32 z → u32 z = z.
Proof. intros. unfold u32. by rewrite Z.mod_small. Qed.

Lemma u64_small z : is_u64 z → u64 z = z.
Proof. intros. unfold u64. by rewrite Z.mod_small. Qed.

Lemma u8_range z : is_u8 (u8 z).
Proof. unfold is_u8, u8. by apply Z.mod_pos_bound. Qed.

Lemma u16_range z : is_u16 (u16 z).
Proof. unfold is_u16, u16. by apply Z.mod_pos_bound. Qed.

Lemma u32_range z : is_u32 (u32 z).
Proof. unfold is_u32, u32. by apply Z.mod_pos_bound. Qed.

Lemma u64_range z : is_u64 (u64 z).
Proof. unfold is_u64, u64. by apply Z.mod_pos_bound. Qed.

#[export] Hint Resolve u8_range u16_range u32_range u64_range : vpe.
#[export] Hint Rewrite u16_small u32_small u64_small using u_lia : vpe_rw.

(** Packing of bit fields: a field above position [n] and one below it. *)
Lemma lor_shiftl_add a b n : 0 <= n → 0 <= b < 2 ^ n → Z.lor (Z.shiftl a n) b = a * 2 ^ n + b.
Proof.
  intros Hn Hb. rewrite Z.shiftl_mul_pow2 by done.
  rewrite <- Z.lxor_lor, <- Z.add_nocarry_lxor; try done.
  all: apply Z.bits_inj'; intros m Hm; rewrite Z.land_spec, Z.bits_0.
  all: destruct (decide (m < n)) as [?|?].
  all: try (rewrite Z.mul_pow2_bits_low by lia; done).
  all: rewrite andb_comm, <- (Z.mod_small b (2 ^ n)), Z.mod_pow2_bits_high by lia; done.
Qed.

Lemma land_ones_mod a n : 0 <= n → Z.land a (2 ^ n - 1) = a mod 2 ^ n.
Proof.
  intros Hn. rewrite <- Z.land_ones by done. f_equal. rewrite Z.ones_equiv. lia.
Qed.


Lemma fnv1a_step_range h b : is_u32 (fnv1a_step h b).
Proof. apply u32_range. Qed.

Lemma fnv1a_range l : is_u32 (fnv1a l).
Proof.
  unfold fnv1a. destruct l as [|x l _] using rev_ind; [done|].
  rewrite foldl_app. apply fnv1a_step_range.
Qed.

(** *** Decimal round trip *)

Lemma ascii_code_digit d : 0 <= d < 10 → ascii_code (digit_ascii d) = 48 + d.
Proof.
  intros Hd. unfold ascii_code, digit_ascii.
  rewrite N_ascii_embedding by lia. lia.
Qed.

Lemma is_digit_digit d : 0 <= d < 10 → is_digit (digit_ascii d) = true.
Proof. intros Hd. unfold is_digit. rewrite ascii_code_digit by done. lia. Qed.

Lemma parse_dec_fuel fuel n acc :
  0 <= n < 10 ^ Z.of_nat fuel → parse_digits 0 (dec_fuel fuel n acc) = parse_digits n acc.
Proof.
  revert n acc. induction fuel as [|fuel IH]; intros n acc Hn; cbn [dec_fuel].
  { replace n with 0 by (cbn in Hn; lia). done. }
  rewrite Nat2Z.inj_succ, Z.pow_succ_r in Hn by lia.
  pose proof (Z.mod_pos_bound n 10 eq_refl) as Hm.
  destruct (Z.ltb_spec n 10) as [Hlt|Hge].
  - cbn [parse_digits]. rewrite is_digit_digit, ascii_code_digit by lia.
    rewrite (Z.mod_small n 10) by lia. f_equal. lia.
  - rewrite IH by (split; [apply Z.div_pos|apply Z.div_lt_upper_bound]; lia).
    cbn [parse_digits]. rewrite is_digit_digit, ascii_code_digit by lia.
    f_equal. pose proof (Z.div_mod n 10). lia.
Qed.

Lemma dec_fuel_digits fuel n acc :
  Forall (λ c, is_digit c = true) acc → 0 <= n → Forall (λ c, is_digit c = true) (dec_fuel fuel n acc).
Proof.
  revert n acc. induction fuel as [|fuel IH]; intros n acc Hacc Hn; cbn [dec_fuel]; [done|].
  pose proof (Z.mod_pos_bound n 10 eq_refl).
  assert (Forall (λ c, is_digit c = true) (digit_ascii (n mod 10) :: acc)).
  { constructor; [by apply is_digit_digit|done]. }
  case_match; [done|]. apply IH; [done|]. apply Z.div_pos; lia.
Qed.

Lemma dec_digits n : 0 <= n → Forall (λ c, is_digit c = true) (dec n).
Proof. apply dec_fuel_digits. constructor. Qed.

Lemma dec_fuel_length fuel n acc (k : nat) :
  0 <= n < 10 ^ Z.of_nat k → (1 ≤ k)%nat → (length (dec_fuel fuel n acc) ≤ k + length acc)%nat.
Proof.
  revert n acc k. induction fuel as [|fuel IH]; intros n acc k Hn Hk; cbn [dec_fuel]; [lia|].
  destruct (Z.ltb_spec n 10) as [|Hge]; [cbn; lia|].
  destruct k as [|[|k]]; [lia|cbn in Hn; lia|].
  rewrite Nat2Z.inj_succ, Z.pow_succ_r in Hn by lia.
  etrans; [apply (IH _ _ (S k))|cbn; lia]; [|lia].
  split; [apply Z.div_pos|apply Z.div_lt_upper_bound]; lia.
Qed.

(** A decimal of a value below 10^k has at most k characters. *)
Lemma dec_length n (k : nat) : 0 <= n < 10 ^ Z.of_nat k → (1 ≤ k)%nat → (length (dec n) ≤ k)%nat.
Proof. intros. unfold dec. pose proof (dec_fuel_length 20 n [] k). cbn [length] in *. lia. Qed.

Lemma dec_nonempty n : dec n ≠ [].
Proof.
  assert (∀ f m (acc : bytes), acc ≠ [] → dec_fuel f m acc ≠ []) as H.
  { induction f as [|f IH]; intros m acc Hacc; cbn [dec_fuel]; [done|]. case_match; [done|by apply IH]. }
  unfold dec. change (dec_fuel 20 n []) with
    (let acc' := [digit_ascii (n mod 10)] in if n <? 10 then acc' else dec_fuel 19 (n / 10) acc').
  cbv zeta. case_match; [done|by apply H].
Qed.

Lemma parse_digits_dec n : is_u64 n → parse_digits 0 (dec n) = n.
Proof.
  intros Hn. unfold dec. rewrite parse_dec_fuel; [done|].
  change (10 ^ Z.of_nat 20) with 100000000000000000000. u_lia.
Qed.

Lemma digit_not_space c : is_digit c = true → is_space c = false.
Proof. unfold is_digit, is_space. lia. Qed.

(** strtoull inverts "%lu" on every 64-bit value. *)
Lemma strtoull_dec n : is_u64 n → strtoull (dec n) = n.
Proof.
  intros Hn. pose proof (parse_digits_dec n Hn) as Hp.
  pose proof (dec_digits n ltac:(u_lia)) as Hd.
  unfold strtoull. destruct (dec n) as [|c s] eqn:E; [by destruct (dec_nonempty n)|].
  apply Forall_cons in Hd as [Hc _]. cbn [skip_space]. rewrite (digit_not_space c Hc).
  unfold is_digit in Hc.
  rewrite (proj2 (Z.eqb_neq _ 45)), (proj2 (Z.eqb_neq _ 43)) by lia.
  rewrite Hp. unfold ULLONG_MAX. rewrite (proj2 (Z.ltb_ge _ _)); [done|u_lia].
Qed.

Lemma parse_buf_dec cap n : is_u64 n → (21 ≤ cap)%nat → parse_buf cap (dec n) = n.
Proof.
  intros Hn Hcap. unfold parse_buf. rewrite take_ge; [by apply strtoull_dec|].
  assert (length (dec n) ≤ 20)%nat; [|lia].
  apply dec_length; [|lia]. change (10 ^ Z.of_nat 20) with 100000000000000000000. u_lia.
Qed.

Lemma dec_inj n m : is_u64 n → is_u64 m → dec n = dec m → n = m.
Proof. intros Hn Hm H. by rewrite <- (strtoull_dec n), <- (strtoull_dec m), H. Qed.

Lemma snprintf_fits cap s : (length s < cap)%nat → snprintf cap s = s.
Proof. intros. unfold snprintf. apply take_ge. lia. Qed.

(** Splitting at the first character that is not a digit. *)
Lemma digits_split_inj (l1 l2 r1 r2 : bytes) (c : ascii) :
  is_digit c = false →
  Forall (λ c, is_digit c = true) l1 → Forall (λ c, is_digit c = true) l2 →
  l1 ++ c :: r1 = l2 ++ c :: r2 → l1 = l2 ∧ r1 = r2.
Proof.
  intros Hc. revert l2. induction l1 as [|a l1 IH]; intros [|b l2] H1 H2 Heq; simplify_eq/=; try done.
  - apply Forall_cons in H2 as [? _]. congruence.
  - apply Forall_cons in H1 as [? _]. congruence.
  - apply Forall_cons in H1 as [_ ?], H2 as [_ ?].
    destruct (IH l2) as [-> ->]; done.
Qed.

(** *** Reasoning about the monad *)

Section wp.
Context {W : Type}.

Lemma wp_ret {A} (a : A) (Q : A → W → Prop) w : Q a w → wp (mret a) Q w.
Proof. done. Qed.

Lemma wp_bind {A B} (m : SM W A) (f : A → SM W B) Q w :
  wp m (λ a w', wp (f a) Q w') w → wp (m ≫= f) Q w.
Proof. unfold wp, mbind, SM_bind. by destruct (m w) as [[a w']|]. Qed.

Lemma wp_mono {A} (m : SM W A) (P Q : A → W → Prop) w :
  wp m P w → (∀ a w', P a w' → Q a w') → wp m Q w.
Proof. unfold wp. destruct (m w) as [[a w']|]; auto. Qed.

Lemma wp_gets {A} (f : W → A) (Q : A → W → Prop) w : Q (f w) w → wp (gets f) Q w.
Proof. done. Qed.

Lemma wp_modify (f : W → W) (Q : () → W → Prop) w : Q tt (f w) → wp (modify f) Q w.
Proof. done. Qed.

Lemma wp_when (b : bool) (m : SM W ()) (Q : () → W → Prop) w :
  (b = true → wp m Q w) → (b = false → Q tt w) → wp (when b m) Q w.
Proof. destruct b; cbn; auto. Qed.

Lemma wp_total {A} (m : SM W A) (Q : A → W → Prop) w : wp m Q w → ∃ a w', m w = Some (a, w') ∧ Q a w'.
Proof. unfold wp. destruct (m w) as [[a w']|]; [by eauto|done]. Qed.
End wp.
