(* ===== verification/Seid.v ===== *)
(** Component v_seid (src/v_seid): the bit layout of the 64-bit SEID and the
    32-bit TEID, packing, unpacking and validation of identifiers received
    from the network.  Out parameters written only on success become the
    payload of an [option]; [None] is RET_CODE_ERR with nothing written. *)
From S2P Require Import Prelude.

(** ** Layout constants (v_seid.h) *)

Definition V_NUM_PARTS : Z := 1024.
Definition V_SEID_FMT_VER : Z := 1.
Definition V_SEID_FMT_SHIFT : Z := 60.
Definition V_SEID_RSV_SHIFT : Z := 56.
Definition V_SEID_RSV_MASK : Z := 15.
Definition V_SEID_PART_SHIFT : Z := 46.
Definition V_SEID_PART_MASK : Z := 1023.
Definition V_SEID_LOCAL_BITS : Z := 46.
Definition V_SEID_LOCAL_MASK : Z := 2 ^ V_SEID_LOCAL_BITS - 1.
Definition V_TEID_RSV_SHIFT : Z := 31.
Definition V_TEID_PART_SHIFT : Z := 21.
Definition V_TEID_PART_MASK : Z := 1023.
Definition V_TEID_LOCAL_BITS : Z := 21.
Definition V_TEID_LOCAL_MASK : Z := 2 ^ V_TEID_LOCAL_BITS - 1.

(** ** Operations (v_seid.c) *)

Definition v_seid_encode (part_id local : Z) : option Z :=
  if V_NUM_PARTS <=? part_id then None
  else if V_SEID_LOCAL_MASK <? local then None
  else Some (Z.lor (Z.lor (u64 (Z.shiftl V_SEID_FMT_VER V_SEID_FMT_SHIFT))
                          (u64 (Z.shiftl part_id V_SEID_PART_SHIFT)))
                   (Z.land local V_SEID_LOCAL_MASK)).

Definition v_seid_part (seid : Z) : Z :=
  u16 (Z.land (Z.shiftr seid V_SEID_PART_SHIFT) V_SEID_PART_MASK).

Definition v_seid_local (seid : Z) : Z := Z.land seid V_SEID_LOCAL_MASK.

Definition v_teid_encode (part_id local : Z) : option Z :=
  if V_NUM_PARTS <=? part_id then None
  else if (local =? 0) || (V_TEID_LOCAL_MASK <? local) then None
  else Some (Z.lor (u32 (Z.shiftl part_id V_TEID_PART_SHIFT)) (Z.land local V_TEID_LOCAL_MASK)).

Definition v_teid_part (teid : Z) : Z :=
  u16 (Z.land (Z.shiftr teid V_TEID_PART_SHIFT) V_TEID_PART_MASK).

Definition v_teid_local (teid : Z) : Z := Z.land teid V_TEID_LOCAL_MASK.

Definition v_seid_validate (seid : Z) : option Z :=
  if negb (Z.shiftr seid V_SEID_FMT_SHIFT =? V_SEID_FMT_VER) then None
  else if negb (Z.land (Z.shiftr seid V_SEID_RSV_SHIFT) V_SEID_RSV_MASK =? 0) then None
  else let part := v_seid_part seid in
       if V_NUM_PARTS <=? part then None else Some part.

Definition v_teid_validate (teid : Z) : option Z :=
  if teid =? 0 then None
  else if negb (Z.shiftr teid V_TEID_RSV_SHIFT =? 0) then None
  else let part := v_teid_part teid in
       if V_NUM_PARTS <=? part then None else Some part.

(** ** Arithmetic reading of the bit operations *)

Lemma v_seid_part_div s : 0 <= s → v_seid_part s = (s / 2 ^ 46) mod 2 ^ 10.
Proof.
  intros Hs. unfold v_seid_part, V_SEID_PART_SHIFT.
  change V_SEID_PART_MASK with (2 ^ 10 - 1).
  rewrite land_ones_mod, Z.shiftr_div_pow2 by lia.
  apply u16_small. pose proof (Z.mod_pos_bound (s / 2 ^ 46) (2 ^ 10) eq_refl). u_lia.
Qed.

Lemma v_seid_local_mod s : v_seid_local s = s mod 2 ^ 46.
Proof. unfold v_seid_local, V_SEID_LOCAL_MASK, V_SEID_LOCAL_BITS. by apply land_ones_mod. Qed.

Lemma v_teid_part_div t : 0 <= t → v_teid_part t = (t / 2 ^ 21) mod 2 ^ 10.
Proof.
  intros Hs. unfold v_teid_part, V_TEID_PART_SHIFT.
  change V_TEID_PART_MASK with (2 ^ 10 - 1).
  rewrite land_ones_mod, Z.shiftr_div_pow2 by lia.
  apply u16_small. pose proof (Z.mod_pos_bound (t / 2 ^ 21) (2 ^ 10) eq_refl). u_lia.
Qed.

Lemma v_teid_local_mod t : v_teid_local t = t mod 2 ^ 21.
Proof. unfold v_teid_local, V_TEID_LOCAL_MASK, V_TEID_LOCAL_BITS. by apply land_ones_mod. Qed.

(** The packed value of an accepted pair, with no overlap between fields. *)
Lemma v_seid_encode_spec p l :
  0 <= p → 0 <= l →
  v_seid_encode p l =
    if (p <? 1024) && (l <? 2 ^ 46) then Some (2 ^ 60 + p * 2 ^ 46 + l) else None.
Proof.
  intros Hp Hl. unfold v_seid_encode, V_NUM_PARTS, V_SEID_LOCAL_MASK, V_SEID_LOCAL_BITS.
  destruct (Z.leb_spec 1024 p); [by rewrite (proj2 (Z.ltb_ge p 1024)) by lia|].
  rewrite (proj2 (Z.ltb_lt p 1024)) by lia. cbn [andb].
  destruct (Z.ltb_spec (2 ^ 46 - 1) l); [by rewrite (proj2 (Z.ltb_ge l _)) by lia|].
  rewrite (proj2 (Z.ltb_lt l _)) by lia. f_equal.
  rewrite land_ones_mod, (Z.mod_small l) by lia.
  unfold V_SEID_FMT_VER, V_SEID_FMT_SHIFT, V_SEID_PART_SHIFT.
  rewrite (u64_small (Z.shiftl p 46)) by (rewrite Z.shiftl_mul_pow2 by lia; u_lia).
  change (u64 (Z.shiftl 1 60)) with (Z.shiftl (Z.shiftl 1 14) 46).
  rewrite <- Z.shiftl_lor, lor_shiftl_add by lia.
  rewrite lor_shiftl_add by u_lia. u_lia.
Qed.

Lemma v_teid_encode_spec p l :
  0 <= p → 0 <= l →
  v_teid_encode p l =
    if (p <? 1024) && (0 <? l) && (l <? 2 ^ 21) then Some (p * 2 ^ 21 + l) else None.
Proof.
  intros Hp Hl. unfold v_teid_encode, V_NUM_PARTS, V_TEID_LOCAL_MASK, V_TEID_LOCAL_BITS.
  destruct (Z.leb_spec 1024 p); [by rewrite (proj2 (Z.ltb_ge p 1024)) by lia|].
  rewrite (proj2 (Z.ltb_lt p 1024)) by lia. cbn [andb].
  destruct (Z.eqb_spec l 0) as [->|]; [done|].
  rewrite (proj2 (Z.ltb_lt 0 l)) by lia. cbn [andb orb].
  destruct (Z.ltb_spec (2 ^ 21 - 1) l); [by rewrite (proj2 (Z.ltb_ge l _)) by lia|].
  rewrite (proj2 (Z.ltb_lt l _)) by lia. f_equal.
  rewrite land_ones_mod, (Z.mod_small l) by lia. unfold V_TEID_PART_SHIFT.
  rewrite (u32_small (Z.shiftl p 21)) by (rewrite Z.shiftl_mul_pow2 by lia; u_lia).
  by rewrite lor_shiftl_add by u_lia.
Qed.

(** Format nibble 1 and a zero reserved nibble are one range of values. *)
Lemma seid_nibbles s :
  is_u64 s → (s / 2 ^ 60 = 1 ∧ (s / 2 ^ 56) mod 16 = 0) ↔ 2 ^ 60 <= s < 2 ^ 60 + 2 ^ 56.
Proof.
  intros Hs. replace (s / 2 ^ 60) with (s / 2 ^ 56 / 16) by (by rewrite Z.div_div by lia).
  set (q := s / 2 ^ 56).
  assert (q = 16 ↔ 2 ^ 60 <= s < 2 ^ 60 + 2 ^ 56) as <- by (subst q; split; u_lia). u_lia.
Qed.

(** The three checks of the validator as ranges of the 64-bit value. *)
Lemma v_seid_validate_spec s :
  is_u64 s →
  v_seid_validate s =
    if (2 ^ 60 <=? s) && (s <? 2 ^ 60 + 2 ^ 56) then Some (v_seid_part s) else None.
Proof.
  intros Hs. unfold v_seid_validate, V_SEID_FMT_SHIFT, V_SEID_RSV_SHIFT, V_SEID_FMT_VER, V_NUM_PARTS.
  change V_SEID_RSV_MASK with (2 ^ 4 - 1).
  rewrite land_ones_mod, !Z.shiftr_div_pow2 by lia.
  assert (v_seid_part s < 1024) as Hp.
  { rewrite v_seid_part_div by u_lia. by apply Z.mod_pos_bound. }
  rewrite (proj2 (Z.leb_gt _ _) Hp). change (2 ^ 4) with 16.
  pose proof (seid_nibbles s Hs) as Hn.
  destruct (Z.eqb_spec (s / 2 ^ 60) 1) as [H1|H1]; cbn [negb].
  - destruct (Z.eqb_spec (s / 2 ^ 56 mod 16) 0) as [H2|H2]; cbn [negb].
    + destruct (_ && _) eqn:E; [done|]. exfalso. assert (2 ^ 60 <= s < 2 ^ 60 + 2 ^ 56) by tauto. lia.
    + destruct (_ && _) eqn:E; [|done]. exfalso. apply H2, Hn. lia.
  - destruct (_ && _) eqn:E; [|done]. exfalso. apply H1, Hn. lia.
Qed.

Lemma v_teid_validate_spec t :
  is_u32 t → v_teid_validate t = if (0 <? t) && (t <? 2 ^ 31) then Some (v_teid_part t) else None.
Proof.
  intros Ht. unfold v_teid_validate, V_TEID_RSV_SHIFT, V_NUM_PARTS.
  rewrite Z.shiftr_div_pow2 by lia.
  assert (v_teid_part t < 1024) as Hp.
  { rewrite v_teid_part_div by u_lia. by apply Z.mod_pos_bound. }
  rewrite (proj2 (Z.leb_gt _ _) Hp).
  destruct (Z.eqb_spec t 0) as [->|H0]; [done|].
  destruct (Z.eqb_spec (t / 2 ^ 31) 0) as [H1|H1]; cbn [negb].
  - destruct (_ && _) eqn:E; [done|]. u_lia.
  - destruct (_ && _) eqn:E; [|done]. u_lia.
Qed.

(** An encoded identifier, its range and its fields. *)
Lemma v_seid_encode_Some p l s :
  0 <= p → 0 <= l → v_seid_encode p l = Some s →
  p < 1024 ∧ l < 2 ^ 46 ∧ s = 2 ^ 60 + p * 2 ^ 46 + l ∧ is_u64 s ∧ s ≠ 0.
Proof.
  intros Hp Hl. rewrite v_seid_encode_spec by done.
  destruct (_ && _) eqn:E; intros [= <-]. u_lia.
Qed.

Lemma v_teid_encode_Some p l t :
  0 <= p → 0 <= l → v_teid_encode p l = Some t →
  p < 1024 ∧ 0 < l < 2 ^ 21 ∧ t = p * 2 ^ 21 + l ∧ is_u32 t ∧ t ≠ 0.
Proof.
  intros Hp Hl. rewrite v_teid_encode_spec by done.
  destruct (_ && _) eqn:E; intros [= <-]. u_lia.
Qed.

Lemma v_seid_encode_fields p l s :
  0 <= p → 0 <= l → v_seid_encode p l = Some s → v_seid_part s = p ∧ v_seid_local s = l.
Proof.
  intros Hp Hl (?&?&->&?&?)%v_seid_encode_Some; [|done..].
  rewrite v_seid_part_div, v_seid_local_mod by u_lia. u_lia.
Qed.

Lemma v_teid_encode_fields p l t :
  0 <= p → 0 <= l → v_teid_encode p l = Some t → v_teid_part t = p ∧ v_teid_local t = l.
Proof.
  intros Hp Hl (?&?&->&?&?)%v_teid_encode_Some; [|done..].
  rewrite v_teid_part_div, v_teid_local_mod by u_lia. u_lia.
Qed.

Lemma v_seid_encode_inj p1 l1 p2 l2 s :
  0 <= p1 → 0 <= l1 → 0 <= p2 → 0 <= l2 →
  v_seid_encode p1 l1 = Some s → v_seid_encode p2 l2 = Some s → p1 = p2 ∧ l1 = l2.
Proof.
  intros ???? [<- <-]%v_seid_encode_fields [<- <-]%v_seid_encode_fields; done.
Qed.

Lemma v_teid_encode_inj p1 l1 p2 l2 s :
  0 <= p1 → 0 <= l1 → 0 <= p2 → 0 <= l2 →
  v_teid_encode p1 l1 = Some s → v_teid_encode p2 l2 = Some s → p1 = p2 ∧ l1 = l2.
Proof.
  intros ???? [<- <-]%v_teid_encode_fields [<- <-]%v_teid_encode_fields; done.
Qed.

(** ** Properties *)

(** C27: pack/unpack/validate round trip for SEIDs.  Every identifier the
    encoder mints is a nonzero 64-bit value that unpacks to the same
    partition and local index and passes validation with that partition; and
    conversely every 64-bit value that passes validation is one the encoder
    mints from its own fields.  So a validated SEID always carries a
    partition below V_NUM_PARTS and no foreign bit pattern is accepted. *)
Theorem seid_roundtrip (s : Z) (Hs : is_u64 s) (p : Z) :
  v_seid_validate s = Some p ↔
  0 <= p < V_NUM_PARTS ∧ v_seid_part s = p ∧ s ≠ 0 ∧ v_seid_encode p (v_seid_local s) = Some s.
Proof.
  rewrite v_seid_validate_spec by done. unfold V_NUM_PARTS. rewrite v_seid_local_mod. split.
  - destruct (_ && _) eqn:E; intros [= <-]. rewrite v_seid_part_div by u_lia.
    rewrite v_seid_encode_spec by u_lia.
    rewrite (proj2 (Z.ltb_lt _ 1024)), (proj2 (Z.ltb_lt _ (2 ^ 46))) by u_lia. cbn [andb].
    split; [u_lia|]. split; [done|]. split; [u_lia|]. f_equal. u_lia.
  - intros (Hp & Hpart & _ & Henc).
    apply v_seid_encode_Some in Henc as (_&?&Hv&_); [|u_lia..].
    destruct (_ && _) eqn:E; [by rewrite Hpart|]. u_lia.
Qed.

Definition seid_ex : Z := 2 ^ 60 + 31 * 2 ^ 46 + 200.

Lemma seid_roundtrip_witness :
  is_u64 seid_ex ∧ v_seid_validate seid_ex = Some 31 ∧
  (0 <= 31 < V_NUM_PARTS ∧ v_seid_part seid_ex = 31 ∧ seid_ex ≠ 0 ∧
   v_seid_encode 31 (v_seid_local seid_ex) = Some seid_ex).
Proof.
  assert (is_u64 seid_ex) as H by (unfold is_u64, seid_ex; lia).
  split; [exact H|]. split; [by vm_compute|].
  apply (seid_roundtrip seid_ex H 31). by vm_compute.
Defined.

(** The attack value of free5gc #730/#731 (all ones), a header SEID of 0
    and every value with a wrong format nibble or a nonzero reserved nibble
    are rejected before a partition is produced. *)
Theorem seid_validate_rejects (s : Z) (Hs : is_u64 s)
    (Hbad : s = 2 ^ 64 - 1 ∨ s = 0 ∨ s / 2 ^ 60 ≠ V_SEID_FMT_VER ∨ (s / 2 ^ 56) mod 16 ≠ 0) :
  v_seid_validate s = None.
Proof.
  rewrite v_seid_validate_spec by done. unfold V_SEID_FMT_VER in Hbad.
  pose proof (seid_nibbles s Hs) as Hn.
  destruct (_ && _) eqn:E; [|done]. exfalso.
  destruct Hbad as [->|[->|Hbad]]; [done..|].
  assert (2 ^ 60 <= s < 2 ^ 60 + 2 ^ 56) by lia. tauto.
Qed.

Lemma seid_validate_rejects_witness :
  is_u64 (2 ^ 64 - 1) ∧ v_seid_validate (2 ^ 64 - 1) = None ∧ v_seid_validate 0 = None.
Proof.
  split; [unfold is_u64; lia|]. split.
  - apply seid_validate_rejects; [unfold is_u64; lia|by left].
  - apply seid_validate_rejects; [unfold is_u64; lia|by right; left].
Defined.

(** Minted TEIDs: nonzero, below 2^31 (the reserved bit is clear), they
    unpack to their own partition and local index, pass validation, and two
    different (partition, local) pairs never share a TEID.  The encoder
    refuses local index 0 and every index of more than 21 bits. *)
Theorem teid_encode_correct (p l : Z) (Hp : 0 <= p) (Hl : 0 <= l) :
  (v_teid_encode p l = None ↔ V_NUM_PARTS <= p ∨ l = 0 ∨ V_TEID_LOCAL_MASK < l) ∧
  ∀ t, v_teid_encode p l = Some t →
    0 < t < 2 ^ 31 ∧ v_teid_validate t = Some p ∧ v_teid_local t = l ∧
    ∀ p' l', 0 <= p' → 0 <= l' → v_teid_encode p' l' = Some t → p' = p ∧ l' = l.
Proof.
  split.
  - rewrite v_teid_encode_spec by done. unfold V_NUM_PARTS, V_TEID_LOCAL_MASK, V_TEID_LOCAL_BITS.
    destruct (_ && _) eqn:E; split; try done; u_lia.
  - intros t Ht. pose proof (v_teid_encode_Some _ _ _ Hp Hl Ht) as (?&?&Hv&?&?).
    pose proof (v_teid_encode_fields _ _ _ Hp Hl Ht) as [Hpart ?].
    rewrite v_teid_validate_spec, Hpart by done. split; [u_lia|]. split.
    { destruct (_ && _) eqn:E; [done|u_lia]. }
    split; [done|]. intros p' l' Hp' Hl' Ht'. by apply (v_teid_encode_inj p' l' p l t).
Qed.

Lemma teid_encode_correct_witness :
  v_teid_encode 31 0 = None ∧
  (0 < 31 * 2 ^ 21 + 77 < 2 ^ 31 ∧ v_teid_validate (31 * 2 ^ 21 + 77) = Some 31).
Proof.
  split.
  - apply (teid_encode_correct 31 0); [lia|lia|]. right; by left.
  - destruct (teid_encode_correct 31 77 ltac:(lia) ltac:(lia)) as [_ H].
    destruct (H (31 * 2 ^ 21 + 77)) as (?&?&_); [by vm_compute|]. done.
Defined.

(** The TEID validator is wider than the encoder.  It checks the whole
    TEID against 0 only, so a TEID of a partition p > 0 whose local index is
    the reserved 0 is accepted, although no allocation ever mints it. *)
Theorem teid_validate_accepts_local_zero (p : Z) (Hp : 0 < p < V_NUM_PARTS) :
  let t := p * 2 ^ 21 in
  v_teid_validate t = Some p ∧ v_teid_local t = 0 ∧
  ∀ p' l', 0 <= p' → 0 <= l' → v_teid_encode p' l' ≠ Some t.
Proof.
  intros t. unfold V_NUM_PARTS in Hp.
  rewrite v_teid_validate_spec, v_teid_part_div, v_teid_local_mod by (unfold t; u_lia).
  split; [|split].
  - destruct (_ && _) eqn:E; unfold t in *; [f_equal|]; u_lia.
  - unfold t. u_lia.
  - intros p' l' Hp' Hl' (?&?&Ht&_)%v_teid_encode_Some; [|done..]. unfold t in Ht. u_lia.
Qed.

Lemma teid_validate_accepts_local_zero_witness :
  0 < 1 < V_NUM_PARTS ∧ v_teid_validate (1 * 2 ^ 21) = Some 1.
Proof.
  assert (0 < 1 < V_NUM_PARTS) as H by (unfold V_NUM_PARTS; lia).
  split; [exact H|]. exact (proj1 (teid_validate_accepts_local_zero 1 H)).
Defined.
