(* ===== verification/Log.v ===== *)
(** Component v_log (src/v_log): the minimum level and the lines written to
    stderr.  The expansion of the caller's format is an argument; so is the
    real-time clock. *)
From S2P Require Import Prelude.

Definition V_LOG_DEV : Z := 0.
Definition V_LOG_DEBUG : Z := 1.
Definition V_LOG_INFO : Z := 2.
Definition V_LOG_WARNING : Z := 3.
Definition V_LOG_ERR : Z := 4.
Definition V_LOG_CRIT : Z := 5.

(** level_str *)
Definition level_str (level : Z) : bytes :=
  if level =? V_LOG_DEV then $"DEV"
  else if level =? V_LOG_DEBUG then $"DEBUG"
  else if level =? V_LOG_INFO then $"INFO"
  else if level =? V_LOG_WARNING then $"WARNING"
  else if level =? V_LOG_ERR then $"ERR"
  else if level =? V_LOG_CRIT then $"CRIT"
  else $"?".

(** g_min_level and what has been written to stderr *)
Record log_state := LogState { g_min_level : Z; stderr : bytes }.

(** v_log_set_min_level *)
Definition v_log_set_min_level (level : Z) (s : log_state) : log_state := LogState level (stderr s).

(** "%-7s", "%-5s" and "%03ld" *)
Definition pad_right (n : nat) (s : bytes) : bytes := s ++ replicate (n - length s) " "%char.
Definition zero_pad (n : nat) (z : Z) : bytes := replicate (n - length (dec z)) "0"%char ++ dec z.

(** One call of the macro V_LOG, and the clock it reads. *)
Record log_call := LogCall { lg_level : Z; lg_module : bytes; lg_file : bytes; lg_line : Z; lg_text : bytes; lg_sec : Z; lg_nsec : Z }.

Definition log_line (c : log_call) : bytes :=
  $"[" ++ dec (lg_sec c) ++ $"." ++ zero_pad 3 (lg_nsec c / 1000000) ++ $"] " ++ pad_right 7 (level_str (lg_level c)) ++ $" " ++
  pad_right 5 (lg_module c) ++ $" " ++ lg_file c ++ $":" ++ dec (lg_line c) ++ $": " ++ lg_text c ++ [ascii_of_N 10].

(** v_log_write *)
Definition v_log_write (c : log_call) (s : log_state) : log_state :=
  if lg_level c <? g_min_level s then s else LogState (g_min_level s) (stderr s ++ log_line c).

Definition shown (min : Z) (c : log_call) : Prop := min <= lg_level c.
#[export] Instance shown_dec min c : Decision (shown min c) := decide (min <= lg_level c).

(** The output is the concatenation of the lines of the calls at or above
    the minimum level, in the order of the calls. *)
Lemma log_filters cs : ∀ s,
  foldl (λ s c, v_log_write c s) s cs =
  LogState (g_min_level s) (stderr s ++ (filter (shown (g_min_level s)) cs ≫= log_line)).
Proof.
  induction cs as [|c cs IH]; intros s; cbn [foldl].
  - cbn. rewrite app_nil_r. by destruct s.
  - rewrite IH. unfold v_log_write. destruct (Z.ltb_spec (lg_level c) (g_min_level s)).
    + rewrite filter_cons_False by (unfold shown; lia). done.
    + rewrite filter_cons_True by (unfold shown; lia). cbn. by rewrite <- app_assoc.
Qed.

(** A line starts with its clock, zero-padded, and its level in seven columns. *)
Example log_line_example :
  log_line (LogCall V_LOG_INFO $"PFCP" $"v_flow.c" 120 $"seid=1" 17 5000000) =
  $"[17.005] INFO    PFCP  v_flow.c:120: seid=1" ++ [ascii_of_N 10].
Proof. by vm_compute. Qed.
