(* ===== verification/Dpdk.v ===== *)
(** The DPDK primitives the modules call (rte_ring, rte_mempool,
    rte_zmalloc).  They are
    third-party code: the operations are parameters, their documented
    behaviour is stated through the ghost views [ring_items], [ring_cap] and
    [mp_free].  A [void *] is a Z.  [ListDpdk] is a concrete instance, used by
    the examples and witnesses only. *)
From S2P Require Import Prelude.

Class Dpdk := {
  rte_ring : Type;
  rte_ring_create : Z → option rte_ring;          (* NULL = None *)
  rte_ring_enqueue : rte_ring → Z → option rte_ring; (* 0 = Some, -ENOBUFS = None *)
  rte_ring_dequeue : rte_ring → option (Z * rte_ring); (* 0 = Some, -ENOENT = None *)
  rte_ring_count : rte_ring → Z;
  ring_items : rte_ring → list Z;
  ring_cap : rte_ring → Z;

  rte_mempool : Type;
  rte_mempool_create : Z → option rte_mempool;
  rte_mempool_get : rte_mempool → option (Z * rte_mempool);
  rte_mempool_put : rte_mempool → Z → rte_mempool;
  rte_mempool_avail_count : rte_mempool → Z;
  mp_free : rte_mempool → list Z;

  rte_zmalloc : Z → bool;                         (* of a size; NULL = false *)

  (* a ring of a power-of-two size n holds n - 1 objects, first in first out *)
  ring_create_law n r : rte_ring_create n = Some r → ring_items r = [] ∧ ring_cap r = n - 1;
  ring_enqueue_ok r x :
    Z.of_nat (length (ring_items r)) < ring_cap r →
    ∃ r', rte_ring_enqueue r x = Some r' ∧ ring_items r' = ring_items r ++ [x] ∧ ring_cap r' = ring_cap r;
  ring_enqueue_full r x :
    ring_cap r <= Z.of_nat (length (ring_items r)) → rte_ring_enqueue r x = None;
  ring_dequeue_nil r : ring_items r = [] → rte_ring_dequeue r = None;
  ring_dequeue_cons r x l :
    ring_items r = x :: l →
    ∃ r', rte_ring_dequeue r = Some (x, r') ∧ ring_items r' = l ∧ ring_cap r' = ring_cap r;
  ring_count_law r : rte_ring_count r = Z.of_nat (length (ring_items r));

  (* a pool hands out free objects only, in an unspecified order *)
  mp_create_law n mp :
    rte_mempool_create n = Some mp → NoDup (mp_free mp) ∧ Z.of_nat (length (mp_free mp)) = n;
  mp_get_law mp x mp' : rte_mempool_get mp = Some (x, mp') → mp_free mp ≡ₚ x :: mp_free mp';
  mp_get_none mp : rte_mempool_get mp = None ↔ mp_free mp = [];
  mp_put_law mp x : mp_free (rte_mempool_put mp x) ≡ₚ x :: mp_free mp;
  mp_avail_law mp : rte_mempool_avail_count mp = Z.of_nat (length (mp_free mp));
}.

(** ** A concrete instance: rings and pools as lists *)

Module ListDpdk.

Definition ring : Type := list Z * Z.

Definition enqueue (r : ring) (x : Z) : option ring :=
  if Z.of_nat (length r.1) <? r.2 then Some (r.1 ++ [x], r.2) else None.

Definition dequeue (r : ring) : option (Z * ring) :=
  match r.1 with [] => None | x :: l => Some (x, (l, r.2)) end.

Definition get (mp : list Z) : option (Z * list Z) :=
  match mp with [] => None | x :: l => Some (x, l) end.

(** [n] consecutive object addresses from [m] on. *)
Fixpoint objects (m : Z) (n : nat) : list Z :=
  match n with O => [] | S n' => m :: objects (m + 1) n' end.

Definition create (n : Z) : option (list Z) :=
  if 0 <=? n then Some (objects 1 (Z.to_nat n)) else None.

Lemma objects_length n : ∀ m, length (objects m n) = n.
Proof. induction n as [|n IH]; intros m; cbn; [done|]. by rewrite IH. Qed.

Lemma objects_ge n : ∀ m x, x ∈ objects m n → m <= x.
Proof.
  induction n as [|n IH]; intros m x; cbn; [by intros ?%not_elem_of_nil|].
  rewrite elem_of_cons. intros [->|Hx%IH]; lia.
Qed.

Lemma objects_nodup n : ∀ m, NoDup (objects m n).
Proof.
  induction n as [|n IH]; intros m; cbn; constructor; [|done].
  intros Hx%objects_ge. lia.
Qed.

#[export, refine] Instance list_dpdk : Dpdk := {
  rte_ring := ring;
  rte_ring_create n := Some ([], n - 1);
  rte_ring_enqueue := enqueue;
  rte_ring_dequeue := dequeue;
  rte_ring_count r := Z.of_nat (length r.1);
  ring_items := fst;
  ring_cap := snd;
  rte_mempool := list Z;
  rte_mempool_create := create;
  rte_mempool_get := get;
  rte_mempool_put mp x := x :: mp;
  rte_mempool_avail_count mp := Z.of_nat (length mp);
  mp_free mp := mp;
  rte_zmalloc _ := true;
}.
Proof.
  - by intros n r [= <-].
  - intros [l c] x Hc; unfold enqueue; cbn in *.
    rewrite (proj2 (Z.ltb_lt _ _)) by lia. by eexists.
  - intros [l c] x Hc; unfold enqueue; cbn in *. by rewrite (proj2 (Z.ltb_ge _ _)) by lia.
  - intros [l c]; cbn. by intros ->.
  - intros [l c] x l'; cbn. intros ->. by eexists.
  - done.
  - intros n mp; unfold create. destruct (Z.leb_spec 0 n); intros [= <-].
    split; [apply objects_nodup|rewrite objects_length; lia].
  - intros [|y l] x mp' [= -> ->]. done.
  - intros [|y l]; cbn; done.
  - done.
  - done.
Defined.

End ListDpdk.

Section laws.
Context {DP : Dpdk}.

Lemma ring_enqueue_inv r x r' :
  rte_ring_enqueue r x = Some r' →
  ring_items r' = ring_items r ++ [x] ∧ ring_cap r' = ring_cap r ∧
  Z.of_nat (length (ring_items r)) < ring_cap r.
Proof.
  intros H. destruct (decide (Z.of_nat (length (ring_items r)) < ring_cap r)) as [Hc|Hc].
  - destruct (ring_enqueue_ok r x Hc) as (r2&?&?&?). simplify_eq. done.
  - rewrite ring_enqueue_full in H by lia. done.
Qed.

Lemma ring_dequeue_inv r x r' :
  rte_ring_dequeue r = Some (x, r') → ring_items r = x :: ring_items r' ∧ ring_cap r' = ring_cap r.
Proof.
  intros H. destruct (ring_items r) as [|y l] eqn:E.
  - by rewrite ring_dequeue_nil in H.
  - destruct (ring_dequeue_cons r y l E) as (r2&?&<-&?). simplify_eq. done.
Qed.

Lemma ring_dequeue_None r : rte_ring_dequeue r = None → ring_items r = [].
Proof.
  intros H. destruct (ring_items r) as [|y l] eqn:E; [done|].
  destruct (ring_dequeue_cons r y l E) as (r2&?&?&?). congruence.
Qed.
End laws.
