(* ===== verification/Heap.v ===== *)
(** Objects drawn from an rte_mempool: the pool of free objects together with
    the contents of the live ones.  v_port_mem (session contexts), v_port_txn
    (transactions), v_port_pfcp (decoded messages) and v_dispatch (datagram
    buffers) are heaps of this shape. *)
From S2P Require Import Prelude Dpdk.

Record heap {DP : Dpdk} (A : Type) := Heap { hp_pool : rte_mempool; hp_mem : gmap Z A }.
Arguments Heap {_ _} _ _.
Arguments hp_pool {_ _} _.
Arguments hp_mem {_ _} _.

Section heap.
Context {DP : Dpdk} {A : Type}.
Implicit Types (h : heap A) (p : Z) (a : A).

Definition heap_get h p : option A := hp_mem h !! p.

(** rte_mempool_get followed by the initialisation of the object. *)
Definition heap_alloc a h : option (Z * heap A) :=
  match rte_mempool_get (hp_pool h) with
  | Some (p, pool) => Some (p, Heap pool (<[p := a]> (hp_mem h)))
  | None => None
  end.

(** rte_mempool_put of a live object. *)
Definition heap_free p h : heap A := Heap (rte_mempool_put (hp_pool h) p) (delete p (hp_mem h)).

(** A store into a live object. *)
Definition heap_set p a h : heap A := Heap (hp_pool h) (<[p := a]> (hp_mem h)).

(** Free and live objects are disjoint and no object is free twice. *)
Definition heap_wf h : Prop :=
  NoDup (mp_free (hp_pool h)) ∧ ∀ p, p ∈ mp_free (hp_pool h) → hp_mem h !! p = None.

(** Objects in use: the leak counter of the test suite. *)
Definition heap_live h : gset Z := dom (hp_mem h).

(** Every object is free or live: the constant a pool conserves. *)
Definition heap_total h : Z := Z.of_nat (length (mp_free (hp_pool h))) + Z.of_nat (size (hp_mem h)).

Lemma heap_alloc_Some a h p h' :
  heap_wf h → heap_alloc a h = Some (p, h') →
  hp_mem h !! p = None ∧ hp_mem h' = <[p := a]> (hp_mem h) ∧ heap_wf h' ∧ heap_total h' = heap_total h.
Proof.
  intros [Hnd Hfree] Ha. unfold heap_alloc in Ha.
  destruct (rte_mempool_get (hp_pool h)) as [[q pool]|] eqn:E; [|done]. injection Ha as <- <-.
  pose proof (mp_get_law _ _ _ E) as Hp.
  assert (hp_mem h !! q = None) as Hq by (apply Hfree; rewrite Hp; left).
  rewrite Hp in Hnd. apply NoDup_cons in Hnd as [Hnin Hnd].
  split; [done|]. split; [done|]. split.
  - split; [done|]. cbn. intros x Hx. rewrite lookup_insert_ne by (intros ->; done).
    apply Hfree. rewrite Hp. by right.
  - unfold heap_total; cbn. rewrite map_size_insert_None by done. rewrite Hp. cbn. lia.
Qed.

Lemma heap_alloc_None a h : heap_alloc a h = None ↔ mp_free (hp_pool h) = [].
Proof.
  unfold heap_alloc. rewrite <- mp_get_none. destruct (rte_mempool_get _) as [[??]|]; done.
Qed.

Lemma heap_free_spec p h a :
  heap_wf h → hp_mem h !! p = Some a →
  hp_mem (heap_free p h) = delete p (hp_mem h) ∧ heap_wf (heap_free p h) ∧
  heap_total (heap_free p h) = heap_total h.
Proof.
  intros [Hnd Hfree] Hp. split; [done|].
  pose proof (mp_put_law (hp_pool h) p) as Hput. split.
  - split; cbn.
    + rewrite Hput. apply NoDup_cons. split; [|done]. intros Hin.
      by rewrite (Hfree p Hin) in Hp.
    + intros x. rewrite Hput, elem_of_cons. intros [->|Hx]; [apply lookup_delete_eq|].
      rewrite lookup_delete_None. right. by apply Hfree.
  - unfold heap_total; cbn. rewrite Hput. cbn [length].
    rewrite map_size_delete_Some by (by eexists).
    assert (size (hp_mem h) ≠ 0%nat); [|lia].
    intros H0%map_size_empty_inv. by rewrite H0, lookup_empty in Hp.
Qed.

Lemma heap_set_spec p h a b :
  heap_wf h → hp_mem h !! p = Some b →
  heap_wf (heap_set p a h) ∧ heap_total (heap_set p a h) = heap_total h.
Proof.
  intros [Hnd Hfree] Hp. split.
  - split; [done|]. cbn. intros x Hx. rewrite lookup_insert_ne; [by apply Hfree|].
    intros <-. by rewrite (Hfree _ Hx) in Hp.
  - unfold heap_total; cbn. by rewrite map_size_insert_Some by (by eexists).
Qed.
End heap.
