(* ===== verification/Redis.v ===== *)
(** The database port: replies (include/v_port_db.h), the Redis server and its
    embedded Lua engine.  The server and the engine are external services:
    [exec] runs one command given as its argument vector, [rview] is a ghost
    view of the key space, and the laws state the documented behaviour of the
    commands the modules and scripts issue.  [MapRedis] is a concrete instance
    used by the examples and witnesses only. *)
From S2P Require Import Prelude.

(** ** Replies: v_db_reply_t *)

Inductive v_db_reply :=
  | V_DB_REPLY_NIL
  | V_DB_REPLY_STATUS (str : bytes)
  | V_DB_REPLY_INTEGER (integer : Z)
  | V_DB_REPLY_STRING (str : bytes)
  | V_DB_REPLY_ARRAY (element : list v_db_reply)
  | V_DB_REPLY_ERROR (str : bytes).

(** The [str]/[len] members, empty for the types that leave them zeroed. *)
Definition reply_str (r : v_db_reply) : bytes :=
  match r with
  | V_DB_REPLY_STATUS s | V_DB_REPLY_STRING s | V_DB_REPLY_ERROR s => s
  | _ => []
  end.

Definition reply_is_nil (r : v_db_reply) : bool :=
  match r with V_DB_REPLY_NIL => true | _ => false end.

(** ** The key space of the server *)

Inductive rvalue :=
  | VHash (h : gmap bytes bytes)
  | VStr (s : bytes)
  | VList (l : list bytes).

(** A key maps to its value and its time to live, if any. *)
Abbreviation rkeys := (gmap bytes (rvalue * option Z)).

Definition bulk (o : option bytes) : v_db_reply :=
  match o with Some s => V_DB_REPLY_STRING s | None => V_DB_REPLY_NIL end.

Definition as_hash (o : option (rvalue * option Z)) : option (gmap bytes bytes * option Z) :=
  match o with
  | None => Some (∅, None)
  | Some (VHash h, ttl) => Some (h, ttl)
  | _ => None
  end.

Definition as_list (o : option (rvalue * option Z)) : option (list bytes * option Z) :=
  match o with
  | None => Some ([], None)
  | Some (VList l, ttl) => Some (l, ttl)
  | _ => None
  end.

(** A list key exists exactly when the list is nonempty. *)
Definition put_list (k : bytes) (l : list bytes) (ttl : option Z) (m : rkeys) : rkeys :=
  match l with [] => delete k m | _ => <[k := (VList l, ttl)]> m end.

(** The commands the modules and scripts issue, all on a single key. *)
Definition one_key_commands : list bytes :=
  [$"HGET"; $"HMGET"; $"HSET"; $"EXPIRE"; $"PERSIST"; $"DEL"; $"GET"; $"SETEX"; $"SETNX"; $"SET";
   $"INCRBY"; $"LLEN"; $"LPOP"; $"RPUSH"].

Class Redis := {
  rstore : Type;
  exec : list bytes → rstore → v_db_reply * rstore;
  rview : rstore → rkeys;

  hget_law s k f h ttl :
    as_hash (rview s !! k) = Some (h, ttl) →
    exec [$"HGET"; k; f] s = (bulk (h !! f), s);
  hmget_law s k f1 f2 h ttl :
    as_hash (rview s !! k) = Some (h, ttl) →
    exec [$"HMGET"; k; f1; f2] s = (V_DB_REPLY_ARRAY [bulk (h !! f1); bulk (h !! f2)], s);
  hset_law s k f1 v1 f2 v2 h ttl :
    as_hash (rview s !! k) = Some (h, ttl) →
    ∃ n s', exec [$"HSET"; k; f1; v1; f2; v2] s = (V_DB_REPLY_INTEGER n, s') ∧
      rview s' = <[k := (VHash (<[f2 := v2]> (<[f1 := v1]> h)), ttl)]> (rview s);
  hset1_law s k f v h ttl :
    as_hash (rview s !! k) = Some (h, ttl) →
    ∃ n s', exec [$"HSET"; k; f; v] s = (V_DB_REPLY_INTEGER n, s') ∧
      rview s' = <[k := (VHash (<[f := v]> h), ttl)]> (rview s);
  expire_law s k t v ttl :
    rview s !! k = Some (v, ttl) → 0 < t < 2 ^ 31 →
    ∃ s', exec [$"EXPIRE"; k; dec t] s = (V_DB_REPLY_INTEGER 1, s') ∧
      rview s' = <[k := (v, Some t)]> (rview s);
  persist_law s k :
    ∃ s', exec [$"PERSIST"; k] s =
        (V_DB_REPLY_INTEGER (match rview s !! k with Some (_, Some _) => 1 | _ => 0 end), s') ∧
      rview s' = match rview s !! k with
                 | Some (v, _) => <[k := (v, None)]> (rview s)
                 | None => rview s end;
  del_law s k :
    ∃ n s', exec [$"DEL"; k] s = (V_DB_REPLY_INTEGER n, s') ∧ rview s' = delete k (rview s);
  get_law s k :
    (∀ v ttl, rview s !! k = Some (VStr v, ttl) → exec [$"GET"; k] s = (V_DB_REPLY_STRING v, s)) ∧
    (rview s !! k = None → exec [$"GET"; k] s = (V_DB_REPLY_NIL, s));
  setex_law s k t v :
    0 < t < 2 ^ 31 →
    ∃ s', exec [$"SETEX"; k; dec t; v] s = (V_DB_REPLY_STATUS $"OK", s') ∧
      rview s' = <[k := (VStr v, Some t)]> (rview s);
  setnx_law s k v :
    ∃ s', exec [$"SETNX"; k; v] s =
        (V_DB_REPLY_INTEGER (match rview s !! k with None => 1 | Some _ => 0 end), s') ∧
      rview s' = match rview s !! k with None => <[k := (VStr v, None)]> (rview s) | Some _ => rview s end;
  set_law s k v :
    ∃ s', exec [$"SET"; k; v] s = (V_DB_REPLY_STATUS $"OK", s') ∧
      rview s' = <[k := (VStr v, None)]> (rview s);
  set_nx_get_law s k v :
    (∀ old ttl, rview s !! k = Some (VStr old, ttl) →
       exec [$"SET"; k; v; $"NX"; $"GET"] s = (V_DB_REPLY_STRING old, s)) ∧
    (rview s !! k = None →
     ∃ s', exec [$"SET"; k; v; $"NX"; $"GET"] s = (V_DB_REPLY_NIL, s') ∧
       rview s' = <[k := (VStr v, None)]> (rview s));
  incrby_law s k n :
    0 <= n →
    (∀ cur ttl, rview s !! k = Some (VStr (dec cur), ttl) → 0 <= cur → cur + n < 2 ^ 63 →
       ∃ s', exec [$"INCRBY"; k; dec n] s = (V_DB_REPLY_INTEGER (cur + n), s') ∧
         rview s' = <[k := (VStr (dec (cur + n)), ttl)]> (rview s)) ∧
    (rview s !! k = None → n < 2 ^ 63 →
       ∃ s', exec [$"INCRBY"; k; dec n] s = (V_DB_REPLY_INTEGER n, s') ∧
         rview s' = <[k := (VStr (dec n), None)]> (rview s));
  llen_law s k l ttl :
    as_list (rview s !! k) = Some (l, ttl) →
    exec [$"LLEN"; k] s = (V_DB_REPLY_INTEGER (Z.of_nat (length l)), s);
  lpop_law s k l ttl :
    as_list (rview s !! k) = Some (l, ttl) →
    ∃ s', exec [$"LPOP"; k] s = (bulk (head l), s') ∧ rview s' = put_list k (tail l) ttl (rview s);
  rpush_law s k x l ttl :
    as_list (rview s !! k) = Some (l, ttl) →
    ∃ s', exec [$"RPUSH"; k; x] s = (V_DB_REPLY_INTEGER (Z.of_nat (length l) + 1), s') ∧
      rview s' = put_list k (l ++ [x]) ttl (rview s);
  exec_frame s cmd k args k' :
    cmd ∈ one_key_commands → k' ≠ k → rview (exec (cmd :: k :: args) s).2 !! k' = rview s !! k';
}.

(** ** The Lua engine: numbers are doubles, here their integral values *)

Class Lua := {
  lua_tonumber : bytes → option Z;   (* numeric strings coerce to numbers *)
  lua_round : Z → Z;                 (* nearest double of an exact result *)
  lua_num_arg : Z → bytes;           (* a number passed to redis.call *)
  lua_tostring : Z → bytes;          (* tostring(n), format "%.14g" *)
  lua_tonumber_law n : 0 <= n <= 2 ^ 53 → lua_tonumber (dec n) = Some n;
  lua_round_law n : Z.abs n <= 2 ^ 53 → lua_round n = n;
  lua_num_arg_law n : 0 <= n <= 2 ^ 53 → lua_num_arg n = dec n;
  lua_tostring_law n : 0 <= n < 10 ^ 14 → lua_tostring n = dec n;
}.

(** ** A concrete server over gmap *)

Module MapRedis.

Definition wrongtype : v_db_reply := V_DB_REPLY_ERROR $"WRONGTYPE".

Definition run (argv : list bytes) (m : rkeys) : v_db_reply * rkeys :=
  match argv with
  | [cmd; k] =>
      if decide (cmd = $"PERSIST") then
        (V_DB_REPLY_INTEGER (match m !! k with Some (_, Some _) => 1 | _ => 0 end),
         match m !! k with Some (v, _) => <[k := (v, None)]> m | None => m end)
      else if decide (cmd = $"DEL") then
        (V_DB_REPLY_INTEGER (match m !! k with Some _ => 1 | None => 0 end), delete k m)
      else if decide (cmd = $"GET") then
        match m !! k with
        | Some (VStr v, _) => (V_DB_REPLY_STRING v, m)
        | None => (V_DB_REPLY_NIL, m)
        | _ => (wrongtype, m)
        end
      else if decide (cmd = $"LLEN") then
        match as_list (m !! k) with
        | Some (l, _) => (V_DB_REPLY_INTEGER (Z.of_nat (length l)), m)
        | None => (wrongtype, m)
        end
      else if decide (cmd = $"LPOP") then
        match as_list (m !! k) with
        | Some (l, ttl) => (bulk (head l), put_list k (tail l) ttl m)
        | None => (wrongtype, m)
        end
      else (V_DB_REPLY_ERROR $"ERR", m)
  | [cmd; k; a] =>
      if decide (cmd = $"HGET") then
        match as_hash (m !! k) with
        | Some (h, _) => (bulk (h !! a), m)
        | None => (wrongtype, m)
        end
      else if decide (cmd = $"EXPIRE") then
        match m !! k with
        | Some (v, _) => (V_DB_REPLY_INTEGER 1, <[k := (v, Some (strtoull a))]> m)
        | None => (V_DB_REPLY_INTEGER 0, m)
        end
      else if decide (cmd = $"SETNX") then
        (V_DB_REPLY_INTEGER (match m !! k with None => 1 | Some _ => 0 end),
         match m !! k with None => <[k := (VStr a, None)]> m | Some _ => m end)
      else if decide (cmd = $"SET") then (V_DB_REPLY_STATUS $"OK", <[k := (VStr a, None)]> m)
      else if decide (cmd = $"INCRBY") then
        match m !! k with
        | None => (V_DB_REPLY_INTEGER (strtoull a), <[k := (VStr (dec (strtoull a)), None)]> m)
        | Some (VStr v, ttl) =>
            let n := strtoull v + strtoull a in
            (V_DB_REPLY_INTEGER n, <[k := (VStr (dec n), ttl)]> m)
        | _ => (wrongtype, m)
        end
      else if decide (cmd = $"RPUSH") then
        match as_list (m !! k) with
        | Some (l, ttl) => (V_DB_REPLY_INTEGER (Z.of_nat (length l) + 1), put_list k (l ++ [a]) ttl m)
        | None => (wrongtype, m)
        end
      else (V_DB_REPLY_ERROR $"ERR", m)
  | [cmd; k; a; b] =>
      if decide (cmd = $"HMGET") then
        match as_hash (m !! k) with
        | Some (h, _) => (V_DB_REPLY_ARRAY [bulk (h !! a); bulk (h !! b)], m)
        | None => (wrongtype, m)
        end
      else if decide (cmd = $"HSET") then
        match as_hash (m !! k) with
        | Some (h, ttl) => (V_DB_REPLY_INTEGER 0, <[k := (VHash (<[a := b]> h), ttl)]> m)
        | None => (wrongtype, m)
        end
      else if decide (cmd = $"SETEX") then
        (V_DB_REPLY_STATUS $"OK", <[k := (VStr b, Some (strtoull a))]> m)
      else (V_DB_REPLY_ERROR $"ERR", m)
  | [cmd; k; v; nx; get] =>
      match m !! k with
      | Some (VStr old, _) => (V_DB_REPLY_STRING old, m)
      | None => (V_DB_REPLY_NIL, <[k := (VStr v, None)]> m)
      | _ => (wrongtype, m)
      end
  | [cmd; k; f1; v1; f2; v2] =>
      match as_hash (m !! k) with
      | Some (h, ttl) =>
          (V_DB_REPLY_INTEGER 0, <[k := (VHash (<[f2 := v2]> (<[f1 := v1]> h)), ttl)]> m)
      | None => (wrongtype, m)
      end
  | _ => (V_DB_REPLY_ERROR $"ERR", m)
  end.

Definition tonumber (s : bytes) : option Z :=
  match s with [] => None | _ => if forallb is_digit s then Some (strtoull s) else None end.

End MapRedis.

(** The cases of [decide] on command names. *)
Ltac cmd_cases := repeat (rewrite decide_True by done || rewrite decide_False by done).
Ltac map_redis := unfold MapRedis.run; cmd_cases.

Module MapServer.

#[export, refine] Instance map_redis : Redis := {
  rstore := rkeys;
  exec := MapRedis.run;
  rview m := m;
}.
Proof.
  - intros m k f h ttl H. map_redis. by rewrite H.
  - intros m k f1 f2 h ttl H. map_redis. by rewrite H.
  - intros m k f1 v1 f2 v2 h ttl H. map_redis. rewrite H. eauto.
  - intros m k f v h ttl H. map_redis. rewrite H. eauto.
  - intros m k t v ttl H Ht. map_redis. rewrite H.
    rewrite strtoull_dec by u_lia. eauto.
  - intros m k. map_redis. eauto.
  - intros m k. map_redis. eauto.
  - intros m k. map_redis. split; [by intros v ttl ->|by intros ->].
  - intros m k t v Ht. map_redis. rewrite strtoull_dec by u_lia. eauto.
  - intros m k v. map_redis. eauto.
  - intros m k v. map_redis. eauto.
  - intros m k v. map_redis. split; [by intros old ttl ->|intros ->; eauto].
  - intros m k n Hn. map_redis. split.
    + intros cur ttl -> Hc Hlt. rewrite !strtoull_dec by u_lia. eauto.
    + intros -> Hlt. rewrite !strtoull_dec by u_lia. eauto.
  - intros m k l ttl H. map_redis. by rewrite H.
  - intros m k l ttl H. map_redis. rewrite H. eauto.
  - intros m k x l ttl H. map_redis. rewrite H. eauto.
  - intros m cmd k args k' _ Hk. unfold MapRedis.run, put_list. repeat case_match; cbn [snd];
      by rewrite ?lookup_insert_ne, ?lookup_delete_ne by congruence.
Defined.

#[export, refine] Instance map_lua : Lua := {
  lua_tonumber := MapRedis.tonumber;
  lua_round n := n;
  lua_num_arg := dec;
  lua_tostring := dec;
}.
Proof.
  - intros n Hn. unfold MapRedis.tonumber.
    destruct (dec n) as [|c s] eqn:E; [by destruct (dec_nonempty n)|]. rewrite <- E.
    rewrite (proj2 (forallb_forall is_digit (dec n))).
    2: { apply List.Forall_forall, dec_digits. lia. }
    by rewrite strtoull_dec by u_lia.
  - done.
  - done.
  - done.
Defined.

End MapServer.
