(* ===== verification/StubReply.v ===== *)
(** Component v_stub_db, reply conversion: convert_reply copies a hiredis
    reply tree into nodes of a static arena of V_STUB_DB_REPLY_SCRATCH_CAP
    entries; an array node points at the entry after it and counts its
    elements, and the callbacks read element i at that pointer plus i. *)
From S2P Require Import Prelude Redis.

Definition V_STUB_DB_REPLY_SCRATCH_CAP : nat := 512.

(** redisReply of hiredis, as the switch of convert_reply sees it *)
Inductive redisReply :=
  | REDIS_NULL                              (* a NULL pointer *)
  | REDIS_REPLY_NIL
  | REDIS_REPLY_STATUS (str : bytes)
  | REDIS_REPLY_ERROR (str : bytes)
  | REDIS_REPLY_INTEGER (integer : Z)
  | REDIS_REPLY_STRING (str : bytes)
  | REDIS_REPLY_ARRAY (element : list redisReply)   (* and REDIS_REPLY_PUSH *)
  | REDIS_REPLY_OTHER.                      (* default *)

Inductive v_db_reply_type_t := T_NIL | T_STATUS | T_INTEGER | T_STRING | T_ARRAY | T_ERROR.

(** v_db_reply_t: [nd_element] is the index of the first element, [None] for
    the NULL left by memset. *)
Record node := Node {
  nd_type : v_db_reply_type_t;
  nd_integer : Z;
  nd_str : bytes;
  nd_element : option nat;
  nd_nelements : nat;
}.

Definition scalar (t : v_db_reply_type_t) (n : Z) (s : bytes) : node := Node t n s None 0.

(** g_scratch and g_scratch_used *)
Record arena := Arena { g_scratch : list node; g_scratch_used : nat }.

Definition emit (n : node) (a : arena) : arena :=
  Arena (<[g_scratch_used a := n]> (g_scratch a)) (S (g_scratch_used a)).

(** convert_reply: the index of the node it fills, or NULL *)
Fixpoint convert_reply (r : redisReply) (a : arena) : option nat * arena :=
  if (V_STUB_DB_REPLY_SCRATCH_CAP <=? g_scratch_used a)%nat then (None, a)
  else
    let out := Some (g_scratch_used a) in
    match r with
    | REDIS_NULL | REDIS_REPLY_NIL => (out, emit (scalar T_NIL 0 []) a)
    | REDIS_REPLY_STATUS s => (out, emit (scalar T_STATUS 0 s) a)
    | REDIS_REPLY_ERROR s => (out, emit (scalar T_ERROR 0 s) a)
    | REDIS_REPLY_INTEGER n => (out, emit (scalar T_INTEGER n []) a)
    | REDIS_REPLY_STRING s => (out, emit (scalar T_STRING 0 s) a)
    | REDIS_REPLY_ARRAY l =>
        let first := match l with [] => None | _ => Some (S (g_scratch_used a)) end in
        let fix children (l : list redisReply) (a : arena) : arena :=
          match l with
          | [] => a
          | x :: l' =>
              match convert_reply x a with
              | (None, a') => a'
              | (Some _, a') => children l' a'
              end
          end in
        (out, children l (emit (Node T_ARRAY 0 [] first (length l)) a))
    | REDIS_REPLY_OTHER => (out, emit (scalar T_ERROR 0 $"unsupported reply type") a)
    end.

(** on_reply resets the arena and converts; the old contents stay. *)
Definition on_reply_convert (r : redisReply) (stale : list node) : option nat * arena :=
  convert_reply r (Arena stale 0).

(** What a callback sees when it follows the pointers: [None] is an access
    outside the arena. *)
Fixpoint read_reply (fuel : nat) (l : list node) (i : nat) : option v_db_reply :=
  match fuel with
  | O => None
  | S fuel' =>
      n ← l !! i;
      match nd_type n with
      | T_NIL => Some V_DB_REPLY_NIL
      | T_STATUS => Some (V_DB_REPLY_STATUS (nd_str n))
      | T_INTEGER => Some (V_DB_REPLY_INTEGER (nd_integer n))
      | T_STRING => Some (V_DB_REPLY_STRING (nd_str n))
      | T_ERROR => Some (V_DB_REPLY_ERROR (nd_str n))
      | T_ARRAY =>
          V_DB_REPLY_ARRAY <$>
            mapM (λ k : nat, match nd_element n with Some e => read_reply fuel' l (e + k) | None => None end)
                 (seq 0 (nd_nelements n))
      end
  end.

(** The reply the server sent, as a tree. *)
Fixpoint denote (r : redisReply) : v_db_reply :=
  match r with
  | REDIS_NULL | REDIS_REPLY_NIL => V_DB_REPLY_NIL
  | REDIS_REPLY_STATUS s => V_DB_REPLY_STATUS s
  | REDIS_REPLY_ERROR s => V_DB_REPLY_ERROR s
  | REDIS_REPLY_INTEGER n => V_DB_REPLY_INTEGER n
  | REDIS_REPLY_STRING s => V_DB_REPLY_STRING s
  | REDIS_REPLY_ARRAY l => V_DB_REPLY_ARRAY (denote <$> l)
  | REDIS_REPLY_OTHER => V_DB_REPLY_ERROR $"unsupported reply type"
  end.

Definition is_scalar (r : redisReply) : bool := match r with REDIS_REPLY_ARRAY _ => false | _ => true end.

(** A scalar, or an array of scalars: every reply the modules ask for. *)
Definition is_flat (r : redisReply) : bool :=
  match r with REDIS_REPLY_ARRAY l => forallb is_scalar l | _ => true end.

(** The node of a scalar. *)
Definition scalar_node (r : redisReply) : node :=
  match r with
  | REDIS_REPLY_STATUS s => scalar T_STATUS 0 s
  | REDIS_REPLY_ERROR s => scalar T_ERROR 0 s
  | REDIS_REPLY_INTEGER n => scalar T_INTEGER n []
  | REDIS_REPLY_STRING s => scalar T_STRING 0 s
  | REDIS_REPLY_OTHER => scalar T_ERROR 0 $"unsupported reply type"
  | _ => scalar T_NIL 0 []
  end.

(** The children loop of convert_reply. *)
Fixpoint children (l : list redisReply) (a : arena) : arena :=
  match l with
  | [] => a
  | x :: l' => match convert_reply x a with (None, a') => a' | (Some _, a') => children l' a' end
  end.

Lemma convert_scalar r a :
  is_scalar r = true → (g_scratch_used a < V_STUB_DB_REPLY_SCRATCH_CAP)%nat →
  convert_reply r a = (Some (g_scratch_used a), emit (scalar_node r) a).
Proof.
  intros Hr Ha. destruct r; cbn [convert_reply is_scalar] in *; try done;
    by rewrite (proj2 (Nat.leb_gt _ _)).
Qed.

Lemma convert_array l a :
  (g_scratch_used a < V_STUB_DB_REPLY_SCRATCH_CAP)%nat →
  convert_reply (REDIS_REPLY_ARRAY l) a =
    (Some (g_scratch_used a),
     children l (emit (Node T_ARRAY 0 [] (match l with [] => None | _ => Some (S (g_scratch_used a)) end) (length l)) a)).
Proof. intros Ha. cbn [convert_reply]. by rewrite (proj2 (Nat.leb_gt _ _)). Qed.

(** Scalar children land in consecutive entries. *)
Lemma children_scalars l : ∀ a,
  forallb is_scalar l = true → (g_scratch_used a + length l <= V_STUB_DB_REPLY_SCRATCH_CAP)%nat →
  length (g_scratch a) = V_STUB_DB_REPLY_SCRATCH_CAP →
  let a' := children l a in
  length (g_scratch a') = V_STUB_DB_REPLY_SCRATCH_CAP ∧
  (∀ i, (i < g_scratch_used a)%nat → g_scratch a' !! i = g_scratch a !! i) ∧
  (∀ k r, l !! k = Some r → g_scratch a' !! (g_scratch_used a + k)%nat = Some (scalar_node r)).
Proof.
  induction l as [|x l IH]; intros a Hl Hlen Ha; cbn [children length] in *; [done|].
  apply andb_true_iff in Hl as [Hx Hl]. rewrite convert_scalar by (done || lia).
  destruct (IH (emit (scalar_node x) a)) as (H1&H2&H3); [done|cbn; lia|cbn; by rewrite length_insert|].
  cbn [emit g_scratch_used g_scratch] in H2, H3. cbn zeta. split; [done|]. split.
  - intros i Hi. rewrite H2 by lia. by rewrite list_lookup_insert_ne by lia.
  - intros [|k] r Hk; cbn in Hk.
    + injection Hk as ->. rewrite Nat.add_0_r, H2 by lia. apply list_lookup_insert_eq. lia.
    + rewrite <- (H3 k r Hk). f_equal. lia.
Qed.

Lemma read_scalar fuel l i r :
  is_scalar r = true → l !! i = Some (scalar_node r) → read_reply (S fuel) l i = Some (denote r).
Proof. intros Hr Hi. cbn. rewrite Hi. by destruct r. Qed.

(** C28: a reply that is a scalar or an array of at most 511 scalars reaches
    the callback unchanged, whatever an earlier reply left in the arena.
    Every command of the modules has such a reply, the largest being the 257
    elements of a recycled TEID block. *)
Theorem reply_conversion_faithful r stale :
  length stale = V_STUB_DB_REPLY_SCRATCH_CAP → is_flat r = true →
  (match r with REDIS_REPLY_ARRAY l => length l < V_STUB_DB_REPLY_SCRATCH_CAP | _ => True end)%nat →
  ∃ i a, on_reply_convert r stale = (Some i, a) ∧ read_reply 2 (g_scratch a) i = Some (denote r).
Proof.
  intros Hs Hf Hl. unfold on_reply_convert. destruct (is_scalar r) eqn:Er.
  - rewrite convert_scalar by (done || cbn; unfold V_STUB_DB_REPLY_SCRATCH_CAP; lia).
    eexists _, _. split; [done|]. apply read_scalar; [done|]. cbn. apply list_lookup_insert_eq.
    rewrite Hs. unfold V_STUB_DB_REPLY_SCRATCH_CAP. lia.
  - destruct r as [| | | | | |l|]; try done. cbn [is_flat] in Hf.
    rewrite convert_array by (cbn; unfold V_STUB_DB_REPLY_SCRATCH_CAP; lia).
    eexists _, _. split; [done|]. cbn [g_scratch_used].
    set (a0 := emit _ _). destruct (children_scalars l a0) as (H1&H2&H3); [done|cbn; lia|cbn; by rewrite length_insert|].
    cbn [a0 emit g_scratch_used g_scratch] in H2, H3.
    remember 1%nat as one eqn:Eone. cbn [read_reply]. subst one. rewrite H2 by lia.
    rewrite list_lookup_insert_eq by (rewrite Hs; unfold V_STUB_DB_REPLY_SCRATCH_CAP; lia).
    cbn [mbind option_bind nd_type nd_element nd_nelements denote].
    assert (∀ k r, l !! k = Some r → is_scalar r = true) as Hsc.
    { intros k r Hk. rewrite forallb_forall in Hf. apply Hf, list_elem_of_In. by eapply list_elem_of_lookup_2. }
    assert (mapM (λ k : nat, match (match l with [] => None | _ => Some 1%nat end) with
        | Some e => read_reply 1 (g_scratch (children l a0)) (e + k) | None => None end) (seq 0 (length l)) = Some (denote <$> l)) as Hm.
    { apply mapM_Some. apply Forall2_same_length_lookup. split; [by rewrite length_seq, length_fmap|].
      intros k i y Hk%lookup_seq Hy. destruct Hk as [-> Hk]. rewrite list_lookup_fmap in Hy.
      destruct (l !! k) as [r|] eqn:Er'; [|done]. injection Hy as <-. destruct l as [|x l]; [done|].
      apply read_scalar; [by eapply Hsc|]. rewrite <- (H3 k r Er'). done. }
    transitivity (V_DB_REPLY_ARRAY <$> Some (denote <$> l)); [|done]. rewrite <- Hm. done.
Qed.

(** A nested array is misread.  The elements of an inner array are
    allocated before the next element of the outer one, but the callback
    expects the outer elements side by side: [[1, 2], 3] arrives as
    [[1, 2], 1]. *)
Theorem nested_reply_misread :
  ∃ r stale i a, length stale = V_STUB_DB_REPLY_SCRATCH_CAP ∧ on_reply_convert r stale = (Some i, a) ∧
    denote r = V_DB_REPLY_ARRAY [V_DB_REPLY_ARRAY [V_DB_REPLY_INTEGER 1; V_DB_REPLY_INTEGER 2]; V_DB_REPLY_INTEGER 3] ∧
    read_reply 3 (g_scratch a) i =
      Some (V_DB_REPLY_ARRAY [V_DB_REPLY_ARRAY [V_DB_REPLY_INTEGER 1; V_DB_REPLY_INTEGER 2]; V_DB_REPLY_INTEGER 1]).
Proof.
  exists (REDIS_REPLY_ARRAY [REDIS_REPLY_ARRAY [REDIS_REPLY_INTEGER 1; REDIS_REPLY_INTEGER 2]; REDIS_REPLY_INTEGER 3]),
    (replicate V_STUB_DB_REPLY_SCRATCH_CAP (scalar T_NIL 0 [])).
  eexists _, _. split; [apply length_replicate|]. split; [vm_compute; reflexivity|]. split; [reflexivity|].
  vm_compute. reflexivity.
Qed.

(** C40: a reply of more than 511 elements is announced in full although only
    the first 511 were converted: reading element 511 leaves the arena. *)
Theorem long_reply_overruns l stale :
  length stale = V_STUB_DB_REPLY_SCRATCH_CAP → forallb is_scalar l = true → (V_STUB_DB_REPLY_SCRATCH_CAP <= length l)%nat →
  ∃ a n, on_reply_convert (REDIS_REPLY_ARRAY l) stale = (Some 0%nat, a) ∧ g_scratch a !! 0%nat = Some n ∧
    nd_nelements n = length l ∧ nd_element n = Some 1%nat ∧ g_scratch a !! (1 + 511)%nat = None ∧
    read_reply 2 (g_scratch a) 0 = None.
Proof.
  intros Hs Hf Hl. unfold on_reply_convert. rewrite convert_array by (cbn; unfold V_STUB_DB_REPLY_SCRATCH_CAP; lia).
  set (a0 := emit _ _).
  assert (∀ l a, forallb is_scalar l = true → length (g_scratch a) = V_STUB_DB_REPLY_SCRATCH_CAP → (0 < g_scratch_used a)%nat →
    length (g_scratch (children l a)) = V_STUB_DB_REPLY_SCRATCH_CAP ∧ g_scratch (children l a) !! 0%nat = g_scratch a !! 0%nat) as Hc.
  { clear. induction l as [|x l IH]; intros a Hl Ha Hu; [done|]. cbn [children forallb] in *.
    apply andb_true_iff in Hl as [Hx Hl].
    destruct (decide (g_scratch_used a < V_STUB_DB_REPLY_SCRATCH_CAP)%nat) as [Hlt|Hge].
    - rewrite convert_scalar by done. destruct (IH (emit (scalar_node x) a)) as [H1 H2]; [done|cbn; by rewrite length_insert|cbn; lia|].
      split; [done|]. rewrite H2. cbn. by rewrite list_lookup_insert_ne by lia.
    - assert (convert_reply x a = (None, a)) as ->; [|done].
      destruct x; cbn [convert_reply]; by rewrite (proj2 (Nat.leb_le _ _)) by lia. }
  destruct (Hc l a0) as [H1 H2]; [done|cbn; by rewrite length_insert|cbn; lia|].
  cbn [a0 emit g_scratch_used g_scratch] in H2.
  rewrite (list_lookup_insert_eq stale) in H2 by (rewrite Hs; unfold V_STUB_DB_REPLY_SCRATCH_CAP; lia).
  eexists _, _. split; [reflexivity|]. split; [exact H2|]. cbn [nd_nelements nd_element].
  assert (g_scratch (children l a0) !! (1 + 511)%nat = None) as Hout.
  { apply lookup_ge_None_2. rewrite H1. unfold V_STUB_DB_REPLY_SCRATCH_CAP. lia. }
  split; [reflexivity|]. split; [by destruct l; [unfold V_STUB_DB_REPLY_SCRATCH_CAP in Hl; cbn in Hl; lia|]|]. split; [exact Hout|].
  remember 1%nat as one eqn:Eone. cbn [read_reply]. subst one. rewrite H2.
  cbn [mbind option_bind nd_type nd_element nd_nelements].
  match goal with |- _ <$> mapM ?f ?xs = None => destruct (mapM f xs) as [ys|] eqn:Em; [|done] end.
  exfalso. apply mapM_Some in Em.
  assert (seq 0 (length l) !! 511%nat = Some 511%nat) as Hk.
  { apply lookup_seq. unfold V_STUB_DB_REPLY_SCRATCH_CAP in Hl. lia. }
  destruct (Forall2_lookup_l _ _ _ _ _ Em Hk) as (y&_&Hy).
  destruct l as [|x l]; [done|]. cbn [read_reply] in Hy. by rewrite Hout in Hy.
Qed.
