(* ===== verification/Scripts.v ===== *)
(** The three Lua scripts of v_db_script (inc/v_db_lua_scripts.h), run
    atomically by the server, and the versioned-register specification that
    the two session scripts implement.  A script is a computation over the
    key space that may raise the error of a failing command. *)
From S2P Require Import Prelude Redis.

(** ** Script computations *)

Definition script {R : Redis} (A : Type) : Type := rstore → (bytes + A) * rstore.

#[export] Instance script_ret {R : Redis} : MRet script := λ A a s, (inr a, s).
#[export] Instance script_bind {R : Redis} : MBind script := λ A B f m s,
  match m s with (inr a, s') => f a s' | (inl e, s') => (inl e, s') end.

(** redis.call: an error reply aborts the script. *)
Definition redis_call {R : Redis} (argv : list bytes) : script v_db_reply := λ s,
  match exec argv s with
  | (V_DB_REPLY_ERROR e, s') => (inl e, s')
  | (r, s') => (inr r, s')
  end.

Definition lua_error {R : Redis} {A} (e : bytes) : script A := λ s, (inl e, s).

(** The conversion of a nil reply is false: [if v then]. *)
Definition lua_string (r : v_db_reply) : option bytes :=
  match r with V_DB_REPLY_STRING v => Some v | _ => None end.

Definition lua_integer (r : v_db_reply) : Z :=
  match r with V_DB_REPLY_INTEGER n => n | _ => 0 end.

(** Arithmetic coerces a numeric string operand and raises on any other. *)
Definition lua_coerce {R : Redis} {L : Lua} (s : bytes) : script Z :=
  match lua_tonumber s with
  | Some n => mret n
  | None => lua_error $"attempt to perform arithmetic on a string value"
  end.

(** [return n]: a Lua number becomes an integer reply. *)
Definition return_integer {R : Redis} (m : script Z) (s : rstore) : v_db_reply * rstore :=
  match m s with
  | (inr n, s') => (V_DB_REPLY_INTEGER n, s')
  | (inl e, s') => (V_DB_REPLY_ERROR e, s')
  end.

Section scripts.
Context {R : Redis} {L : Lua}.

(** ** V_LUA_SESS_CAS_WRITE *)

Definition cas_set_ttl (key ttl : bytes) : script () :=
  if decide (ttl = $"0") then mret tt
  else redis_call [$"EXPIRE"; key; ttl] ≫= λ _, mret tt.

Definition lua_sess_cas_write (key exp_ver data ttl : bytes) : script Z :=
  r ← redis_call [$"HGET"; key; $"ver"];
  let v := lua_string r in
  if decide (exp_ver = $"0") then
    match v with
    | Some _ => mret 0
    | None =>
        _ ← redis_call [$"HSET"; key; $"ver"; lua_num_arg 1; $"data"; data];
        _ ← cas_set_ttl key ttl;
        mret 1
    end
  else
    match v with
    | None => mret (-1)
    | Some ver =>
        if decide (ver ≠ exp_ver) then mret 0
        else
          n ← lua_coerce ver;
          _ ← redis_call [$"HSET"; key; $"ver"; lua_num_arg (lua_round (n + 1)); $"data"; data];
          _ ← cas_set_ttl key ttl;
          mret 1
    end.

(** ** V_LUA_SESS_DELETE *)

Definition lua_sess_delete (key exp_ver : bytes) : script Z :=
  r ← redis_call [$"HGET"; key; $"ver"];
  match lua_string r with
  | None => mret (-1)
  | Some ver =>
      if decide (ver ≠ exp_ver) then mret 0
      else
        _ ← redis_call [$"DEL"; key];
        mret 1
  end.

(** ** V_LUA_TEID_REFILL *)

(** [for i = 1, n do local id = LPOP; if not id then break end; insert end] *)
Fixpoint lua_pop_loop (key : bytes) (n : nat) : script (list bytes) :=
  match n with
  | O => mret []
  | S n' =>
      r ← redis_call [$"LPOP"; key];
      match lua_string r with
      | None => mret []
      | Some id => out ← lua_pop_loop key n'; mret (id :: out)
      end
  end.

Definition lua_teid_refill (free_key next_key blk floor : bytes) : script v_db_reply :=
  len ← redis_call [$"LLEN"; free_key];
  fl ← lua_coerce floor;
  out ← (if fl <? lua_integer len then
           n ← lua_coerce blk; lua_pop_loop free_key (Z.to_nat n)
         else mret []);
  match out with
  | [] =>
      base ← redis_call [$"INCRBY"; next_key; blk];
      n ← lua_coerce blk;
      mret (V_DB_REPLY_ARRAY [V_DB_REPLY_STRING $"range";
              V_DB_REPLY_STRING (lua_tostring (lua_round (lua_round (lua_integer base) - n)));
              V_DB_REPLY_STRING blk])
  | _ => mret (V_DB_REPLY_ARRAY (V_DB_REPLY_STRING $"list" :: (V_DB_REPLY_STRING <$> out)))
  end.

(** ** The specification: a versioned register with a lease *)

(** A session record: version, serialized context, time to live. *)
Record sess_rec := SessRec { sr_ver : Z; sr_data : bytes; sr_ttl : option Z }.

Definition cas_spec (exp_ver : Z) (data : bytes) (ttl : Z) (cur : option sess_rec) : Z * option sess_rec :=
  match cur with
  | None =>
      if exp_ver =? 0 then (1, Some (SessRec 1 data (if ttl =? 0 then None else Some ttl)))
      else (-1, None)
  | Some r =>
      if (exp_ver =? 0) || negb (sr_ver r =? exp_ver) then (0, cur)
      else (1, Some (SessRec (exp_ver + 1) data (if ttl =? 0 then sr_ttl r else Some ttl)))
  end.

Definition delete_spec (exp_ver : Z) (cur : option sess_rec) : Z * option sess_rec :=
  match cur with
  | None => (-1, None)
  | Some r => if sr_ver r =? exp_ver then (1, None) else (0, cur)
  end.

(** The record a key of the store holds. *)
Definition rec_at (s : rstore) (key : bytes) (cur : option sess_rec) : Prop :=
  match cur with
  | None => rview s !! key = None
  | Some r =>
      0 < sr_ver r < 2 ^ 53 ∧
      ∃ h, rview s !! key = Some (VHash h, sr_ttl r) ∧
           h !! $"ver" = Some (dec (sr_ver r)) ∧ h !! $"data" = Some (sr_data r)
  end.

(** Every key other than [key] is untouched. *)
Definition only_key (key : bytes) (s s' : rstore) : Prop :=
  ∀ k, k ≠ key → rview s' !! k = rview s !! k.

End scripts.

(** ** Command lemmas *)

Section lemmas.
Context {R : Redis} {L : Lua}.

Lemma script_bind_inr {A B} (m : script A) (f : A → script B) s a s' :
  m s = (inr a, s') → (m ≫= f) s = f a s'.
Proof. unfold mbind, script_bind. by intros ->. Qed.

Lemma redis_call_inr argv s r s' :
  exec argv s = (r, s') → (∀ e, r ≠ V_DB_REPLY_ERROR e) → redis_call argv s = (inr r, s').
Proof. unfold redis_call. intros -> Hr. destruct r; try done. by destruct (Hr str). Qed.

Lemma dec_ver_inj n m : 0 <= n <= 2 ^ 53 → is_u64 m → dec n = dec m → n = m.
Proof. intros. apply dec_inj; [u_lia|done|done]. Qed.

Lemma dec_zero : dec 0 = $"0".
Proof. by vm_compute. Qed.

Lemma dec_eq_zero n : is_u64 n → dec n = $"0" ↔ n = 0.
Proof.
  intros Hn. rewrite <- dec_zero. split; [|by intros ->].
  intros H. apply dec_inj; [done|u_lia|done].
Qed.

Lemma lua_coerce_dec n s : 0 <= n <= 2 ^ 53 → lua_coerce (dec n) s = (inr n, s).
Proof. intros. unfold lua_coerce. by rewrite lua_tonumber_law. Qed.

Lemma hget_ver s key cur :
  rec_at s key cur →
  redis_call [$"HGET"; key; $"ver"] s = (inr (bulk (dec ∘ sr_ver <$> cur)), s).
Proof.
  intros Hc. eapply redis_call_inr.
  - destruct cur as [r|]; cbn in *.
    + destruct Hc as (_&h&Hk&Hv&_). erewrite hget_law; [by rewrite Hv|]. by rewrite Hk.
    + erewrite hget_law; [by rewrite lookup_empty|]. by rewrite Hc.
  - by destruct cur.
Qed.

(** HSET of version and blob, on an absent key or on a record. *)
Lemma hset_record s key cur v data :
  rec_at s key cur → 0 < v < 2 ^ 53 →
  ∃ r s', redis_call [$"HSET"; key; $"ver"; dec v; $"data"; data] s = (inr r, s') ∧
    rec_at s' key (Some (SessRec v data (cur ≫= sr_ttl))) ∧ only_key key s s'.
Proof.
  intros Hc Hv.
  assert (∃ h, as_hash (rview s !! key) = Some (h, cur ≫= sr_ttl)) as [h Hh].
  { destruct cur as [r|]; cbn in *; [destruct Hc as (_&h&->&_)|rewrite Hc]; eexists; done. }
  destruct (hset_law s key $"ver" (dec v) $"data" data h _ Hh) as (n&s'&He&Hv').
  exists (V_DB_REPLY_INTEGER n), s'. split; [by eapply redis_call_inr|]. split.
  - split; [done|]. eexists. rewrite Hv', lookup_insert_eq.
    split; [done|]. cbn [sr_ver sr_data]. rewrite lookup_insert_eq.
    rewrite lookup_insert_ne, lookup_insert_eq by done. done.
  - intros k Hk. by rewrite Hv', lookup_insert_ne.
Qed.

Lemma cas_set_ttl_spec s key r ttl :
  rec_at s key (Some r) → 0 <= ttl < 2 ^ 31 →
  ∃ s', cas_set_ttl key (dec ttl) s = (inr tt, s') ∧
    rec_at s' key (Some (SessRec (sr_ver r) (sr_data r) (if ttl =? 0 then sr_ttl r else Some ttl))) ∧
    only_key key s s'.
Proof.
  intros Hr Ht. unfold cas_set_ttl. destruct (Z.eqb_spec ttl 0) as [->|Hne].
  - rewrite decide_True by (by vm_compute). exists s.
    split; [done|]. by destruct r.
  - rewrite decide_False by (rewrite dec_eq_zero by u_lia; done).
    destruct Hr as (Hv&h&Hk&?&?).
    destruct (expire_law s key ttl _ _ Hk) as (s'&He&Hv'); [lia|].
    exists s'. split; [|split].
    + erewrite script_bind_inr; [done|]. by eapply redis_call_inr.
    + split; [done|]. exists h. rewrite Hv', lookup_insert_eq. done.
    + intros k ?. by rewrite Hv', lookup_insert_ne.
Qed.

(** HSET followed by the optional EXPIRE: the write half of the CAS script. *)
Lemma cas_store s key cur v data ttl :
  rec_at s key cur → 0 < v < 2 ^ 53 → 0 <= ttl < 2 ^ 31 →
  ∃ s', (_ ← redis_call [$"HSET"; key; $"ver"; dec v; $"data"; data];
         _ ← cas_set_ttl key (dec ttl); mret 1) s = (inr 1, s') ∧
    rec_at s' key (Some (SessRec v data (if ttl =? 0 then cur ≫= sr_ttl else Some ttl))) ∧
    only_key key s s'.
Proof.
  intros Hc Hv Ht.
  destruct (hset_record s key cur v data Hc Hv) as (r&s1&He&Hr&Ho).
  destruct (cas_set_ttl_spec s1 key _ ttl Hr Ht) as (s2&He2&Hr2&Ho2).
  exists s2. rewrite (script_bind_inr _ _ _ _ _ He), (script_bind_inr _ _ _ _ _ He2).
  split; [done|]. split; [done|]. intros k Hk. by rewrite Ho2, Ho.
Qed.

(** The CAS script computes [cas_spec] on its key and touches no other. *)
Lemma lua_sess_cas_write_spec s key cur exp_ver data ttl :
  rec_at s key cur → 0 <= exp_ver < 2 ^ 53 - 1 → 0 <= ttl < 2 ^ 31 →
  ∃ s', lua_sess_cas_write key (dec exp_ver) data (dec ttl) s =
          (inr (cas_spec exp_ver data ttl cur).1, s') ∧
    rec_at s' key (cas_spec exp_ver data ttl cur).2 ∧ only_key key s s'.
Proof.
  intros Hc Hexp Ht. unfold lua_sess_cas_write, cas_spec.
  rewrite (script_bind_inr _ _ _ _ _ (hget_ver s key cur Hc)).
  destruct (Z.eqb_spec exp_ver 0) as [->|Hne].
  - rewrite decide_True by (by vm_compute).
    destruct cur as [r|]; cbn [lua_string bulk fmap option_fmap option_map orb]; [by exists s|].
    rewrite lua_num_arg_law by lia.
    destruct (cas_store s key None 1 data ttl Hc ltac:(lia) Ht) as (s'&?&Hr&?).
    by exists s'.
  - rewrite decide_False by (rewrite dec_eq_zero by u_lia; done).
    destruct cur as [r|]; cbn [lua_string bulk fmap option_fmap option_map]; [|by exists s].
    pose proof Hc as (Hv&_). cbn [compose orb].
    destruct (Z.eqb_spec (sr_ver r) exp_ver) as [Heq|Hneq]; cbn [negb].
    + rewrite decide_False by (by rewrite Heq; intros []).
      rewrite (script_bind_inr _ _ _ _ _ (lua_coerce_dec (sr_ver r) s ltac:(lia))).
      rewrite lua_round_law, lua_num_arg_law, Heq by lia.
      destruct (cas_store s key (Some r) (exp_ver + 1) data ttl Hc ltac:(lia) Ht) as (s'&?&Hr&?).
      by exists s'.
    + rewrite decide_True by (intros H; apply Hneq, dec_ver_inj; [lia|u_lia|exact H]).
      by exists s.
Qed.

Lemma lua_sess_delete_spec s key cur exp_ver :
  rec_at s key cur → is_u64 exp_ver →
  ∃ s', lua_sess_delete key (dec exp_ver) s = (inr (delete_spec exp_ver cur).1, s') ∧
    rec_at s' key (delete_spec exp_ver cur).2 ∧ only_key key s s'.
Proof.
  intros Hc Hexp. unfold lua_sess_delete, delete_spec.
  rewrite (script_bind_inr _ _ _ _ _ (hget_ver s key cur Hc)).
  destruct cur as [r|]; cbn [lua_string bulk fmap option_fmap option_map compose]; [|by exists s].
  pose proof Hc as (Hv&_).
  destruct (Z.eqb_spec (sr_ver r) exp_ver) as [Heq|Hneq].
  - rewrite decide_False by (by rewrite Heq; intros []).
    destruct (del_law s key) as (n&s'&He&Hv').
    exists s'. erewrite script_bind_inr; [|by eapply redis_call_inr].
    split; [done|]. split; [cbn; by rewrite Hv', lookup_delete_eq|].
    intros k ?. by rewrite Hv', lookup_delete_ne.
  - rewrite decide_True by (intros H; apply Hneq, dec_ver_inj; [lia|done|exact H]).
    by exists s.
Qed.

(** ** The refill script *)

Lemma lua_pop_loop_spec n : ∀ s key l ttl,
  as_list (rview s !! key) = Some (l, ttl) →
  ∃ s', lua_pop_loop key n s = (inr (take n l), s') ∧
    (∃ ttl', as_list (rview s' !! key) = Some (drop n l, ttl')) ∧ only_key key s s'.
Proof.
  induction n as [|n IH]; intros s key l ttl Hl; cbn [lua_pop_loop].
  { exists s. rewrite drop_0. split; [done|]. split; [by exists ttl|done]. }
  destruct (lpop_law s key l ttl Hl) as (s1&He&Hv).
  assert (redis_call [$"LPOP"; key] s = (inr (bulk (head l)), s1)) as Hc.
  { eapply redis_call_inr; [done|]. intros e. by destruct l. }
  rewrite (script_bind_inr _ _ _ _ _ Hc). destruct l as [|x l]; cbn in Hv.
  - exists s1. split; [done|]. split.
    + exists None. by rewrite Hv, lookup_delete_eq.
    + intros k ?. by rewrite Hv, lookup_delete_ne.
  - cbn [head bulk lua_string take drop].
    assert (∃ ttl', as_list (rview s1 !! key) = Some (l, ttl')) as [ttl' Hl1].
    { rewrite Hv. destruct l; cbn; [rewrite lookup_delete_eq|rewrite lookup_insert_eq]; by eexists. }
    destruct (IH s1 key l ttl' Hl1) as (s2&Hp&Hl2&Ho).
    exists s2. rewrite (script_bind_inr _ _ _ _ _ Hp). split; [done|]. split; [done|].
    intros k Hk. rewrite (Ho k Hk), Hv.
    destruct l; cbn; [by rewrite lookup_delete_ne|by rewrite lookup_insert_ne].
Qed.

Lemma llen_call s key l ttl :
  as_list (rview s !! key) = Some (l, ttl) →
  redis_call [$"LLEN"; key] s = (inr (V_DB_REPLY_INTEGER (Z.of_nat (length l))), s).
Proof. intros H. eapply redis_call_inr; [by eapply llen_law|done]. Qed.

(** Above the floor: the oldest [blk] entries of the free list, in order. *)
Lemma lua_teid_refill_list s fk nk l ttl blk floor :
  as_list (rview s !! fk) = Some (l, ttl) →
  0 < blk <= 2 ^ 53 → 0 <= floor <= 2 ^ 53 → floor < Z.of_nat (length l) →
  ∃ s', lua_teid_refill fk nk (dec blk) (dec floor) s =
      (inr (V_DB_REPLY_ARRAY (V_DB_REPLY_STRING $"list" :: (V_DB_REPLY_STRING <$> take (Z.to_nat blk) l))), s') ∧
    (∃ ttl', as_list (rview s' !! fk) = Some (drop (Z.to_nat blk) l, ttl')) ∧ only_key fk s s'.
Proof.
  intros Hl Hb Hf Hlen. unfold lua_teid_refill.
  rewrite (script_bind_inr _ _ _ _ _ (llen_call s fk l ttl Hl)).
  rewrite (script_bind_inr _ _ _ _ _ (lua_coerce_dec floor s Hf)).
  cbn [lua_integer]. rewrite (proj2 (Z.ltb_lt _ _)) by lia.
  destruct (lua_pop_loop_spec (Z.to_nat blk) s fk l ttl Hl) as (s'&Hp&Hl'&Ho).
  assert ((lua_coerce (dec blk) ≫= λ n, lua_pop_loop fk (Z.to_nat n)) s
          = (inr (take (Z.to_nat blk) l), s')) as Hq.
  { by rewrite (script_bind_inr _ _ _ _ _ (lua_coerce_dec blk s ltac:(lia))). }
  rewrite (script_bind_inr _ _ _ _ _ Hq). exists s'. split; [|done].
  destruct l as [|x l]; [cbn in Hlen; lia|].
  destruct (Z.to_nat blk) as [|b] eqn:E; [lia|done].
Qed.

(** At or below the floor: a fresh block of the counter. *)
Lemma lua_teid_refill_range s fk nk l ttl cur nttl blk floor :
  as_list (rview s !! fk) = Some (l, ttl) → rview s !! nk = Some (VStr (dec cur), nttl) →
  0 < blk < 2 ^ 31 → 0 <= floor <= 2 ^ 53 → Z.of_nat (length l) <= floor →
  0 <= cur → cur + blk < 10 ^ 14 →
  ∃ s', lua_teid_refill fk nk (dec blk) (dec floor) s =
      (inr (V_DB_REPLY_ARRAY [V_DB_REPLY_STRING $"range"; V_DB_REPLY_STRING (dec cur);
                              V_DB_REPLY_STRING (dec blk)]), s') ∧
    rview s' = <[nk := (VStr (dec (cur + blk)), nttl)]> (rview s).
Proof.
  intros Hl Hn Hb Hf Hlen Hc Hcb.
  change (10 ^ 14) with 100000000000000 in Hcb. unfold lua_teid_refill.
  rewrite (script_bind_inr _ _ _ _ _ (llen_call s fk l ttl Hl)).
  rewrite (script_bind_inr _ _ _ _ _ (lua_coerce_dec floor s Hf)).
  cbn [lua_integer]. rewrite (proj2 (Z.ltb_ge _ _)) by lia.
  destruct (incrby_law s nk blk ltac:(lia)) as [Hinc _].
  destruct (Hinc cur nttl Hn ltac:(lia) ltac:(lia)) as (s'&He&Hv).
  assert (redis_call [$"INCRBY"; nk; dec blk] s = (inr (V_DB_REPLY_INTEGER (cur + blk)), s')) as Hi.
  { by eapply redis_call_inr. }
  exists s'. split; [|done]. erewrite script_bind_inr; [|done]. cbv beta iota.
  rewrite (script_bind_inr _ _ _ _ _ Hi).
  rewrite (script_bind_inr _ _ _ _ _ (lua_coerce_dec blk s' ltac:(lia))).
  cbn [lua_integer]. rewrite (lua_round_law (cur + blk)) by lia.
  replace (cur + blk - blk) with cur by lia. rewrite lua_round_law, lua_tostring_law by lia. done.
Qed.

End lemmas.
