(* ===== verification/World.v ===== *)
(** The process state: the adapter contracts of include/v_port_*.h, the
    pending-operation objects of every module, and the world record that the
    operations of all components act on.  A C function pointer is a
    constructor of the enumeration of the functions that are ever stored in
    it; [void *arg] is the transaction pointer it carries (None = NULL). *)
From S2P Require Import Prelude Dpdk Heap Redis.

(** ** PFCP codec and serializer (v_port_pfcp.h): reused code, a parameter *)

Class PfcpPort := {
  pfcp_msg : Type;
  pdu_ses_ctx : Type;
  v_port_pfcp_decode : bytes → option pfcp_msg;
  v_port_pfcp_msg_type : pfcp_msg → Z;
  v_port_pfcp_hdr_seid : pfcp_msg → Z;
  v_port_pfcp_seq : pfcp_msg → Z;
  v_port_pfcp_smf_fseid : pfcp_msg → Z;
  v_port_pfcp_ue_ip : pfcp_msg → option (Z * list Z);
  v_port_pfcp_build_session : pfcp_msg → Z → Z → pdu_ses_ctx → Z * pdu_ses_ctx;
  v_port_pfcp_modify_session : pfcp_msg → pdu_ses_ctx → Z * pdu_ses_ctx;
  v_port_pfcp_encode_rsp : pfcp_msg → option pdu_ses_ctx → Z → nat → option bytes;
  v_port_pfcp_ctx_teid : pdu_ses_ctx → Z;
  v_port_pdu_serialize : pdu_ses_ctx → nat → option bytes;
  v_port_pdu_deserialize : bytes → pdu_ses_ctx → Z * pdu_ses_ctx;
  ctx_cleared : pdu_ses_ctx; (* contents after v_port_ctx_alloc / v_port_ctx_clear *)
  hdr_seid_range m : is_u64 (v_port_pfcp_hdr_seid m);
  seq_range m : is_u32 (v_port_pfcp_seq m);
  smf_fseid_range m : is_u64 (v_port_pfcp_smf_fseid m);
}.

Definition V_PFCP_MSG_SESSION_EST_REQ : Z := 50.
Definition V_PFCP_MSG_SESSION_MOD_REQ : Z := 52.
Definition V_PFCP_MSG_SESSION_DEL_REQ : Z := 54.
Definition V_PFCP_CAUSE_REQUEST_ACCEPTED : Z := 1.
Definition V_PFCP_CAUSE_REQUEST_REJECTED : Z := 64.
Definition V_PFCP_CAUSE_SESSION_CTX_NOT_FOUND : Z := 65.
Definition V_PFCP_CAUSE_SYSTEM_FAILURE : Z := 69.
Definition V_PFCP_CAUSE_NO_RESOURCES_AVAILABLE : Z := 71.

(** ** Enumerations *)

(** v_sess_store.h *)
Inductive v_cas_result_t := V_CAS_OK | V_CAS_CONFLICT | V_CAS_GONE.
Inductive v_sess_state_t := V_SESS_PENDING | V_SESS_CONFIRMED.

(** v_db_script.h *)
Inductive v_script_id_t := V_SCRIPT_SESS_CAS_WRITE | V_SCRIPT_SESS_DELETE | V_SCRIPT_TEID_REFILL.

(** v_port_vdp.h *)
Inductive v_vdp_result_t := V_VDP_ACCEPT | V_VDP_REJECT | V_VDP_TIMEOUT.

(** v_port_txn.h *)
Inductive v_txn_state_t :=
  | TXN_ST_RECV | TXN_ST_DB_READ_WAIT | TXN_ST_DB_WRITE_WAIT
  | TXN_ST_VDP_WAIT | TXN_ST_DB_CONFIRM_WAIT | TXN_ST_REPLIED.

#[export] Instance v_cas_result_eq : EqDecision v_cas_result_t.
Proof. solve_decision. Defined.
#[export] Instance v_script_id_eq : EqDecision v_script_id_t.
Proof. solve_decision. Defined.
#[export] Instance v_vdp_result_eq : EqDecision v_vdp_result_t.
Proof. solve_decision. Defined.
#[export] Instance v_txn_state_eq : EqDecision v_txn_state_t.
Proof. solve_decision. Defined.

(** The index of a script in g_sha[shard][script_id]. *)
Definition script_index (id : v_script_id_t) : Z :=
  match id with
  | V_SCRIPT_SESS_CAS_WRITE => 0 | V_SCRIPT_SESS_DELETE => 1 | V_SCRIPT_TEID_REFILL => 2
  end.

(** ** Transactions (v_port_txn.h) *)

(** struct sockaddr, copied as raw bytes. *)
Abbreviation sockaddr := bytes.
Definition sockaddr_zero : sockaddr := replicate 16 zero.

Record v_txn := Txn {
  t_state : v_txn_state_t;
  t_db_ver : Z;
  t_cas_retry : Z;
  t_part_id : Z;
  t_seid : Z;
  t_teid : Z;
  t_req : option Z;
  t_ctx : option Z;
  t_peer : sockaddr;
  t_deadline_ms : Z;
  t_impl : option Z;
}.

(** ** Function pointers *)

(** v_retrans_cb_t, v_sess_read_cb_t, v_sess_cas_cb_t, v_sess_cb_t and
    v_vdp_cb_t, as set by v_flow.c and v_txn.c. *)
Inductive v_retrans_cb_t := fp_retrans_lookup_cb | fp_mod_retrans_lookup_cb | fp_del_retrans_lookup_cb.
Inductive v_sess_read_cb_t := fp_mod_read_cb | fp_del_read_cb.
Inductive v_sess_cas_cb_t :=
  | fp_cas_write_cb | fp_mod_cas_cb | fp_mod_compensate_write_cb | fp_del_delete_cb
  | fp_delete_pending_noop_cb | fp_delete_pending_cb.
Inductive v_sess_cb_t := fp_confirm_cb | fp_confirm_retry_cb.
Inductive v_vdp_cb_t := fp_vdp_create_cb | fp_mod_vdp_cb | fp_del_vdp_cb.

(** struct v_sess_pending, one shape per member of its union; the first
    field is the pool object it lives in. *)
Record read_pending := ReadPending { rp_obj : Z; rp_arg : option Z; rp_cb : v_sess_read_cb_t; rp_ctx : Z }.
Record cas_pending := CasPending { cp_obj : Z; cp_arg : option Z; cp_cb : v_sess_cas_cb_t; cp_exp_ver : Z }.
Record simple_pending := SimplePending { sp_obj : Z; sp_arg : option Z; sp_cb : v_sess_cb_t }.

(** struct v_retrans_pending *)
Record v_retrans_pending := RetransPending { rt_obj : Z; rt_cb : v_retrans_cb_t; rt_arg : option Z }.

(** user_cb + user_arg of an EVALSHA. *)
Inductive evalsha_user :=
  | fp_cas_write_reply_cb (p : cas_pending)
  | fp_delete_reply_cb (p : cas_pending)
  | fp_teid_refill_reply_cb (part_id : Z).

(** struct v_evalsha_pending; [ep_argv] is part_ptr/part_len. *)
Record v_evalsha_pending := EvalshaPending {
  ep_obj : Z; ep_shard : Z; ep_script_id : v_script_id_t; ep_user : evalsha_user;
  ep_retried : bool; ep_argv : list bytes;
}.

(** struct v_script_load_ctx *)
Record v_script_load_ctx := ScriptLoadCtx {
  lc_obj : Z; lc_shard : Z; lc_script_id : v_script_id_t; lc_resume : option v_evalsha_pending;
}.

(** struct pending of v_node_state.c; the user callback is an opaque token. *)
Record node_pending := NodePending { np_obj : Z; np_cb : Z }.

(** v_db_cb_t + arg of one command in flight. *)
Inductive v_db_cb_t :=
  | fp_evalsha_reply_cb (p : v_evalsha_pending)
  | fp_load_reply_cb (lc : v_script_load_ctx)
  | fp_read_reply_cb (p : read_pending)
  | fp_confirm_reply_cb (p : simple_pending)
  | fp_seid_refill_reply_cb (part_id : Z)
  | fp_seed_reply_cb
  | fp_teid_free_reply_cb
  | fp_lookup_reply_cb (p : v_retrans_pending)
  | fp_store_ack_cb
  | fp_recovery_reply_cb (p : node_pending)
  | fp_simple_ack_cb (p : node_pending)
  | fp_assoc_query_reply_cb (p : node_pending).

(** ** Module states *)

Section state.
Context {DP : Dpdk} {PP : PfcpPort}.

(** One command handed to the connection of a shard. *)
Record db_cmd := DbCmd { dc_shard : Z; dc_argv : list bytes; dc_cb : v_db_cb_t; dc_obj : Z }.

(** v_port_db: connected shards, pending objects, the commands in flight in
    issue order, and whether the client library accepts the n-th command. *)
Record db_port := DbPort {
  db_connected : Z → bool;
  db_pending_pool : rte_mempool;
  db_queue : list db_cmd;
  db_issue_no : nat;
  db_accept : nat → bool;
}.

(** v_port_vdp: the data-plane operations in flight. *)
Inductive vdp_op :=
  | VDP_CREATE (part_id ctx : Z) | VDP_MODIFY (part_id ctx : Z) | VDP_DELETE (part_id seid : Z).
Record vdp_call := VdpCall { vc_op : vdp_op; vc_cb : v_vdp_cb_t; vc_arg : Z }.
Record vdp_port := VdpPort {
  vdp_queue : list vdp_call;
  vdp_issue_no : nat;
  vdp_accept : nat → bool;
}.

(** v_db_script.c: g_sha and the two pools. *)
Record db_script := DbScript {
  g_sha : gmap (Z * Z) bytes;
  g_evalsha_pool : rte_mempool;
  g_load_pool : rte_mempool;
}.

(** v_id_alloc.c: the static arrays, indexed by partition. *)
Record id_alloc := IdAlloc {
  g_seid_ring : gmap Z rte_ring;
  g_teid_ring : gmap Z rte_ring;
  g_seid_refill_inflight : gset Z;
  g_teid_refill_inflight : gset Z;
  g_teid_next_seeded : gset Z;
  g_initialized : bool;
}.

(** v_dispatch.c: v_dispatch_msg_t, the shared pool and the two rings. *)
Record v_dispatch_msg := DispatchMsg { m_buf : bytes; m_peer : sockaddr }.
Record dispatch := Dispatch {
  g_rx_ring : rte_ring;
  g_tx_ring : rte_ring;
  g_msg_pool : heap v_dispatch_msg;
}.

(** v_node_state.c: the key prefix, the cached time stamp and the pool. *)
Record node_state := NodeState {
  g_recovery_key : bytes;
  g_assoc_key : bytes;
  g_recovery_ts : Z;
  g_recovery_ts_ready : bool;
  g_node_pool : option rte_mempool;
}.

Record world := World {
  w_txns : heap v_txn;
  w_ctxs : heap pdu_ses_ctx;
  w_msgs : heap pfcp_msg;
  w_db : db_port;
  w_vdp : vdp_port;
  w_script : db_script;
  w_sess_pool : option rte_mempool;
  w_retrans_pool : option rte_mempool;
  w_ids : id_alloc;
  w_disp : dispatch;
  w_node : node_state;
  w_rr_base : Z;
  w_rr_ctr : Z;
  w_time : Z; (* time(NULL) *)
}.

Definition set_txns x w := World x (w_ctxs w) (w_msgs w) (w_db w) (w_vdp w) (w_script w)
  (w_sess_pool w) (w_retrans_pool w) (w_ids w) (w_disp w) (w_node w) (w_rr_base w) (w_rr_ctr w) (w_time w).
Definition set_ctxs x w := World (w_txns w) x (w_msgs w) (w_db w) (w_vdp w) (w_script w)
  (w_sess_pool w) (w_retrans_pool w) (w_ids w) (w_disp w) (w_node w) (w_rr_base w) (w_rr_ctr w) (w_time w).
Definition set_msgs x w := World (w_txns w) (w_ctxs w) x (w_db w) (w_vdp w) (w_script w)
  (w_sess_pool w) (w_retrans_pool w) (w_ids w) (w_disp w) (w_node w) (w_rr_base w) (w_rr_ctr w) (w_time w).
Definition set_db x w := World (w_txns w) (w_ctxs w) (w_msgs w) x (w_vdp w) (w_script w)
  (w_sess_pool w) (w_retrans_pool w) (w_ids w) (w_disp w) (w_node w) (w_rr_base w) (w_rr_ctr w) (w_time w).
Definition set_vdp x w := World (w_txns w) (w_ctxs w) (w_msgs w) (w_db w) x (w_script w)
  (w_sess_pool w) (w_retrans_pool w) (w_ids w) (w_disp w) (w_node w) (w_rr_base w) (w_rr_ctr w) (w_time w).
Definition set_script x w := World (w_txns w) (w_ctxs w) (w_msgs w) (w_db w) (w_vdp w) x
  (w_sess_pool w) (w_retrans_pool w) (w_ids w) (w_disp w) (w_node w) (w_rr_base w) (w_rr_ctr w) (w_time w).
Definition set_sess_pool x w := World (w_txns w) (w_ctxs w) (w_msgs w) (w_db w) (w_vdp w) (w_script w)
  x (w_retrans_pool w) (w_ids w) (w_disp w) (w_node w) (w_rr_base w) (w_rr_ctr w) (w_time w).
Definition set_retrans_pool x w := World (w_txns w) (w_ctxs w) (w_msgs w) (w_db w) (w_vdp w) (w_script w)
  (w_sess_pool w) x (w_ids w) (w_disp w) (w_node w) (w_rr_base w) (w_rr_ctr w) (w_time w).
Definition set_ids x w := World (w_txns w) (w_ctxs w) (w_msgs w) (w_db w) (w_vdp w) (w_script w)
  (w_sess_pool w) (w_retrans_pool w) x (w_disp w) (w_node w) (w_rr_base w) (w_rr_ctr w) (w_time w).
Definition set_disp x w := World (w_txns w) (w_ctxs w) (w_msgs w) (w_db w) (w_vdp w) (w_script w)
  (w_sess_pool w) (w_retrans_pool w) (w_ids w) x (w_node w) (w_rr_base w) (w_rr_ctr w) (w_time w).
Definition set_node x w := World (w_txns w) (w_ctxs w) (w_msgs w) (w_db w) (w_vdp w) (w_script w)
  (w_sess_pool w) (w_retrans_pool w) (w_ids w) (w_disp w) x (w_rr_base w) (w_rr_ctr w) (w_time w).
Definition set_rr_ctr x w := World (w_txns w) (w_ctxs w) (w_msgs w) (w_db w) (w_vdp w) (w_script w)
  (w_sess_pool w) (w_retrans_pool w) (w_ids w) (w_disp w) (w_node w) (w_rr_base w) x (w_time w).
Definition set_rr_base x w := World (w_txns w) (w_ctxs w) (w_msgs w) (w_db w) (w_vdp w) (w_script w)
  (w_sess_pool w) (w_retrans_pool w) (w_ids w) (w_disp w) (w_node w) x (w_rr_ctr w) (w_time w).
Definition set_time x w := World (w_txns w) (w_ctxs w) (w_msgs w) (w_db w) (w_vdp w) (w_script w)
  (w_sess_pool w) (w_retrans_pool w) (w_ids w) (w_disp w) (w_node w) (w_rr_base w) (w_rr_ctr w) x.

(** An operation of the process. *)
Definition M (A : Type) : Type := SM world A.

(** ** v_port_db: issuing commands (stubs/v_stub_db) *)

Definition V_STUB_DB_SHARDS : Z := 5.

Definition db_set_queue q (d : db_port) : db_port :=
  DbPort (db_connected d) (db_pending_pool d) q (db_issue_no d) (db_accept d).

(** v_port_db_cmd_argv and, with the format already split into arguments,
    v_port_db_cmd: RET_CODE_ERR when the shard is not connected, when the
    pending pool is exhausted and when the client library refuses. *)
Definition v_port_db_cmd_argv (shard : Z) (cb : v_db_cb_t) (argv : list bytes) : M Z := λ w,
  let d := w_db w in
  if (V_STUB_DB_SHARDS <=? shard) || negb (db_connected d shard) then Some (RET_CODE_ERR, w)
  else
    match rte_mempool_get (db_pending_pool d) with
    | None => Some (RET_CODE_ERR, w)
    | Some (p, pool) =>
        let n := db_issue_no d in
        if db_accept d n then
          Some (RET_CODE_OK, set_db (DbPort (db_connected d) pool
            (db_queue d ++ [DbCmd shard argv cb p]) (S n) (db_accept d)) w)
        else
          Some (RET_CODE_ERR, set_db (DbPort (db_connected d) (rte_mempool_put pool p)
            (db_queue d) (S n) (db_accept d)) w)
    end.

Definition v_port_db_cmd := v_port_db_cmd_argv.

(** v_port_db_shard_of: FNV-1a over the key, modulo the shard count. *)
Definition v_port_db_shard_of (key : bytes) : Z := u8 (fnv1a (ascii_code <$> key) mod V_STUB_DB_SHARDS).

(** on_reply: [None] is the NULL reply of a broken connection; the pending
    object is released after the callback. *)
Definition on_reply (invoke : v_db_cb_t → Z → option v_db_reply → M ())
    (c : db_cmd) (reply : option v_db_reply) : M () :=
  _ ← invoke (dc_cb c) (match reply with Some _ => RET_CODE_OK | None => RET_CODE_ERR end) reply;
  modify (λ w, let d := w_db w in
    set_db (DbPort (db_connected d) (rte_mempool_put (db_pending_pool d) (dc_obj c))
              (db_queue d) (db_issue_no d) (db_accept d)) w).

(** ** v_port_vdp: dispatching a data-plane operation *)

Definition vdp_dispatch (op : vdp_op) (cb : v_vdp_cb_t) (arg : Z) : M Z := λ w,
  let v := w_vdp w in
  let n := vdp_issue_no v in
  if vdp_accept v n then
    Some (RET_CODE_OK, set_vdp (VdpPort (vdp_queue v ++ [VdpCall op cb arg]) (S n) (vdp_accept v)) w)
  else Some (RET_CODE_ERR, set_vdp (VdpPort (vdp_queue v) (S n) (vdp_accept v)) w).

Definition v_port_vdp_session_create (part_id ctx : Z) := vdp_dispatch (VDP_CREATE part_id ctx).
Definition v_port_vdp_session_modify (part_id ctx : Z) := vdp_dispatch (VDP_MODIFY part_id ctx).
Definition v_port_vdp_session_delete (part_id seid : Z) := vdp_dispatch (VDP_DELETE part_id seid).

(** ** v_port_txn, v_port_mem, v_port_pfcp: objects *)

(** Reading through a transaction pointer; not live is undefined behaviour. *)
Definition txn_get (t : Z) : M v_txn := λ w,
  match heap_get (w_txns w) t with Some x => Some (x, w) | None => None end.

Definition txn_upd (t : Z) (f : v_txn → v_txn) : M () := λ w,
  match heap_get (w_txns w) t with
  | Some x => Some (tt, set_txns (heap_set t (f x) (w_txns w)) w)
  | None => None
  end.

Definition txn_zero : v_txn := Txn TXN_ST_RECV 0 0 0 0 0 None None sockaddr_zero 0 None.

Definition v_port_txn_create : M (option Z) := λ w,
  match heap_alloc txn_zero (w_txns w) with
  | Some (t, h) => Some (Some t, set_txns h w)
  | None => Some (None, w)
  end.

Definition v_port_txn_destroy (t : Z) : M () := λ w,
  match heap_get (w_txns w) t with
  | Some _ => Some (tt, set_txns (heap_free t (w_txns w)) w)
  | None => Some (tt, w) (* double free: logged, ignored *)
  end.

Definition v_port_ctx_alloc : M (option Z) := λ w,
  match heap_alloc ctx_cleared (w_ctxs w) with
  | Some (c, h) => Some (Some c, set_ctxs h w)
  | None => Some (None, w)
  end.

Definition v_port_ctx_free (c : Z) : M () := λ w,
  match heap_get (w_ctxs w) c with
  | Some _ => Some (tt, set_ctxs (heap_free c (w_ctxs w)) w)
  | None => Some (tt, w) (* double free: logged, ignored *)
  end.

Definition ctx_get (c : Z) : M pdu_ses_ctx := λ w,
  match heap_get (w_ctxs w) c with Some x => Some (x, w) | None => None end.

Definition ctx_set (c : Z) (x : pdu_ses_ctx) : M () := λ w,
  match heap_get (w_ctxs w) c with
  | Some _ => Some (tt, set_ctxs (heap_set c x (w_ctxs w)) w)
  | None => None
  end.

Definition v_port_ctx_clear (c : Z) : M () := ctx_set c ctx_cleared.

Definition msg_get (m : Z) : M pfcp_msg := λ w,
  match heap_get (w_msgs w) m with Some x => Some (x, w) | None => None end.

Definition v_port_pfcp_msg_free (m : Z) : M () := λ w,
  match heap_get (w_msgs w) m with
  | Some _ => Some (tt, set_msgs (heap_free m (w_msgs w)) w)
  | None => Some (tt, w) (* double free: logged, ignored *)
  end.

(** v_port_pfcp_decode: a decoded message lives in the message pool. *)
Definition pfcp_decode (buf : bytes) : M (option Z) := λ w,
  match v_port_pfcp_decode buf with
  | None => Some (None, w)
  | Some m =>
      match heap_alloc m (w_msgs w) with
      | Some (p, h) => Some (Some p, set_msgs h w)
      | None => Some (None, w)
      end
  end.

(** Dereference of a nullable pointer. *)
Definition deref (p : option Z) : M Z := match p with Some x => mret x | None => crash end.

End state.

Arguments world {DP PP}.
Arguments M {DP PP} A.
