(* ===== verification/StubTxn.v ===== *)
(** Component v_stub_txn: the transaction table behind v_port_txn, a fixed
    array of slots over an object pool with a simulated clock and one hard
    timeout per transaction, and its refinement of the port contract that
    World.v states as a heap. *)
From S2P Require Import Prelude Dpdk Heap Redis World.

Definition V_STUB_TXN_CAP : Z := 8192.
Definition V_STUB_TXN_HARD_TIMEOUT_MS : Z := 2000.

Section stub_txn.
Context {DP : Dpdk} {PP : PfcpPort}.

(** The static variables: [tt_heap] is g_pool with the contents of its live
    objects. *)
Record txn_table := TxnTable {
  tt_heap : heap v_txn;
  g_slots : list (option Z);
  g_fired : list bool;
  g_now_ms : Z;
}.

(** v_port_txn_init; [None] is the state in which g_pool is NULL, where the
    slots are clear and flags and clock are not used. *)
Definition v_port_txn_init (s : option txn_table) : Z * option txn_table :=
  match s with
  | Some _ => (RET_CODE_ERR, s) (* called twice *)
  | None =>
      match rte_mempool_create V_STUB_TXN_CAP with
      | Some p => (RET_CODE_OK, Some (TxnTable (Heap p ∅) (replicate (Z.to_nat V_STUB_TXN_CAP) None)
                                               (replicate (Z.to_nat V_STUB_TXN_CAP) false) 0))
      | None => (RET_CODE_ERR, None)
      end
  end.

(** v_port_txn_fini: the pool it releases; g_pool is NULL and the slots are
    clear. *)
Definition v_port_txn_fini (s : option txn_table) : option rte_mempool * option txn_table :=
  ((λ T, hp_pool (tt_heap T)) <$> s, None).

(** [for (i = 0; i < CAP; i++) if (!g_slots[i]) { slot = i; break; }] *)
Fixpoint free_slot (l : list (option Z)) : option nat :=
  match l with
  | [] => None
  | None :: _ => Some 0%nat
  | Some _ :: l' => S <$> free_slot l'
  end.

(** slot_of *)
Fixpoint slot_of (t : Z) (l : list (option Z)) : option nat :=
  match l with
  | [] => None
  | o :: l' => if decide (o = Some t) then Some 0%nat else S <$> slot_of t l'
  end.

Definition with_deadline (d : Z) (x : v_txn) : v_txn := Txn (t_state x) (t_db_ver x) (t_cas_retry x) (t_part_id x)
  (t_seid x) (t_teid x) (t_req x) (t_ctx x) (t_peer x) d (t_impl x).

(** v_port_txn_create *)
Definition v_port_txn_create (T : txn_table) : option Z * txn_table :=
  match free_slot (g_slots T) with
  | None => (None, T)
  | Some i =>
      match heap_alloc (with_deadline (u64 (g_now_ms T + V_STUB_TXN_HARD_TIMEOUT_MS)) txn_zero) (tt_heap T) with
      | None => (None, T)
      | Some (t, h) => (Some t, TxnTable h (<[i := Some t]> (g_slots T)) (<[i := false]> (g_fired T)) (g_now_ms T))
      end
  end.

(** v_port_txn_destroy *)
Definition v_port_txn_destroy (t : Z) (T : txn_table) : txn_table :=
  match slot_of t (g_slots T) with
  | None => T
  | Some i => TxnTable (heap_free t (tt_heap T)) (<[i := None]> (g_slots T)) (<[i := false]> (g_fired T)) (g_now_ms T)
  end.

(** The two linear searches; [None] is undefined behaviour (a slot or a
    request that is not live). *)
Fixpoint find_slot (p : v_txn → option bool) (h : heap v_txn) (l : list (option Z)) : option (option Z) :=
  match l with
  | [] => Some None
  | None :: l' => find_slot p h l'
  | Some t :: l' =>
      x ← heap_get h t;
      b ← p x;
      if (b : bool) then Some (Some t) else find_slot p h l'
  end.

Definition has_seq (msgs : heap pfcp_msg) (smf_fseid seq : Z) (x : v_txn) : option bool :=
  match t_req x with
  | None => Some false
  | Some r => m ← heap_get msgs r; Some ((v_port_pfcp_smf_fseid m =? smf_fseid) && (v_port_pfcp_seq m =? seq))
  end.

(** v_port_txn_find_by_seq *)
Definition v_port_txn_find_by_seq (msgs : heap pfcp_msg) (smf_fseid seq : Z) (T : txn_table) : option (option Z) :=
  find_slot (has_seq msgs smf_fseid seq) (tt_heap T) (g_slots T).

(** v_port_txn_find_by_seid *)
Definition v_port_txn_find_by_seid (seid : Z) (T : txn_table) : option (option Z) :=
  find_slot (λ x, Some (t_seid x =? seid)) (tt_heap T) (g_slots T).

(** v_port_txn_set_state *)
Definition v_port_txn_set_state (t : Z) (s : v_txn_state_t) (T : txn_table) : option txn_table :=
  x ← heap_get (tt_heap T) t;
  Some (TxnTable (heap_set t (Txn s (t_db_ver x) (t_cas_retry x) (t_part_id x) (t_seid x) (t_teid x) (t_req x)
    (t_ctx x) (t_peer x) (t_deadline_ms x) (t_impl x)) (tt_heap T)) (g_slots T) (g_fired T) (g_now_ms T)).

Definition set_fired (i : nat) (T : txn_table) : txn_table :=
  TxnTable (tt_heap T) (g_slots T) (<[i := true]> (g_fired T)) (g_now_ms T).

(** The loop of v_port_txn_test_advance_ms over the slots i, i+1, ... ([n]
    left); the callback acts on the table and on the state [W] around it. *)
Fixpoint advance_loop {W} (cb : Z → SM (txn_table * W) ()) (i n : nat) : SM (txn_table * W) () :=
  match n with
  | O => mret tt
  | S n' =>
      '(T, _) ← gets id;
      match g_slots T !! i, g_fired T !! i with
      | Some (Some t), Some false =>
          match heap_get (tt_heap T) t with
          | None => crash
          | Some x =>
              if t_deadline_ms x <=? g_now_ms T then
                _ ← modify (λ s, (set_fired i s.1, s.2));
                _ ← cb t;
                advance_loop cb (S i) n'
              else advance_loop cb (S i) n'
          end
      | _, _ => advance_loop cb (S i) n'
      end
  end.

(** v_port_txn_test_advance_ms *)
Definition v_port_txn_test_advance_ms {W} (cb : Z → SM (txn_table * W) ()) (ms : Z) : SM (txn_table * W) () :=
  _ ← modify (λ s, (TxnTable (tt_heap s.1) (g_slots s.1) (g_fired s.1) (u64 (g_now_ms s.1 + ms)), s.2));
  advance_loop cb 0 (Z.to_nat V_STUB_TXN_CAP).

(** v_port_txn_test_hard_timeout_ms *)
Definition v_port_txn_test_hard_timeout_ms : Z := V_STUB_TXN_HARD_TIMEOUT_MS.

#[local] Opaque V_STUB_TXN_CAP.

(** ** The table invariant *)

Fixpoint occupied (l : list (option Z)) : list Z :=
  match l with
  | [] => []
  | Some t :: l' => t :: occupied l'
  | None :: l' => occupied l'
  end.

(** Slots and live objects correspond one to one, and the pool and the live
    objects make up the capacity. *)
Record table_ok (T : txn_table) : Prop := {
  ok_slots : length (g_slots T) = Z.to_nat V_STUB_TXN_CAP;
  ok_fired : length (g_fired T) = Z.to_nat V_STUB_TXN_CAP;
  ok_nodup : NoDup (occupied (g_slots T));
  ok_live t : t ∈ occupied (g_slots T) ↔ is_Some (hp_mem (tt_heap T) !! t);
  ok_heap : heap_wf (tt_heap T);
  ok_total : heap_total (tt_heap T) = V_STUB_TXN_CAP;
}.


Lemma free_slot_None l : free_slot l = None → length (occupied l) = length l.
Proof.
  induction l as [|[t|] l IH]; cbn; [done| |done].
  destruct (free_slot l); [done|]. intros _. by rewrite IH.
Qed.

Lemma free_slot_Some l i t : free_slot l = Some i →
  (i < length l)%nat ∧ occupied (<[i := Some t]> l) ≡ₚ t :: occupied l.
Proof.
  revert i. induction l as [|[u|] l IH]; cbn; intros i; [done| |intros [= <-]; cbn; split; [lia|done]].
  destruct (free_slot l) as [j|]; cbn; [|done]. intros [= <-]. destruct (IH j eq_refl) as [Hj Hp]. split; [lia|].
  cbn. rewrite Hp. apply Permutation_swap.
Qed.

Lemma slot_of_Some t l i : slot_of t l = Some i → l !! i = Some (Some t).
Proof.
  revert i. induction l as [|o l IH]; cbn; intros i; [done|]. case_decide as Ho; [intros [= <-]; by subst|].
  destruct (slot_of t l) as [j|]; cbn; [|done]. intros [= <-]. by apply IH.
Qed.

Lemma slot_of_None t l : slot_of t l = None → t ∉ occupied l.
Proof.
  induction l as [|o l IH]; cbn; [intros _ ?%not_elem_of_nil; done|]. case_decide as Ho; [done|].
  destruct (slot_of t l); [done|]. intros _. destruct o as [u|]; cbn; [|by apply IH].
  rewrite elem_of_cons. intros [->|H]; [done|by apply IH].
Qed.

Lemma occupied_clear l i t : l !! i = Some (Some t) → occupied l ≡ₚ t :: occupied (<[i := None]> l).
Proof.
  revert i. induction l as [|o l IH]; intros [|i]; cbn; try done; [by intros [= ->]|].
  intros H. destruct o as [u|]; cbn; [|by apply IH].
  rewrite (IH i H). apply Permutation_swap.
Qed.

Lemma occupied_lookup l t : t ∈ occupied l ↔ ∃ i, l !! i = Some (Some t).
Proof.
  induction l as [|o l IH]; cbn; [split; [by intros ?%not_elem_of_nil|by intros [i Hi]]|].
  assert (t ∈ match o with Some u => u :: occupied l | None => occupied l end ↔ o = Some t ∨ t ∈ occupied l) as ->.
  { destruct o as [u|]; [rewrite elem_of_cons|by split; [right|intros [|]]].
    by split; [intros [->|H]; [left|right]|intros [[= ->]|H]; [left|right]]. }
  rewrite IH. split; [intros [->|[i Hi]]; [by exists 0%nat|by exists (S i)]|].
  intros [[|i] Hi]; [left; by injection Hi|right; by exists i].
Qed.

Lemma occupied_length T : table_ok T → length (occupied (g_slots T)) = size (hp_mem (tt_heap T)).
Proof.
  intros [_ _ Hnd Hlive _ _]. rewrite <- size_dom. unfold size, set_size. cbn.
  apply Permutation_length, NoDup_Permutation; [done|apply NoDup_elements|].
  intros t. by rewrite elem_of_elements, elem_of_dom.
Qed.

(** A free object implies a free slot: the pool bounds the table. *)
Lemma slot_available T p pool :
  table_ok T → rte_mempool_get (hp_pool (tt_heap T)) = Some (p, pool) → free_slot (g_slots T) ≠ None.
Proof.
  intros HT Hg Hf. apply free_slot_None in Hf. rewrite (occupied_length T HT), (ok_slots _ HT) in Hf.
  pose proof (ok_total _ HT) as Ht. unfold heap_total in Ht.
  apply mp_get_law in Hg. apply Permutation_length in Hg. cbn in Hg. lia.
Qed.

Lemma create_ok T o T' : table_ok T → v_port_txn_create T = (o, T') →
  table_ok T' ∧
  match o with
  | Some t =>
      heap_alloc (with_deadline (u64 (g_now_ms T + V_STUB_TXN_HARD_TIMEOUT_MS)) txn_zero) (tt_heap T) = Some (t, tt_heap T') ∧
      ∃ i, free_slot (g_slots T) = Some i ∧ g_slots T' = <[i := Some t]> (g_slots T) ∧
           g_fired T' = <[i := false]> (g_fired T)
  | None => T' = T ∧ mp_free (hp_pool (tt_heap T)) = []
  end ∧ g_now_ms T' = g_now_ms T.
Proof.
  intros HT. unfold v_port_txn_create.
  destruct (heap_alloc _ (tt_heap T)) as [[t h]|] eqn:Ea.
  - pose proof (heap_alloc_Some _ _ _ _ (ok_heap _ HT) Ea) as (Hnone&Hmem&Hwf&Htot).
    destruct (free_slot (g_slots T)) as [i|] eqn:Ef.
    2: { exfalso. unfold heap_alloc in Ea. destruct (rte_mempool_get _) as [[q pool]|] eqn:Eg; [|done].
         by apply (slot_available T q pool HT Eg). }
    intros [= <- <-]. destruct (free_slot_Some (g_slots T) i t Ef) as [Hi Hocc].
    split; [|split; [split; [done|by exists i]|done]].
    split; cbn; [by rewrite length_insert, (ok_slots _ HT)|by rewrite length_insert, (ok_fired _ HT)| | |done|by rewrite Htot, (ok_total _ HT)].
    + rewrite Hocc. constructor; [|apply HT]. rewrite (ok_live _ HT), Hnone. by intros [].
    + intros u. rewrite Hocc, Hmem, elem_of_cons, (ok_live _ HT). destruct (decide (u = t)) as [->|Hne].
      * rewrite lookup_insert_eq. split; [by eexists|by left].
      * rewrite lookup_insert_ne by done. split; [by intros [->|]|by right].
  - apply heap_alloc_None in Ea.
    destruct (free_slot (g_slots T)); intros [= <- <-]; done.
Qed.

Lemma destroy_ok t T : table_ok T →
  table_ok (v_port_txn_destroy t T) ∧ g_now_ms (v_port_txn_destroy t T) = g_now_ms T ∧
  match heap_get (tt_heap T) t with
  | Some _ => tt_heap (v_port_txn_destroy t T) = heap_free t (tt_heap T) ∧
      ∃ i, g_slots T !! i = Some (Some t) ∧ g_slots (v_port_txn_destroy t T) = <[i := None]> (g_slots T) ∧
           g_fired (v_port_txn_destroy t T) = <[i := false]> (g_fired T)
  | None => v_port_txn_destroy t T = T
  end.
Proof.
  intros HT. unfold v_port_txn_destroy, heap_get.
  destruct (slot_of t (g_slots T)) as [i|] eqn:Es.
  - apply slot_of_Some in Es. pose proof (occupied_clear _ _ _ Es) as Hocc.
    assert (is_Some (hp_mem (tt_heap T) !! t)) as [x Hx].
    { apply (ok_live _ HT), occupied_lookup. by exists i. }
    destruct (heap_free_spec t _ x (ok_heap _ HT) Hx) as (Hmem&Hwf&Htot).
    assert (NoDup (t :: occupied (<[i := None]> (g_slots T)))) as Hnd by (rewrite <- Hocc; apply HT).
    apply NoDup_cons in Hnd as [Hnin Hnd]. rewrite Hx. split; [|split; [done|split; [done|by exists i]]].
    split; cbn; [by rewrite length_insert, (ok_slots _ HT)|by rewrite length_insert, (ok_fired _ HT)|done| |done|by rewrite Htot, (ok_total _ HT)].
    intros u. pose proof (ok_live _ HT u) as Hu. rewrite Hocc, elem_of_cons in Hu.
    destruct (decide (u = t)) as [->|Hne].
    + rewrite lookup_delete_eq. split; [done|by intros []].
    + rewrite lookup_delete_ne by done. rewrite <- Hu. split; [by right|by intros [->|]].
  - apply slot_of_None in Es. rewrite (ok_live _ HT) in Es.
    destruct (hp_mem (tt_heap T) !! t) as [x|] eqn:Ex; [by destruct Es|done].
Qed.

(** ** Refinement of the port contract *)

(** The heap of World.v: the deadline belongs to the table. *)
Definition contract_view (T : txn_table) : heap v_txn :=
  Heap (hp_pool (tt_heap T)) (with_deadline 0 <$> hp_mem (tt_heap T)).

Lemma contract_init T : v_port_txn_init None = (RET_CODE_OK, Some T) → table_ok T ∧ hp_mem (tt_heap T) = ∅.
Proof.
  unfold v_port_txn_init. destruct (rte_mempool_create V_STUB_TXN_CAP) as [p|] eqn:E; [|done]. intros [= <-].
  apply mp_create_law in E as [Hnd Hlen].
  assert (occupied (replicate (Z.to_nat V_STUB_TXN_CAP) None) = []) as Hocc.
  { clear. generalize (Z.to_nat V_STUB_TXN_CAP). intros n. induction n as [|n IH]; [done|]. exact IH. }
  split; [|done]. split; cbn [g_slots g_fired tt_heap].
  - apply length_replicate.
  - apply length_replicate.
  - rewrite Hocc. constructor.
  - intros t. rewrite Hocc. cbn [hp_mem]. rewrite lookup_empty, elem_of_nil. split; [intros []|by intros []].
  - split; [exact Hnd|]. intros t _. apply lookup_empty.
  - unfold heap_total. cbn [hp_pool hp_mem]. rewrite map_size_empty. lia.
Qed.

(** The initial table: every slot and every object is free. *)
Lemma init_all_free T : v_port_txn_init None = (RET_CODE_OK, Some T) →
  free_slot (g_slots T) = Some 0%nat ∧ Z.of_nat (length (mp_free (hp_pool (tt_heap T)))) = V_STUB_TXN_CAP.
Proof.
  intros HT. destruct (contract_init T HT) as [Hok Hm]. split.
  - unfold v_port_txn_init in HT. destruct (rte_mempool_create _); [|done]. injection HT as <-. cbn [g_slots].
    destruct (Z.to_nat V_STUB_TXN_CAP) eqn:E; [discriminate E|done].
  - pose proof (ok_total _ Hok) as Ht. unfold heap_total in Ht. rewrite Hm, map_size_empty in Ht. lia.
Qed.

(** C20: the stub table implements the transaction port.  A table in its
    invariant stands for the heap of live transactions that the pod model
    uses: creation succeeds exactly when the contract's allocation does, with
    the same object, although it needs a free slot besides a free object;
    destruction releases exactly the live objects and ignores others; both
    keep the invariant. *)
Theorem stub_txn_refines_contract T w :
  table_ok T → w_txns w = contract_view T →
  (let '(o, T') := v_port_txn_create T in
     table_ok T' ∧ World.v_port_txn_create w = Some (o, set_txns (contract_view T') w)) ∧
  (∀ t, table_ok (v_port_txn_destroy t T) ∧
     World.v_port_txn_destroy t w = Some (tt, set_txns (contract_view (v_port_txn_destroy t T)) w)).
Proof.
  intros HT Hw. assert (set_txns (contract_view T) w = w) as Hid by (rewrite <- Hw; by destruct w). split.
  - destruct (v_port_txn_create T) as [o T'] eqn:Ec. destruct (create_ok T o T' HT Ec) as (HT'&Ho&_).
    split; [done|]. unfold World.v_port_txn_create. rewrite Hw. unfold heap_alloc, contract_view in *.
    cbn [hp_pool hp_mem] in *. destruct o as [t|].
    + destruct Ho as [Ha _]. destruct (rte_mempool_get _) as [[q pool]|]; [|done].
      injection Ha as -> <-. cbn [hp_pool hp_mem]. by rewrite fmap_insert.
    + destruct Ho as [-> Hno%mp_get_none]. by rewrite Hno, Hid.
  - intros t. destruct (destroy_ok t T HT) as (HT'&_&Hd). split; [done|].
    unfold World.v_port_txn_destroy, heap_get in *. rewrite Hw. unfold contract_view at 1. cbn [hp_mem].
    rewrite lookup_fmap. destruct (hp_mem (tt_heap T) !! t) as [x|]; cbn [fmap option_fmap option_map].
    + destruct Hd as [Hh _]. unfold contract_view. rewrite Hh. cbn [heap_free hp_pool hp_mem]. unfold heap_free. cbn [hp_pool hp_mem].
      by rewrite fmap_delete.
    + by rewrite Hd, Hid.
Qed.

(** ** Lookups *)

Lemma find_slot_spec p h l :
  (∀ t, t ∈ occupied l → ∃ x b, heap_get h t = Some x ∧ p x = Some b) →
  ∃ o, find_slot p h l = Some o ∧
    match o with
    | Some t => t ∈ occupied l ∧ ∃ x, heap_get h t = Some x ∧ p x = Some true
    | None => ∀ t x, t ∈ occupied l → heap_get h t = Some x → p x = Some false
    end.
Proof.
  induction l as [|[t|] l IH]; intros Hl; cbn [find_slot occupied].
  - exists None. split; [done|]. by intros t x ?%not_elem_of_nil.
  - destruct (Hl t) as (x&b&Hx&Hb); [left|]. rewrite Hx. cbn [mbind option_bind]. rewrite Hb. destruct b.
    + exists (Some t). split; [done|]. split; [left|]. by exists x.
    + destruct IH as (o&Ho&Hs); [intros u Hu; apply Hl; by right|]. exists o. split; [done|].
      destruct o as [u|]; [destruct Hs as [Hu ?]; split; [by right|done]|].
      intros u y [->|Hu]%elem_of_cons Hy; [congruence|by eapply Hs].
  - by apply IH.
Qed.

(** The lookups of the table find a live transaction with the wanted key
    exactly when there is one. *)
Theorem txn_find_correct T msgs :
  table_ok T → (∀ t x r, hp_mem (tt_heap T) !! t = Some x → t_req x = Some r → is_Some (hp_mem msgs !! r)) →
  (∀ seid, ∃ o, v_port_txn_find_by_seid seid T = Some o ∧
     match o with
     | Some t => ∃ x, hp_mem (tt_heap T) !! t = Some x ∧ t_seid x = seid
     | None => ∀ t x, hp_mem (tt_heap T) !! t = Some x → t_seid x ≠ seid
     end) ∧
  (∀ fseid seq, ∃ o, v_port_txn_find_by_seq msgs fseid seq T = Some o ∧
     let matches t := ∃ x r m, hp_mem (tt_heap T) !! t = Some x ∧ t_req x = Some r ∧ hp_mem msgs !! r = Some m ∧
                        v_port_pfcp_smf_fseid m = fseid ∧ v_port_pfcp_seq m = seq in
     match o with Some t => matches t | None => ∀ t, ¬ matches t end).
Proof.
  intros HT Hreq. assert (∀ t, t ∈ occupied (g_slots T) → ∃ x, heap_get (tt_heap T) t = Some x) as Hlive.
  { intros t Ht. by apply (ok_live _ HT) in Ht as [x Hx]; exists x. }
  assert (∀ t x, hp_mem (tt_heap T) !! t = Some x → t ∈ occupied (g_slots T)) as Hocc.
  { intros t x Hx. apply (ok_live _ HT). by exists x. }
  split.
  - intros seid. destruct (find_slot_spec (λ x, Some (t_seid x =? seid)) (tt_heap T) (g_slots T)) as (o&Ho&Hs).
    { intros t Ht. destruct (Hlive t Ht) as [x Hx]. by eexists x, _. }
    exists o. split; [done|]. destruct o as [t|].
    + destruct Hs as (_&x&Hx&[= H%Z.eqb_eq]). by exists x.
    + intros t x Hx. specialize (Hs t x (Hocc t x Hx) Hx). injection Hs as H%Z.eqb_neq. done.
  - intros fseid seq.
    assert (∀ t x, hp_mem (tt_heap T) !! t = Some x → ∃ b, has_seq msgs fseid seq x = Some b) as Hb.
    { intros t x Hx. unfold has_seq, heap_get. destruct (t_req x) as [r|] eqn:Er; [|by eexists].
      destruct (Hreq t x r Hx Er) as [m ->]. by eexists. }
    destruct (find_slot_spec (has_seq msgs fseid seq) (tt_heap T) (g_slots T)) as (o&Ho&Hs).
    { intros t Ht. destruct (Hlive t Ht) as [x Hx]. destruct (Hb t x Hx) as [b ?]. by exists x, b. }
    exists o. split; [done|]. cbn zeta. destruct o as [t|].
    + destruct Hs as (_&x&Hx&Hp). unfold has_seq, heap_get in Hp. destruct (t_req x) as [r|] eqn:Er; [|done].
      destruct (hp_mem msgs !! r) as [m|] eqn:Em; [|done]. cbn in Hp.
      injection Hp as [H1%Z.eqb_eq H2%Z.eqb_eq]%andb_true_iff. by exists x, r, m.
    + intros t (x&r&m&Hx&Er&Em&H1&H2). specialize (Hs t x (Hocc t x Hx) Hx).
      unfold has_seq, heap_get in Hs. rewrite Er, Em in Hs. cbn in Hs. by rewrite H1, H2, !Z.eqb_refl in Hs.
Qed.

(** ** The hard timeout *)

(** What timeout_handler does to the table, recorded in a log. *)
Definition sweep (t : Z) : SM (txn_table * list Z) () := λ s, Some (tt, (v_port_txn_destroy t s.1, s.2 ++ [t])).

(** A transaction that is still in the table has not fired. *)
Definition flags_clear (T : txn_table) : Prop :=
  ∀ i t, g_slots T !! i = Some (Some t) → g_fired T !! i = Some false.

Definition expired_at (T : txn_table) (now t : Z) : Prop :=
  ∃ x, hp_mem (tt_heap T) !! t = Some x ∧ t_deadline_ms x <= now.

Lemma set_fired_ok i T : table_ok T → table_ok (set_fired i T).
Proof. intros []. split; cbn; try done. by rewrite length_insert. Qed.

Lemma slot_unique (l : list (option Z)) t : ∀ i k,
  NoDup (occupied l) → l !! i = Some (Some t) → l !! k = Some (Some t) → i = k.
Proof.
  induction l as [|o l IH]; intros [|i] [|k] Hnd Hi Hk; cbn in *; try done; simplify_eq.
  - apply NoDup_cons in Hnd as [Hn _]. destruct Hn. apply occupied_lookup. by exists k.
  - apply NoDup_cons in Hnd as [Hn _]. destruct Hn. apply occupied_lookup. by exists i.
  - f_equal. apply IH; [|done|done]. destruct o; [by apply NoDup_cons in Hnd as [_ ?]|done].
Qed.

Lemma sweep_one T i t x :
  table_ok T → flags_clear T → g_slots T !! i = Some (Some t) → hp_mem (tt_heap T) !! t = Some x →
  let T1 := v_port_txn_destroy t (set_fired i T) in
  table_ok T1 ∧ flags_clear T1 ∧ g_now_ms T1 = g_now_ms T ∧ hp_mem (tt_heap T1) = delete t (hp_mem (tt_heap T)) ∧
  g_slots T1 = <[i := None]> (g_slots T).
Proof.
  intros HT Hf Hi Hx. cbn zeta.
  destruct (destroy_ok t (set_fired i T) (set_fired_ok i T HT)) as (HT1&Hnow&Hd).
  unfold heap_get in Hd. cbn [set_fired tt_heap g_slots g_fired g_now_ms] in Hd, Hnow. rewrite Hx in Hd.
  destruct Hd as (Hh&k&Hk&Hs&Hfl).
  assert (k = i) as -> by (by eapply slot_unique; [apply (ok_nodup _ HT)| |]).
  split; [done|]. split; [|split; [done|split; [by rewrite Hh|exact Hs]]].
  intros j u Hj. rewrite Hs in Hj. rewrite Hfl. destruct (decide (j = i)) as [->|Hne].
  - rewrite list_lookup_insert_eq in Hj by (by eapply lookup_lt_Some). done.
  - rewrite list_lookup_insert_ne in Hj by done. rewrite !list_lookup_insert_ne by done. by apply (Hf j u).
Qed.

(** What scanning the slots from [i] on makes of [T]: the transactions [out]
    fired, in [T'] they are gone. *)
Record swept (i : nat) (T T' : txn_table) (out : list Z) : Prop := {
  sw_ok : table_ok T';
  sw_flags : flags_clear T';
  sw_now : g_now_ms T' = g_now_ms T;
  sw_once : NoDup out;
  sw_out t : t ∈ out ↔ expired_at T (g_now_ms T) t ∧ ∃ j, (i <= j)%nat ∧ g_slots T !! j = Some (Some t);
  sw_mem t : hp_mem (tt_heap T') !! t = if decide (t ∈ out) then None else hp_mem (tt_heap T) !! t;
}.

(** A slot that is empty or has not expired. *)
Lemma swept_skip i T T' out :
  (∀ t, g_slots T !! i = Some (Some t) → ¬ expired_at T (g_now_ms T) t) → swept (S i) T T' out → swept i T T' out.
Proof.
  intros Hi [H1 H2 H3 H4 H5 H6]. split; try done. intros t. rewrite H5. split.
  - intros [He (j&Hj&Hl)]. split; [done|]. exists j. split; [lia|done].
  - intros [He (j&Hj&Hl)]. split; [done|]. exists j. split; [|done].
    destruct (decide (j = i)) as [->|]; [by destruct (Hi t Hl)|lia].
Qed.

(** An expired slot. *)
Lemma swept_fire i T t x T' out :
  table_ok T → flags_clear T → g_slots T !! i = Some (Some t) → hp_mem (tt_heap T) !! t = Some x → t_deadline_ms x <= g_now_ms T →
  swept (S i) (v_port_txn_destroy t (set_fired i T)) T' out → swept i T T' (t :: out).
Proof.
  intros HT Hf Ei Ex Hle. destruct (sweep_one T i t x HT Hf Ei Ex) as (_&_&Hn1&Hm1&Hs1).
  set (T1 := v_port_txn_destroy t _) in *. intros [H1 H2 H3 H4 Hout Hm]. rewrite Hn1 in Hout.
  assert (t ∉ out) as Htout.
  { intros Hin. apply Hout in Hin as [(y&Hy&_) _]. by rewrite Hm1, lookup_delete_eq in Hy. }
  split; [done|done|congruence|by constructor|..].
  - intros u. rewrite elem_of_cons, Hout. unfold expired_at. rewrite Hm1. split.
    + intros [->|[(y&Hy&Hd) (j&Hj&Hl)]]; [split; [by exists x|by exists i]|].
      apply lookup_delete_Some in Hy as [Hne Hy]. split; [by exists y|].
      exists j. split; [lia|]. by rewrite Hs1, list_lookup_insert_ne in Hl by lia.
    + intros [(y&Hy&Hd) (j&Hj&Hl)]. destruct (decide (u = t)) as [->|Hne]; [by left|right].
      split; [exists y; by rewrite lookup_delete_ne|]. exists j.
      assert (j ≠ i) by (intros ->; congruence). split; [lia|]. by rewrite Hs1, list_lookup_insert_ne.
  - intros u. rewrite Hm, Hm1. destruct (decide (u = t)) as [->|Hne].
    + rewrite (decide_False (P := t ∈ out)) by done. rewrite decide_True by left. by rewrite lookup_delete_eq.
    + rewrite lookup_delete_ne by done. apply decide_ext. rewrite elem_of_cons. split; [by right|by intros [->|]].
Qed.

Lemma advance_loop_spec n : ∀ i T log, table_ok T → flags_clear T → (i + n)%nat = length (g_slots T) →
  ∃ T' out, advance_loop sweep i n (T, log) = Some (tt, (T', log ++ out)) ∧ swept i T T' out.
Proof.
  induction n as [|n IH]; intros i T log HT Hf Hlen; cbn [advance_loop].
  { exists T, []. rewrite app_nil_r. split; [done|]. split; try done; [constructor|].
    intros t. split; [by intros ?%not_elem_of_nil|]. intros (_&j&Hj&Hl). apply lookup_lt_Some in Hl. lia. }
  assert ((∀ t, g_slots T !! i = Some (Some t) → ¬ expired_at T (g_now_ms T) t) →
    ∃ T' out, advance_loop sweep (S i) n (T, log) = Some (tt, (T', log ++ out)) ∧ swept i T T' out) as Hskip.
  { intros Hi. destruct (IH (S i) T log HT Hf ltac:(lia)) as (T'&out&Hr&Hsw). exists T', out. split; [done|by apply swept_skip]. }
  unfold mbind at 1, SM_bind at 1. cbn [gets id].
  destruct (g_slots T !! i) as [[t|]|] eqn:Ei; [|by apply Hskip..].
  rewrite (Hf i t Ei).
  destruct (hp_mem (tt_heap T) !! t) as [x|] eqn:Ex.
  2: { exfalso. assert (t ∈ occupied (g_slots T)) as Ht by (apply occupied_lookup; by exists i).
       apply (ok_live _ HT) in Ht as [x Hx]. congruence. }
  unfold heap_get. rewrite Ex. destruct (Z.leb_spec (t_deadline_ms x) (g_now_ms T)) as [Hle|Hgt].
  2: { apply Hskip. intros u [= <-] (y&Hy&Hd). rewrite Ex in Hy. injection Hy as <-. lia. }
  unfold mbind, SM_bind. cbn [modify sweep fst snd].
  destruct (sweep_one T i t x HT Hf Ei Ex) as (HT1&Hf1&_).
  destruct (IH (S i) (v_port_txn_destroy t (set_fired i T)) (log ++ [t]) HT1 Hf1) as (T'&out&Hr&Hsw).
  { rewrite (ok_slots _ HT1), <- (ok_slots _ HT), <- Hlen. lia. }
  exists T', (t :: out). rewrite Hr, <- app_assoc. split; [done|by eapply swept_fire].
Qed.

(** C23: the hard timeout.  Advancing the clock fires the callback exactly once
    for every live transaction whose deadline has passed and for no other; the
    sweeper's destruction of those transactions during the scan neither skips
    nor repeats a slot, and the others survive unchanged. *)
Theorem hard_timeout_fires_once T ms :
  table_ok T → flags_clear T → 0 <= g_now_ms T → 0 <= ms → g_now_ms T + ms < 2 ^ 64 →
  ∃ T' out, v_port_txn_test_advance_ms sweep ms (T, []) = Some (tt, (T', out)) ∧
    table_ok T' ∧ flags_clear T' ∧ NoDup out ∧ (∀ t, t ∈ out ↔ expired_at T (g_now_ms T + ms) t) ∧
    (∀ t, hp_mem (tt_heap T') !! t = if decide (t ∈ out) then None else hp_mem (tt_heap T) !! t).
Proof.
  intros HT Hf Hn Hms Hlt. unfold v_port_txn_test_advance_ms, mbind, SM_bind. cbn [modify fst snd].
  rewrite u64_small by u_lia.
  set (T0 := TxnTable (tt_heap T) (g_slots T) (g_fired T) (g_now_ms T + ms)).
  assert (table_ok T0) as HT0 by (by destruct HT; split).
  destruct (advance_loop_spec (Z.to_nat V_STUB_TXN_CAP) 0 T0 [] HT0 Hf) as (T'&out&Hr&[HT' Hf' _ Hnd Hout Hm]).
  { by rewrite (ok_slots _ HT0). }
  exists T', out. split; [exact Hr|]. do 3 (split; [done|]). split; [|exact Hm].
  intros t. rewrite Hout. split; [by intros [? _]|]. intros He. split; [done|].
  destruct He as (x&Hx&_). assert (t ∈ occupied (g_slots T)) as Ht by (apply (ok_live _ HT); by exists x).
  apply occupied_lookup in Ht as [j Hj]. exists j. split; [lia|done].
Qed.

Lemma create_flags T o T' : table_ok T → flags_clear T → v_port_txn_create T = (o, T') → flags_clear T'.
Proof.
  intros HT Hf Hc. destruct (create_ok T o T' HT Hc) as (_&Ho&_). destruct o as [t|]; [|by destruct Ho as [-> _]].
  destruct Ho as (_&i&Hi&Hs&Hfl). destruct (free_slot_Some (g_slots T) i t Hi) as [Hlt _].
  intros j u. rewrite Hs, Hfl. destruct (decide (j = i)) as [->|Hne]; intros Hj.
  - apply list_lookup_insert_eq. rewrite (ok_fired _ HT), <- (ok_slots _ HT). exact Hlt.
  - rewrite list_lookup_insert_ne in Hj by done. rewrite list_lookup_insert_ne by done. by apply (Hf j u).
Qed.

Lemma init_flags T : v_port_txn_init None = (RET_CODE_OK, Some T) → flags_clear T.
Proof.
  intros Hi. unfold v_port_txn_init in Hi. destruct (rte_mempool_create _) as [p|]; [|done]. injection Hi as <-.
  intros i t Ht. cbn [g_slots] in Ht. apply lookup_replicate in Ht as [[=] _].
Qed.
End stub_txn.

(** ** A concrete table: one transaction, created at time 0 *)

Module Example.
Import ListDpdk.
Section example.
Context {PP : PfcpPort}.

Lemma init_some : ∃ T, v_port_txn_init None = (RET_CODE_OK, Some T).
Proof. by eexists. Qed.

Lemma one_txn : ∃ T t, table_ok T ∧ flags_clear T ∧ g_now_ms T = 0 ∧
  hp_mem (tt_heap T) = {[t := with_deadline 2000 txn_zero]}.
Proof.
  destruct init_some as [T0 H0]. destruct (contract_init T0 H0) as [HT0 Hm0].
  assert (g_now_ms T0 = 0) as Hn0.
  { unfold v_port_txn_init in H0. destruct (rte_mempool_create _); [|done]. by injection H0 as <-. }
  destruct (v_port_txn_create T0) as [o T1] eqn:Ec. destruct (create_ok T0 o T1 HT0 Ec) as (HT1&Ho&Hn1).
  destruct o as [t|].
  - exists T1, t. split; [done|]. split; [by apply (create_flags T0 (Some t)), Ec; [|apply init_flags]|].
    split; [congruence|]. destruct Ho as [Ha _]. rewrite Hn0 in Ha.
    apply heap_alloc_Some in Ha as (_&->&_); [|apply HT0]. rewrite Hm0. done.
  - exfalso. destruct Ho as [_ Hfree]. pose proof (ok_total _ HT0) as Ht. unfold heap_total in Ht.
    rewrite Hfree, Hm0 in Ht. discriminate Ht.
Qed.
End example.
End Example.
