(* ===== verification/DbScript.v ===== *)
(** Component v_db_script: EVALSHA with one NOSCRIPT recovery over the command
    port.  [invoke_user] is the indirect call [p->user_cb(status, reply,
    p->user_arg)]; it runs synchronously when the command cannot be issued. *)
From S2P Require Import Prelude Dpdk Heap Redis World.

Definition V_SCRIPT_COUNT : Z := 3.
Definition V_DB_SCRIPT_SHA_LEN : nat := 40.
Definition V_DB_EVALSHA_MAX_PARTS : Z := 12.
Definition V_DB_EVALSHA_SCRATCH_BYTES : Z := 1024.
Definition V_DB_EVALSHA_POOL_CAP : Z := 2048.
Definition V_DB_SCRIPT_LOAD_POOL_CAP : Z := 256.
Definition NUL : ascii := zero.
Definition NL : string := String (ascii_of_nat 10) EmptyString.

(** The script texts of v_db_lua_scripts.h, line by line. *)
Definition V_LUA_SESS_CAS_WRITE : bytes := lit (String.concat NL [
  "local v = redis.call('HGET', KEYS[1], 'ver')";
  "if ARGV[1] == '0' then";
  "    if v then return 0 end";
  "    redis.call('HSET', KEYS[1], 'ver', 1, 'data', ARGV[2])";
  "    if ARGV[3] ~= '0' then redis.call('EXPIRE', KEYS[1], ARGV[3]) end";
  "    return 1";
  "end";
  "if not v then return -1 end";
  "if v ~= ARGV[1] then return 0 end";
  "redis.call('HSET', KEYS[1], 'ver', v + 1, 'data', ARGV[2])";
  "if ARGV[3] ~= '0' then redis.call('EXPIRE', KEYS[1], ARGV[3]) end";
  "return 1"; ""]%string).

Definition V_LUA_SESS_DELETE : bytes := lit (String.concat NL [
  "local v = redis.call('HGET', KEYS[1], 'ver')";
  "if not v then return -1 end";
  "if v ~= ARGV[1] then return 0 end";
  "redis.call('DEL', KEYS[1])";
  "return 1"; ""]%string).

Definition V_LUA_TEID_REFILL : bytes := lit (String.concat NL [
  "local out = {}";
  "if redis.call('LLEN', KEYS[1]) > tonumber(ARGV[2]) then";
  "    for i = 1, tonumber(ARGV[1]) do";
  "        local id = redis.call('LPOP', KEYS[1])";
  "        if not id then break end";
  "        table.insert(out, id)";
  "    end";
  "end";
  "if #out == 0 then";
  "    local base = redis.call('INCRBY', KEYS[2], ARGV[1])";
  "    return {'range', tostring(base - ARGV[1]), ARGV[1]}";
  "end";
  "return {'list', unpack(out)}"; ""]%string).

Definition g_script_src (id : v_script_id_t) : bytes :=
  match id with
  | V_SCRIPT_SESS_CAS_WRITE => V_LUA_SESS_CAS_WRITE
  | V_SCRIPT_SESS_DELETE => V_LUA_SESS_DELETE
  | V_SCRIPT_TEID_REFILL => V_LUA_TEID_REFILL
  end.

(** scratch_copy: bump allocation of [len] bytes; NULL when it overflows. *)
Definition scratch_copy (used : Z) (src : bytes) : option Z :=
  if V_DB_EVALSHA_SCRATCH_BYTES <? used + Z.of_nat (length src) then None
  else Some (used + Z.of_nat (length src)).

Fixpoint scratch_copy_all (used : Z) (parts : list bytes) : option Z :=
  match parts with
  | [] => Some used
  | x :: parts' => used' ← scratch_copy used x; scratch_copy_all used' parts'
  end.

(** is_noscript of evalsha_reply_cb *)
Definition is_noscript (status : Z) (reply : option v_db_reply) : bool :=
  (status =? RET_CODE_OK) &&
  match reply with
  | Some (V_DB_REPLY_ERROR str) => (8 <=? Z.of_nat (length str)) && bool_decide (take 8 str = $"NOSCRIPT")
  | _ => false
  end.

Section db_script.
Context {DP : Dpdk} {PP : PfcpPort}.
Variable invoke_user : evalsha_user → Z → option v_db_reply → M ().

Definition set_sha (shard : Z) (id : v_script_id_t) (sha : bytes) : M () :=
  modify (λ w, let s := w_script w in
    set_script (DbScript (<[(shard, script_index id) := sha]> (g_sha s)) (g_evalsha_pool s) (g_load_pool s)) w).

Definition evalsha_put (obj : Z) : M () :=
  modify (λ w, let s := w_script w in
    set_script (DbScript (g_sha s) (rte_mempool_put (g_evalsha_pool s) obj) (g_load_pool s)) w).

Definition load_put (obj : Z) : M () :=
  modify (λ w, let s := w_script w in
    set_script (DbScript (g_sha s) (g_evalsha_pool s) (rte_mempool_put (g_load_pool s) obj)) w).

(** A SHA is cached when the first byte of its slot is not NUL. *)
Definition sha_cached (s : db_script) (shard : Z) (id : v_script_id_t) : option bytes :=
  match g_sha s !! (shard, script_index id) with
  | Some (c :: sha) => if decide (c = NUL) then None else Some (c :: sha)
  | _ => None
  end.

(** issue_evalsha *)
Definition issue_evalsha (p : v_evalsha_pending) : M () :=
  rc ← v_port_db_cmd_argv (ep_shard p) (fp_evalsha_reply_cb p) (ep_argv p);
  when (negb (rc =? RET_CODE_OK))
    (_ ← invoke_user (ep_user p) RET_CODE_ERR None; evalsha_put (ep_obj p)).

(** request_script_load *)
Definition request_script_load (shard : Z) (id : v_script_id_t) (resume : option v_evalsha_pending) : M Z :=
  λ w,
  match rte_mempool_get (g_load_pool (w_script w)) with
  | None => Some (RET_CODE_ERR, w)
  | Some (obj, pool) =>
      (rc ← v_port_db_cmd shard (fp_load_reply_cb (ScriptLoadCtx obj shard id resume))
              [$"SCRIPT"; $"LOAD"; g_script_src id];
       if negb (rc =? RET_CODE_OK) then _ ← load_put obj; mret RET_CODE_ERR
       else mret RET_CODE_OK)
      (set_script (DbScript (g_sha (w_script w)) (g_evalsha_pool (w_script w)) pool) w)
  end.

(** [p->part_ptr[1] = g_sha[..]; p->part_len[1] = V_DB_SCRIPT_SHA_LEN;] *)
Definition set_part_sha (p : v_evalsha_pending) (sha : bytes) : v_evalsha_pending :=
  EvalshaPending (ep_obj p) (ep_shard p) (ep_script_id p) (ep_user p) (ep_retried p) (<[1%nat := sha]> (ep_argv p)).

(** load_reply_cb *)
Definition load_reply_cb (lc : v_script_load_ctx) (status : Z) (reply : option v_db_reply) : M () :=
  match (if status =? RET_CODE_OK then
           match reply with
           | Some (V_DB_REPLY_STRING sha) => if decide (length sha = V_DB_SCRIPT_SHA_LEN) then Some sha else None
           | _ => None
           end
         else None) with
  | None =>
      _ ← match lc_resume lc with
          | Some p => _ ← invoke_user (ep_user p) RET_CODE_ERR reply; evalsha_put (ep_obj p)
          | None => mret tt
          end;
      load_put (lc_obj lc)
  | Some sha =>
      _ ← set_sha (lc_shard lc) (lc_script_id lc) sha;
      _ ← match lc_resume lc with
          | Some p => issue_evalsha (set_part_sha p sha)
          | None => mret tt
          end;
      load_put (lc_obj lc)
  end.

(** evalsha_reply_cb *)
Definition set_retried (p : v_evalsha_pending) : v_evalsha_pending :=
  EvalshaPending (ep_obj p) (ep_shard p) (ep_script_id p) (ep_user p) true (ep_argv p).

Definition evalsha_reply_cb (p : v_evalsha_pending) (status : Z) (reply : option v_db_reply) : M () :=
  if is_noscript status reply && negb (ep_retried p) then
    rc ← request_script_load (ep_shard p) (ep_script_id p) (Some (set_retried p));
    when (negb (rc =? RET_CODE_OK))
      (_ ← invoke_user (ep_user p) RET_CODE_ERR reply; evalsha_put (ep_obj p))
  else
    _ ← invoke_user (ep_user p) status reply;
    evalsha_put (ep_obj p).

(** v_db_evalsha *)
Definition v_db_evalsha (shard : Z) (id : v_script_id_t) (keys argv : list bytes) (user : evalsha_user) : M Z :=
  λ w,
  if V_DB_EVALSHA_MAX_PARTS <? 3 + Z.of_nat (length keys) + Z.of_nat (length argv) then Some (RET_CODE_ERR, w)
  else
    match (if V_STUB_DB_SHARDS <=? shard then None else sha_cached (w_script w) shard id) with
    | None => Some (RET_CODE_ERR, w)
    | Some sha =>
        match rte_mempool_get (g_evalsha_pool (w_script w)) with
        | None => Some (RET_CODE_ERR, w)
        | Some (obj, pool) =>
            let numkeys_str := snprintf 8 (dec (Z.of_nat (length keys))) in
            let parts := numkeys_str :: keys ++ argv in
            let w' := set_script (DbScript (g_sha (w_script w)) pool (g_load_pool (w_script w))) w in
            match scratch_copy_all 0 parts with
            | None => (_ ← evalsha_put obj; mret RET_CODE_ERR) w'
            | Some _ =>
                (_ ← issue_evalsha (EvalshaPending obj shard id user false ($"EVALSHA" :: sha :: parts));
                 mret RET_CODE_OK) w'
            end
        end
    end.

(** script_reconnect_cb: reload every script on a (re)connected shard. *)
Definition script_reconnect_cb (shard : Z) : M () :=
  _ ← request_script_load shard V_SCRIPT_SESS_CAS_WRITE None;
  _ ← request_script_load shard V_SCRIPT_SESS_DELETE None;
  _ ← request_script_load shard V_SCRIPT_TEID_REFILL None;
  mret tt.

(** v_db_script_init: both pools and an empty SHA table, or failure. *)
Definition v_db_script_init (shard_count : Z) : option db_script :=
  if shard_count <=? 0 then None
  else
    match rte_mempool_create V_DB_EVALSHA_POOL_CAP, rte_mempool_create V_DB_SCRIPT_LOAD_POOL_CAP with
    | Some ep, Some lp => Some (DbScript ∅ ep lp)
    | _, _ => None
    end.

(** v_db_script_ready *)
Definition v_db_script_ready (s : db_script) : bool :=
  forallb (λ shard, forallb (λ id, bool_decide (is_Some (sha_cached s shard id)))
    [V_SCRIPT_SESS_CAS_WRITE; V_SCRIPT_SESS_DELETE; V_SCRIPT_TEID_REFILL]) (seqZ 0 V_STUB_DB_SHARDS).

End db_script.
