(* ===== verification/SessStore.v ===== *)
(** Component v_sess_store: session persistence with version CAS over
    v_db_script and the command port.  [invoke_read], [invoke_cas] and
    [invoke_simple] are the indirect calls of the callback stored in a pending
    object; [invoke_user] is the one v_db_script makes. *)
From S2P Require Import Prelude Dpdk Heap Redis World DbScript.

Definition V_SESS_PENDING_TTL : Z := 30.
Definition V_CAS_MAX_RETRY : Z := 3.
Definition V_SESS_BLOB_MAX_BYTES : nat := 2048.
Definition V_SESS_PENDING_POOL_CAP : Z := 4096.
Definition V_SESS_FIELD_DATA : bytes := $"data".
Definition V_SESS_FIELD_VER : bytes := $"ver".

(** make_key with the 64-byte buffer of every caller: "pdu_%u:%lu" *)
Definition make_key (part_id seid : Z) : bytes :=
  snprintf 64 ($"pdu_" ++ dec part_id ++ $":" ++ dec seid).

(** What the HMGET reply means: the first half of read_reply_cb. *)
Definition read_fields (status : Z) (reply : option v_db_reply) : option (v_db_reply * v_db_reply) :=
  match reply with
  | Some (V_DB_REPLY_ARRAY [data; ver]) => if status =? RET_CODE_OK then Some (data, ver) else None
  | _ => None
  end.

(** new_ver = (exp_ver == 0) ? 1 : (exp_ver + 1), on uint64_t. *)
Definition cas_new_ver (exp_ver : Z) : Z := if exp_ver =? 0 then 1 else u64 (exp_ver + 1).

(** The switch of cas_write_reply_cb and delete_reply_cb. *)
Definition cas_outcome (n ver_ok : Z) : Z * v_cas_result_t * Z :=
  if n =? 1 then (RET_CODE_OK, V_CAS_OK, ver_ok)
  else if n =? 0 then (RET_CODE_OK, V_CAS_CONFLICT, 0)
  else if n =? -1 then (RET_CODE_OK, V_CAS_GONE, 0)
  else (RET_CODE_ERR, V_CAS_GONE, 0).

Definition cas_reply (status : Z) (reply : option v_db_reply) (ver_ok : Z) : Z * v_cas_result_t * Z :=
  match reply with
  | Some (V_DB_REPLY_INTEGER n) =>
      if status =? RET_CODE_OK then cas_outcome n ver_ok else (RET_CODE_ERR, V_CAS_GONE, 0)
  | _ => (RET_CODE_ERR, V_CAS_GONE, 0)
  end.

Section sess_store.
Context {DP : Dpdk} {PP : PfcpPort}.
Variable invoke_read : v_sess_read_cb_t → Z → v_cas_result_t → Z → Z → option Z → M ().
Variable invoke_cas : v_sess_cas_cb_t → Z → v_cas_result_t → Z → option Z → M ().
Variable invoke_simple : v_sess_cb_t → Z → option Z → M ().
Variable invoke_user : evalsha_user → Z → option v_db_reply → M ().

(** ensure_pool *)
Definition sess_ensure_pool : M Z := λ w,
  match w_sess_pool w with
  | Some _ => Some (RET_CODE_OK, w)
  | None =>
      match rte_mempool_create V_SESS_PENDING_POOL_CAP with
      | Some pool => Some (RET_CODE_OK, set_sess_pool (Some pool) w)
      | None => Some (RET_CODE_ERR, w)
      end
  end.

Definition sess_pending_get : M (option Z) := λ w,
  match w_sess_pool w with
  | Some pool =>
      match rte_mempool_get pool with
      | Some (obj, pool') => Some (Some obj, set_sess_pool (Some pool') w)
      | None => Some (None, w)
      end
  | None => None
  end.

Definition sess_pending_put (obj : Z) : M () := λ w,
  match w_sess_pool w with
  | Some pool => Some (tt, set_sess_pool (Some (rte_mempool_put pool obj)) w)
  | None => None
  end.

(** The shared shape of the four entry points: take a pending object, run
    [issue], release the object again when it could not be issued. *)
Definition with_pending (issue : Z → M Z) : M Z :=
  o ← sess_pending_get;
  match o with
  | None => mret RET_CODE_ERR
  | Some obj =>
      rc ← issue obj;
      if negb (rc =? RET_CODE_OK) then _ ← sess_pending_put obj; mret RET_CODE_ERR
      else mret RET_CODE_OK
  end.

(** read_reply_cb *)
Definition read_reply_cb (p : read_pending) (status : Z) (reply : option v_db_reply) : M () :=
  match read_fields status reply with
  | None =>
      _ ← invoke_read (rp_cb p) RET_CODE_ERR V_CAS_GONE (rp_ctx p) 0 (rp_arg p);
      sess_pending_put (rp_obj p)
  | Some (data, ver) =>
      if reply_is_nil data || reply_is_nil ver then
        _ ← invoke_read (rp_cb p) RET_CODE_OK V_CAS_GONE (rp_ctx p) 0 (rp_arg p);
        sess_pending_put (rp_obj p)
      else
        c ← ctx_get (rp_ctx p);
        let '(rc, c') := v_port_pdu_deserialize (reply_str data) c in
        _ ← ctx_set (rp_ctx p) c';
        _ ← (if negb (rc =? RET_CODE_OK) then
               invoke_read (rp_cb p) RET_CODE_ERR V_CAS_GONE (rp_ctx p) 0 (rp_arg p)
             else
               invoke_read (rp_cb p) RET_CODE_OK V_CAS_OK (rp_ctx p) (parse_buf 24 (reply_str ver)) (rp_arg p));
        sess_pending_put (rp_obj p)
  end.

(** v_sess_read *)
Definition v_sess_read (part_id seid ctx : Z) (cb : v_sess_read_cb_t) (arg : option Z) : M Z :=
  rc ← sess_ensure_pool;
  if negb (rc =? RET_CODE_OK) then mret RET_CODE_ERR
  else
    let key := make_key part_id seid in
    with_pending (λ obj,
      v_port_db_cmd (v_port_db_shard_of key) (fp_read_reply_cb (ReadPending obj arg cb ctx))
        [$"HMGET"; key; V_SESS_FIELD_DATA; V_SESS_FIELD_VER]).

(** cas_write_reply_cb *)
Definition cas_write_reply_cb (p : cas_pending) (status : Z) (reply : option v_db_reply) : M () :=
  let '(st, result, new_ver) := cas_reply status reply (cas_new_ver (cp_exp_ver p)) in
  _ ← invoke_cas (cp_cb p) st result new_ver (cp_arg p);
  sess_pending_put (cp_obj p).

(** v_sess_cas_write *)
Definition v_sess_cas_write (part_id seid exp_ver ctx : Z) (state : v_sess_state_t)
    (cb : v_sess_cas_cb_t) (arg : option Z) : M Z :=
  rc ← sess_ensure_pool;
  if negb (rc =? RET_CODE_OK) then mret RET_CODE_ERR
  else
    let key := make_key part_id seid in
    c ← ctx_get ctx;
    match v_port_pdu_serialize c V_SESS_BLOB_MAX_BYTES with
    | None => mret RET_CODE_ERR
    | Some blob =>
        let ver_str := snprintf 24 (dec exp_ver) in
        let ttl_str := snprintf 8 (dec (match state with V_SESS_PENDING => V_SESS_PENDING_TTL | V_SESS_CONFIRMED => 0 end)) in
        with_pending (λ obj,
          v_db_evalsha invoke_user (v_port_db_shard_of key) V_SCRIPT_SESS_CAS_WRITE [key] [ver_str; blob; ttl_str]
            (fp_cas_write_reply_cb (CasPending obj arg cb exp_ver)))
    end.

(** confirm_reply_cb: only the status of the round trip matters. *)
Definition confirm_reply_cb (p : simple_pending) (status : Z) (reply : option v_db_reply) : M () :=
  _ ← invoke_simple (sp_cb p) status (sp_arg p);
  sess_pending_put (sp_obj p).

(** v_sess_confirm *)
Definition v_sess_confirm (part_id seid : Z) (cb : v_sess_cb_t) (arg : option Z) : M Z :=
  rc ← sess_ensure_pool;
  if negb (rc =? RET_CODE_OK) then mret RET_CODE_ERR
  else
    let key := make_key part_id seid in
    with_pending (λ obj,
      v_port_db_cmd (v_port_db_shard_of key) (fp_confirm_reply_cb (SimplePending obj arg cb))
        [$"PERSIST"; key]).

(** delete_reply_cb *)
Definition delete_reply_cb (p : cas_pending) (status : Z) (reply : option v_db_reply) : M () :=
  let '(st, result, new_ver) := cas_reply status reply 0 in
  _ ← invoke_cas (cp_cb p) st result new_ver (cp_arg p);
  sess_pending_put (cp_obj p).

(** v_sess_delete *)
Definition v_sess_delete (part_id seid exp_ver : Z) (cb : v_sess_cas_cb_t) (arg : option Z) : M Z :=
  rc ← sess_ensure_pool;
  if negb (rc =? RET_CODE_OK) then mret RET_CODE_ERR
  else
    let key := make_key part_id seid in
    let ver_str := snprintf 24 (dec exp_ver) in
    with_pending (λ obj,
      v_db_evalsha invoke_user (v_port_db_shard_of key) V_SCRIPT_SESS_DELETE [key] [ver_str]
        (fp_delete_reply_cb (CasPending obj arg cb exp_ver))).

(** v_sess_store_test_pending_in_use *)
Definition v_sess_store_test_pending_in_use (w : world) : Z :=
  match w_sess_pool w with
  | None => 0
  | Some pool => V_SESS_PENDING_POOL_CAP - rte_mempool_avail_count pool
  end.

End sess_store.
