(* ===== verification/RetransCache.v ===== *)
(** Component v_retrans_cache: responses cached in Redis under
    (smf_fseid, seq) for V_RETRANS_TTL seconds, so that a retransmitted
    request is answered by any pod without being executed again. *)
From S2P Require Import Prelude Seid Dpdk Heap Redis World.

Definition V_RETRANS_TTL : Z := 10.
Definition V_RETRANS_PENDING_POOL_CAP : Z := 4096.

(** v_retrans_part: FNV-1a over the eight bytes of the F-SEID, mod 1024. *)
Definition v_retrans_part (smf_fseid : Z) : Z := u16 (fnv1a (le_bytes 8 smf_fseid) mod V_NUM_PARTS).

(** V_RETRANS_KEY_FMT "txn_%u:%lu:%u" in a 64-byte buffer. *)
Definition retrans_key (part_id smf_fseid seq : Z) : bytes :=
  snprintf 64 ($"txn_" ++ dec part_id ++ $":" ++ dec smf_fseid ++ $":" ++ dec seq).

(** The outcome of a GET reply: status, hit, response bytes. *)
Definition lookup_outcome (status : Z) (reply : option v_db_reply) : Z * bool * bytes :=
  if negb (status =? RET_CODE_OK) then (RET_CODE_ERR, false, [])
  else
    match reply with
    | None | Some V_DB_REPLY_NIL => (RET_CODE_OK, false, [])
    | Some (V_DB_REPLY_STRING resp) => (RET_CODE_OK, true, resp)
    | Some _ => (RET_CODE_ERR, false, [])
    end.

Section retrans.
Context {DP : Dpdk} {PP : PfcpPort}.
Variable invoke_retrans : v_retrans_cb_t → Z → bool → bytes → option Z → M ().

(** ensure_pool *)
Definition retrans_ensure_pool : M Z := λ w,
  match w_retrans_pool w with
  | Some _ => Some (RET_CODE_OK, w)
  | None =>
      match rte_mempool_create V_RETRANS_PENDING_POOL_CAP with
      | Some pool => Some (RET_CODE_OK, set_retrans_pool (Some pool) w)
      | None => Some (RET_CODE_ERR, w)
      end
  end.

Definition retrans_pending_get : M (option Z) := λ w,
  match w_retrans_pool w with
  | Some pool =>
      match rte_mempool_get pool with
      | Some (obj, pool') => Some (Some obj, set_retrans_pool (Some pool') w)
      | None => Some (None, w)
      end
  | None => None
  end.

Definition retrans_pending_put (obj : Z) : M () := λ w,
  match w_retrans_pool w with
  | Some pool => Some (tt, set_retrans_pool (Some (rte_mempool_put pool obj)) w)
  | None => None
  end.

(** lookup_reply_cb *)
Definition lookup_reply_cb (p : v_retrans_pending) (status : Z) (reply : option v_db_reply) : M () :=
  let '(st, hit, resp) := lookup_outcome status reply in
  _ ← invoke_retrans (rt_cb p) st hit resp (rt_arg p);
  retrans_pending_put (rt_obj p).

(** v_retrans_lookup *)
Definition v_retrans_lookup (part_id smf_fseid seq : Z) (cb : v_retrans_cb_t) (arg : option Z) : M Z :=
  rc ← retrans_ensure_pool;
  if negb (rc =? RET_CODE_OK) then mret RET_CODE_ERR
  else
    let key := retrans_key part_id smf_fseid seq in
    o ← retrans_pending_get;
    match o with
    | None => mret RET_CODE_ERR
    | Some obj =>
        rc ← v_port_db_cmd (v_port_db_shard_of key) (fp_lookup_reply_cb (RetransPending obj cb arg)) [$"GET"; key];
        if negb (rc =? RET_CODE_OK) then _ ← retrans_pending_put obj; mret RET_CODE_ERR
        else mret RET_CODE_OK
    end.

(** v_retrans_store: fire-and-forget SETEX. *)
Definition v_retrans_store (part_id smf_fseid seq : Z) (resp : bytes) : M Z :=
  let key := retrans_key part_id smf_fseid seq in
  let ttl_str := snprintf 8 (dec V_RETRANS_TTL) in
  v_port_db_cmd_argv (v_port_db_shard_of key) fp_store_ack_cb [$"SETEX"; key; ttl_str; resp].

(** store_ack_cb: failures are logged only. *)
Definition store_ack_cb (status : Z) (reply : option v_db_reply) : M () := mret tt.

End retrans.
