(* ===== verification/IdAlloc.v ===== *)
(** Component v_id_alloc: per-partition rings of SEIDs and TEIDs, filled by
    block leases from Redis counters (and, for TEIDs, from a free list).
    Arrays indexed by an out-of-range partition are undefined behaviour. *)
From S2P Require Import Prelude Seid Dpdk Heap Redis World DbScript.

Definition V_ID_BLK_SIZE : Z := 256.
Definition V_ID_WATERMARK : Z := 64.
Definition V_TEID_FREE_FLOOR : Z := 1024.
Definition V_ID_RING_SIZE : Z := 1024.

Definition seid_next_key (part_id : Z) : bytes := snprintf 32 ($"vpe:seid:" ++ dec part_id ++ $":next").
Definition teid_free_key (part_id : Z) : bytes := snprintf 32 ($"vpe:teid:" ++ dec part_id ++ $":free").
Definition teid_next_key (part_id : Z) : bytes := snprintf 32 ($"vpe:teid:" ++ dec part_id ++ $":next").

(** shard_for_part: the shard of the decimal part_id alone. *)
Definition shard_for_part (part_id : Z) : Z := v_port_db_shard_of (snprintf 8 (dec part_id)).

(** parse_u64 *)
Definition parse_u64 (r : v_db_reply) : option Z :=
  match r with V_DB_REPLY_STRING s => Some (parse_buf 32 s) | _ => None end.

Section id_alloc.
Context {DP : Dpdk} {PP : PfcpPort}.
Variable invoke_user : evalsha_user → Z → option v_db_reply → M ().

(** Setters of the module state. *)
Definition ids_set_seid_ring p r (a : id_alloc) := IdAlloc (<[p := r]> (g_seid_ring a)) (g_teid_ring a)
  (g_seid_refill_inflight a) (g_teid_refill_inflight a) (g_teid_next_seeded a) (g_initialized a).
Definition ids_set_teid_ring p r (a : id_alloc) := IdAlloc (g_seid_ring a) (<[p := r]> (g_teid_ring a))
  (g_seid_refill_inflight a) (g_teid_refill_inflight a) (g_teid_next_seeded a) (g_initialized a).
Definition ids_set_seid_inflight s (a : id_alloc) := IdAlloc (g_seid_ring a) (g_teid_ring a)
  s (g_teid_refill_inflight a) (g_teid_next_seeded a) (g_initialized a).
Definition ids_set_teid_inflight s (a : id_alloc) := IdAlloc (g_seid_ring a) (g_teid_ring a)
  (g_seid_refill_inflight a) s (g_teid_next_seeded a) (g_initialized a).
Definition ids_set_seeded s (a : id_alloc) := IdAlloc (g_seid_ring a) (g_teid_ring a)
  (g_seid_refill_inflight a) (g_teid_refill_inflight a) s (g_initialized a).
Definition ids_set_initialized b (a : id_alloc) := IdAlloc (g_seid_ring a) (g_teid_ring a)
  (g_seid_refill_inflight a) (g_teid_refill_inflight a) (g_teid_next_seeded a) b.

Definition ids_modify (f : id_alloc → id_alloc) : M () := modify (λ w, set_ids (f (w_ids w)) w).

Definition clear_seid_inflight (part_id : Z) : M () :=
  ids_modify (λ a, ids_set_seid_inflight (g_seid_refill_inflight a ∖ {[part_id]}) a).
Definition clear_teid_inflight (part_id : Z) : M () :=
  ids_modify (λ a, ids_set_teid_inflight (g_teid_refill_inflight a ∖ {[part_id]}) a).

(** g_seid_ring[part_id] *)
Definition seid_ring (part_id : Z) : M rte_ring := λ w,
  match g_seid_ring (w_ids w) !! part_id with Some r => Some (r, w) | None => None end.
Definition teid_ring (part_id : Z) : M rte_ring := λ w,
  match g_teid_ring (w_ids w) !! part_id with Some r => Some (r, w) | None => None end.

(** ** SEID *)

(** The loop of seid_refill_reply_cb over i = i .. V_ID_BLK_SIZE-1 ([n] left):
    an index that does not encode is skipped, a full ring ends the loop. *)
Fixpoint seid_enqueue_block (part_id base : Z) (i : Z) (n : nat) (r : rte_ring) : rte_ring :=
  match n with
  | O => r
  | S n' =>
      match v_seid_encode part_id (u64 (base + i)) with
      | None => seid_enqueue_block part_id base (i + 1) n' r
      | Some seid =>
          match rte_ring_enqueue r seid with
          | None => r
          | Some r' => seid_enqueue_block part_id base (i + 1) n' r'
          end
      end
  end.

(** seid_refill_reply_cb *)
Definition seid_refill_reply_cb (part_id status : Z) (reply : option v_db_reply) : M () :=
  _ ← clear_seid_inflight part_id;
  match reply with
  | Some (V_DB_REPLY_INTEGER n) =>
      if negb (status =? RET_CODE_OK) then mret tt
      else
        let base := u64 (u64 n - V_ID_BLK_SIZE) in
        r ← seid_ring part_id;
        ids_modify (ids_set_seid_ring part_id (seid_enqueue_block part_id base 0 (Z.to_nat V_ID_BLK_SIZE) r))
  | _ => mret tt
  end.

(** seid_maybe_refill *)
Definition seid_maybe_refill (part_id : Z) : M () :=
  r ← seid_ring part_id;
  a ← gets w_ids;
  if V_ID_WATERMARK <=? rte_ring_count r then mret tt
  else if decide (part_id ∈ g_seid_refill_inflight a) then mret tt
  else
    _ ← ids_modify (λ a, ids_set_seid_inflight ({[part_id]} ∪ g_seid_refill_inflight a) a);
    rc ← v_port_db_cmd (shard_for_part part_id) (fp_seid_refill_reply_cb part_id)
           [$"INCRBY"; seid_next_key part_id; dec V_ID_BLK_SIZE];
    when (negb (rc =? RET_CODE_OK)) (clear_seid_inflight part_id).

(** v_seid_alloc: 0 when the ring is dry *)
Definition v_seid_alloc (part_id : Z) : M Z :=
  _ ← seid_maybe_refill part_id;
  r ← seid_ring part_id;
  match rte_ring_dequeue r with
  | None => mret 0
  | Some (obj, r') => _ ← ids_modify (ids_set_seid_ring part_id r'); mret obj
  end.

(** ** TEID *)

(** enqueue_teid: the local index is truncated to 32 bits before encoding. *)
Definition enqueue_teid (part_id local : Z) (r : rte_ring) : rte_ring :=
  match v_teid_encode part_id (u32 local) with
  | None => r
  | Some teid => default r (rte_ring_enqueue r teid)
  end.

(** [for (uint64_t i = 0; i < count; i++) enqueue_teid(part_id, base + i);] *)
Fixpoint enqueue_range (part_id base i : Z) (n : nat) (r : rte_ring) : rte_ring :=
  match n with
  | O => r
  | S n' => enqueue_range part_id base (i + 1) n' (enqueue_teid part_id (u64 (base + i)) r)
  end.

(** The "list" branch: unparsable elements are skipped. *)
Fixpoint enqueue_list (part_id : Z) (l : list v_db_reply) (r : rte_ring) : rte_ring :=
  match l with
  | [] => r
  | e :: l' =>
      enqueue_list part_id l' (match parse_u64 e with Some local => enqueue_teid part_id local r | None => r end)
  end.

(** What a refill reply does to the ring; [None] is an ignored reply. *)
Definition teid_refill_ring (part_id : Z) (reply : option v_db_reply) (r : rte_ring) : option rte_ring :=
  match reply with
  | Some (V_DB_REPLY_ARRAY (V_DB_REPLY_STRING tag :: l)) =>
      if decide (tag = $"range") then
        match l with
        | [b; c] => base ← parse_u64 b; count ← parse_u64 c;
                    Some (enqueue_range part_id base 0 (Z.to_nat count) r)
        | _ => None
        end
      else if decide (tag = $"list") then Some (enqueue_list part_id l r)
      else None
  | _ => None
  end.

(** teid_refill_reply_cb *)
Definition teid_refill_reply_cb (part_id status : Z) (reply : option v_db_reply) : M () :=
  _ ← clear_teid_inflight part_id;
  if negb (status =? RET_CODE_OK) then mret tt
  else
    r ← teid_ring part_id;
    match teid_refill_ring part_id reply r with
    | None => mret tt
    | Some r' => ids_modify (ids_set_teid_ring part_id r')
    end.

(** seed_reply_cb, teid_free_reply_cb: acknowledgements, failures logged *)
Definition seed_reply_cb (status : Z) (reply : option v_db_reply) : M () := mret tt.
Definition teid_free_reply_cb (status : Z) (reply : option v_db_reply) : M () := mret tt.

(** teid_maybe_refill *)
Definition teid_maybe_refill (part_id : Z) : M () :=
  r ← teid_ring part_id;
  a ← gets w_ids;
  if V_ID_WATERMARK <=? rte_ring_count r then mret tt
  else if decide (part_id ∈ g_teid_refill_inflight a) then mret tt
  else
    _ ← ids_modify (λ a, ids_set_teid_inflight ({[part_id]} ∪ g_teid_refill_inflight a) a);
    let shard := shard_for_part part_id in
    _ ← (if decide (part_id ∈ g_teid_next_seeded a) then mret RET_CODE_OK
         else
           _ ← ids_modify (λ a, ids_set_seeded ({[part_id]} ∪ g_teid_next_seeded a) a);
           v_port_db_cmd shard fp_seed_reply_cb [$"SETNX"; teid_next_key part_id; $"1"]);
    rc ← v_db_evalsha invoke_user shard V_SCRIPT_TEID_REFILL [teid_free_key part_id; teid_next_key part_id]
           [snprintf 8 (dec V_ID_BLK_SIZE); snprintf 8 (dec V_TEID_FREE_FLOOR)]
           (fp_teid_refill_reply_cb part_id);
    when (negb (rc =? RET_CODE_OK)) (clear_teid_inflight part_id).

(** v_teid_alloc: 0 when the ring is dry *)
Definition v_teid_alloc (part_id : Z) : M Z :=
  _ ← teid_maybe_refill part_id;
  r ← teid_ring part_id;
  match rte_ring_dequeue r with
  | None => mret 0
  | Some (obj, r') => _ ← ids_modify (ids_set_teid_ring part_id r'); mret (u32 obj)
  end.

(** v_teid_free: RPUSH of the local index *)
Definition v_teid_free (part_id teid : Z) : M () :=
  _ ← v_port_db_cmd (shard_for_part part_id) fp_teid_free_reply_cb
        [$"RPUSH"; teid_free_key part_id; dec (v_teid_local teid)];
  mret tt.

(** ** Life cycle *)

(** The ring creation loop of v_id_alloc_init: [false] is its return on a
    failed creation, with the tables as far as they are filled (a slot that
    is NULL has no entry). *)
Fixpoint create_rings (parts : list Z) (a : id_alloc) : bool * id_alloc :=
  match parts with
  | [] => (true, a)
  | p :: parts' =>
      match rte_ring_create V_ID_RING_SIZE, rte_ring_create V_ID_RING_SIZE with
      | Some rs, Some rt => create_rings parts' (ids_set_teid_ring p rt (ids_set_seid_ring p rs a))
      | Some rs, None => (false, ids_set_seid_ring p rs a)
      | None, Some rt => (false, ids_set_teid_ring p rt a)
      | None, None => (false, a)
      end
  end.

(** The two ring tables and the three flag arrays: all five or none. *)
Definition id_tables : bool :=
  rte_zmalloc (V_NUM_PARTS * 8) && rte_zmalloc (V_NUM_PARTS * 8) &&
  rte_zmalloc V_NUM_PARTS && rte_zmalloc V_NUM_PARTS && rte_zmalloc V_NUM_PARTS.

Fixpoint initial_refills (parts : list Z) : M () :=
  match parts with
  | [] => mret tt
  | p :: parts' => _ ← seid_maybe_refill p; _ ← teid_maybe_refill p; initial_refills parts'
  end.

(** v_id_alloc_init: refused when initialized, fails on a failed allocation
    (the tables are then empty) or ring, else starts the initial refills. *)
Definition v_id_alloc_init : M Z := λ w,
  if g_initialized (w_ids w) then Some (RET_CODE_ERR, w)
  else
    let a0 := IdAlloc ∅ ∅ ∅ ∅ ∅ false in
    if negb id_tables then Some (RET_CODE_ERR, set_ids a0 w)
    else
      match create_rings (seqZ 0 V_NUM_PARTS) a0 with
      | (false, a) => Some (RET_CODE_ERR, set_ids a w)
      | (true, a) =>
          (_ ← initial_refills (seqZ 0 V_NUM_PARTS); mret RET_CODE_OK) (set_ids (ids_set_initialized true a) w)
      end.

(** v_id_alloc_ready *)
Definition ring_nonempty (o : option rte_ring) : bool :=
  match o with Some r => negb (rte_ring_count r =? 0) | None => false end.

Definition v_id_alloc_ready (a : id_alloc) : bool :=
  g_initialized a &&
  forallb (λ p, ring_nonempty (g_seid_ring a !! p) && ring_nonempty (g_teid_ring a !! p)) (seqZ 0 V_NUM_PARTS).

End id_alloc.
