(* ===== verification/DispatchQ.v ===== *)
(** Component v_dispatch: the shared receive and transmit rings between the
    I/O core and the workers, and the pool of datagram buffers. *)
From S2P Require Import Prelude Dpdk Heap Redis World.

Definition V_DISPATCH_MSG_MAX_BYTES : Z := 2048.
Definition V_DISPATCH_RING_SIZE : Z := 4096.
Definition V_DISPATCH_POOL_CAP : Z := V_DISPATCH_RING_SIZE * 2.

Section dispatch.
Context {DP : Dpdk} {PP : PfcpPort}.

(** v_dispatch_init: the pool, then both rings. *)
Definition v_dispatch_init : option dispatch :=
  match rte_mempool_create V_DISPATCH_POOL_CAP with
  | None => None
  | Some pool =>
      match rte_ring_create V_DISPATCH_RING_SIZE, rte_ring_create V_DISPATCH_RING_SIZE with
      | Some rx, Some tx => Some (Dispatch rx tx (Heap pool ∅))
      | _, _ => None
      end
  end.

(** The peer argument may be NULL: the stored address is then zeroed. *)
Definition peer_bytes (peer : option sockaddr) : sockaddr := default sockaddr_zero peer.

(** v_dispatch_rx: drop an oversized datagram, drop on an exhausted pool,
    drop and release on a full ring, enqueue a copy otherwise. *)
Definition dispatch_rx (buf : bytes) (peer : option sockaddr) (d : dispatch) : dispatch :=
  if V_DISPATCH_MSG_MAX_BYTES <? Z.of_nat (length buf) then d
  else
    match heap_alloc (DispatchMsg buf (peer_bytes peer)) (g_msg_pool d) with
    | None => d
    | Some (m, h) =>
        match rte_ring_enqueue (g_rx_ring d) m with
        | Some r => Dispatch r (g_tx_ring d) h
        | None => Dispatch (g_rx_ring d) (g_tx_ring d) (heap_free m h)
        end
    end.

Definition v_dispatch_rx (buf : bytes) (peer : option sockaddr) : M () :=
  modify (λ w, set_disp (dispatch_rx buf peer (w_disp w)) w).

(** v_dispatch_tx_enqueue *)
Definition dispatch_tx_enqueue (buf : bytes) (peer : option sockaddr) (d : dispatch) : Z * dispatch :=
  if V_DISPATCH_MSG_MAX_BYTES <? Z.of_nat (length buf) then (RET_CODE_ERR, d)
  else
    match heap_alloc (DispatchMsg buf (peer_bytes peer)) (g_msg_pool d) with
    | None => (RET_CODE_ERR, d)
    | Some (m, h) =>
        match rte_ring_enqueue (g_tx_ring d) m with
        | Some r => (RET_CODE_OK, Dispatch (g_rx_ring d) r h)
        | None => (RET_CODE_ERR, Dispatch (g_rx_ring d) (g_tx_ring d) (heap_free m h))
        end
    end.

Definition v_dispatch_tx_enqueue (buf : bytes) (peer : option sockaddr) : M Z := λ w,
  let '(rc, d) := dispatch_tx_enqueue buf peer (w_disp w) in Some (rc, set_disp d w).

(** One iteration of v_dispatch_worker_poll: dequeue, handle, release. *)
Definition rx_dequeue : M (option Z) := λ w,
  match rte_ring_dequeue (g_rx_ring (w_disp w)) with
  | None => Some (None, w)
  | Some (m, r) => Some (Some m, set_disp (Dispatch r (g_tx_ring (w_disp w)) (g_msg_pool (w_disp w))) w)
  end.

Definition dispatch_msg_get (m : Z) : M v_dispatch_msg := λ w,
  match heap_get (g_msg_pool (w_disp w)) m with Some x => Some (x, w) | None => None end.

Definition dispatch_msg_put (m : Z) : M () :=
  modify (λ w, let d := w_disp w in
    set_disp (Dispatch (g_rx_ring d) (g_tx_ring d) (heap_free m (g_msg_pool d))) w).

(** v_dispatch_worker_poll: [max] bounds the loop. *)
Fixpoint v_dispatch_worker_poll (max : nat) (handler : v_dispatch_msg → M ()) : M Z :=
  match max with
  | O => mret 0
  | S max' =>
      o ← rx_dequeue;
      match o with
      | None => mret 0
      | Some m =>
          x ← dispatch_msg_get m;
          _ ← handler x;
          _ ← dispatch_msg_put m;
          n ← v_dispatch_worker_poll max' handler;
          mret (n + 1)
      end
  end.

(** v_dispatch_io_drain_tx: the datagrams handed to v_port_pfcp_io_send, in
    order, and the number drained (a failed send is logged only). *)
Fixpoint dispatch_drain (max : nat) (d : dispatch) : option (list v_dispatch_msg * dispatch) :=
  match max with
  | O => Some ([], d)
  | S max' =>
      match rte_ring_dequeue (g_tx_ring d) with
      | None => Some ([], d)
      | Some (m, r) =>
          match heap_get (g_msg_pool d) m with
          | None => None
          | Some x =>
              match dispatch_drain max' (Dispatch (g_rx_ring d) r (heap_free m (g_msg_pool d))) with
              | Some (l, d') => Some (x :: l, d')
              | None => None
              end
          end
      end
  end.

Definition v_dispatch_io_drain_tx (max : nat) : M (list v_dispatch_msg) := λ w,
  match dispatch_drain max (w_disp w) with
  | Some (l, d) => Some (l, set_disp d w)
  | None => None
  end.

End dispatch.
