(* ===== verification/Flow.v ===== *)
(** Component v_flow: session establishment, modification and deletion as
    chains of asynchronous callbacks over one transaction.  Every function of
    v_flow.c is a definition of the same name; a chain suspends by storing its
    next callback in a pending command or VDP operation. *)
From S2P Require Import Prelude Seid Dpdk Heap Redis World DbScript SessStore RetransCache IdAlloc DispatchQ.

Definition V_PART_RR_SPAN : Z := 16.
Definition RSP_BUF_BYTES : nat := 512.

(** hash_ue_ip: FNV-1a over the four v4 bytes, then the sixteen v6 bytes. *)
Definition hash_ue_ip (v4 : Z) (v6 : list Z) : Z :=
  u16 (fnv1a (le_bytes 4 v4 ++ v6) mod V_NUM_PARTS).

Section flow.
Context {DP : Dpdk} {PP : PfcpPort}.
Variable invoke_user : evalsha_user → Z → option v_db_reply → M ().

(** ** Transaction field updates *)

Definition txn_set_state (s : v_txn_state_t) (x : v_txn) := Txn s (t_db_ver x) (t_cas_retry x) (t_part_id x)
  (t_seid x) (t_teid x) (t_req x) (t_ctx x) (t_peer x) (t_deadline_ms x) (t_impl x).
Definition txn_set_db_ver v (x : v_txn) := Txn (t_state x) v (t_cas_retry x) (t_part_id x)
  (t_seid x) (t_teid x) (t_req x) (t_ctx x) (t_peer x) (t_deadline_ms x) (t_impl x).
Definition txn_set_cas_retry v (x : v_txn) := Txn (t_state x) (t_db_ver x) v (t_part_id x)
  (t_seid x) (t_teid x) (t_req x) (t_ctx x) (t_peer x) (t_deadline_ms x) (t_impl x).
Definition txn_set_part v (x : v_txn) := Txn (t_state x) (t_db_ver x) (t_cas_retry x) v
  (t_seid x) (t_teid x) (t_req x) (t_ctx x) (t_peer x) (t_deadline_ms x) (t_impl x).
Definition txn_set_seid v (x : v_txn) := Txn (t_state x) (t_db_ver x) (t_cas_retry x) (t_part_id x)
  v (t_teid x) (t_req x) (t_ctx x) (t_peer x) (t_deadline_ms x) (t_impl x).
Definition txn_set_teid v (x : v_txn) := Txn (t_state x) (t_db_ver x) (t_cas_retry x) (t_part_id x)
  (t_seid x) v (t_req x) (t_ctx x) (t_peer x) (t_deadline_ms x) (t_impl x).
Definition txn_set_req v (x : v_txn) := Txn (t_state x) (t_db_ver x) (t_cas_retry x) (t_part_id x)
  (t_seid x) (t_teid x) v (t_ctx x) (t_peer x) (t_deadline_ms x) (t_impl x).
Definition txn_set_ctx v (x : v_txn) := Txn (t_state x) (t_db_ver x) (t_cas_retry x) (t_part_id x)
  (t_seid x) (t_teid x) (t_req x) v (t_peer x) (t_deadline_ms x) (t_impl x).
Definition txn_set_peer v (x : v_txn) := Txn (t_state x) (t_db_ver x) (t_cas_retry x) (t_part_id x)
  (t_seid x) (t_teid x) (t_req x) (t_ctx x) v (t_deadline_ms x) (t_impl x).
Definition txn_set_impl v (x : v_txn) := Txn (t_state x) (t_db_ver x) (t_cas_retry x) (t_part_id x)
  (t_seid x) (t_teid x) (t_req x) (t_ctx x) (t_peer x) (t_deadline_ms x) v.

Definition v_port_txn_set_state (t : Z) (s : v_txn_state_t) : M () := txn_upd t (txn_set_state s).

(** [if (p) free(p);] on a nullable context pointer. *)
Definition ctx_free_opt (c : option Z) : M () :=
  match c with Some c => v_port_ctx_free c | None => mret tt end.

(** part_rr *)
Definition part_rr : M Z := λ w,
  Some (Z.land (w_rr_base w + Z.land (w_rr_ctr w) (V_PART_RR_SPAN - 1)) (V_NUM_PARTS - 1),
        set_rr_ctr (u16 (w_rr_ctr w + 1)) w).

(** v_flow_init: the base comes from the address of a static and the pid. *)
Definition v_flow_init (addr pid : Z) : M Z := λ w,
  Some (RET_CODE_OK, set_rr_ctr 0 (set_rr_base (Z.land (u16 (Z.lxor addr pid)) (V_NUM_PARTS - 1)) w)).

(** ** finish *)

(** The reply half of finish: encode, cache, enqueue. *)
Definition reply_and_cache (x : v_txn) (cause : Z) : M () :=
  r ← deref (t_req x);
  req ← msg_get r;
  ctx_for_rsp ← (if cause =? V_PFCP_CAUSE_REQUEST_ACCEPTED then
                   match t_ctx x with
                   | Some c => v ← ctx_get c; mret (Some v)
                   | None => mret None
                   end
                 else mret None);
  match v_port_pfcp_encode_rsp req ctx_for_rsp cause RSP_BUF_BYTES with
  | None => mret tt
  | Some buf =>
      let smf_fseid := v_port_pfcp_smf_fseid req in
      let seq := v_port_pfcp_seq req in
      let rpart := v_retrans_part smf_fseid in
      _ ← v_retrans_store rpart smf_fseid seq buf;
      _ ← v_dispatch_tx_enqueue buf (Some (t_peer x));
      mret tt
  end.

Definition finish (t : Z) (cause : Z) : M () :=
  x ← txn_get t;
  _ ← reply_and_cache x cause;
  _ ← v_port_txn_set_state t TXN_ST_REPLIED;
  x ← txn_get t;
  _ ← match t_ctx x with
      | Some c => _ ← v_port_ctx_free c; txn_upd t (txn_set_ctx None)
      | None => mret tt
      end;
  _ ← match t_req x with
      | Some r => _ ← v_port_pfcp_msg_free r; txn_upd t (txn_set_req None)
      | None => mret tt
      end;
  v_port_txn_destroy t.

(** A lookup that could not be dispatched: release request and txn, no reply. *)
Definition drop_request (t : Z) : M () :=
  x ← txn_get t;
  _ ← match t_req x with Some r => v_port_pfcp_msg_free r | None => mret tt end;
  _ ← txn_upd t (txn_set_req None);
  v_port_txn_destroy t.

(** A retransmit hit: send the cached bytes, release request and txn. *)
Definition reply_cached (t : Z) (resp : bytes) : M () :=
  x ← txn_get t;
  _ ← v_dispatch_tx_enqueue resp (Some (t_peer x));
  drop_request t.

(** ** Establishment *)

(** delete_pending_noop_cb: logs only *)
Definition delete_pending_noop_cb (status : Z) (result : v_cas_result_t) (new_ver : Z) : M () := mret tt.

(** confirm_cb *)
Definition confirm_cb (t status : Z) : M () :=
  if negb (status =? RET_CODE_OK) then finish t V_PFCP_CAUSE_SYSTEM_FAILURE
  else finish t V_PFCP_CAUSE_REQUEST_ACCEPTED.

(** vdp_create_cb *)
Definition vdp_create_cb (t : Z) (res : v_vdp_result_t) : M () :=
  x ← txn_get t;
  if decide (res ≠ V_VDP_ACCEPT) then
    _ ← v_sess_delete invoke_user (t_part_id x) (t_seid x) (t_db_ver x) fp_delete_pending_noop_cb None;
    _ ← v_teid_free (t_part_id x) (t_teid x);
    finish t V_PFCP_CAUSE_REQUEST_REJECTED
  else
    _ ← v_port_txn_set_state t TXN_ST_DB_CONFIRM_WAIT;
    rc ← v_sess_confirm (t_part_id x) (t_seid x) fp_confirm_cb (Some t);
    when (negb (rc =? RET_CODE_OK)) (finish t V_PFCP_CAUSE_SYSTEM_FAILURE).

(** cas_write_cb *)
Definition cas_write_cb (t status : Z) (result : v_cas_result_t) (new_ver : Z) : M () :=
  x ← txn_get t;
  if negb (status =? RET_CODE_OK) || bool_decide (result ≠ V_CAS_OK) then
    _ ← v_teid_free (t_part_id x) (t_teid x);
    finish t V_PFCP_CAUSE_SYSTEM_FAILURE
  else
    _ ← txn_upd t (txn_set_db_ver new_ver);
    _ ← v_port_txn_set_state t TXN_ST_VDP_WAIT;
    c ← deref (t_ctx x);
    rc ← v_port_vdp_session_create (t_part_id x) c fp_vdp_create_cb t;
    when (negb (rc =? RET_CODE_OK))
      (_ ← v_sess_delete invoke_user (t_part_id x) (t_seid x) new_ver fp_delete_pending_noop_cb None;
       _ ← v_teid_free (t_part_id x) (t_teid x);
       finish t V_PFCP_CAUSE_SYSTEM_FAILURE).

(** retrans_lookup_cb *)
Definition retrans_lookup_cb (t status : Z) (hit : bool) (resp : bytes) : M () :=
  if (status =? RET_CODE_OK) && hit then reply_cached t resp
  else
    x ← txn_get t;
    r ← deref (t_req x);
    req ← msg_get r;
    part ← (match v_port_pfcp_ue_ip req with
            | Some (v4, v6) => mret (hash_ue_ip v4 v6)
            | None => part_rr
            end);
    _ ← txn_upd t (txn_set_part part);
    seid ← v_seid_alloc part;
    teid ← v_teid_alloc invoke_user part;
    if (seid =? 0) || (teid =? 0) then
      _ ← when (negb (teid =? 0)) (v_teid_free part teid);
      finish t V_PFCP_CAUSE_NO_RESOURCES_AVAILABLE
    else
      _ ← txn_upd t (txn_set_seid seid);
      _ ← txn_upd t (txn_set_teid teid);
      c ← v_port_ctx_alloc;
      match c with
      | None =>
          _ ← v_teid_free part teid;
          finish t V_PFCP_CAUSE_SYSTEM_FAILURE
      | Some c =>
          _ ← txn_upd t (txn_set_ctx (Some c));
          v ← ctx_get c;
          let '(rc, v') := v_port_pfcp_build_session req seid teid v in
          _ ← ctx_set c v';
          if negb (rc =? RET_CODE_OK) then
            _ ← v_teid_free part teid;
            finish t V_PFCP_CAUSE_SYSTEM_FAILURE
          else
            _ ← v_port_txn_set_state t TXN_ST_DB_WRITE_WAIT;
            rc ← v_sess_cas_write invoke_user part seid 0 c V_SESS_PENDING fp_cas_write_cb (Some t);
            when (negb (rc =? RET_CODE_OK))
              (_ ← v_teid_free part teid; finish t V_PFCP_CAUSE_SYSTEM_FAILURE)
      end.

(** The common tail of the three entry points: create the transaction, fill
    it and dispatch the retransmit lookup. *)
Definition start_txn (req : Z) (peer : sockaddr) (init : v_txn → v_txn) (cb : v_retrans_cb_t) : M () :=
  m ← msg_get req;
  let smf_fseid := v_port_pfcp_smf_fseid m in
  let seq := v_port_pfcp_seq m in
  let rpart := v_retrans_part smf_fseid in
  o ← v_port_txn_create;
  match o with
  | None => v_port_pfcp_msg_free req
  | Some t =>
      _ ← txn_upd t (λ x, txn_set_state TXN_ST_RECV (init (txn_set_peer peer (txn_set_req (Some req) x))));
      rc ← v_retrans_lookup rpart smf_fseid seq cb (Some t);
      when (negb (rc =? RET_CODE_OK)) (drop_request t)
  end.

(** handle_establishment *)
Definition handle_establishment (req : Z) (peer : sockaddr) : M () :=
  start_txn req peer id fp_retrans_lookup_cb.

(** ** Modification *)

(** mod_compensate_write_cb *)
Definition mod_compensate_write_cb (t status : Z) (result : v_cas_result_t) (new_ver : Z) : M () :=
  finish t V_PFCP_CAUSE_REQUEST_REJECTED.

(** mod_vdp_cb *)
Definition mod_vdp_cb (t : Z) (res : v_vdp_result_t) : M () :=
  x ← txn_get t;
  let prev := t_impl x in
  _ ← txn_upd t (txn_set_impl None);
  if decide (res ≠ V_VDP_ACCEPT) then
    p ← deref prev;
    rc ← v_sess_cas_write invoke_user (t_part_id x) (t_seid x) (t_db_ver x) p V_SESS_CONFIRMED
           fp_mod_compensate_write_cb (Some t);
    _ ← v_port_ctx_free p;
    when (negb (rc =? RET_CODE_OK)) (finish t V_PFCP_CAUSE_SYSTEM_FAILURE)
  else
    _ ← ctx_free_opt prev;
    finish t V_PFCP_CAUSE_REQUEST_ACCEPTED.

(** [if (t->impl) { v_port_ctx_free(t->impl); t->impl = NULL; }] *)
Definition drop_snapshot (t : Z) : M () :=
  x ← txn_get t;
  match t_impl x with
  | Some p => _ ← v_port_ctx_free p; txn_upd t (txn_set_impl None)
  | None => mret tt
  end.

(** mod_read_cb *)
Definition mod_read_cb (t status : Z) (found : v_cas_result_t) (ctx ver : Z) : M () :=
  if negb (status =? RET_CODE_OK) then finish t V_PFCP_CAUSE_SYSTEM_FAILURE
  else if decide (found ≠ V_CAS_OK) then finish t V_PFCP_CAUSE_SESSION_CTX_NOT_FOUND
  else
    _ ← txn_upd t (txn_set_db_ver ver);
    o ← v_port_ctx_alloc;
    match o with
    | None => finish t V_PFCP_CAUSE_SYSTEM_FAILURE
    | Some prev =>
        c ← ctx_get ctx;
        p ← ctx_get prev;
        match (match v_port_pdu_serialize c V_SESS_BLOB_MAX_BYTES with
               | None => None
               | Some blob =>
                   let '(rc, p') := v_port_pdu_deserialize blob p in
                   if rc =? RET_CODE_OK then Some p' else None
               end) with
        | None =>
            _ ← v_port_ctx_free prev;
            finish t V_PFCP_CAUSE_SYSTEM_FAILURE
        | Some p' =>
            _ ← ctx_set prev p';
            _ ← txn_upd t (txn_set_impl (Some prev));
            x ← txn_get t;
            r ← deref (t_req x);
            req ← msg_get r;
            let '(rc, c') := v_port_pfcp_modify_session req c in
            _ ← ctx_set ctx c';
            if negb (rc =? RET_CODE_OK) then
              _ ← v_port_ctx_free prev;
              _ ← txn_upd t (txn_set_impl None);
              finish t V_PFCP_CAUSE_SYSTEM_FAILURE
            else
              _ ← v_port_txn_set_state t TXN_ST_DB_WRITE_WAIT;
              rc ← v_sess_cas_write invoke_user (t_part_id x) (t_seid x) (t_db_ver x) ctx V_SESS_CONFIRMED
                     fp_mod_cas_cb (Some t);
              when (negb (rc =? RET_CODE_OK))
                (_ ← v_port_ctx_free prev;
                 _ ← txn_upd t (txn_set_impl None);
                 finish t V_PFCP_CAUSE_SYSTEM_FAILURE)
        end
    end.

(** mod_start_read *)
Definition mod_start_read (t : Z) : M () :=
  _ ← v_port_txn_set_state t TXN_ST_DB_READ_WAIT;
  x ← txn_get t;
  c ← deref (t_ctx x);
  rc ← v_sess_read (t_part_id x) (t_seid x) c fp_mod_read_cb (Some t);
  when (negb (rc =? RET_CODE_OK)) (finish t V_PFCP_CAUSE_SYSTEM_FAILURE).

(** mod_cas_cb *)
Definition mod_cas_cb (t status : Z) (result : v_cas_result_t) (new_ver : Z) : M () :=
  if negb (status =? RET_CODE_OK) then
    _ ← drop_snapshot t;
    finish t V_PFCP_CAUSE_SYSTEM_FAILURE
  else
    match result with
    | V_CAS_OK =>
        _ ← txn_upd t (txn_set_db_ver new_ver);
        _ ← v_port_txn_set_state t TXN_ST_VDP_WAIT;
        x ← txn_get t;
        c ← deref (t_ctx x);
        rc ← v_port_vdp_session_modify (t_part_id x) c fp_mod_vdp_cb t;
        when (negb (rc =? RET_CODE_OK))
          (_ ← drop_snapshot t; finish t V_PFCP_CAUSE_SYSTEM_FAILURE)
    | V_CAS_CONFLICT =>
        _ ← drop_snapshot t;
        _ ← txn_upd t (λ x, txn_set_cas_retry (u8 (t_cas_retry x + 1)) x);
        x ← txn_get t;
        if V_CAS_MAX_RETRY <=? t_cas_retry x then finish t V_PFCP_CAUSE_SYSTEM_FAILURE
        else
          c ← deref (t_ctx x);
          _ ← v_port_ctx_clear c;
          mod_start_read t
    | V_CAS_GONE =>
        _ ← drop_snapshot t;
        finish t V_PFCP_CAUSE_SESSION_CTX_NOT_FOUND
    end.

(** The miss path shared in shape by Modification and Deletion: allocate the
    context, then start the read. *)
Definition alloc_ctx_then (t : Z) (start_read : Z → M ()) : M () :=
  o ← v_port_ctx_alloc;
  _ ← txn_upd t (txn_set_ctx o);
  match o with
  | None => finish t V_PFCP_CAUSE_SYSTEM_FAILURE
  | Some _ => start_read t
  end.

(** mod_retrans_lookup_cb *)
Definition mod_retrans_lookup_cb (t status : Z) (hit : bool) (resp : bytes) : M () :=
  if (status =? RET_CODE_OK) && hit then reply_cached t resp
  else alloc_ctx_then t mod_start_read.

(** reply_ctx_not_found *)
Definition reply_ctx_not_found (req : Z) (peer : sockaddr) : M () :=
  m ← msg_get req;
  _ ← match v_port_pfcp_encode_rsp m None V_PFCP_CAUSE_SESSION_CTX_NOT_FOUND RSP_BUF_BYTES with
      | Some buf => _ ← v_dispatch_tx_enqueue buf (Some peer); mret tt
      | None => mret tt
      end;
  v_port_pfcp_msg_free req.

(** The validated entry of Modification and Deletion. *)
Definition handle_existing (req : Z) (peer : sockaddr) (cb : v_retrans_cb_t) : M () :=
  m ← msg_get req;
  let seid := v_port_pfcp_hdr_seid m in
  match v_seid_validate seid with
  | None => reply_ctx_not_found req peer
  | Some part => start_txn req peer (λ x, txn_set_seid seid (txn_set_part part x)) cb
  end.

(** handle_modification *)
Definition handle_modification (req : Z) (peer : sockaddr) : M () :=
  handle_existing req peer fp_mod_retrans_lookup_cb.

(** ** Deletion *)

(** del_vdp_cb *)
Definition del_vdp_cb (t : Z) (res : v_vdp_result_t) : M () :=
  if decide (res ≠ V_VDP_ACCEPT) then finish t V_PFCP_CAUSE_REQUEST_REJECTED
  else
    _ ← v_port_txn_set_state t TXN_ST_DB_WRITE_WAIT;
    x ← txn_get t;
    rc ← v_sess_delete invoke_user (t_part_id x) (t_seid x) (t_db_ver x) fp_del_delete_cb (Some t);
    when (negb (rc =? RET_CODE_OK)) (finish t V_PFCP_CAUSE_SYSTEM_FAILURE).

(** del_read_cb *)
Definition del_read_cb (t status : Z) (found : v_cas_result_t) (ctx ver : Z) : M () :=
  if negb (status =? RET_CODE_OK) then finish t V_PFCP_CAUSE_SYSTEM_FAILURE
  else if decide (found ≠ V_CAS_OK) then finish t V_PFCP_CAUSE_SESSION_CTX_NOT_FOUND
  else
    _ ← txn_upd t (txn_set_db_ver ver);
    _ ← v_port_txn_set_state t TXN_ST_VDP_WAIT;
    x ← txn_get t;
    rc ← v_port_vdp_session_delete (t_part_id x) (t_seid x) fp_del_vdp_cb t;
    when (negb (rc =? RET_CODE_OK)) (finish t V_PFCP_CAUSE_SYSTEM_FAILURE).

(** del_start_read *)
Definition del_start_read (t : Z) : M () :=
  _ ← v_port_txn_set_state t TXN_ST_DB_READ_WAIT;
  x ← txn_get t;
  c ← deref (t_ctx x);
  rc ← v_sess_read (t_part_id x) (t_seid x) c fp_del_read_cb (Some t);
  when (negb (rc =? RET_CODE_OK)) (finish t V_PFCP_CAUSE_SYSTEM_FAILURE).

(** del_delete_cb *)
Definition del_delete_cb (t status : Z) (result : v_cas_result_t) (new_ver : Z) : M () :=
  if negb (status =? RET_CODE_OK) then finish t V_PFCP_CAUSE_SYSTEM_FAILURE
  else
    match result with
    | V_CAS_OK =>
        x ← txn_get t;
        c ← deref (t_ctx x);
        v ← ctx_get c;
        _ ← v_teid_free (t_part_id x) (v_port_pfcp_ctx_teid v);
        finish t V_PFCP_CAUSE_REQUEST_ACCEPTED
    | V_CAS_CONFLICT =>
        _ ← txn_upd t (λ x, txn_set_cas_retry (u8 (t_cas_retry x + 1)) x);
        x ← txn_get t;
        if V_CAS_MAX_RETRY <=? t_cas_retry x then finish t V_PFCP_CAUSE_SYSTEM_FAILURE
        else
          c ← deref (t_ctx x);
          _ ← v_port_ctx_clear c;
          del_start_read t
    | V_CAS_GONE => finish t V_PFCP_CAUSE_SESSION_CTX_NOT_FOUND
    end.

(** del_retrans_lookup_cb *)
Definition del_retrans_lookup_cb (t status : Z) (hit : bool) (resp : bytes) : M () :=
  if (status =? RET_CODE_OK) && hit then reply_cached t resp
  else alloc_ctx_then t del_start_read.

(** handle_deletion *)
Definition handle_deletion (req : Z) (peer : sockaddr) : M () :=
  handle_existing req peer fp_del_retrans_lookup_cb.

(** ** v_flow_handle_msg *)

Definition v_flow_handle_msg (msg : v_dispatch_msg) : M () :=
  o ← pfcp_decode (m_buf msg);
  match o with
  | None => mret tt
  | Some req =>
      m ← msg_get req;
      let type := v_port_pfcp_msg_type m in
      if type =? V_PFCP_MSG_SESSION_EST_REQ then handle_establishment req (m_peer msg)
      else if type =? V_PFCP_MSG_SESSION_MOD_REQ then handle_modification req (m_peer msg)
      else if type =? V_PFCP_MSG_SESSION_DEL_REQ then handle_deletion req (m_peer msg)
      else v_port_pfcp_msg_free req
  end.

End flow.
