(* ===== verification/NodeState.v ===== *)
(** Component v_node_state: Node ID, Recovery Time Stamp and association state
    of the UPF node, shared by all pods through Redis.  The user callback of a
    pending call is an opaque token, invoked through a parameter. *)
From S2P Require Import Prelude Dpdk Heap Redis World.

Definition V_NODE_ID_MAX_BYTES : Z := 64.
Definition V_NODE_STATE_PENDING_POOL_CAP : Z := 64.

(** "%02x" of every byte *)
Definition hex_digit (d : Z) : ascii := ascii_of_N (Z.to_N (if d <? 10 then 48 + d else 87 + d)).
Definition hex_byte (c : ascii) : bytes := [hex_digit (ascii_code c / 16); hex_digit (ascii_code c mod 16)].
Definition node_id_hex (node_id : bytes) : bytes := node_id ≫= hex_byte.

Definition recovery_key (node_id : bytes) : bytes := snprintf 160 ($"upf:" ++ node_id_hex node_id ++ $":recovery").
Definition assoc_key (node_id : bytes) : bytes := snprintf 160 ($"upf:" ++ node_id_hex node_id ++ $":assoc").

(** The time stamp a reply establishes: an existing value wins, anything else
    on a completed round trip counts as a won race and takes [now]. *)
Definition recovery_value (reply : option v_db_reply) (now : Z) : Z :=
  match reply with
  | Some (V_DB_REPLY_STRING s) => u32 (parse_buf 24 s)
  | _ => u32 now
  end.

(** The outcome of an association query: status, associated, SMF hash. *)
Definition assoc_outcome (status : Z) (reply : option v_db_reply) : Z * bool * Z :=
  match reply with
  | Some (V_DB_REPLY_ARRAY [associated_r; smf_r]) =>
      if negb (status =? RET_CODE_OK) then (RET_CODE_ERR, false, 0)
      else if reply_is_nil associated_r then (RET_CODE_OK, false, 0)
      else
        let associated := match reply_str associated_r with c :: _ => ascii_code c =? 49 | [] => false end in
        let smf := match smf_r with
                   | V_DB_REPLY_STRING s => if associated then parse_buf 24 s else 0
                   | _ => 0
                   end in
        (RET_CODE_OK, associated, smf)
  | _ => (RET_CODE_ERR, false, 0)
  end.

Section node_state.
Context {DP : Dpdk} {PP : PfcpPort}.
Variable invoke_recovery : Z → Z → Z → M ().         (* cb, status, ts *)
Variable invoke_node : Z → Z → M ().                 (* cb, status *)
Variable invoke_assoc : Z → Z → bool → Z → M ().     (* cb, status, associated, smf *)

Definition node_set_pool p (n : node_state) := NodeState (g_recovery_key n) (g_assoc_key n)
  (g_recovery_ts n) (g_recovery_ts_ready n) p.
Definition node_set_ts ts (n : node_state) := NodeState (g_recovery_key n) (g_assoc_key n)
  ts true (g_node_pool n).

(** v_node_state_init *)
Definition v_node_state_init (node_id : bytes) : M Z := λ w,
  let n := w_node w in
  if (Z.of_nat (length node_id) =? 0) || (V_NODE_ID_MAX_BYTES <? Z.of_nat (length node_id)) then Some (RET_CODE_ERR, w)
  else
    let init pool := Some (RET_CODE_OK,
      set_node (NodeState (recovery_key node_id) (assoc_key node_id) (g_recovery_ts n) false (Some pool)) w) in
    match g_node_pool n with
    | Some pool => init pool
    | None =>
        match rte_mempool_create V_NODE_STATE_PENDING_POOL_CAP with
        | Some pool => init pool
        | None => Some (RET_CODE_ERR, w)
        end
    end.

(** v_node_state_fini *)
Definition v_node_state_fini : M () :=
  modify (λ w, let n := w_node w in
    set_node (NodeState (g_recovery_key n) (g_assoc_key n) (g_recovery_ts n) false None) w).

(** pending_get / rte_mempool_put *)
Definition node_pending_get : M (option Z) := λ w,
  match g_node_pool (w_node w) with
  | None => None
  | Some pool =>
      match rte_mempool_get pool with
      | Some (obj, pool') => Some (Some obj, set_node (node_set_pool (Some pool') (w_node w)) w)
      | None => Some (None, w)
      end
  end.

Definition node_pending_put (obj : Z) : M () := λ w,
  match g_node_pool (w_node w) with
  | None => None
  | Some pool => Some (tt, set_node (node_set_pool (Some (rte_mempool_put pool obj)) (w_node w)) w)
  end.

(** The shape of every entry point: take a pending object, issue one command
    on the shard of [key], release the object when it cannot be issued. *)
Definition node_issue (key : bytes) (argv : list bytes) (cb : node_pending → v_db_cb_t) (user : Z) : M Z :=
  o ← node_pending_get;
  match o with
  | None => mret RET_CODE_ERR
  | Some obj =>
      rc ← v_port_db_cmd (v_port_db_shard_of key) (cb (NodePending obj user)) argv;
      if negb (rc =? RET_CODE_OK) then _ ← node_pending_put obj; mret RET_CODE_ERR
      else mret RET_CODE_OK
  end.

(** recovery_reply_cb *)
Definition recovery_reply_cb (p : node_pending) (status : Z) (reply : option v_db_reply) : M () :=
  _ ← node_pending_put (np_obj p);
  if negb (status =? RET_CODE_OK) then invoke_recovery (np_cb p) RET_CODE_ERR 0
  else
    now ← gets w_time;
    let ts := recovery_value reply now in
    _ ← modify (λ w, set_node (node_set_ts ts (w_node w)) w);
    invoke_recovery (np_cb p) RET_CODE_OK ts.

(** v_node_state_load_recovery_ts: SET key now NX GET *)
Definition v_node_state_load_recovery_ts (user : Z) : M Z :=
  n ← gets w_node;
  now ← gets w_time;
  node_issue (g_recovery_key n) [$"SET"; g_recovery_key n; dec (u32 now); $"NX"; $"GET"] fp_recovery_reply_cb user.

(** v_node_state_force_new_recovery_ts: SET key now *)
Definition v_node_state_force_new_recovery_ts (user : Z) : M Z :=
  n ← gets w_node;
  now ← gets w_time;
  node_issue (g_recovery_key n) [$"SET"; g_recovery_key n; dec (u32 now)] fp_recovery_reply_cb user.

(** v_node_state_recovery_ts, v_node_state_recovery_ts_ready *)
Definition v_node_state_recovery_ts (w : world) : Z := g_recovery_ts (w_node w).
Definition v_node_state_recovery_ts_ready (w : world) : bool := g_recovery_ts_ready (w_node w).

(** simple_ack_cb *)
Definition simple_ack_cb (p : node_pending) (status : Z) (reply : option v_db_reply) : M () :=
  _ ← node_pending_put (np_obj p);
  invoke_node (np_cb p) status.

(** v_node_state_set_associated, v_node_state_clear_associated *)
Definition v_node_state_set_associated (smf_node_id_hash : Z) (user : Z) : M Z :=
  n ← gets w_node;
  node_issue (g_assoc_key n) [$"HSET"; g_assoc_key n; $"associated"; $"1"; $"smf"; dec smf_node_id_hash]
    fp_simple_ack_cb user.

Definition v_node_state_clear_associated (user : Z) : M Z :=
  n ← gets w_node;
  node_issue (g_assoc_key n) [$"HSET"; g_assoc_key n; $"associated"; $"0"] fp_simple_ack_cb user.

(** assoc_query_reply_cb *)
Definition assoc_query_reply_cb (p : node_pending) (status : Z) (reply : option v_db_reply) : M () :=
  _ ← node_pending_put (np_obj p);
  let '(st, associated, smf) := assoc_outcome status reply in
  invoke_assoc (np_cb p) st associated smf.

(** v_node_state_query_associated *)
Definition v_node_state_query_associated (user : Z) : M Z :=
  n ← gets w_node;
  node_issue (g_assoc_key n) [$"HMGET"; g_assoc_key n; $"associated"; $"smf"] fp_assoc_query_reply_cb user.

End node_state.
