(* ===== verification/Sweeper.v ===== *)
(** Component v_txn: the sweeper that runs when the transaction table's hard
    timeout fires on a transaction. *)
From S2P Require Import Prelude Dpdk Heap Redis World DbScript SessStore Flow.

Section sweeper.
Context {DP : Dpdk} {PP : PfcpPort}.
Variable invoke_user : evalsha_user → Z → option v_db_reply → M ().

(** confirm_retry_cb, delete_pending_cb: log only *)
Definition confirm_retry_cb (status : Z) : M () := mret tt.
Definition delete_pending_cb (status : Z) (result : v_cas_result_t) (new_ver : Z) : M () := mret tt.

(** The per-state recovery action: the switch of timeout_handler. *)
Definition timeout_action (x : v_txn) : M () :=
  match t_state x with
  | TXN_ST_RECV | TXN_ST_DB_READ_WAIT => mret tt
  | TXN_ST_DB_WRITE_WAIT => mret tt
  | TXN_ST_VDP_WAIT =>
      if t_db_ver x =? 0 then
        _ ← v_sess_delete invoke_user (t_part_id x) (t_seid x) 1 fp_delete_pending_cb None; mret tt
      else mret tt
  | TXN_ST_DB_CONFIRM_WAIT =>
      _ ← v_sess_confirm (t_part_id x) (t_seid x) fp_confirm_retry_cb None; mret tt
  | TXN_ST_REPLIED => mret tt
  end.

(** timeout_handler *)
Definition timeout_handler (t : Z) : M () :=
  x ← txn_get t;
  _ ← timeout_action x;
  x ← txn_get t;
  _ ← match t_ctx x with
      | Some c => _ ← v_port_ctx_free c; txn_upd t (txn_set_ctx None)
      | None => mret tt
      end;
  _ ← match t_req x with
      | Some r => _ ← v_port_pfcp_msg_free r; txn_upd t (txn_set_req None)
      | None => mret tt
      end;
  v_port_txn_destroy t.

End sweeper.
