(* ===== verification/Teardown.v ===== *)
(** The release functions of v_dispatch, v_id_alloc and v_txn, which only the
    test programs call.  They act on the static pointers, so a pointer is NULL,
    live or dangling here; the process model, whose modules are set up once
    and never torn down, keeps the objects themselves. *)
From S2P Require Import Prelude Seid Dpdk Heap Redis World IdAlloc DispatchQ Sweeper.

Inductive ptr (A : Type) := PNull | PLive (a : A) | PDangling.
Arguments PNull {A}.
Arguments PLive {A} _.
Arguments PDangling {A}.

Section teardown.
Context {DP : Dpdk} {PP : PfcpPort}.

(** ** v_dispatch *)

Record dispatch_statics := DispatchStatics {
  p_rx_ring : option rte_ring; p_tx_ring : option rte_ring; p_msg_pool : option rte_mempool }.

(** v_dispatch_init, on the pointers: a failure leaves what was created. *)
Definition dispatch_open (s : dispatch_statics) : Z * dispatch_statics :=
  match rte_mempool_create V_DISPATCH_POOL_CAP with
  | None => (RET_CODE_ERR, DispatchStatics (p_rx_ring s) (p_tx_ring s) None)
  | Some pool =>
      let rx := rte_ring_create V_DISPATCH_RING_SIZE in
      let tx := rte_ring_create V_DISPATCH_RING_SIZE in
      (match rx, tx with Some _, Some _ => RET_CODE_OK | _, _ => RET_CODE_ERR end, DispatchStatics rx tx (Some pool))
  end.

(** v_dispatch_fini: the rings and the pool it releases, in order. *)
Definition v_dispatch_fini (s : dispatch_statics) : (list rte_ring * list rte_mempool) * dispatch_statics :=
  ((option_list (p_rx_ring s) ++ option_list (p_tx_ring s), option_list (p_msg_pool s)), DispatchStatics None None None).

(** Opened from NULL pointers, successfully or not, and closed: every object
    that was created is released exactly once, and closing again releases
    nothing.  A successful start is the one the process model starts with. *)
Lemma dispatch_open_close :
  let '(rc, s) := dispatch_open (DispatchStatics None None None) in
  let '(released, s') := v_dispatch_fini s in
  (released.1 = option_list (p_rx_ring s) ++ option_list (p_tx_ring s) ∧ released.2 = option_list (p_msg_pool s)) ∧
  v_dispatch_fini s' = (([], []), s') ∧
  match v_dispatch_init with
  | Some d => rc = RET_CODE_OK ∧
      s = DispatchStatics (Some (g_rx_ring d)) (Some (g_tx_ring d)) (Some (hp_pool (g_msg_pool d)))
  | None => rc = RET_CODE_ERR
  end.
Proof.
  unfold dispatch_open, v_dispatch_init. destruct (rte_mempool_create _); [|done].
  by destruct (rte_ring_create V_DISPATCH_RING_SIZE).
Qed.

(** ** v_id_alloc *)

Record id_statics := IdStatics {
  p_initialized : bool;
  p_seid_ring : ptr (gmap Z rte_ring); p_teid_ring : ptr (gmap Z rte_ring);
  p_seid_refill_inflight : ptr (gset Z); p_teid_refill_inflight : ptr (gset Z); p_teid_next_seeded : ptr (gset Z) }.

(** The pointers once v_id_alloc_init has returned RET_CODE_OK *)
Definition id_opened (a : id_alloc) : id_statics :=
  IdStatics (g_initialized a) (PLive (g_seid_ring a)) (PLive (g_teid_ring a)) (PLive (g_seid_refill_inflight a))
    (PLive (g_teid_refill_inflight a)) (PLive (g_teid_next_seeded a)).

(** The ring table slots, freed pairwise; rte_ring_free(NULL) does nothing. *)
Definition ring_pairs (seid teid : gmap Z rte_ring) : list rte_ring :=
  seqZ 0 V_NUM_PARTS ≫= λ p, option_list (seid !! p) ++ option_list (teid !! p).

(** v_id_alloc_fini: the rings it releases.  The ring tables become NULL, the
    flag arrays are released but keep their address.  [None]: reading a table
    that is not live. *)
Definition v_id_alloc_fini (s : id_statics) : option (list rte_ring * id_statics) :=
  if negb (p_initialized s) then Some ([], s)
  else
    match p_seid_ring s, p_teid_ring s with
    | PLive seid, PLive teid => Some (ring_pairs seid teid, IdStatics false PNull PNull PDangling PDangling PDangling)
    | _, _ => None
    end.

Lemma create_rings_all parts : ∀ a0 a, create_rings parts a0 = (true, a) →
  ∀ p, p ∈ parts → is_Some (g_seid_ring a !! p) ∧ is_Some (g_teid_ring a !! p).
Proof.
  assert (∀ parts a0 a p, create_rings parts a0 = (true, a) → is_Some (g_seid_ring a0 !! p) ∧ is_Some (g_teid_ring a0 !! p) →
    is_Some (g_seid_ring a !! p) ∧ is_Some (g_teid_ring a !! p)) as Hkeep.
  { clear. induction parts as [|q parts IH]; intros a0 a p E; cbn in E; [by injection E as <-|].
    destruct (rte_ring_create V_ID_RING_SIZE) as [r|]; [|done]. intros [H1 H2]. eapply IH; [exact E|]. cbn.
    split; by apply lookup_insert_is_Some'; right. }
  induction parts as [|q parts IH]; intros a0 a E p Hp; [by apply elem_of_nil in Hp|]. cbn in E.
  destruct (rte_ring_create V_ID_RING_SIZE) as [r|]; [|done].
  apply elem_of_cons in Hp as [->|Hp]; [|by eapply IH].
  eapply Hkeep; [exact E|]. cbn. rewrite !lookup_insert_eq. split; by eexists.
Qed.

Lemma pairs_length l (seid teid : gmap Z rte_ring) :
  (∀ p, p ∈ l → is_Some (seid !! p) ∧ is_Some (teid !! p)) →
  length (l ≫= λ p, option_list (seid !! p) ++ option_list (teid !! p)) = (2 * length l)%nat.
Proof.
  induction l as [|p l IH]; intros H; [done|]. cbn. rewrite !length_app, IH.
  - destruct (H p) as [[r ->] [r' ->]]; [left|]. cbn. lia.
  - intros q Hq. apply H. by right.
Qed.

(** After a successful start, closing releases the two rings of each of the
    1024 partitions; closing again, or without a start, releases nothing. *)
Lemma id_open_close a : create_rings (seqZ 0 V_NUM_PARTS) (IdAlloc ∅ ∅ ∅ ∅ ∅ false) = (true, a) →
  ∃ rings s, v_id_alloc_fini (id_opened (ids_set_initialized true a)) = Some (rings, s) ∧ Z.of_nat (length rings) = 2 * V_NUM_PARTS ∧
    v_id_alloc_fini s = Some ([], s).
Proof.
  intros Ha. unfold v_id_alloc_fini. cbn [id_opened ids_set_initialized g_initialized p_initialized g_seid_ring g_teid_ring negb p_seid_ring p_teid_ring]. eexists _, _. split; [done|].
  split; [|done]. unfold ring_pairs. rewrite pairs_length by by eapply create_rings_all. rewrite length_seqZ. unfold V_NUM_PARTS. lia.
Qed.

(** ** v_txn *)

(** g_timeout_cb and g_timeout_arg, NULL until registered *)
Definition timeout_reg : Type := option (Z → option Z → M ()) * option Z.

(** v_port_txn_on_timeout *)
Definition v_port_txn_on_timeout (cb : Z → option Z → M ()) (arg : option Z) (s : timeout_reg) : Z * timeout_reg :=
  (RET_CODE_OK, (Some cb, arg)).

(** v_txn_sm_init, v_txn_sm_fini *)
Definition v_txn_sm_init (invoke_user : evalsha_user → Z → option v_db_reply → M ()) (s : timeout_reg) : Z * timeout_reg :=
  v_port_txn_on_timeout (λ t _, timeout_handler invoke_user t) None s.
Definition v_txn_sm_fini (s : timeout_reg) : timeout_reg := s.

End teardown.
