(* ===== verification/Pod.v ===== *)
(** One pod: the callbacks of all modules tied together, and the events that
    drive the process.  [pod_step] is not a function of the code: it is the
    reaction of the process to one stimulus, by the function that the code
    runs for it.  Failed connection attempts are left to StubDb.v, and an
    event runs to its end before the next one.  A synchronous callback (a command that cannot be
    issued) nests at most [CALLBACK_DEPTH] levels; running out is treated as
    undefined behaviour and is proved not to happen. *)
From S2P Require Import Prelude Seid Dpdk Heap Redis World DbScript SessStore RetransCache IdAlloc.
From S2P Require Import DispatchQ NodeState Flow Sweeper.

Definition CALLBACK_DEPTH : nat := 2.

Section pod.
Context {DP : Dpdk} {PP : PfcpPort}.

Abbreviation user_call := (evalsha_user → Z → option v_db_reply → M ()).

(** p->u.cas.cb(status, result, new_ver, arg) *)
Definition call_cas (iu : user_call) (cb : v_sess_cas_cb_t) (status : Z) (result : v_cas_result_t)
    (new_ver : Z) (arg : option Z) : M () :=
  match cb with
  | fp_cas_write_cb => t ← deref arg; cas_write_cb iu t status result new_ver
  | fp_mod_cas_cb => t ← deref arg; mod_cas_cb t status result new_ver
  | fp_mod_compensate_write_cb => t ← deref arg; mod_compensate_write_cb t status result new_ver
  | fp_del_delete_cb => t ← deref arg; del_delete_cb t status result new_ver
  | fp_delete_pending_noop_cb => delete_pending_noop_cb status result new_ver
  | fp_delete_pending_cb => delete_pending_cb status result new_ver
  end.

(** p->user_cb(status, reply, p->user_arg) of v_db_script *)
Fixpoint invoke_user (depth : nat) (u : evalsha_user) (status : Z) (reply : option v_db_reply) : M () :=
  match depth with
  | O => crash
  | S depth' =>
      match u with
      | fp_cas_write_reply_cb p => cas_write_reply_cb (call_cas (invoke_user depth')) p status reply
      | fp_delete_reply_cb p => delete_reply_cb (call_cas (invoke_user depth')) p status reply
      | fp_teid_refill_reply_cb part_id => teid_refill_reply_cb part_id status reply
      end
  end.

Definition iu : user_call := invoke_user CALLBACK_DEPTH.

(** p->u.read.cb(status, found, ctx, ver, arg) *)
Definition call_read (cb : v_sess_read_cb_t) (status : Z) (found : v_cas_result_t) (ctx ver : Z)
    (arg : option Z) : M () :=
  match cb with
  | fp_mod_read_cb => t ← deref arg; mod_read_cb iu t status found ctx ver
  | fp_del_read_cb => t ← deref arg; del_read_cb t status found ctx ver
  end.

(** p->u.simple.cb(status, arg) *)
Definition call_simple (cb : v_sess_cb_t) (status : Z) (arg : option Z) : M () :=
  match cb with
  | fp_confirm_cb => t ← deref arg; confirm_cb t status
  | fp_confirm_retry_cb => confirm_retry_cb status
  end.

(** p->cb(status, hit, resp, len, arg) of v_retrans_cache *)
Definition call_retrans (cb : v_retrans_cb_t) (status : Z) (hit : bool) (resp : bytes) (arg : option Z) : M () :=
  match cb with
  | fp_retrans_lookup_cb => t ← deref arg; retrans_lookup_cb iu t status hit resp
  | fp_mod_retrans_lookup_cb => t ← deref arg; mod_retrans_lookup_cb t status hit resp
  | fp_del_retrans_lookup_cb => t ← deref arg; del_retrans_lookup_cb t status hit resp
  end.

(** The v_vdp_cb_t of a completed data-plane operation *)
Definition call_vdp (cb : v_vdp_cb_t) (t : Z) (res : v_vdp_result_t) : M () :=
  match cb with
  | fp_vdp_create_cb => vdp_create_cb iu t res
  | fp_mod_vdp_cb => mod_vdp_cb iu t res
  | fp_del_vdp_cb => del_vdp_cb iu t res
  end.

(** The node-state user callbacks of main.c only log. *)
Definition recovery_ts_loaded_cb (cb status ts : Z) : M () := mret tt.
Definition node_cb_noop (cb status : Z) : M () := mret tt.
Definition assoc_cb_noop (cb status : Z) (associated : bool) (smf : Z) : M () := mret tt.

(** p->cb(status, reply, p->arg) of the database port *)
Definition db_invoke (cb : v_db_cb_t) (status : Z) (reply : option v_db_reply) : M () :=
  match cb with
  | fp_evalsha_reply_cb p => evalsha_reply_cb iu p status reply
  | fp_load_reply_cb lc => load_reply_cb iu lc status reply
  | fp_read_reply_cb p => read_reply_cb call_read p status reply
  | fp_confirm_reply_cb p => confirm_reply_cb call_simple p status reply
  | fp_seid_refill_reply_cb part_id => seid_refill_reply_cb part_id status reply
  | fp_seed_reply_cb => seed_reply_cb status reply
  | fp_teid_free_reply_cb => teid_free_reply_cb status reply
  | fp_lookup_reply_cb p => lookup_reply_cb call_retrans p status reply
  | fp_store_ack_cb => store_ack_cb status reply
  | fp_recovery_reply_cb p => recovery_reply_cb recovery_ts_loaded_cb p status reply
  | fp_simple_ack_cb p => simple_ack_cb node_cb_noop p status reply
  | fp_assoc_query_reply_cb p => assoc_query_reply_cb assoc_cb_noop p status reply
  end.

(** ** Events *)

(** The entry points of v_node_state; main.c calls the first. *)
Inductive node_call := NodeLoadTs | NodeForceTs | NodeSetAssoc (smf : Z) | NodeClearAssoc | NodeQueryAssoc.

Inductive event :=
  | EvRx (buf : bytes) (peer : sockaddr)            (* I/O core: a datagram arrives *)
  | EvPoll                                          (* a worker takes one message *)
  | EvReply (i : nat) (reply : option v_db_reply)   (* the i-th command in flight completes *)
  | EvVdp (i : nat) (res : v_vdp_result_t)          (* the i-th VDP operation completes *)
  | EvDrain                                         (* I/O core: one datagram sent *)
  | EvConnect (shard : Z)                           (* shard_connect: a connection is opened *)
  | EvReconnect (shard : Z)                         (* connect_cb: it is established *)
  | EvDisconnect (shard : Z)                        (* disconnect_cb *)
  | EvTime (now : Z)
  | EvNode (call : node_call) (user : Z)            (* a node-state call, after v_node_state_init *)
  | EvTimeout (t : Z).                              (* the hard timeout of a live transaction *)

Definition take_db_cmd (i : nat) : M (option db_cmd) := λ w,
  match db_queue (w_db w) !! i with
  | None => Some (None, w)
  | Some c => Some (Some c, set_db (db_set_queue (delete i (db_queue (w_db w))) (w_db w)) w)
  end.

Definition take_vdp_call (i : nat) : M (option vdp_call) := λ w,
  let v := w_vdp w in
  match vdp_queue v !! i with
  | None => Some (None, w)
  | Some c => Some (Some c, set_vdp (VdpPort (delete i (vdp_queue v)) (vdp_issue_no v) (vdp_accept v)) w)
  end.

Definition set_connected (shard : Z) (b : bool) : M () :=
  modify (λ w, let d := w_db w in
    set_db (DbPort (λ s, if s =? shard then b else db_connected d s)
              (db_pending_pool d) (db_queue d) (db_issue_no d) (db_accept d)) w).

Definition node_do (call : node_call) (user : Z) : M Z :=
  match call with
  | NodeLoadTs => v_node_state_load_recovery_ts user
  | NodeForceTs => v_node_state_force_new_recovery_ts user
  | NodeSetAssoc smf => v_node_state_set_associated smf user
  | NodeClearAssoc => v_node_state_clear_associated user
  | NodeQueryAssoc => v_node_state_query_associated user
  end.

Definition pod_step (e : event) : M () :=
  match e with
  | EvRx buf peer => v_dispatch_rx buf (Some peer)
  | EvPoll => _ ← v_dispatch_worker_poll 1 v_flow_handle_msg; mret tt
  | EvReply i reply =>
      o ← take_db_cmd i;
      match o with Some c => on_reply db_invoke c reply | None => mret tt end
  | EvVdp i res =>
      o ← take_vdp_call i;
      match o with Some c => call_vdp (vc_cb c) (vc_arg c) res | None => mret tt end
  | EvDrain => _ ← v_dispatch_io_drain_tx 1; mret tt
  | EvConnect shard => set_connected shard true
  | EvReconnect shard => script_reconnect_cb shard
  | EvDisconnect shard => set_connected shard false
  | EvTime now => modify (set_time now)
  | EvNode call user =>
      n ← gets w_node;
      match g_node_pool n with Some _ => _ ← node_do call user; mret tt | None => mret tt end
  | EvTimeout t =>
      w ← gets id;
      match heap_get (w_txns w) t with Some _ => timeout_handler iu t | None => mret tt end
  end.

Fixpoint pod_run (es : list event) : M () :=
  match es with
  | [] => mret tt
  | e :: es' => _ ← pod_step e; pod_run es'
  end.

(** Every node-state call issues one command of one of three forms. *)
Definition node_cmd (n : node_state) (key : bytes) (argv : list bytes) (cb : node_pending → v_db_cb_t) : Prop :=
  cb = fp_recovery_reply_cb ∧ key = g_recovery_key n ∧ (∃ ts opts, argv = [$"SET"; key; dec ts] ++ opts) ∨
  cb = fp_simple_ack_cb ∧ key = g_assoc_key n ∧ (∃ fields, argv = [$"HSET"; key] ++ fields) ∨
  cb = fp_assoc_query_reply_cb ∧ key = g_assoc_key n ∧ argv = [$"HMGET"; key; $"associated"; $"smf"].

Lemma node_do_issue call user w :
  ∃ key argv cb, node_do call user w = node_issue key argv cb user w ∧ node_cmd (w_node w) key argv cb.
Proof.
  destruct call; do 3 eexists; (split; [reflexivity|]).
  - left. by eauto.
  - left. split; [done|]. split; [done|]. by eexists _, [].
  - right; left. by eauto.
  - right; left. by eauto.
  - right; right. done.
Qed.

End pod.

#[global] Arguments iu : simpl never.
