(* ===== verification/StubVdp.v ===== *)
(** Component v_stub_vdp: the synchronous data-plane stub.  It calls back
    before it returns, with a result the test suite can force.  The pod model
    uses the asynchronous contract of v_port_vdp.h; the stub is the schedule
    of that contract in which each operation completes at once. *)
From S2P Require Import Prelude Dpdk Heap Redis World Flow Pod.

Section stub_vdp.
Context {DP : Dpdk} {PP : PfcpPort}.

Record vdp_stub := VdpStub { g_forced_set : bool; g_forced : v_vdp_result_t }.

(** v_port_vdp_io_init *)
Definition v_port_vdp_io_init (s : vdp_stub) : Z * vdp_stub := (RET_CODE_OK, VdpStub false (g_forced s)).

(** next_result *)
Definition next_result (s : vdp_stub) : v_vdp_result_t := if g_forced_set s then g_forced s else V_VDP_ACCEPT.

(** v_port_vdp_test_force_result, v_port_vdp_test_reset *)
Definition v_port_vdp_test_force_result (res : v_vdp_result_t) (s : vdp_stub) : vdp_stub := VdpStub true res.
Definition v_port_vdp_test_reset (s : vdp_stub) : vdp_stub := VdpStub false (g_forced s).

(** The stub's static variables beside the rest of the process. *)
Definition SV (A : Type) : Type := SM (vdp_stub * world) A.

Definition on_world {A} (m : M A) : SV A := λ s,
  match m s.2 with Some (a, w) => Some (a, (s.1, w)) | None => None end.

(** [cb(next_result(), arg); return RET_CODE_OK;] *)
Definition complete_now (cb : v_vdp_cb_t) (arg : Z) : SV Z :=
  '(s, _) ← gets id;
  _ ← on_world (call_vdp cb arg (next_result s));
  mret RET_CODE_OK.

(** v_port_vdp_session_create, v_port_vdp_session_modify,
    v_port_vdp_session_delete: the identifying arguments are unused *)
Definition v_port_vdp_session_create (part_id ctx : Z) (cb : v_vdp_cb_t) (arg : Z) : SV Z := complete_now cb arg.
Definition v_port_vdp_session_modify (part_id ctx : Z) (cb : v_vdp_cb_t) (arg : Z) : SV Z := complete_now cb arg.
Definition v_port_vdp_session_delete (part_id seid : Z) (cb : v_vdp_cb_t) (arg : Z) : SV Z := complete_now cb arg.

(** The contract counts the operations it is handed. *)
Definition count_issue (w : world) : world :=
  let v := w_vdp w in set_vdp (VdpPort (vdp_queue v) (S (vdp_issue_no v)) (vdp_accept v)) w.

(** An operation of the contract that completes before anything else happens. *)
Definition dispatch_then_complete (op : vdp_op) (cb : v_vdp_cb_t) (arg : Z) (res : v_vdp_result_t) : M Z := λ w,
  (rc ← vdp_dispatch op cb arg;
   _ ← pod_step (EvVdp (length (vdp_queue (w_vdp w))) res);
   mret rc) w.

Lemma complete_now_eager op cb arg s w :
  vdp_accept (w_vdp w) (vdp_issue_no (w_vdp w)) = true →
  complete_now cb arg (s, count_issue w) = on_world (dispatch_then_complete op cb arg (next_result s)) (s, w).
Proof.
  intros Ha. unfold complete_now, on_world, dispatch_then_complete, vdp_dispatch, mbind, SM_bind. cbn [gets id fst snd].
  rewrite Ha. cbn [pod_step]. unfold take_vdp_call, mbind, SM_bind. cbn [set_vdp w_vdp vdp_queue vdp_issue_no vdp_accept].
  rewrite list_lookup_middle by done. cbn [vc_cb vc_arg].
  rewrite delete_middle, app_nil_r.
  assert (∀ x, set_vdp x (set_vdp (VdpPort (vdp_queue (w_vdp w) ++ [VdpCall op cb arg]) (S (vdp_issue_no (w_vdp w)))
    (vdp_accept (w_vdp w))) w) = set_vdp x w) as -> by done.
  fold (count_issue w). destruct (call_vdp cb arg (next_result s) (count_issue w)) as [[[] w']|]; done.
Qed.

(** The stub implements the data-plane contract.  Each of its three
    operations has exactly the effect of the contract's operation followed by
    its completion event with the forced result, or V_VDP_ACCEPT when none is
    forced; forcing lasts until the reset. *)
Theorem stub_vdp_refines_contract part_id x cb arg s w :
  vdp_accept (w_vdp w) (vdp_issue_no (w_vdp w)) = true →
  v_port_vdp_session_create part_id x cb arg (s, count_issue w) =
    on_world (dispatch_then_complete (VDP_CREATE part_id x) cb arg (next_result s)) (s, w) ∧
  v_port_vdp_session_modify part_id x cb arg (s, count_issue w) =
    on_world (dispatch_then_complete (VDP_MODIFY part_id x) cb arg (next_result s)) (s, w) ∧
  v_port_vdp_session_delete part_id x cb arg (s, count_issue w) =
    on_world (dispatch_then_complete (VDP_DELETE part_id x) cb arg (next_result s)) (s, w) ∧
  (∀ res, next_result (v_port_vdp_test_force_result res s) = res ∧
          next_result (v_port_vdp_test_reset (v_port_vdp_test_force_result res s)) = V_VDP_ACCEPT) ∧
  next_result (v_port_vdp_io_init s).2 = V_VDP_ACCEPT.
Proof. intros Ha. split_and!; try done; by apply complete_now_eager. Qed.

End stub_vdp.
