(* ===== verification/StubPfcp.v ===== *)
(** The PFCP codec stub (stubs/v_stub_pfcp): the synthetic wire formats of
    v_stub_common.h, the session context as the raw memory block of
    struct v_stub_ses_ctx, and the serializer that copies it.  Multi-byte
    fields are little endian. *)
From S2P Require Import Prelude Dpdk Heap Redis World.

(** ** Memory blocks *)

Definition byte_ascii (z : Z) : ascii := ascii_of_N (Z.to_N (u8 z)).

(** The [n] bytes of an n-byte field, and the value of a byte sequence. *)
Definition le_enc (n : nat) (z : Z) : bytes := byte_ascii <$> le_bytes n z.

Fixpoint le_dec (l : bytes) : Z :=
  match l with [] => 0 | c :: l' => ascii_code c + 256 * le_dec l' end.

(** Reading [n] bytes at [off]; storing [v] at [off]. *)
Definition blk_get (off n : nat) (b : bytes) : bytes := take n (drop off b).
Definition blk_set (off : nat) (v b : bytes) : bytes := take off b ++ v ++ drop (off + length v) b.

(** ** struct v_stub_ses_ctx: field offsets, sizeof = 176 with padding *)

Definition CTX_SIZE : nat := 176.
Definition OFF_MAGIC : nat := 0.
Definition OFF_SEID : nat := 8.
Definition OFF_TEID : nat := 16.
Definition OFF_V4 : nat := 20.
Definition OFF_V6 : nat := 24.
Definition OFF_HAS_UE_IP : nat := 40.
Definition OFF_PAYLOAD : nat := 41.
Definition V_STUB_CTX_MAGIC : Z := 1397052227.
Definition V_STUB_CTX_PAYLOAD : nat := 128.

(** The block after memset(0) and the magic stamp. *)
Definition stub_ctx_cleared : bytes := blk_set OFF_MAGIC (le_enc 4 V_STUB_CTX_MAGIC) (replicate CTX_SIZE zero).

(** fill_pattern: payload[i] = (uint8_t)(seed + i) on uint32_t. *)
Definition pattern (seed : Z) : bytes :=
  (λ i : nat, byte_ascii (u32 (seed + Z.of_nat i))) <$> seq 0 V_STUB_CTX_PAYLOAD.

Definition fill_pattern (seed : Z) (c : bytes) : bytes := blk_set OFF_PAYLOAD (pattern seed) c.

(** ** Decoded messages and the request format (44 bytes, packed) *)

Record stub_msg := StubMsg {
  sm_type : Z; sm_has_ue_ip : Z; sm_seq : Z; sm_seid : Z; sm_smf_fseid : Z; sm_v4 : Z; sm_v6 : bytes;
}.

Definition WIRE_REQ_SIZE : nat := 44.
Definition WIRE_RSP_SIZE : nat := 16.

Definition stub_decode (buf : bytes) : option stub_msg :=
  if (Z.of_nat (length buf) <? Z.of_nat WIRE_REQ_SIZE) then None
  else Some (StubMsg (le_dec (blk_get 0 1 buf)) (le_dec (blk_get 1 1 buf)) (le_dec (blk_get 4 4 buf))
                     (le_dec (blk_get 8 8 buf)) (le_dec (blk_get 16 8 buf)) (le_dec (blk_get 24 4 buf))
                     (blk_get 28 16 buf)).

(** v_stub_pfcp_encode: a request as the test suite builds it. *)
Definition v_stub_pfcp_encode (m : stub_msg) (buf_cap : nat) : bytes :=
  if (Z.of_nat buf_cap <? Z.of_nat WIRE_REQ_SIZE) then []
  else le_enc 1 (sm_type m) ++ le_enc 1 (if sm_has_ue_ip m =? 0 then 0 else 1) ++ le_enc 2 0 ++
       le_enc 4 (sm_seq m) ++ le_enc 8 (sm_seid m) ++ le_enc 8 (sm_smf_fseid m) ++ le_enc 4 (sm_v4 m) ++ sm_v6 m.

(** v_port_pfcp_ue_ip *)
Definition stub_ue_ip (m : stub_msg) : option (Z * list Z) :=
  if sm_has_ue_ip m =? 0 then None else Some (sm_v4 m, ascii_code <$> sm_v6 m).

(** v_port_pfcp_build_session *)
Definition stub_build_session (req : stub_msg) (seid teid : Z) (c : bytes) : Z * bytes :=
  let c := blk_set OFF_SEID (le_enc 8 seid) c in
  let c := blk_set OFF_TEID (le_enc 4 teid) c in
  let c := blk_set OFF_HAS_UE_IP (le_enc 1 (sm_has_ue_ip req)) c in
  let c := blk_set OFF_V4 (le_enc 4 (sm_v4 req)) c in
  let c := blk_set OFF_V6 (sm_v6 req) c in
  (RET_CODE_OK, fill_pattern (sm_seq req) c).

(** v_port_pfcp_modify_session *)
Definition stub_modify_session (req : stub_msg) (c : bytes) : Z * bytes :=
  (RET_CODE_OK, fill_pattern (Z.lxor (sm_seq req) 2779096485) c).

(** v_port_pfcp_ctx_teid *)
Definition stub_ctx_teid (c : bytes) : Z := le_dec (blk_get OFF_TEID 4 c).

(** v_port_pfcp_encode_rsp: header seid 0 when there is no context *)
Definition stub_encode_rsp (req : stub_msg) (ctx : option bytes) (cause : Z) (cap : nat) : option bytes :=
  if (Z.of_nat cap <? Z.of_nat WIRE_RSP_SIZE) then None
  else Some (le_enc 1 (u8 (sm_type req + 1)) ++ le_enc 1 cause ++ le_enc 2 0 ++ le_enc 4 (sm_seq req) ++
             le_enc 8 (match ctx with Some c => le_dec (blk_get OFF_SEID 8 c) | None => 0 end)).

(** v_port_pdu_serialize, v_port_pdu_deserialize: memcpy of the block *)
Definition stub_serialize (c : bytes) (cap : nat) : option bytes :=
  if (Z.of_nat cap <? Z.of_nat CTX_SIZE) then None else Some (take CTX_SIZE c).

Definition stub_deserialize (buf c : bytes) : Z * bytes :=
  if (Z.of_nat (length buf) <? Z.of_nat CTX_SIZE) then (RET_CODE_ERR, c) else (RET_CODE_OK, take CTX_SIZE buf).

(** Field values of a decoded response, as the test suite reads them. *)
Definition rsp_cause (buf : bytes) : Z := le_dec (blk_get 1 1 buf).
Definition rsp_seid (buf : bytes) : Z := le_dec (blk_get 8 8 buf).

(** ** Lemmas *)

Lemma ascii_code_range c : 0 <= ascii_code c < 256.
Proof. unfold ascii_code. pose proof (N_ascii_bounded c). lia. Qed.

Lemma ascii_code_byte z : ascii_code (byte_ascii z) = u8 z.
Proof.
  unfold ascii_code, byte_ascii. pose proof (u8_range z) as H. unfold is_u8 in H.
  rewrite N_ascii_embedding by (change 256%N with (Z.to_N 256); lia). lia.
Qed.

Lemma byte_ascii_code c : byte_ascii (ascii_code c) = c.
Proof.
  unfold byte_ascii, ascii_code. pose proof (N_ascii_bounded c).
  unfold u8. rewrite Z.mod_small by lia. by rewrite N2Z.id, ascii_N_embedding.
Qed.

Lemma le_dec_range l : 0 <= le_dec l < 256 ^ Z.of_nat (length l).
Proof.
  induction l as [|c l IH]; cbn [le_dec length]; [lia|].
  pose proof (ascii_code_range c). rewrite Nat2Z.inj_succ, Z.pow_succ_r by lia. lia.
Qed.

Lemma le_bytes_S n z : le_bytes (S n) z = u8 z :: le_bytes n (z / 256).
Proof.
  unfold le_bytes. cbn [seq fmap list_fmap]. f_equal.
  rewrite <- (fmap_S_seq 0 n), <- list_fmap_compose. apply list_fmap_ext. intros i x _. cbn.
  f_equal. rewrite !Z.shiftr_div_pow2 by lia.
  replace (Z.of_nat (S x) * 8) with (8 + Z.of_nat x * 8) by lia.
  rewrite Z.pow_add_r, <- Z.div_div by lia. done.
Qed.

Lemma length_le_enc n z : length (le_enc n z) = n.
Proof. unfold le_enc, le_bytes. by rewrite !length_fmap, length_seq. Qed.

(** Little-endian round trip. *)
Lemma le_dec_enc n z : 0 <= z < 256 ^ Z.of_nat n → le_dec (le_enc n z) = z.
Proof.
  revert z. induction n as [|n IH]; intros z Hz.
  { cbn in *. lia. }
  rewrite Nat2Z.inj_succ, Z.pow_succ_r in Hz by lia.
  unfold le_enc. rewrite le_bytes_S. cbn [fmap list_fmap le_dec].
  fold (le_enc n (z / 256)). rewrite IH, ascii_code_byte.
  - unfold u8. change (ascii_code (byte_ascii (z mod 2 ^ 8))) with (ascii_code (byte_ascii (u8 z))).
    change (2 ^ 8) with 256. pose proof (Z.div_mod z 256). rewrite Zmod_mod. lia.
  - split; [apply Z.div_pos|apply Z.div_lt_upper_bound]; lia.
Qed.

Lemma length_blk_set off v b : (off + length v ≤ length b)%nat → length (blk_set off v b) = length b.
Proof. intros. unfold blk_set. rewrite !length_app, length_take, length_drop. lia. Qed.

(** Reading a field that a store does not overlap. *)
Lemma blk_get_set_ne off v off' n b :
  (off + length v ≤ length b)%nat → (off' + n ≤ off ∨ off + length v ≤ off')%nat →
  blk_get off' n (blk_set off v b) = blk_get off' n b.
Proof.
  intros Hb Hd. unfold blk_get, blk_set. apply list_eq. intros i.
  destruct (decide (i < n)%nat) as [Hi|Hi].
  2: { by rewrite !lookup_take_ge by lia. }
  rewrite !lookup_take_lt, !lookup_drop by done. destruct Hd.
  - rewrite lookup_app_l by (rewrite length_take; lia). by rewrite lookup_take_lt by lia.
  - rewrite lookup_app_r by (rewrite length_take; lia). rewrite length_take.
    rewrite lookup_app_r by lia. rewrite lookup_drop. f_equal. lia.
Qed.

(** ** The codec as an instance of the port *)

Module StubCodec.

#[export, refine] Instance stub_pfcp : PfcpPort := {
  pfcp_msg := stub_msg;
  pdu_ses_ctx := bytes;
  v_port_pfcp_decode := stub_decode;
  v_port_pfcp_msg_type := sm_type;
  v_port_pfcp_hdr_seid m := u64 (sm_seid m);
  v_port_pfcp_seq m := u32 (sm_seq m);
  v_port_pfcp_smf_fseid m := u64 (sm_smf_fseid m);
  v_port_pfcp_ue_ip := stub_ue_ip;
  v_port_pfcp_build_session := stub_build_session;
  v_port_pfcp_modify_session := stub_modify_session;
  v_port_pfcp_encode_rsp := stub_encode_rsp;
  v_port_pfcp_ctx_teid := stub_ctx_teid;
  v_port_pdu_serialize := stub_serialize;
  v_port_pdu_deserialize := stub_deserialize;
  ctx_cleared := stub_ctx_cleared;
}.
Proof.
  - intros m. apply u64_range.
  - intros m. apply u32_range.
  - intros m. apply u64_range.
Defined.

End StubCodec.
