(* ===== verification/StubMem.v ===== *)
(** Component v_stub_mem: the session-context pool behind v_port_mem.  A
    context is a memory block of the pool; a magic number at its start tells a
    live block from a released one.  The stub refines the heap of contexts
    that World.v uses. *)
From S2P Require Import Prelude Dpdk Heap Redis World StubPfcp.
Import StubCodec.

Section stub_mem.
Context {DP : Dpdk}.

(** The static variables, and the contents of the pool's blocks: the memory of
    a released block stays mapped. *)
Record mem_state := MemState {
  g_pool : option rte_mempool;
  g_capacity : Z;
  ms_block : Z → bytes;
}.

Definition block_magic (b : bytes) : Z := le_dec (blk_get OFF_MAGIC 4 b).
Definition zero_block : bytes := replicate CTX_SIZE zero.

(** Static storage, and pool memory zeroed by the allocator. *)
Definition mem_zero : mem_state := MemState None 0 (λ _, zero_block).

Definition set_block (p : Z) (b : bytes) (s : mem_state) : mem_state :=
  MemState (g_pool s) (g_capacity s) (λ q, if q =? p then b else ms_block s q).

(** v_port_mem_init *)
Definition v_port_mem_init (capacity : Z) (s : mem_state) : Z * mem_state :=
  match g_pool s with
  | Some _ => (RET_CODE_ERR, s)
  | None =>
      match rte_mempool_create capacity with
      | None => (RET_CODE_ERR, s)
      | Some p => (RET_CODE_OK, MemState (Some p) capacity (ms_block s))
      end
  end.

(** v_port_mem_fini *)
Definition v_port_mem_fini (s : mem_state) : mem_state :=
  match g_pool s with Some _ => MemState None 0 (ms_block s) | None => s end.

(** v_port_ctx_alloc: zeroed block with the magic stamped *)
Definition v_port_ctx_alloc (s : mem_state) : option Z * mem_state :=
  match g_pool s with
  | None => (None, s)
  | Some pool =>
      match rte_mempool_get pool with
      | None => (None, s)
      | Some (c, pool') =>
          (Some c, set_block c (blk_set OFF_MAGIC (le_enc 4 V_STUB_CTX_MAGIC) zero_block)
                     (MemState (Some pool') (g_capacity s) (ms_block s)))
      end
  end.

(** v_port_ctx_free; [None] is rte_mempool_put on a NULL pool *)
Definition v_port_ctx_free (ctx : option Z) (s : mem_state) : option mem_state :=
  match ctx with
  | None => Some s
  | Some c =>
      if negb (block_magic (ms_block s c) =? V_STUB_CTX_MAGIC) then Some s
      else
        match g_pool s with
        | None => None
        | Some pool => Some (set_block c zero_block (MemState (Some (rte_mempool_put pool c)) (g_capacity s) (ms_block s)))
        end
  end.

(** v_port_ctx_clear: zero everything except the magic *)
Definition v_port_ctx_clear (ctx : option Z) (s : mem_state) : mem_state :=
  match ctx with
  | None => s
  | Some c => set_block c (blk_set OFF_MAGIC (blk_get OFF_MAGIC 4 (ms_block s c)) zero_block) s
  end.

(** v_port_ctx_pool_in_use *)
Definition v_port_ctx_pool_in_use (s : mem_state) : Z :=
  match g_pool s with None => 0 | Some pool => g_capacity s - rte_mempool_avail_count pool end.

(** ** Refinement of the heap of contexts *)

Definition magic_ok (b : bytes) : Prop := length b = CTX_SIZE ∧ block_magic b = V_STUB_CTX_MAGIC.

(** Live blocks hold their context under the magic, all others do not carry
    the magic. *)
Record mem_rel (s : mem_state) (h : heap pdu_ses_ctx) : Prop := {
  mr_pool : g_pool s = Some (hp_pool h);
  mr_wf : heap_wf h;
  mr_total : heap_total h = g_capacity s;
  mr_live p c : hp_mem h !! p = Some c → ms_block s p = c ∧ magic_ok c;
  mr_dead p : hp_mem h !! p = None → block_magic (ms_block s p) ≠ V_STUB_CTX_MAGIC;
}.

Lemma zero_no_magic : block_magic zero_block ≠ V_STUB_CTX_MAGIC.
Proof. by vm_compute. Qed.

Lemma cleared_magic : magic_ok stub_ctx_cleared.
Proof. by split; vm_compute. Qed.

Lemma mem_init_rel cap s : v_port_mem_init cap mem_zero = (RET_CODE_OK, s) → ∃ p, mem_rel s (Heap p ∅).
Proof.
  unfold v_port_mem_init. cbn. destruct (rte_mempool_create cap) as [p|] eqn:E; [|done]. intros [= <-].
  apply mp_create_law in E as [Hnd Hlen]. exists p. split; cbn.
  - done.
  - split; [done|]. intros q _. apply lookup_empty.
  - unfold heap_total. cbn. rewrite map_size_empty. lia.
  - intros q c. by rewrite lookup_empty.
  - intros q _. apply zero_no_magic.
Qed.

(** Storing a block that keeps the magic. *)
Lemma store_rel s h p c b : mem_rel s h → hp_mem h !! p = Some b → magic_ok c → mem_rel (set_block p c s) (heap_set p c h).
Proof.
  intros [Hp Hwf Ht Hl Hd] Hpb Hc. destruct (heap_set_spec p h c b Hwf Hpb) as [Hwf' Ht'].
  split; cbn [set_block g_pool g_capacity ms_block heap_set hp_pool hp_mem]; try done.
  - by rewrite <- Ht.
  - intros q x. destruct (Z.eqb_spec q p) as [->|Hne].
    + rewrite lookup_insert_eq. by intros [= <-].
    + rewrite lookup_insert_ne by done. apply Hl.
  - intros q. destruct (Z.eqb_spec q p) as [->|Hne]; [by rewrite lookup_insert_eq|].
    rewrite lookup_insert_ne by done. apply Hd.
Qed.

Lemma le_enc_dec l : le_enc (length l) (le_dec l) = l.
Proof.
  induction l as [|c l IH]; [done|]. cbn [length le_dec]. pose proof (ascii_code_range c) as Hc.
  unfold le_enc. rewrite le_bytes_S. cbn [fmap list_fmap]. fold (le_enc (length l) ((ascii_code c + 256 * le_dec l) / 256)).
  replace ((ascii_code c + 256 * le_dec l) / 256) with (le_dec l) by (Z.div_mod_to_equations; lia). rewrite IH. f_equal.
  transitivity (byte_ascii (ascii_code c)); [|apply byte_ascii_code]. unfold byte_ascii. do 2 f_equal.
  unfold u8. change (2 ^ 8) with 256. rewrite Zmod_mod. Z.div_mod_to_equations. lia.
Qed.

Lemma clear_block b : magic_ok b → blk_set OFF_MAGIC (blk_get OFF_MAGIC 4 b) zero_block = stub_ctx_cleared.
Proof.
  intros [Hl Hm]. unfold stub_ctx_cleared, zero_block. f_equal. unfold block_magic in Hm.
  assert (length (blk_get OFF_MAGIC 4 b) = 4%nat) as Hlen.
  { unfold blk_get. rewrite length_take, length_drop, Hl. done. }
  rewrite <- Hm. pose proof (le_enc_dec (blk_get OFF_MAGIC 4 b)) as He. rewrite Hlen in He. by symmetry.
Qed.

(** C30: the stub pool implements the context port of the pod model.
    Allocation succeeds exactly when the contract's does, with the same block
    cleared; a release frees exactly the live blocks, so that a double free
    changes nothing; clearing resets a live block; the usage count is the
    number of live contexts.  The correspondence is kept throughout. *)
Theorem stub_mem_refines_contract s h w :
  mem_rel s h → w_ctxs w = h →
  (let '(o, s') := v_port_ctx_alloc s in
     ∃ h', mem_rel s' h' ∧ World.v_port_ctx_alloc w = Some (o, set_ctxs h' w)) ∧
  (∀ p, ∃ s' h', v_port_ctx_free (Some p) s = Some s' ∧ mem_rel s' h' ∧
     World.v_port_ctx_free p w = Some (tt, set_ctxs h' w)) ∧
  (∀ p, is_Some (hp_mem h !! p) → ∃ h', mem_rel (v_port_ctx_clear (Some p) s) h' ∧
     World.v_port_ctx_clear p w = Some (tt, set_ctxs h' w)) ∧
  v_port_ctx_pool_in_use s = Z.of_nat (size (hp_mem h)).
Proof.
  intros Hrel Hw. pose proof Hrel as [Hp Hwf Ht Hl Hd].
  assert (set_ctxs h w = w) as Hid by (rewrite <- Hw; by destruct w). split; [|split; [|split]].
  - unfold v_port_ctx_alloc, World.v_port_ctx_alloc. rewrite Hp, Hw.
    destruct (heap_alloc ctx_cleared h) as [[q h']|] eqn:Ea.
    + destruct (heap_alloc_Some _ _ _ _ Hwf Ea) as (Hnone&Hmem&Hwf'&Htot).
      unfold heap_alloc in Ea. destruct (rte_mempool_get (hp_pool h)) as [[q' pool]|]; [|done].
      injection Ea as -> <-. eexists. split; [|done].
      split; cbn [set_block g_pool g_capacity ms_block hp_pool hp_mem]; try done; [by rewrite Htot| |].
      * intros r x. cbn in Hmem. destruct (Z.eqb_spec r q) as [->|Hne].
        -- rewrite lookup_insert_eq. intros [= <-]. split; [done|apply cleared_magic].
        -- rewrite lookup_insert_ne by done. apply Hl.
      * intros r. destruct (Z.eqb_spec r q) as [->|Hne]; [by rewrite lookup_insert_eq|].
        rewrite lookup_insert_ne by done. apply Hd.
    + apply heap_alloc_None, mp_get_none in Ea. rewrite Ea. exists h. by rewrite Hid.
  - intros p. unfold v_port_ctx_free, World.v_port_ctx_free, heap_get. rewrite Hw, Hp.
    destruct (hp_mem h !! p) as [c|] eqn:Ep.
    + destruct (Hl p c Ep) as [-> Hm]. pose proof Hm as [_ ->]. rewrite Z.eqb_refl. cbn [negb].
      destruct (heap_free_spec p h c Hwf Ep) as (Hmem&Hwf'&Htot). eexists _, _. split; [done|]. split; [|done].
      split; cbn [set_block g_pool g_capacity ms_block heap_free hp_pool hp_mem]; try done; [by rewrite <- Ht| |].
      * intros r x. destruct (Z.eqb_spec r p) as [->|Hne]; [by rewrite lookup_delete_eq|].
        rewrite lookup_delete_ne by done. apply Hl.
      * intros r. destruct (Z.eqb_spec r p) as [->|Hne]; [intros _; apply zero_no_magic|].
        rewrite lookup_delete_ne by done. apply Hd.
    + rewrite (proj2 (Z.eqb_neq _ _)) by (by apply Hd). cbn [negb]. exists s, h. by rewrite Hid.
  - intros p [c Hc]. destruct (Hl p c Hc) as [Hb Hm]. unfold v_port_ctx_clear. rewrite Hb, (clear_block c Hm).
    exists (heap_set p stub_ctx_cleared h). split; [by eapply store_rel; [|exact Hc|apply cleared_magic]|].
    unfold World.v_port_ctx_clear, ctx_set, heap_get. by rewrite Hw, Hc.
  - unfold v_port_ctx_pool_in_use. rewrite Hp, mp_avail_law, <- Ht. unfold heap_total. lia.
Qed.

(** The codec's writes keep the magic. *)
Lemma blk_set_magic off v b :
  magic_ok b → (4 ≤ off)%nat → (off + length v ≤ CTX_SIZE)%nat → magic_ok (blk_set off v b).
Proof.
  intros [Hl Hm] Hoff Hlen. split; [rewrite length_blk_set; lia|].
  unfold block_magic. rewrite blk_get_set_ne; [done|lia|]. left. unfold OFF_MAGIC. lia.
Qed.

Lemma fill_pattern_magic seed b : magic_ok b → magic_ok (fill_pattern seed b).
Proof.
  intros Hb. apply blk_set_magic; [done|unfold OFF_PAYLOAD; lia|].
  unfold pattern. rewrite length_fmap, length_seq. unfold OFF_PAYLOAD, V_STUB_CTX_PAYLOAD, CTX_SIZE. lia.
Qed.

Lemma build_keeps_magic req seid teid b :
  length (sm_v6 req) = 16%nat → magic_ok b → magic_ok (stub_build_session req seid teid b).2.
Proof.
  intros H6 Hb. cbn [stub_build_session snd]. apply fill_pattern_magic.
  repeat (apply blk_set_magic; [|unfold OFF_SEID, OFF_TEID, OFF_HAS_UE_IP, OFF_V4, OFF_V6; lia|
    rewrite ?length_le_enc, ?H6; unfold OFF_SEID, OFF_TEID, OFF_HAS_UE_IP, OFF_V4, OFF_V6, CTX_SIZE; lia]). done.
Qed.

Lemma modify_keeps_magic req b : magic_ok b → magic_ok (stub_modify_session req b).2.
Proof. intros. by apply fill_pattern_magic. Qed.

(** A context survives the store and comes back bit for bit, and so does
    the magic that lets it be released; but a stored block that carries a
    different magic makes the context it is read into unreleasable. *)
Theorem stored_context_magic b c :
  magic_ok b →
  (stub_serialize b 2048 = Some b ∧ stub_deserialize b c = (RET_CODE_OK, b)) ∧
  ∀ s p blob rc b', stub_deserialize blob c = (rc, b') → rc = RET_CODE_OK → block_magic blob ≠ V_STUB_CTX_MAGIC →
    v_port_ctx_free (Some p) (set_block p b' s) = Some (set_block p b' s).
Proof.
  intros [Hl Hm]. split.
  - unfold stub_serialize, stub_deserialize. rewrite Hl, Z.ltb_irrefl. split; [|by rewrite take_ge by lia].
    rewrite (proj2 (Z.ltb_ge _ _)) by (unfold CTX_SIZE; lia). by rewrite take_ge by lia.
  - intros s p blob rc b' Hd -> Hne. unfold stub_deserialize in Hd.
    destruct (Z.of_nat (length blob) <? Z.of_nat CTX_SIZE); [done|]. injection Hd as <-.
    unfold v_port_ctx_free, set_block at 1. cbn [ms_block]. rewrite Z.eqb_refl.
    rewrite (proj2 (Z.eqb_neq _ _)); [done|]. unfold block_magic, blk_get, OFF_MAGIC in *. rewrite !drop_0 in *.
    rewrite take_take. done.
Qed.
End stub_mem.
