(* ===== verification/Server.v ===== *)
(** One Redis shard as the pods use it: the key space, the cache of loaded
    scripts, and the commands EVALSHA and SCRIPT LOAD, which run the three Lua
    scripts of v_db_script atomically.  The SHA-1 of a script text is computed
    by the server and is a parameter. *)
From S2P Require Import Prelude Dpdk Heap Redis Scripts World DbScript.

Class ScriptSha := {
  script_sha : v_script_id_t → bytes;
  script_sha_length id : length (script_sha id) = V_DB_SCRIPT_SHA_LEN;
  script_sha_no_nul id : head (script_sha id) ≠ Some NUL;
  script_sha_inj id id' : script_sha id = script_sha id' → id = id';
}.

Section server.
Context {R : Redis} {L : Lua} {SS : ScriptSha}.

Record shard := Shard { sh_store : rstore; sh_loaded : v_script_id_t → bool }.

Definition all_scripts : list v_script_id_t :=
  [V_SCRIPT_SESS_CAS_WRITE; V_SCRIPT_SESS_DELETE; V_SCRIPT_TEID_REFILL].

Definition NOSCRIPT : bytes := $"NOSCRIPT No matching script. Please use EVAL.".

(** The body of a script applied to KEYS and ARGV: a missing element is nil,
    which the command it is passed to rejects; further elements are ignored. *)
Definition run_script (id : v_script_id_t) (keys args : list bytes) (s : rstore) : v_db_reply * rstore :=
  match id, keys, args with
  | V_SCRIPT_SESS_CAS_WRITE, k :: _, ver :: data :: ttl :: _ => return_integer (lua_sess_cas_write k ver data ttl) s
  | V_SCRIPT_SESS_DELETE, k :: _, ver :: _ => return_integer (lua_sess_delete k ver) s
  | V_SCRIPT_TEID_REFILL, fk :: nk :: _, blk :: floor :: _ =>
      match lua_teid_refill fk nk blk floor s with
      | (inr r, s') => (r, s')
      | (inl e, s') => (V_DB_REPLY_ERROR e, s')
      end
  | _, _, _ => (V_DB_REPLY_ERROR $"ERR", s)
  end.

(** One command on the shard. *)
Definition serve (argv : list bytes) (sh : shard) : v_db_reply * shard :=
  match argv with
  | cmd :: sha :: numkeys :: rest =>
      if decide (cmd = $"EVALSHA") then
        match List.find (λ id, sh_loaded sh id && bool_decide (script_sha id = sha)) all_scripts with
        | None => (V_DB_REPLY_ERROR NOSCRIPT, sh)
        | Some id =>
            let n := Z.to_nat (strtoull numkeys) in
            let '(r, s') := run_script id (take n rest) (drop n rest) (sh_store sh) in
            (r, Shard s' (sh_loaded sh))
        end
      else if decide (cmd = $"SCRIPT" ∧ sha = $"LOAD") then
        match List.find (λ id, bool_decide (g_script_src id = numkeys)) all_scripts with
        | None => (V_DB_REPLY_ERROR $"ERR", sh)
        | Some id => (V_DB_REPLY_STRING (script_sha id),
                      Shard (sh_store sh) (λ i, bool_decide (i = id) || sh_loaded sh i))
        end
      else
        let '(r, s') := exec argv (sh_store sh) in (r, Shard s' (sh_loaded sh))
  | _ => let '(r, s') := exec argv (sh_store sh) in (r, Shard s' (sh_loaded sh))
  end.

End server.

(** A concrete SHA assignment for the examples. *)
Module FixedSha.

Definition sha (id : v_script_id_t) : bytes := replicate 39 "a"%char ++ dec (script_index id).

#[export, refine] Instance fixed_sha : ScriptSha := { script_sha := sha }.
Proof.
  - intros []; by vm_compute.
  - intros []; by vm_compute.
  - intros [] []; by vm_compute.
Defined.

End FixedSha.
