(* ===== verification/SessCas.v ===== *)
(** The session store against its contract: the commands it issues implement
    the versioned register of Scripts.v on the server, and optimistic
    concurrency over that register loses no update. *)
From S2P Require Import Prelude Seid Dpdk Heap Redis Scripts World DbScript SessStore Server.
Import ListDpdk MapServer FixedSha.

(** ** Keys and arguments fit their buffers *)

Lemma dec_part_length p : 0 <= p < 2 ^ 16 → (length (dec p) ≤ 5)%nat.
Proof. intros Hp. apply dec_length; [|lia]. change (10 ^ Z.of_nat 5) with 100000. lia. Qed.

Lemma dec_u64_length n : is_u64 n → (length (dec n) ≤ 20)%nat.
Proof.
  intros Hn. apply dec_length; [|lia]. change (10 ^ Z.of_nat 20) with 100000000000000000000. u_lia.
Qed.

(** The session key is never truncated by its 64-byte buffer. *)
Lemma make_key_full part seid : is_u16 part → is_u64 seid → make_key part seid = $"pdu_" ++ dec part ++ $":" ++ dec seid.
Proof.
  intros Hp Hs. apply snprintf_fits. rewrite !length_app. cbn [length lit].
  pose proof (dec_part_length part Hp). pose proof (dec_u64_length seid Hs). cbn. lia.
Qed.

Lemma make_key_length part seid : is_u16 part → is_u64 seid → (length (make_key part seid) ≤ 30)%nat.
Proof.
  intros Hp Hs. rewrite make_key_full, !length_app by done.
  pose proof (dec_part_length part Hp). pose proof (dec_u64_length seid Hs). cbn. lia.
Qed.

Lemma shard_of_range key : 0 <= v_port_db_shard_of key < V_STUB_DB_SHARDS.
Proof.
  unfold v_port_db_shard_of, V_STUB_DB_SHARDS. pose proof (Z.mod_pos_bound (fnv1a (ascii_code <$> key)) 5 eq_refl).
  unfold u8. rewrite Z.mod_small; u_lia.
Qed.

Lemma ver_str_full v : is_u64 v → snprintf 24 (dec v) = dec v.
Proof. intros Hv. apply snprintf_fits. pose proof (dec_u64_length v Hv). lia. Qed.

Definition state_ttl (st : v_sess_state_t) : Z := match st with V_SESS_PENDING => V_SESS_PENDING_TTL | V_SESS_CONFIRMED => 0 end.

(** ** Issuing an EVALSHA *)

Section issue.
Context {DP : Dpdk} {PP : PfcpPort}.

(** Everything the call needs is available. *)
Record evalsha_ready (w : world) (s : Z) (id : v_script_id_t) (sha : bytes) : Prop := {
  er_sha : sha_cached (w_script w) s id = Some sha;
  er_pool : rte_mempool_get (g_evalsha_pool (w_script w)) ≠ None;
  er_conn : db_connected (w_db w) s = true;
  er_pending : rte_mempool_get (db_pending_pool (w_db w)) ≠ None;
  er_accept : db_accept (w_db w) (db_issue_no (w_db w)) = true;
}.

(** A command that the port accepts. *)
Lemma cmd_issued s cb argv w :
  0 <= s < V_STUB_DB_SHARDS → db_connected (w_db w) s = true →
  rte_mempool_get (db_pending_pool (w_db w)) ≠ None → db_accept (w_db w) (db_issue_no (w_db w)) = true →
  ∃ w' cmd, v_port_db_cmd_argv s cb argv w = Some (RET_CODE_OK, w') ∧
    db_queue (w_db w') = db_queue (w_db w) ++ [cmd] ∧ dc_shard cmd = s ∧ dc_argv cmd = argv ∧ dc_cb cmd = cb.
Proof.
  intros Hs Hconn Hpend Hacc. unfold v_port_db_cmd_argv. rewrite (proj2 (Z.leb_gt _ _)) by lia.
  rewrite Hconn. cbn [orb negb]. destruct (rte_mempool_get _) as [[o pool]|]; [|done]. rewrite Hacc.
  by eexists _, _.
Qed.

Definition evalsha_argv (sha : bytes) (keys argv : list bytes) : list bytes :=
  $"EVALSHA" :: sha :: dec (Z.of_nat (length keys)) :: keys ++ argv.

Definition total_length (parts : list bytes) : Z := Z.of_nat (length (concat parts)).

Lemma scratch_copy_all_spec parts : ∀ used,
  used <= V_DB_EVALSHA_SCRATCH_BYTES →
  scratch_copy_all used parts =
    if used + total_length parts <=? V_DB_EVALSHA_SCRATCH_BYTES then Some (used + total_length parts) else None.
Proof.
  unfold total_length. induction parts as [|x parts IH]; intros used Hu; cbn [scratch_copy_all concat].
  - cbn [length Z.of_nat]. by rewrite Z.add_0_r, (proj2 (Z.leb_le _ _)).
  - unfold scratch_copy. rewrite length_app, Nat2Z.inj_add.
    destruct (Z.ltb_spec V_DB_EVALSHA_SCRATCH_BYTES (used + Z.of_nat (length x))) as [Hlt|Hle]; cbn.
    + by rewrite (proj2 (Z.leb_gt _ _)) by lia.
    + by rewrite IH, Z.add_assoc.
Qed.

(** An EVALSHA with at most 12 parts and 1024 payload bytes is queued once,
    with its arguments verbatim. *)
Lemma evalsha_issued iu w s id sha keys argv u :
  evalsha_ready w s id sha → 0 <= s < V_STUB_DB_SHARDS →
  3 + Z.of_nat (length keys) + Z.of_nat (length argv) <= V_DB_EVALSHA_MAX_PARTS →
  total_length (dec (Z.of_nat (length keys)) :: keys ++ argv) <= V_DB_EVALSHA_SCRATCH_BYTES →
  ∃ w' cmd p, v_db_evalsha iu s id keys argv u w = Some (RET_CODE_OK, w') ∧
    db_queue (w_db w') = db_queue (w_db w) ++ [cmd] ∧ dc_shard cmd = s ∧
    dc_argv cmd = evalsha_argv sha keys argv ∧ dc_cb cmd = fp_evalsha_reply_cb p ∧ ep_user p = u ∧ ep_retried p = false.
Proof.
  intros [Hsha Hpool Hconn Hpend Hacc] Hs Hparts Hlen. unfold v_db_evalsha.
  rewrite (proj2 (Z.ltb_ge _ _)) by lia. rewrite (proj2 (Z.leb_gt _ _)) by lia. rewrite Hsha.
  destruct (rte_mempool_get (g_evalsha_pool _)) as [[o pool]|]; [|done].
  assert (snprintf 8 (dec (Z.of_nat (length keys))) = dec (Z.of_nat (length keys))) as Hn.
  { apply snprintf_fits. unfold V_DB_EVALSHA_MAX_PARTS in Hparts.
    assert (length (dec (Z.of_nat (length keys))) ≤ 2)%nat; [|lia]. apply dec_length; [cbn|]; lia. }
  rewrite Hn, scratch_copy_all_spec, Z.add_0_l, (proj2 (Z.leb_le _ _)) by done.
  set (w1 := set_script _ w). set (p := EvalshaPending _ _ _ _ _ _).
  destruct (cmd_issued s (fp_evalsha_reply_cb p) (ep_argv p) w1 Hs) as (w2&cmd&Hc&Hq&Hsh&Ha&Hcb); try done.
  exists w2, cmd, p. split; [|done]. unfold mbind, SM_bind, issue_evalsha. unfold mbind, SM_bind. cbn [ep_shard p] in *.
  by rewrite Hc.
Qed.
End issue.

(** ** The server side of the two session scripts *)

Section serve.
Context {R : Redis} {L : Lua} {SS : ScriptSha}.

Lemma find_script sh id : sh_loaded sh id = true →
  List.find (λ i, sh_loaded sh i && bool_decide (script_sha i = script_sha id)) all_scripts = Some id.
Proof.
  intros Hl. assert (∀ i, bool_decide (script_sha i = script_sha id) = bool_decide (i = id)) as Hb.
  { intros i. apply bool_decide_ext. split; [apply script_sha_inj|by intros ->]. }
  cbn. rewrite !Hb. destruct id; cbn; rewrite ?Hl, ?andb_false_r; done.
Qed.

(** A loaded script runs on the keys and arguments that were sent. *)
Lemma serve_evalsha sh id keys argv r s' :
  sh_loaded sh id = true → (length keys < 10)%nat →
  run_script id keys argv (sh_store sh) = (r, s') →
  serve (evalsha_argv (script_sha id) keys argv) sh = (r, Shard s' (sh_loaded sh)).
Proof.
  intros Hl Hk Hr. unfold serve, evalsha_argv. rewrite decide_True by done.
  rewrite find_script, strtoull_dec, Nat2Z.id by (done || u_lia).
  by rewrite take_app_length, drop_app_length, Hr.
Qed.

(** Without the script the answer is NOSCRIPT and nothing changes. *)
Lemma serve_noscript sh id keys argv :
  sh_loaded sh id = false → serve (evalsha_argv (script_sha id) keys argv) sh = (V_DB_REPLY_ERROR NOSCRIPT, sh).
Proof.
  intros Hl. unfold serve, evalsha_argv. rewrite decide_True by done.
  assert (List.find (λ i, sh_loaded sh i && bool_decide (script_sha i = script_sha id)) all_scripts = None) as ->; [|done].
  assert (∀ i, bool_decide (script_sha i = script_sha id) = bool_decide (i = id)) as Hb.
  { intros i. apply bool_decide_ext. split; [apply script_sha_inj|by intros ->]. }
  cbn. rewrite !Hb. destruct id; cbn; rewrite ?Hl, ?andb_false_r; done.
Qed.

(** SCRIPT LOAD answers the SHA and loads exactly that script. *)
Lemma serve_load sh id :
  ∃ sh', serve [$"SCRIPT"; $"LOAD"; g_script_src id] sh = (V_DB_REPLY_STRING (script_sha id), sh') ∧
    sh_store sh' = sh_store sh ∧ (∀ i, sh_loaded sh' i = bool_decide (i = id) || sh_loaded sh i).
Proof.
  eexists. unfold serve. rewrite decide_False by done. rewrite decide_True by done.
  assert (List.find (λ i, bool_decide (g_script_src i = g_script_src id)) all_scripts = Some id) as ->.
  { by destruct id; vm_compute. }
  done.
Qed.
End serve.

(** ** Issue, serve and report, end to end *)

Section refine.
Context {DP : Dpdk} {PP : PfcpPort} {R : Redis} {L : Lua} {SS : ScriptSha}.
Variable iu : evalsha_user → Z → option v_db_reply → M ().

(** The pending pool of the store has a free object. *)
Definition sess_pool_ready (w : world) : Prop :=
  ∃ pool o pool', w_sess_pool w = Some pool ∧ rte_mempool_get pool = Some (o, pool').

(** A storage call whose command is accepted. *)
Lemma with_pending_issued (issue : Z → M Z) w :
  sess_pool_ready w →
  (∀ o w1, w_db w1 = w_db w → w_script w1 = w_script w → w_ctxs w1 = w_ctxs w →
     ∃ w', issue o w1 = Some (RET_CODE_OK, w')) →
  ∃ o w1 w', w_db w1 = w_db w ∧ w_script w1 = w_script w ∧ w_ctxs w1 = w_ctxs w ∧
    issue o w1 = Some (RET_CODE_OK, w') ∧ with_pending issue w = Some (RET_CODE_OK, w').
Proof.
  intros (pool&o&pool'&Hp&Hg) Hi. set (w1 := set_sess_pool (Some pool') w).
  destruct (Hi o w1) as (w'&Hw'); try done. exists o, w1, w'. split_and!; try done.
  unfold with_pending, mbind, SM_bind, sess_pending_get. rewrite Hp, Hg. fold w1. by rewrite Hw'.
Qed.

Lemma sess_ensure_ready w : sess_pool_ready w → sess_ensure_pool w = Some (RET_CODE_OK, w).
Proof. intros (pool&o&pool'&Hp&_). unfold sess_ensure_pool. by rewrite Hp. Qed.

Lemma evalsha_ready_ext w w1 s id sha :
  w_db w1 = w_db w → w_script w1 = w_script w → evalsha_ready w s id sha → evalsha_ready w1 s id sha.
Proof. intros Hd Hs []. by split; rewrite ?Hd, ?Hs. Qed.

Lemma ttl_str_full st : snprintf 8 (dec (state_ttl st)) = dec (state_ttl st).
Proof. by destruct st; vm_compute. Qed.

Lemma sess_parts_length part seid ver blob st :
  is_u16 part → is_u64 seid → is_u64 ver → Z.of_nat (length blob) <= 971 →
  total_length (dec 1 :: [make_key part seid] ++ [dec ver; blob; dec (state_ttl st)]) <= V_DB_EVALSHA_SCRATCH_BYTES.
Proof.
  intros Hp Hs Hv Hb. unfold total_length, V_DB_EVALSHA_SCRATCH_BYTES. cbn [concat app].
  rewrite !length_app. pose proof (make_key_length part seid Hp Hs). pose proof (dec_u64_length ver Hv).
  assert (length (dec 1) = 1%nat) as -> by (by vm_compute).
  assert (length (dec (state_ttl st)) ≤ 2)%nat by (by destruct st; apply (bool_decide_unpack _); vm_compute).
  change (length (@nil ascii)) with 0%nat. lia.
Qed.

(** The command v_sess_cas_write hands to the shard of its key. *)
Lemma cas_write_issued part seid ver c v st cb arg w blob :
  is_u16 part → is_u64 seid → is_u64 ver →
  hp_mem (w_ctxs w) !! c = Some v → v_port_pdu_serialize v V_SESS_BLOB_MAX_BYTES = Some blob →
  Z.of_nat (length blob) <= 971 → sess_pool_ready w →
  evalsha_ready w (v_port_db_shard_of (make_key part seid)) V_SCRIPT_SESS_CAS_WRITE (script_sha V_SCRIPT_SESS_CAS_WRITE) →
  ∃ w' cmd p o, v_sess_cas_write iu part seid ver c st cb arg w = Some (RET_CODE_OK, w') ∧
    db_queue (w_db w') = db_queue (w_db w) ++ [cmd] ∧ dc_shard cmd = v_port_db_shard_of (make_key part seid) ∧
    dc_argv cmd = evalsha_argv (script_sha V_SCRIPT_SESS_CAS_WRITE) [make_key part seid] [dec ver; blob; dec (state_ttl st)] ∧
    dc_cb cmd = fp_evalsha_reply_cb p ∧ ep_user p = fp_cas_write_reply_cb (CasPending o arg cb ver).
Proof.
  intros Hp Hs Hv Hc Hser Hlen Hpool Hready.
  assert (∀ o w1, w_db w1 = w_db w → w_script w1 = w_script w → w_ctxs w1 = w_ctxs w → 
    ∃ w' cmd p, v_db_evalsha iu (v_port_db_shard_of (make_key part seid)) V_SCRIPT_SESS_CAS_WRITE [make_key part seid]
      [dec ver; blob; dec (state_ttl st)] (fp_cas_write_reply_cb (CasPending o arg cb ver)) w1 = Some (RET_CODE_OK, w') ∧
      db_queue (w_db w') = db_queue (w_db w1) ++ [cmd] ∧ dc_shard cmd = v_port_db_shard_of (make_key part seid) ∧
      dc_argv cmd = evalsha_argv (script_sha V_SCRIPT_SESS_CAS_WRITE) [make_key part seid] [dec ver; blob; dec (state_ttl st)] ∧
      dc_cb cmd = fp_evalsha_reply_cb p ∧ ep_user p = fp_cas_write_reply_cb (CasPending o arg cb ver) ∧ ep_retried p = false) as Hi.
  { intros o w1 Hd Hsc _. apply evalsha_issued; [by eapply evalsha_ready_ext|apply shard_of_range|done|].
    by apply sess_parts_length. }
  edestruct (with_pending_issued (λ obj, v_db_evalsha iu (v_port_db_shard_of (make_key part seid)) V_SCRIPT_SESS_CAS_WRITE
    [make_key part seid] [dec ver; blob; dec (state_ttl st)] (fp_cas_write_reply_cb (CasPending obj arg cb ver))) w Hpool)
    as (o&w1&w'&Hd&Hsc&Hcx&Ho&Hw).
  { intros o w1 Hd Hsc Hcx. destruct (Hi o w1 Hd Hsc Hcx) as (w'&?&?&?&_). by exists w'. }
  destruct (Hi o w1 Hd Hsc Hcx) as (w2&cmd&p&Ho2&Hq&Hsh&Ha&Hcb&Hu&_). rewrite Ho in Ho2. injection Ho2 as <-.
  exists w', cmd, p, o. rewrite Hd in Hq. split; [|done].
  unfold v_sess_cas_write, mbind, SM_bind. rewrite (sess_ensure_ready w Hpool). cbn [negb Z.eqb RET_CODE_OK].
  unfold ctx_get, heap_get. rewrite Hc, Hser, ver_str_full by done. fold (state_ttl st). rewrite ttl_str_full. exact Hw.
Qed.

(** ** The contract: a versioned register per session *)

(** What v_sess_cas_write reports and leaves behind. *)
Definition write_contract (ver : Z) (data : bytes) (st : v_sess_state_t) (cur : option sess_rec)
    : v_cas_result_t * Z * option sess_rec :=
  let lease old := match st with V_SESS_PENDING => Some V_SESS_PENDING_TTL | V_SESS_CONFIRMED => old end in
  match cur with
  | None => if ver =? 0 then (V_CAS_OK, 1, Some (SessRec 1 data (lease None))) else (V_CAS_GONE, 0, None)
  | Some r =>
      if negb (ver =? 0) && (sr_ver r =? ver) then (V_CAS_OK, ver + 1, Some (SessRec (ver + 1) data (lease (sr_ttl r))))
      else (V_CAS_CONFLICT, 0, cur)
  end.

(** What v_sess_delete reports and leaves behind. *)
Definition delete_contract (ver : Z) (cur : option sess_rec) : v_cas_result_t * Z * option sess_rec :=
  match cur with
  | None => (V_CAS_GONE, 0, None)
  | Some r => if sr_ver r =? ver then (V_CAS_OK, 0, None) else (V_CAS_CONFLICT, 0, cur)
  end.

Lemma cas_contract ver data st cur :
  0 <= ver < 2 ^ 53 - 1 →
  let n := (cas_spec ver data (state_ttl st) cur).1 in
  cas_reply RET_CODE_OK (Some (V_DB_REPLY_INTEGER n)) (cas_new_ver ver) =
    (RET_CODE_OK, (write_contract ver data st cur).1.1, (write_contract ver data st cur).1.2) ∧
  (cas_spec ver data (state_ttl st) cur).2 = (write_contract ver data st cur).2.
Proof.
  intros Hv. unfold cas_spec, write_contract, cas_new_ver.
  destruct cur as [r|], (Z.eqb_spec ver 0) as [->|]; cbn; try (by destruct st).
  destruct (Z.eqb_spec (sr_ver r) ver); cbn; [|done].
  rewrite u64_small by u_lia. by destruct st.
Qed.

Lemma delete_contract_ok ver cur :
  let n := (delete_spec ver cur).1 in
  cas_reply RET_CODE_OK (Some (V_DB_REPLY_INTEGER n)) 0 =
    (RET_CODE_OK, (delete_contract ver cur).1.1, (delete_contract ver cur).1.2) ∧
  (delete_spec ver cur).2 = (delete_contract ver cur).2.
Proof. unfold delete_spec, delete_contract. destruct cur as [r|]; [|done]. by destruct (sr_ver r =? ver). Qed.

(** A final reply of a script reaches its issuer once. *)
Lemma evalsha_integer_reply p n :
  evalsha_reply_cb iu p RET_CODE_OK (Some (V_DB_REPLY_INTEGER n)) =
    (_ ← iu (ep_user p) RET_CODE_OK (Some (V_DB_REPLY_INTEGER n)); evalsha_put (ep_obj p)).
Proof. done. Qed.

Lemma run_cas_write sh part seid ver blob st cur :
  is_u16 part → is_u64 seid → 0 <= ver < 2 ^ 53 - 1 →
  sh_loaded sh V_SCRIPT_SESS_CAS_WRITE = true → rec_at (sh_store sh) (make_key part seid) cur →
  ∃ sh', serve (evalsha_argv (script_sha V_SCRIPT_SESS_CAS_WRITE) [make_key part seid] [dec ver; blob; dec (state_ttl st)]) sh
      = (V_DB_REPLY_INTEGER (cas_spec ver blob (state_ttl st) cur).1, sh') ∧
    rec_at (sh_store sh') (make_key part seid) (cas_spec ver blob (state_ttl st) cur).2 ∧
    only_key (make_key part seid) (sh_store sh) (sh_store sh').
Proof.
  intros Hp Hs Hv Hl Hr. assert (0 <= state_ttl st < 2 ^ 31) as Ht by (by destruct st).
  destruct (lua_sess_cas_write_spec _ _ cur ver blob (state_ttl st) Hr Hv Ht) as (s'&Hrun&Hrec&Ho).
  exists (Shard s' (sh_loaded sh)). split; [|done].
  apply serve_evalsha; [done|cbn; lia|]. cbn [run_script]. unfold return_integer. by rewrite Hrun.
Qed.

Lemma run_delete sh part seid ver cur :
  is_u16 part → is_u64 seid → is_u64 ver →
  sh_loaded sh V_SCRIPT_SESS_DELETE = true → rec_at (sh_store sh) (make_key part seid) cur →
  ∃ sh', serve (evalsha_argv (script_sha V_SCRIPT_SESS_DELETE) [make_key part seid] [dec ver]) sh
      = (V_DB_REPLY_INTEGER (delete_spec ver cur).1, sh') ∧
    rec_at (sh_store sh') (make_key part seid) (delete_spec ver cur).2 ∧
    only_key (make_key part seid) (sh_store sh) (sh_store sh').
Proof.
  intros Hp Hs Hv Hl Hr.
  destruct (lua_sess_delete_spec _ _ cur ver Hr Hv) as (s'&Hrun&Hrec&Ho).
  exists (Shard s' (sh_loaded sh)). split; [|done].
  apply serve_evalsha; [done|cbn; lia|]. cbn [run_script]. unfold return_integer. by rewrite Hrun.
Qed.

(** C15: v_sess_cas_write refines a versioned register.  The call queues one
    command for the shard of the session's key; run on a shard whose record
    for that key is [cur], the command leaves the record of [write_contract]
    (created at version 1, replaced at the next version, or unchanged) and
    touches no other key; and the callback is invoked once with the result and
    the version of [write_contract]. *)
Theorem cas_write_refines part seid ver c v st cb arg w blob sh cur :
  is_u16 part → is_u64 seid → 0 <= ver < 2 ^ 53 - 1 →
  hp_mem (w_ctxs w) !! c = Some v → v_port_pdu_serialize v V_SESS_BLOB_MAX_BYTES = Some blob →
  Z.of_nat (length blob) <= 971 → sess_pool_ready w →
  evalsha_ready w (v_port_db_shard_of (make_key part seid)) V_SCRIPT_SESS_CAS_WRITE (script_sha V_SCRIPT_SESS_CAS_WRITE) →
  sh_loaded sh V_SCRIPT_SESS_CAS_WRITE = true → rec_at (sh_store sh) (make_key part seid) cur →
  let '(result, new_ver, cur') := write_contract ver blob st cur in
  ∃ w' cmd p q reply sh',
    v_sess_cas_write iu part seid ver c st cb arg w = Some (RET_CODE_OK, w') ∧
    db_queue (w_db w') = db_queue (w_db w) ++ [cmd] ∧ dc_shard cmd = v_port_db_shard_of (make_key part seid) ∧
    serve (dc_argv cmd) sh = (reply, sh') ∧
    rec_at (sh_store sh') (make_key part seid) cur' ∧ only_key (make_key part seid) (sh_store sh) (sh_store sh') ∧
    dc_cb cmd = fp_evalsha_reply_cb p ∧
    evalsha_reply_cb iu p RET_CODE_OK (Some reply) =
      (_ ← iu (fp_cas_write_reply_cb q) RET_CODE_OK (Some reply); evalsha_put (ep_obj p)) ∧
    ∀ invoke_cas, cas_write_reply_cb invoke_cas q RET_CODE_OK (Some reply) =
      (_ ← invoke_cas cb RET_CODE_OK result new_ver arg; sess_pending_put (cp_obj q)).
Proof.
  intros Hp Hs Hv Hc Hser Hlen Hpool Hready Hl Hr.
  destruct (cas_write_issued part seid ver c v st cb arg w blob Hp Hs ltac:(u_lia) Hc Hser Hlen Hpool Hready)
    as (w'&cmd&p&o&Hw&Hq&Hsh&Ha&Hcb&Hu).
  destruct (run_cas_write sh part seid ver blob st cur Hp Hs Hv Hl Hr) as (sh'&Hserve&Hrec&Ho).
  pose proof (cas_contract ver blob st cur Hv) as [Hrep Hcur].
  destruct (write_contract ver blob st cur) as [[result new_ver] cur'] eqn:Ew. cbn [fst snd] in Hrep, Hcur. rewrite Hcur in Hrec.
  exists w', cmd, p, (CasPending o arg cb ver), (V_DB_REPLY_INTEGER (cas_spec ver blob (state_ttl st) cur).1), sh'.
  rewrite Ha, evalsha_integer_reply, Hu. split_and!; try done.
  intros ic. unfold cas_write_reply_cb. cbn [cp_exp_ver cp_cb cp_arg cp_obj]. by rewrite Hrep.
Qed.

Lemma delete_issued part seid ver cb arg w :
  is_u16 part → is_u64 seid → is_u64 ver → sess_pool_ready w →
  evalsha_ready w (v_port_db_shard_of (make_key part seid)) V_SCRIPT_SESS_DELETE (script_sha V_SCRIPT_SESS_DELETE) →
  ∃ w' cmd p o, v_sess_delete iu part seid ver cb arg w = Some (RET_CODE_OK, w') ∧
    db_queue (w_db w') = db_queue (w_db w) ++ [cmd] ∧ dc_shard cmd = v_port_db_shard_of (make_key part seid) ∧
    dc_argv cmd = evalsha_argv (script_sha V_SCRIPT_SESS_DELETE) [make_key part seid] [dec ver] ∧
    dc_cb cmd = fp_evalsha_reply_cb p ∧ ep_user p = fp_delete_reply_cb (CasPending o arg cb ver).
Proof.
  intros Hp Hs Hv Hpool Hready.
  assert (total_length (dec 1 :: [make_key part seid] ++ [dec ver]) <= V_DB_EVALSHA_SCRATCH_BYTES) as Hlen.
  { unfold total_length, V_DB_EVALSHA_SCRATCH_BYTES. cbn [concat app]. rewrite !length_app.
    pose proof (make_key_length part seid Hp Hs). pose proof (dec_u64_length ver Hv).
    assert (length (dec 1) = 1%nat) as -> by (by vm_compute). change (length (@nil ascii)) with 0%nat. lia. }
  set (issue := λ obj, v_db_evalsha iu (v_port_db_shard_of (make_key part seid)) V_SCRIPT_SESS_DELETE
    [make_key part seid] [dec ver] (fp_delete_reply_cb (CasPending obj arg cb ver))).
  assert (∀ o w1, w_db w1 = w_db w → w_script w1 = w_script w → w_ctxs w1 = w_ctxs w →
    ∃ w' cmd p, issue o w1 = Some (RET_CODE_OK, w') ∧
      db_queue (w_db w') = db_queue (w_db w1) ++ [cmd] ∧ dc_shard cmd = v_port_db_shard_of (make_key part seid) ∧
      dc_argv cmd = evalsha_argv (script_sha V_SCRIPT_SESS_DELETE) [make_key part seid] [dec ver] ∧
      dc_cb cmd = fp_evalsha_reply_cb p ∧ ep_user p = fp_delete_reply_cb (CasPending o arg cb ver) ∧ ep_retried p = false) as Hi.
  { intros o w1 Hd Hsc _. apply evalsha_issued; [by eapply evalsha_ready_ext|apply shard_of_range|done|done]. }
  edestruct (with_pending_issued issue w Hpool) as (o&w1&w'&Hd&Hsc&Hcx&Ho&Hw).
  { intros o w1 Hd Hsc Hcx. destruct (Hi o w1 Hd Hsc Hcx) as (w'&?&?&?&_). by exists w'. }
  destruct (Hi o w1 Hd Hsc Hcx) as (w2&cmd&p&Ho2&Hq&Hsh&Ha&Hcb&Hu&_). rewrite Ho in Ho2. injection Ho2 as <-.
  exists w', cmd, p, o. rewrite Hd in Hq. split; [|done].
  unfold v_sess_delete, mbind, SM_bind. rewrite (sess_ensure_ready w Hpool). cbn [negb Z.eqb RET_CODE_OK].
  rewrite ver_str_full by done. exact Hw.
Qed.

(** C17: v_sess_delete refines the register: one command for the shard of the
    key, which removes the record exactly when its version is the expected
    one, leaves it otherwise, touches no other key, and whose reply invokes
    the callback once with V_CAS_OK, V_CAS_CONFLICT or V_CAS_GONE. *)
Theorem delete_refines part seid ver cb arg w sh cur :
  is_u16 part → is_u64 seid → is_u64 ver → sess_pool_ready w →
  evalsha_ready w (v_port_db_shard_of (make_key part seid)) V_SCRIPT_SESS_DELETE (script_sha V_SCRIPT_SESS_DELETE) →
  sh_loaded sh V_SCRIPT_SESS_DELETE = true → rec_at (sh_store sh) (make_key part seid) cur →
  let '(result, new_ver, cur') := delete_contract ver cur in
  ∃ w' cmd p q reply sh',
    v_sess_delete iu part seid ver cb arg w = Some (RET_CODE_OK, w') ∧
    db_queue (w_db w') = db_queue (w_db w) ++ [cmd] ∧ dc_shard cmd = v_port_db_shard_of (make_key part seid) ∧
    serve (dc_argv cmd) sh = (reply, sh') ∧
    rec_at (sh_store sh') (make_key part seid) cur' ∧ only_key (make_key part seid) (sh_store sh) (sh_store sh') ∧
    dc_cb cmd = fp_evalsha_reply_cb p ∧
    evalsha_reply_cb iu p RET_CODE_OK (Some reply) =
      (_ ← iu (fp_delete_reply_cb q) RET_CODE_OK (Some reply); evalsha_put (ep_obj p)) ∧
    ∀ invoke_cas, delete_reply_cb invoke_cas q RET_CODE_OK (Some reply) =
      (_ ← invoke_cas cb RET_CODE_OK result new_ver arg; sess_pending_put (cp_obj q)).
Proof.
  intros Hp Hs Hv Hpool Hready Hl Hr.
  destruct (delete_issued part seid ver cb arg w Hp Hs Hv Hpool Hready) as (w'&cmd&p&o&Hw&Hq&Hsh&Ha&Hcb&Hu).
  destruct (run_delete sh part seid ver cur Hp Hs Hv Hl Hr) as (sh'&Hserve&Hrec&Ho).
  pose proof (delete_contract_ok ver cur) as [Hrep Hcur].
  destruct (delete_contract ver cur) as [[result new_ver] cur'] eqn:Ew. cbn [fst snd] in Hrep, Hcur. rewrite Hcur in Hrec.
  exists w', cmd, p, (CasPending o arg cb ver), (V_DB_REPLY_INTEGER (delete_spec ver cur).1), sh'.
  rewrite Ha, evalsha_integer_reply, Hu. split_and!; try done.
  intros ic. unfold delete_reply_cb. cbn [cp_exp_ver cp_cb cp_arg cp_obj]. by rewrite Hrep.
Qed.

(** C35: a context whose serialized form exceeds the 1024-byte scratch buffer
    of v_db_script can never be written: v_sess_cas_write returns
    RET_CODE_ERR and no command is queued, although the session layer admits
    blobs up to 2048 bytes. *)
Theorem cas_write_oversized_blob part seid ver c v st cb arg w blob :
  hp_mem (w_ctxs w) !! c = Some v → v_port_pdu_serialize v V_SESS_BLOB_MAX_BYTES = Some blob →
  V_DB_EVALSHA_SCRATCH_BYTES < Z.of_nat (length blob) →
  w_sess_pool w ≠ None ∨ rte_mempool_create V_SESS_PENDING_POOL_CAP ≠ None →
  ∃ w', v_sess_cas_write iu part seid ver c st cb arg w = Some (RET_CODE_ERR, w') ∧ w_db w' = w_db w.
Proof.
  intros Hc Hser Hbig Hpool.
  assert (∃ w1 pool, sess_ensure_pool w = Some (RET_CODE_OK, w1) ∧ w_sess_pool w1 = Some pool ∧ w_db w1 = w_db w ∧ w_ctxs w1 = w_ctxs w)
    as (w1&pool&He&Hp1&Hd1&Hc1).
  { unfold sess_ensure_pool. destruct (w_sess_pool w) as [pool|] eqn:E; [by exists w, pool|].
    destruct (rte_mempool_create V_SESS_PENDING_POOL_CAP) as [pool|]; [by eexists _, pool|]. by destruct Hpool. }
  unfold v_sess_cas_write, mbind, SM_bind. rewrite He. cbn [negb Z.eqb RET_CODE_OK].
  unfold ctx_get, heap_get. rewrite Hc1, Hc, Hser.
  unfold with_pending, mbind, SM_bind, sess_pending_get. rewrite Hp1.
  destruct (rte_mempool_get pool) as [[o pool']|]; [|by exists w1].
  set (w2 := set_sess_pool _ w1). fold (state_ttl st).
  assert (∀ ks u, ∃ w3, v_db_evalsha iu (v_port_db_shard_of (make_key part seid)) V_SCRIPT_SESS_CAS_WRITE [make_key part seid]
    [ks; blob; snprintf 8 (dec (state_ttl st))] u w2 = Some (RET_CODE_ERR, w3) ∧ w_db w3 = w_db w ∧ w_sess_pool w3 ≠ None) as Hev.
  { intros ks u. unfold v_db_evalsha. cbn [Z.ltb]. 
    destruct (if V_STUB_DB_SHARDS <=? _ then None else _); [|by exists w2].
    destruct (rte_mempool_get (g_evalsha_pool _)) as [[eo ep]|]; [|by exists w2].
    rewrite scratch_copy_all_spec, (proj2 (Z.leb_gt _ _)) by
      (unfold total_length, V_DB_EVALSHA_SCRATCH_BYTES in *; cbn [concat app]; rewrite ?length_app; lia).
    by eexists. }
  destruct (Hev (snprintf 24 (dec ver)) (fp_cas_write_reply_cb (CasPending o arg cb ver))) as (w3&->&Hd3&Hp3).
  cbn [negb Z.eqb RET_CODE_OK RET_CODE_ERR]. unfold sess_pending_put.
  destruct (w_sess_pool w3) as [pool3|]; [|done]. by eexists.
Qed.
End refine.
