(* ===== verification/SessHistory.v ===== *)
(** Optimistic concurrency over the session register: any interleaving of the
    session commands of all pods on the shard of one session, with expiry of
    the lease and traffic on other keys in between. *)
From S2P Require Import Prelude Seid Dpdk Heap Redis Scripts World DbScript SessStore Server SessCas.
Import MapServer FixedSha.

Section history.
Context {R : Redis} {L : Lua} {SS : ScriptSha}.

(** The commands v_sess_store issues for one session. *)
Inductive sess_op :=
  | OpRead
  | OpWrite (ver : Z) (data : bytes) (st : v_sess_state_t)
  | OpConfirm
  | OpDelete (ver : Z).

Definition op_argv (key : bytes) (op : sess_op) : list bytes :=
  match op with
  | OpRead => [$"HMGET"; key; V_SESS_FIELD_DATA; V_SESS_FIELD_VER]
  | OpWrite ver data st => evalsha_argv (script_sha V_SCRIPT_SESS_CAS_WRITE) [key] [dec ver; data; dec (state_ttl st)]
  | OpConfirm => [$"PERSIST"; key]
  | OpDelete ver => evalsha_argv (script_sha V_SCRIPT_SESS_DELETE) [key] [dec ver]
  end.

(** Versions stay in the range where Lua numbers are exact, and nobody
    creates the session a second time. *)
Definition op_ok (op : sess_op) : Prop :=
  match op with
  | OpWrite ver _ _ => 0 < ver < 2 ^ 53 - 1
  | OpDelete ver => is_u64 ver
  | _ => True
  end.

Inductive sess_ev := EvOp (op : sess_op) (reply : v_db_reply) | EvExpire | EvOther.

Inductive shard_step (key : bytes) : sess_ev → shard → shard → Prop :=
  | step_op op reply sh sh' :
      op_ok op → serve (op_argv key op) sh = (reply, sh') → shard_step key (EvOp op reply) sh sh'
  | step_expire sh sh' v ttl :
      rview (sh_store sh) !! key = Some (v, Some ttl) →
      rview (sh_store sh') = delete key (rview (sh_store sh)) → sh_loaded sh' = sh_loaded sh →
      shard_step key EvExpire sh sh'
  | step_other sh sh' :
      rview (sh_store sh') !! key = rview (sh_store sh) !! key → sh_loaded sh' = sh_loaded sh →
      shard_step key EvOther sh sh'.

Inductive shard_run (key : bytes) : list sess_ev → shard → shard → Prop :=
  | run_nil sh : shard_run key [] sh sh
  | run_cons e es sh sh1 sh' : shard_step key e sh sh1 → shard_run key es sh1 sh' → shard_run key (e :: es) sh sh'.

(** Did the event change the stored data or remove the record? *)
Definition took_effect (e : sess_ev) : bool :=
  match e with
  | EvOp (OpWrite _ _ _) (V_DB_REPLY_INTEGER n) | EvOp (OpDelete _) (V_DB_REPLY_INTEGER n) => n =? 1
  | EvExpire => true
  | _ => false
  end.

(** The two session scripts are loaded on the shard. *)
Definition scripts_loaded (sh : shard) : Prop :=
  sh_loaded sh V_SCRIPT_SESS_CAS_WRITE = true ∧ sh_loaded sh V_SCRIPT_SESS_DELETE = true.

(** Either the record is as it was read, or it is gone or of a later version. *)
Definition history_inv (key : bytes) (ver : Z) (data : bytes) (quiet : bool) (sh : shard) : Prop :=
  scripts_loaded sh ∧
  if quiet then ∃ ttl, rec_at (sh_store sh) key (Some (SessRec ver data ttl))
  else ∃ cur, rec_at (sh_store sh) key cur ∧ match cur with None => True | Some r => ver < sr_ver r end.

Lemma history_rec key ver data q sh :
  history_inv key ver data q sh → ∃ cur, rec_at (sh_store sh) key cur ∧
    if q then ∃ ttl, cur = Some (SessRec ver data ttl) else match cur with None => True | Some r => ver < sr_ver r end.
Proof. intros [_ H]. destruct q; [|done]. destruct H as [ttl H]. by eexists; split; [|exists ttl]. Qed.

Lemma serve_write sh key ver data st cur :
  0 <= ver < 2 ^ 53 - 1 → sh_loaded sh V_SCRIPT_SESS_CAS_WRITE = true → rec_at (sh_store sh) key cur →
  ∃ s', serve (op_argv key (OpWrite ver data st)) sh
      = (V_DB_REPLY_INTEGER (cas_spec ver data (state_ttl st) cur).1, Shard s' (sh_loaded sh)) ∧
    rec_at s' key (cas_spec ver data (state_ttl st) cur).2.
Proof.
  intros Hv Hl Hr. assert (0 <= state_ttl st < 2 ^ 31) as Ht by (by destruct st).
  destruct (lua_sess_cas_write_spec _ _ cur ver data (state_ttl st) Hr Hv Ht) as (s'&Hrun&Hrec&_).
  exists s'. split; [|done]. apply serve_evalsha; [done|cbn; lia|]. cbn [run_script]. unfold return_integer. by rewrite Hrun.
Qed.

Lemma serve_delete sh key ver cur :
  is_u64 ver → sh_loaded sh V_SCRIPT_SESS_DELETE = true → rec_at (sh_store sh) key cur →
  ∃ s', serve (op_argv key (OpDelete ver)) sh = (V_DB_REPLY_INTEGER (delete_spec ver cur).1, Shard s' (sh_loaded sh)) ∧
    rec_at s' key (delete_spec ver cur).2.
Proof.
  intros Hv Hl Hr. destruct (lua_sess_delete_spec _ _ cur ver Hr Hv) as (s'&Hrun&Hrec&_).
  exists s'. split; [|done]. apply serve_evalsha; [done|cbn; lia|]. cbn [run_script]. unfold return_integer. by rewrite Hrun.
Qed.

(** PERSIST removes the lease and nothing else. *)
Definition confirm_contract (cur : option sess_rec) : option sess_rec :=
  (λ r, SessRec (sr_ver r) (sr_data r) None) <$> cur.

Lemma serve_confirm sh key cur :
  rec_at (sh_store sh) key cur →
  ∃ s', serve (op_argv key OpConfirm) sh =
      (V_DB_REPLY_INTEGER (match cur ≫= sr_ttl with Some _ => 1 | None => 0 end), Shard s' (sh_loaded sh)) ∧
    rec_at s' key (confirm_contract cur).
Proof.
  intros Hr. destruct (persist_law (sh_store sh) key) as (s'&He&Hv). exists s'. cbn [op_argv serve]. rewrite He.
  destruct cur as [r|]; cbn in Hr |- *.
  - destruct Hr as (Hb&h&Hk&H1&H2). rewrite Hk in Hv |- *. split; [by destruct (sr_ttl r)|].
    split; [done|]. exists h. by rewrite Hv, lookup_insert_eq.
  - by rewrite Hr in Hv |- *; rewrite Hv.
Qed.

Lemma serve_read sh key cur :
  rec_at (sh_store sh) key cur →
  serve (op_argv key OpRead) sh =
    (V_DB_REPLY_ARRAY [bulk (sr_data <$> cur); bulk (dec ∘ sr_ver <$> cur)], Shard (sh_store sh) (sh_loaded sh)).
Proof.
  intros Hr. unfold serve, op_argv. rewrite decide_False by done. rewrite decide_False by (by intros []).
  destruct cur as [r|].
  - destruct Hr as (_&h&Hk&H1&H2). erewrite hmget_law by (by rewrite Hk).
    unfold V_SESS_FIELD_DATA, V_SESS_FIELD_VER. by rewrite H1, H2.
  - cbn in Hr. erewrite hmget_law by (by rewrite Hr). by rewrite !lookup_empty.
Qed.

Lemma history_step key ver data q e sh sh' :
  shard_step key e sh sh' → history_inv key ver data q sh →
  history_inv key ver data (q && negb (took_effect e)) sh'.
Proof.
  intros Hs Hinv. pose proof Hinv as [[Hl1 Hl2] _].
  destruct (history_rec _ _ _ _ _ Hinv) as (cur&Hr&Hc).
  destruct Hs as [op reply sh sh' Hok Hserve|sh sh' v ttl Hk Hv Hl|sh sh' Hk Hl].
  - destruct op as [|ver' data' st| |ver']; cbn [op_ok] in Hok.
    + rewrite (serve_read _ _ _ Hr) in Hserve. injection Hserve as <- <-.
      cbn [took_effect negb]. rewrite andb_true_r. split; [done|]. apply Hinv.
    + destruct (serve_write sh key ver' data' st cur ltac:(lia) Hl1 Hr) as (s'&Hs&Hr'). rewrite Hs in Hserve.
      injection Hserve as <- <-. split; [done|]. revert Hr'. cbn [took_effect sh_store]. unfold cas_spec.
      destruct cur as [r|]; [|rewrite (proj2 (Z.eqb_neq ver' 0)) by lia]; cbn [negb Z.eqb].
      * rewrite (proj2 (Z.eqb_neq ver' 0)) by lia. cbn [orb].
        destruct (Z.eqb_spec (sr_ver r) ver') as [Heq|]; cbn [negb fst snd Z.eqb Pos.eqb].
        -- rewrite andb_false_r. intros Hr'. eexists. split; [exact Hr'|]. cbn [sr_ver].
           destruct q; [destruct Hc as [ttl [= ->]]; cbn in Heq; lia|lia].
        -- rewrite andb_true_r. intros Hr'. destruct q; [|by exists (Some r)].
           destruct Hc as [ttl [= ->]]. by exists ttl.
      * rewrite andb_true_r. intros Hr'. destruct q; [by destruct Hc|]. by exists None.
    + destruct (serve_confirm sh key cur Hr) as (s'&Hs&Hr'). rewrite Hs in Hserve. injection Hserve as <- <-.
      split; [done|]. cbn [took_effect negb sh_store]. rewrite andb_true_r. destruct q.
      * destruct Hc as [ttl ->]. by exists None.
      * exists (confirm_contract cur). split; [done|]. by destruct cur.
    + destruct (serve_delete sh key ver' cur Hok Hl2 Hr) as (s'&Hs&Hr'). rewrite Hs in Hserve.
      injection Hserve as <- <-. split; [done|]. revert Hr'. cbn [took_effect sh_store]. unfold delete_spec.
      destruct cur as [r|]; cbn [negb fst snd Z.eqb].
      * destruct (Z.eqb_spec (sr_ver r) ver'); cbn [negb fst snd Z.eqb Pos.eqb].
        -- rewrite andb_false_r. intros Hr'. by exists None.
        -- rewrite andb_true_r. intros Hr'. destruct q; [|by exists (Some r)].
           destruct Hc as [ttl [= ->]]. by exists ttl.
      * rewrite andb_true_r. intros Hr'. destruct q; [by destruct Hc|]. by exists None.
  - unfold history_inv, scripts_loaded. rewrite Hl. split; [done|]. cbn [took_effect negb]. rewrite andb_false_r.
    exists None. split; [|done]. cbn. by rewrite Hv, lookup_delete_eq.
  - unfold history_inv, scripts_loaded. rewrite Hl. split; [done|]. cbn [took_effect negb]. rewrite andb_true_r.
    assert (∀ c, rec_at (sh_store sh) key c → rec_at (sh_store sh') key c) as Hsame.
    { intros [r|]; cbn; by rewrite Hk. }
    destruct q; [destruct Hc as [ttl ->]; exists ttl|exists cur]; by auto.
Qed.

Lemma history_run key ver data es sh sh' : shard_run key es sh sh' → ∀ q,
  history_inv key ver data q sh → history_inv key ver data (q && forallb (negb ∘ took_effect) es) sh'.
Proof.
  induction 1 as [sh|e es sh sh1 sh' Hs Hr IH]; intros q Hinv; cbn [forallb].
  - by rewrite andb_true_r.
  - rewrite andb_assoc. apply IH. by eapply history_step.
Qed.

(** C3: optimistic concurrency is sound and complete.  A pod reads version
    [ver] and data [data]; then any session commands of any pods, expiry of
    the lease and traffic on other keys follow.  A CAS write that expects
    [ver] succeeds afterwards exactly when no write, delete or expiry took
    effect in between, and then it replaces the very data that was read: no
    update is lost and no conflict is reported without cause. *)
Theorem cas_no_lost_update key ver data ttl es sh0 sh1 data' st :
  scripts_loaded sh0 → 0 < ver < 2 ^ 53 - 1 →
  rec_at (sh_store sh0) key (Some (SessRec ver data ttl)) → shard_run key es sh0 sh1 →
  let '(reply, sh2) := serve (op_argv key (OpWrite ver data' st)) sh1 in
  (reply = V_DB_REPLY_INTEGER 1 ↔ Forall (λ e, took_effect e = false) es) ∧
  (reply = V_DB_REPLY_INTEGER 1 →
     ∃ ttl1 ttl2, rec_at (sh_store sh1) key (Some (SessRec ver data ttl1)) ∧
                  rec_at (sh_store sh2) key (Some (SessRec (ver + 1) data' ttl2))).
Proof.
  intros Hl Hv Hr Hrun.
  assert (history_inv key ver data true sh0) as H0 by (split; [done|by exists ttl]).
  pose proof (history_run _ _ _ _ _ _ Hrun true H0) as H1. cbn [andb] in H1.
  pose proof H1 as [[Hl1 _] _]. destruct (history_rec _ _ _ _ _ H1) as (cur&Hcur&Hc).
  destruct (serve_write sh1 key ver data' st cur ltac:(lia) Hl1 Hcur) as (s'&->&Hr'). cbn [sh_store].
  assert (forallb (negb ∘ took_effect) es = true ↔ Forall (λ e, took_effect e = false) es) as Hq.
  { rewrite forallb_forall, Forall_forall. setoid_rewrite <- list_elem_of_In. cbn. setoid_rewrite negb_true_iff. done. }
  rewrite <- Hq. unfold cas_spec in *. rewrite (proj2 (Z.eqb_neq ver 0)) in * by lia.
  destruct (forallb _ es).
  - destruct Hc as [ttl1 ->]. cbn [sr_ver sr_data sr_ttl orb] in *. rewrite Z.eqb_refl in *. cbn [negb fst snd] in Hr' |- *. split; [done|].
    intros _. eexists _, _. split; [exact Hcur|exact Hr'].
  - destruct cur as [r|]; [|by split]. cbn [orb] in *. rewrite (proj2 (Z.eqb_neq (sr_ver r) ver)) in * by lia. by split.
Qed.

End history.

(** ** Read and confirm, end to end *)

Section plain.
Context {DP : Dpdk} {PP : PfcpPort} {R : Redis} {L : Lua} {SS : ScriptSha}.

(** A plain command can be issued to shard [s]. *)
Record cmd_ready (w : world) (s : Z) : Prop := {
  cr_conn : db_connected (w_db w) s = true;
  cr_pending : rte_mempool_get (db_pending_pool (w_db w)) ≠ None;
  cr_accept : db_accept (w_db w) (db_issue_no (w_db w)) = true;
}.

Lemma plain_issued key (mk : Z → v_db_cb_t) argv w :
  sess_pool_ready w → cmd_ready w (v_port_db_shard_of key) →
  ∃ w' cmd o, (rc ← sess_ensure_pool;
      if negb (rc =? RET_CODE_OK) then mret RET_CODE_ERR
      else with_pending (λ obj, v_port_db_cmd (v_port_db_shard_of key) (mk obj) argv)) w = Some (RET_CODE_OK, w') ∧
    db_queue (w_db w') = db_queue (w_db w) ++ [cmd] ∧ dc_shard cmd = v_port_db_shard_of key ∧
    dc_argv cmd = argv ∧ dc_cb cmd = mk o.
Proof.
  intros Hpool [Hconn Hpend Hacc].
  assert (∀ o w1, w_db w1 = w_db w → w_script w1 = w_script w → w_ctxs w1 = w_ctxs w →
    ∃ w' cmd, v_port_db_cmd (v_port_db_shard_of key) (mk o) argv w1 = Some (RET_CODE_OK, w') ∧
      db_queue (w_db w') = db_queue (w_db w1) ++ [cmd] ∧ dc_shard cmd = v_port_db_shard_of key ∧
      dc_argv cmd = argv ∧ dc_cb cmd = mk o) as Hi.
  { intros o w1 Hd _ _. apply cmd_issued; [apply shard_of_range|by rewrite Hd..]. }
  edestruct (with_pending_issued (λ obj, v_port_db_cmd (v_port_db_shard_of key) (mk obj) argv) w Hpool)
    as (o&w1&w'&Hd&Hsc&Hcx&Ho&Hw).
  { intros o w1 Hd Hsc Hcx. destruct (Hi o w1 Hd Hsc Hcx) as (w'&?&?&_). by exists w'. }
  destruct (Hi o w1 Hd Hsc Hcx) as (w2&cmd&Ho2&Hq&Hrest). rewrite Ho in Ho2. injection Ho2 as <-.
  exists w', cmd, o. rewrite Hd in Hq. split; [|done].
  unfold mbind, SM_bind. by rewrite (sess_ensure_ready w Hpool).
Qed.

(** C18: v_sess_read returns what the register holds.  The command it queues
    leaves the shard unchanged; an absent record is reported as V_CAS_GONE;
    a record is decoded into the caller's context and reported with its
    version, or as an error when its data does not decode. *)
Theorem read_refines part seid c v cb arg w sh cur :
  is_u16 part → is_u64 seid → sess_pool_ready w → cmd_ready w (v_port_db_shard_of (make_key part seid)) →
  rec_at (sh_store sh) (make_key part seid) cur →
  ∃ w' cmd q reply,
    v_sess_read part seid c cb arg w = Some (RET_CODE_OK, w') ∧
    db_queue (w_db w') = db_queue (w_db w) ++ [cmd] ∧ dc_shard cmd = v_port_db_shard_of (make_key part seid) ∧
    serve (dc_argv cmd) sh = (reply, sh) ∧ dc_cb cmd = fp_read_reply_cb q ∧
    ∀ invoke_read w1, hp_mem (w_ctxs w1) !! c = Some v →
      read_reply_cb invoke_read q RET_CODE_OK (Some reply) w1 =
      match cur with
      | None => (_ ← invoke_read cb RET_CODE_OK V_CAS_GONE c 0 arg; sess_pending_put (rp_obj q)) w1
      | Some r =>
          let '(rc, v') := v_port_pdu_deserialize (sr_data r) v in
          (_ ← ctx_set c v';
           _ ← (if rc =? RET_CODE_OK then invoke_read cb RET_CODE_OK V_CAS_OK c (sr_ver r) arg
                else invoke_read cb RET_CODE_ERR V_CAS_GONE c 0 arg);
           sess_pending_put (rp_obj q)) w1
      end.
Proof.
  intros Hp Hs Hpool Hready Hr.
  destruct (plain_issued (make_key part seid) (λ obj, fp_read_reply_cb (ReadPending obj arg cb c))
    (op_argv (make_key part seid) OpRead) w Hpool Hready) as (w'&cmd&o&Hw&Hq&Hsh&Ha&Hcb).
  exists w', cmd, (ReadPending o arg cb c), (V_DB_REPLY_ARRAY [bulk (sr_data <$> cur); bulk (dec ∘ sr_ver <$> cur)]).
  split; [exact Hw|]. rewrite Ha, (serve_read _ _ _ Hr). split_and!; [done|done|by destruct sh|done|].
  intros ir w1 Hc. unfold read_reply_cb, mbind, SM_bind. cbn [read_fields Z.eqb RET_CODE_OK].
  destruct cur as [r|]; cbn [fmap option_fmap option_map bulk reply_is_nil orb reply_str rp_ctx rp_cb rp_arg rp_obj]; [|done].
  unfold ctx_get, heap_get. rewrite Hc. destruct (v_port_pdu_deserialize (sr_data r) v) as [rc v'].
  assert (parse_buf 24 (dec (sr_ver r)) = sr_ver r) as Hpb.
  { destruct Hr as [Hv _]. apply parse_buf_dec; [u_lia|lia]. }
  cbn [compose]. rewrite Hpb. destruct (ctx_set c v' w1) as [[[] w2]|]; [|done]. unfold RET_CODE_OK. destruct (rc =? 0); reflexivity.
Qed.

(** C19: v_sess_confirm removes the lease of the record and touches nothing
    else of it, but reports success for a session that no longer exists: the
    callback gets RET_CODE_OK whether or not the record is still there. *)
Theorem confirm_refines part seid cb arg w sh cur :
  is_u16 part → is_u64 seid → sess_pool_ready w → cmd_ready w (v_port_db_shard_of (make_key part seid)) →
  rec_at (sh_store sh) (make_key part seid) cur →
  ∃ w' cmd q reply sh',
    v_sess_confirm part seid cb arg w = Some (RET_CODE_OK, w') ∧
    db_queue (w_db w') = db_queue (w_db w) ++ [cmd] ∧ dc_shard cmd = v_port_db_shard_of (make_key part seid) ∧
    serve (dc_argv cmd) sh = (reply, sh') ∧ rec_at (sh_store sh') (make_key part seid) (confirm_contract cur) ∧
    dc_cb cmd = fp_confirm_reply_cb q ∧
    ∀ invoke_simple, confirm_reply_cb invoke_simple q RET_CODE_OK (Some reply) =
      (_ ← invoke_simple cb RET_CODE_OK arg; sess_pending_put (sp_obj q)).
Proof.
  intros Hp Hs Hpool Hready Hr.
  destruct (plain_issued (make_key part seid) (λ obj, fp_confirm_reply_cb (SimplePending obj arg cb))
    (op_argv (make_key part seid) OpConfirm) w Hpool Hready) as (w'&cmd&o&Hw&Hq&Hsh&Ha&Hcb).
  destruct (serve_confirm sh (make_key part seid) cur Hr) as (s'&Hserve&Hrec).
  eexists w', cmd, (SimplePending o arg cb), _, _. split; [exact Hw|]. rewrite Ha.
  split_and!; [done|done|exact Hserve|exact Hrec|done|done].
Qed.
End plain.
