(* ===== verification/Preserve.v ===== *)
(** Invariants carried through the session procedures.  [P x w] is a
    predicate on the process state that the session procedures can only affect
    through the storage, cache and allocator calls; [x] records what the
    running C stack still holds, and [hold_u u x] adds the objects that the
    pending callback [u] releases.  If the component calls respect [P], then
    so does every procedure and every user callback, at any nesting depth. *)
From S2P Require Import Prelude Seid Dpdk Heap Redis World DbScript SessStore RetransCache IdAlloc.
From S2P Require Import DispatchQ NodeState Flow Sweeper Pod.

Section preserves.
Context {DP : Dpdk} {PP : PfcpPort}.

(** Partial correctness: whatever [m] does when it does not crash keeps [P]. *)
Definition preserves {A} (P : world → Prop) (m : M A) : Prop :=
  ∀ w a w', P w → m w = Some (a, w') → P w'.

(** The same with different predicates before and after. *)
Definition shifts {A} (P Q : world → Prop) (m : M A) : Prop :=
  ∀ w a w', P w → m w = Some (a, w') → Q w'.

Lemma shifts_ret {A} P Q (a : A) : (∀ w, P w → Q w) → shifts P Q (mret a).
Proof. intros H w b w' HP [= _ <-]. by apply H. Qed.

Lemma shifts_bind {A B} P Q R (m : M A) (f : A → M B) :
  shifts P Q m → (∀ a, shifts Q R (f a)) → shifts P R (m ≫= f).
Proof.
  intros Hm Hf w b w' HP. unfold mbind, SM_bind. destruct (m w) as [[a w1]|] eqn:E; [|done].
  intros Hb. eapply Hf, Hb. by eapply Hm.
Qed.

Lemma shifts_crash {A} P Q : shifts P Q (crash (A := A)).
Proof. intros w a w' _. done. Qed.

Lemma shifts_modify P Q f : (∀ w, P w → Q (f w)) → shifts P Q (modify f).
Proof. intros H w a w' HP [= _ <-]. by apply H. Qed.

Lemma preserves_ret {A} P (a : A) : preserves P (mret a).
Proof. by apply shifts_ret. Qed.

Lemma preserves_bind {A B} P (m : M A) (f : A → M B) :
  preserves P m → (∀ a, preserves P (f a)) → preserves P (m ≫= f).
Proof. apply shifts_bind. Qed.

Lemma preserves_crash {A} P : preserves P (crash (A := A)).
Proof. apply shifts_crash. Qed.

Lemma preserves_gets {A} P (f : world → A) : preserves P (gets f).
Proof. by intros w a w' HP [= _ <-]. Qed.

Lemma preserves_modify P f : (∀ w, P w → P (f w)) → preserves P (modify f).
Proof. apply shifts_modify. Qed.

Lemma preserves_when P b m : preserves P m → preserves P (when b m).
Proof. intros H. destruct b; [done|apply preserves_ret]. Qed.

(** A total specification strengthened by a preserved predicate. *)
Lemma wp_preserves {A} P (m : M A) Q w :
  preserves P m → P w → wp m Q w → wp m (λ a w', Q a w' ∧ P w') w.
Proof.
  intros Hm HP. unfold wp. destruct (m w) as [[a w']|] eqn:E; [|done]. intros HQ. split; [done|by eapply Hm].
Qed.

(** Updates of the components a storage-level predicate does not look at. *)
Record frame_closed (P : world → Prop) : Prop := {
  fr_txns h w : P w → P (set_txns h w);
  fr_ctxs h w : P w → P (set_ctxs h w);
  fr_msgs h w : P w → P (set_msgs h w);
  fr_vdp v w : P w → P (set_vdp v w);
  fr_disp d w : P w → P (set_disp d w);
  fr_rr c w : P w → P (set_rr_ctr c w);
}.
End preserves.

Create HintDb pres.
#[export] Hint Resolve preserves_ret preserves_crash preserves_gets preserves_when : pres.

Ltac pres_step :=
  first
    [ solve [eauto with pres]
    | apply preserves_bind; [|intros ?]
    | apply preserves_when
    | case_match ].
Ltac pres := intros; cbv beta; repeat pres_step.

(** A primitive written as a function of the state. *)
Ltac pres_prim :=
  let w := fresh "w" in let a := fresh "a" in let w' := fresh "w'" in
  intros w a w' ? ?; repeat case_match; simplify_eq; eauto.

Section flow_preserves.
Context {DP : Dpdk} {PP : PfcpPort}.
Context {X : Type} (P : X → world → Prop) (hold_u : evalsha_user → X → X).

Definition iu_ok (iu : evalsha_user → Z → option v_db_reply → M ()) : Prop :=
  ∀ u status reply x, shifts (P (hold_u u x)) (P x) (iu u status reply).

(** What the components below v_flow guarantee. *)
Record flow_closed : Prop := {
  fc_frame x : frame_closed (P x);
  fc_read x part seid c cb arg : preserves (P x) (v_sess_read part seid c cb arg);
  fc_confirm x part seid cb arg : preserves (P x) (v_sess_confirm part seid cb arg);
  fc_cas iu x part seid ver c st cb arg :
    iu_ok iu → preserves (P x) (v_sess_cas_write iu part seid ver c st cb arg);
  fc_delete iu x part seid ver cb arg :
    iu_ok iu → preserves (P x) (v_sess_delete iu part seid ver cb arg);
  fc_lookup x part f seq cb arg : preserves (P x) (v_retrans_lookup part f seq cb arg);
  fc_store x part f seq resp : preserves (P x) (v_retrans_store part f seq resp);
  fc_seid x part : preserves (P x) (v_seid_alloc part);
  fc_teid iu x part : iu_ok iu → preserves (P x) (v_teid_alloc iu part);
  fc_tfree x part teid : preserves (P x) (v_teid_free part teid);
  fc_cas_cb cc p status reply x :
    (∀ x cb st res ver arg, preserves (P x) (cc cb st res ver arg)) →
    shifts (P (hold_u (fp_cas_write_reply_cb p) x)) (P x) (cas_write_reply_cb cc p status reply);
  fc_delete_cb cc p status reply x :
    (∀ x cb st res ver arg, preserves (P x) (cc cb st res ver arg)) →
    shifts (P (hold_u (fp_delete_reply_cb p) x)) (P x) (delete_reply_cb cc p status reply);
  fc_refill_cb part status reply x :
    shifts (P (hold_u (fp_teid_refill_reply_cb part) x)) (P x) (teid_refill_reply_cb part status reply);
}.

Context (FC : flow_closed).

Hint Resolve fc_read fc_confirm fc_cas fc_delete fc_lookup fc_store fc_seid fc_teid fc_tfree : pres.

(** *** The primitives *)

Lemma txn_get_pres x t : preserves (P x) (txn_get t).
Proof. unfold txn_get. pres_prim. Qed.
Lemma txn_upd_pres x t f : preserves (P x) (txn_upd t f).
Proof. unfold txn_upd. pose proof (fr_txns _ (fc_frame FC x)). pres_prim. Qed.
Lemma txn_create_pres x : preserves (P x) v_port_txn_create.
Proof. unfold v_port_txn_create. pose proof (fr_txns _ (fc_frame FC x)). pres_prim. Qed.
Lemma txn_destroy_pres x t : preserves (P x) (v_port_txn_destroy t).
Proof. unfold v_port_txn_destroy. pose proof (fr_txns _ (fc_frame FC x)). pres_prim. Qed.
Lemma ctx_alloc_pres x : preserves (P x) v_port_ctx_alloc.
Proof. unfold v_port_ctx_alloc. pose proof (fr_ctxs _ (fc_frame FC x)). pres_prim. Qed.
Lemma ctx_free_pres x c : preserves (P x) (v_port_ctx_free c).
Proof. unfold v_port_ctx_free. pose proof (fr_ctxs _ (fc_frame FC x)). pres_prim. Qed.
Lemma ctx_get_pres x c : preserves (P x) (ctx_get c).
Proof. unfold ctx_get. pres_prim. Qed.
Lemma ctx_set_pres x c v : preserves (P x) (ctx_set c v).
Proof. unfold ctx_set. pose proof (fr_ctxs _ (fc_frame FC x)). pres_prim. Qed.
Lemma msg_get_pres x m : preserves (P x) (msg_get m).
Proof. unfold msg_get. pres_prim. Qed.
Lemma msg_free_pres x m : preserves (P x) (v_port_pfcp_msg_free m).
Proof. unfold v_port_pfcp_msg_free. pose proof (fr_msgs _ (fc_frame FC x)). pres_prim. Qed.
Lemma decode_pres x b : preserves (P x) (pfcp_decode b).
Proof. unfold pfcp_decode. pose proof (fr_msgs _ (fc_frame FC x)). pres_prim. Qed.
Lemma vdp_dispatch_pres x op cb arg : preserves (P x) (vdp_dispatch op cb arg).
Proof. unfold vdp_dispatch. pose proof (fr_vdp _ (fc_frame FC x)). pres_prim. Qed.
Lemma tx_enqueue_pres x buf peer : preserves (P x) (v_dispatch_tx_enqueue buf peer).
Proof. unfold v_dispatch_tx_enqueue. pose proof (fr_disp _ (fc_frame FC x)). pres_prim. Qed.
Lemma part_rr_pres x : preserves (P x) part_rr.
Proof. unfold part_rr. pose proof (fr_rr _ (fc_frame FC x)). pres_prim. Qed.
Lemma deref_pres x o : preserves (P x) (deref o).
Proof. destruct o; pres. Qed.

Hint Resolve txn_get_pres txn_upd_pres txn_create_pres txn_destroy_pres ctx_alloc_pres ctx_free_pres
  ctx_get_pres ctx_set_pres msg_get_pres msg_free_pres decode_pres vdp_dispatch_pres tx_enqueue_pres
  part_rr_pres deref_pres : pres.

(** *** The procedures *)

Lemma set_state_pres x t s : preserves (P x) (v_port_txn_set_state t s).
Proof. unfold v_port_txn_set_state. pres. Qed.
Lemma ctx_free_opt_pres x c : preserves (P x) (ctx_free_opt c).
Proof. unfold ctx_free_opt. pres. Qed.
Lemma ctx_clear_pres x c : preserves (P x) (v_port_ctx_clear c).
Proof. unfold v_port_ctx_clear. pres. Qed.
Hint Resolve set_state_pres ctx_free_opt_pres ctx_clear_pres : pres.
Lemma reply_and_cache_pres x v cause : preserves (P x) (reply_and_cache v cause).
Proof. unfold reply_and_cache. pres. Qed.
Hint Resolve reply_and_cache_pres : pres.
Lemma finish_pres x t cause : preserves (P x) (finish t cause).
Proof. unfold finish. pres. Qed.
Lemma drop_request_pres x t : preserves (P x) (drop_request t).
Proof. unfold drop_request. pres. Qed.
Lemma drop_snapshot_pres x t : preserves (P x) (drop_snapshot t).
Proof. unfold drop_snapshot. pres. Qed.
Hint Resolve finish_pres drop_request_pres drop_snapshot_pres : pres.
Lemma reply_cached_pres x t resp : preserves (P x) (reply_cached t resp).
Proof. unfold reply_cached. pres. Qed.
Lemma confirm_cb_pres x t st : preserves (P x) (confirm_cb t st).
Proof. unfold confirm_cb. pres. Qed.
Lemma start_txn_pres x r peer init cb : preserves (P x) (start_txn r peer init cb).
Proof. unfold start_txn. pres. Qed.
Lemma mod_start_read_pres x t : preserves (P x) (mod_start_read t).
Proof. unfold mod_start_read. pres. Qed.
Lemma del_start_read_pres x t : preserves (P x) (del_start_read t).
Proof. unfold del_start_read. pres. Qed.
Hint Resolve reply_cached_pres confirm_cb_pres start_txn_pres mod_start_read_pres del_start_read_pres : pres.
Lemma alloc_ctx_then_pres x t f : (∀ t, preserves (P x) (f t)) → preserves (P x) (alloc_ctx_then t f).
Proof. unfold alloc_ctx_then. pres. Qed.
Hint Resolve alloc_ctx_then_pres : pres.
Lemma compensate_pres x t st res ver : preserves (P x) (mod_compensate_write_cb t st res ver).
Proof. unfold mod_compensate_write_cb. pres. Qed.
Lemma mod_cas_cb_pres x t st res ver : preserves (P x) (mod_cas_cb t st res ver).
Proof. unfold mod_cas_cb, v_port_vdp_session_modify. pres. Qed.
Lemma del_delete_cb_pres x t st res ver : preserves (P x) (del_delete_cb t st res ver).
Proof. unfold del_delete_cb. pres. Qed.
Lemma mod_lookup_pres x t st hit resp : preserves (P x) (mod_retrans_lookup_cb t st hit resp).
Proof. unfold mod_retrans_lookup_cb. pres. Qed.
Lemma del_lookup_pres x t st hit resp : preserves (P x) (del_retrans_lookup_cb t st hit resp).
Proof. unfold del_retrans_lookup_cb. pres. Qed.
Lemma del_read_cb_pres x t st f c ver : preserves (P x) (del_read_cb t st f c ver).
Proof. unfold del_read_cb, v_port_vdp_session_delete. pres. Qed.
Lemma ctx_not_found_pres x r peer : preserves (P x) (reply_ctx_not_found r peer).
Proof. unfold reply_ctx_not_found. pres. Qed.
Hint Resolve compensate_pres mod_cas_cb_pres del_delete_cb_pres mod_lookup_pres del_lookup_pres
  del_read_cb_pres ctx_not_found_pres : pres.
Lemma handle_existing_pres x r peer cb : preserves (P x) (handle_existing r peer cb).
Proof. unfold handle_existing. pres. Qed.
Hint Resolve handle_existing_pres : pres.
Lemma handle_msg_pres x msg : preserves (P x) (v_flow_handle_msg msg).
Proof. unfold v_flow_handle_msg, handle_establishment, handle_modification, handle_deletion. pres. Qed.
Lemma call_simple_pres x cb st arg : preserves (P x) (call_simple cb st arg).
Proof. unfold call_simple, confirm_retry_cb. pres. Qed.

Section with_iu.
Variable iu : evalsha_user → Z → option v_db_reply → M ().
Hypothesis IU : iu_ok iu.

Lemma vdp_create_cb_pres x t res : preserves (P x) (vdp_create_cb iu t res).
Proof. unfold vdp_create_cb. pres. Qed.
Lemma cas_write_cb_pres x t st res ver : preserves (P x) (cas_write_cb iu t st res ver).
Proof. unfold cas_write_cb, v_port_vdp_session_create. pres. Qed.
Lemma lookup_cb_pres x t st hit resp : preserves (P x) (retrans_lookup_cb iu t st hit resp).
Proof. unfold retrans_lookup_cb. pres. Qed.
Lemma mod_vdp_cb_pres x t res : preserves (P x) (mod_vdp_cb iu t res).
Proof. unfold mod_vdp_cb. pres. Qed.
Lemma mod_read_cb_pres x t st f c ver : preserves (P x) (mod_read_cb iu t st f c ver).
Proof. unfold mod_read_cb. pres. Qed.
Lemma del_vdp_cb_pres x t res : preserves (P x) (del_vdp_cb iu t res).
Proof. unfold del_vdp_cb. pres. Qed.
Lemma timeout_handler_pres x t : preserves (P x) (timeout_handler iu t).
Proof. unfold timeout_handler, timeout_action. pres. Qed.
Hint Resolve vdp_create_cb_pres cas_write_cb_pres lookup_cb_pres mod_vdp_cb_pres mod_read_cb_pres
  del_vdp_cb_pres : pres.
Lemma call_cas_pres x cb st res ver arg : preserves (P x) (call_cas iu cb st res ver arg).
Proof. unfold call_cas, delete_pending_noop_cb, delete_pending_cb. pres. Qed.
End with_iu.

(** Every nesting depth of the user callbacks respects [P]. *)
Lemma invoke_user_ok d : iu_ok (invoke_user d).
Proof.
  induction d as [|d IH]; intros u status reply x; cbn [invoke_user]; [apply shifts_crash|].
  destruct u; [apply fc_cas_cb|apply fc_delete_cb|apply fc_refill_cb]; try done.
  all: intros; by apply call_cas_pres.
Qed.

Lemma iu_ok_iu : iu_ok iu.
Proof. apply invoke_user_ok. Qed.
Hint Resolve iu_ok_iu vdp_create_cb_pres cas_write_cb_pres lookup_cb_pres mod_vdp_cb_pres mod_read_cb_pres
  del_vdp_cb_pres : pres.

Lemma call_read_pres x cb st f c ver arg : preserves (P x) (call_read cb st f c ver arg).
Proof. unfold call_read. pres. Qed.
Lemma call_retrans_pres x cb st hit resp arg : preserves (P x) (call_retrans cb st hit resp arg).
Proof. unfold call_retrans. pres. Qed.
Lemma call_vdp_pres x cb t res : preserves (P x) (call_vdp cb t res).
Proof. unfold call_vdp. pres. Qed.
End flow_preserves.
