(* ===== verification/Pools.v ===== *)
(** Conservation of the pending-object pools.  Every asynchronous call takes
    an object from one of six rte_mempools and every completion gives it
    back; [held] lists the objects that the commands in flight carry. *)
From S2P Require Import Prelude Seid Dpdk Heap Redis World DbScript SessStore RetransCache IdAlloc.
From S2P Require Import DispatchQ NodeState Flow Sweeper Pod Preserve.

(** ** Who holds which object *)

Inductive pool_kind := PK_DB | PK_EVALSHA | PK_LOAD | PK_SESS | PK_RETRANS | PK_NODE.

#[export] Instance pool_kind_eq : EqDecision pool_kind.
Proof. solve_decision. Defined.

Abbreviation res := (pool_kind * Z)%type.

(** The capacity of v_stub_db's pending pool. *)
Definition V_STUB_DB_PENDING_CAP : Z := 4096.

Definition pool_cap (k : pool_kind) : Z :=
  match k with
  | PK_DB => V_STUB_DB_PENDING_CAP
  | PK_EVALSHA => V_DB_EVALSHA_POOL_CAP
  | PK_LOAD => V_DB_SCRIPT_LOAD_POOL_CAP
  | PK_SESS => V_SESS_PENDING_POOL_CAP
  | PK_RETRANS => V_RETRANS_PENDING_POOL_CAP
  | PK_NODE => V_NODE_STATE_PENDING_POOL_CAP
  end.

(** The objects a pending callback releases when it runs. *)
Definition hold_user (u : evalsha_user) : list res :=
  match u with
  | fp_cas_write_reply_cb p | fp_delete_reply_cb p => [(PK_SESS, cp_obj p)]
  | fp_teid_refill_reply_cb _ => []
  end.

Definition hold_ep (p : v_evalsha_pending) : list res := (PK_EVALSHA, ep_obj p) :: hold_user (ep_user p).

Definition hold_cb (cb : v_db_cb_t) : list res :=
  match cb with
  | fp_evalsha_reply_cb p => hold_ep p
  | fp_load_reply_cb lc => (PK_LOAD, lc_obj lc) :: match lc_resume lc with Some p => hold_ep p | None => [] end
  | fp_read_reply_cb p => [(PK_SESS, rp_obj p)]
  | fp_confirm_reply_cb p => [(PK_SESS, sp_obj p)]
  | fp_lookup_reply_cb p => [(PK_RETRANS, rt_obj p)]
  | fp_recovery_reply_cb p | fp_simple_ack_cb p | fp_assoc_query_reply_cb p => [(PK_NODE, np_obj p)]
  | fp_seid_refill_reply_cb _ | fp_seed_reply_cb | fp_teid_free_reply_cb | fp_store_ack_cb => []
  end.

Definition hold_cmd (c : db_cmd) : list res := (PK_DB, dc_obj c) :: hold_cb (dc_cb c).

(** The objects of one pool in a list of held ones. *)
Definition objs (k : pool_kind) (l : list res) : list Z :=
  omap (λ r, if decide (r.1 = k) then Some r.2 else None) l.

Section pools.
Context {DP : Dpdk} {PP : PfcpPort}.

Definition held (H : list res) (w : world) : list res := H ++ (db_queue (w_db w) ≫= hold_cmd).

Definition pool_of (k : pool_kind) (w : world) : option rte_mempool :=
  match k with
  | PK_DB => Some (db_pending_pool (w_db w))
  | PK_EVALSHA => Some (g_evalsha_pool (w_script w))
  | PK_LOAD => Some (g_load_pool (w_script w))
  | PK_SESS => w_sess_pool w
  | PK_RETRANS => w_retrans_pool w
  | PK_NODE => g_node_pool (w_node w)
  end.

Definition set_pool (k : pool_kind) (p : rte_mempool) (w : world) : world :=
  match k with
  | PK_DB => set_db (DbPort (db_connected (w_db w)) p (db_queue (w_db w)) (db_issue_no (w_db w)) (db_accept (w_db w))) w
  | PK_EVALSHA => set_script (DbScript (g_sha (w_script w)) p (g_load_pool (w_script w))) w
  | PK_LOAD => set_script (DbScript (g_sha (w_script w)) (g_evalsha_pool (w_script w)) p) w
  | PK_SESS => set_sess_pool (Some p) w
  | PK_RETRANS => set_retrans_pool (Some p) w
  | PK_NODE => set_node (node_set_pool (Some p) (w_node w)) w
  end.

(** A pool that is not created yet has no object in use; an existing one
    splits its [cap] distinct objects into free and held ones. *)
Definition pool_ok (o : option rte_mempool) (cap : Z) (h : list Z) : Prop :=
  match o with
  | None => h = []
  | Some p => NoDup (mp_free p ++ h) ∧ Z.of_nat (length (mp_free p ++ h)) = cap
  end.

(** The conservation invariant, [H] being held by the running C code. *)
Definition pools_ok (H : list res) (w : world) : Prop :=
  ∀ k, pool_ok (pool_of k w) (pool_cap k) (objs k (held H w)).

(** ** Lemmas *)

Lemma objs_cons_eq k o l : objs k ((k, o) :: l) = o :: objs k l.
Proof. unfold objs. cbn. by rewrite decide_True. Qed.

Lemma objs_cons_ne k k' o l : k' ≠ k → objs k ((k', o) :: l) = objs k l.
Proof. intros. unfold objs. cbn. by rewrite decide_False. Qed.

#[export] Instance objs_perm k : Proper ((≡ₚ) ==> (≡ₚ)) (objs k).
Proof. apply omap_Permutation. Qed.

Lemma pool_ok_perm o cap h h' : h ≡ₚ h' → pool_ok o cap h → pool_ok o cap h'.
Proof.
  intros Hp. destruct o as [p|]; cbn.
  - intros [Hn Hl]. by rewrite <- Hp.
  - intros ->. by apply Permutation_nil_l in Hp.
Qed.

(** Only the multiset of held objects and the pools matter. *)
Lemma pools_ok_ext H w H' w' :
  (∀ k, pool_of k w' = pool_of k w) → held H w ≡ₚ held H' w' → pools_ok H w → pools_ok H' w'.
Proof. intros Hp Hh HJ k. rewrite Hp. eapply pool_ok_perm; [|apply HJ]. by rewrite Hh. Qed.

Lemma pools_ok_perm H H' w : H ≡ₚ H' → pools_ok H w → pools_ok H' w.
Proof. intros Hp. apply pools_ok_ext; [done|]. unfold held. by rewrite Hp. Qed.

Lemma pool_of_set k k' p w : pool_of k' (set_pool k p w) = if decide (k = k') then Some p else pool_of k' w.
Proof. by destruct k, k'. Qed.

Lemma queue_set_pool k p w : db_queue (w_db (set_pool k p w)) = db_queue (w_db w).
Proof. by destruct k. Qed.

Lemma held_set_pool H k p w : held H (set_pool k p w) = held H w.
Proof. unfold held. by rewrite queue_set_pool. Qed.

(** Taking an object moves it from the pool to the holder. *)
Lemma pools_ok_get k p o p' H w :
  pool_of k w = Some p → rte_mempool_get p = Some (o, p') →
  pools_ok H w → pools_ok ((k, o) :: H) (set_pool k p' w).
Proof.
  intros Hp Hg HJ k'. rewrite pool_of_set, held_set_pool. specialize (HJ k').
  apply mp_get_law in Hg. unfold held in *. rewrite <- app_comm_cons.
  destruct (decide (k = k')) as [<-|Hne].
  - rewrite objs_cons_eq. rewrite Hp in HJ. cbn in *. rewrite <- Permutation_middle, app_comm_cons, <- Hg. done.
  - by rewrite objs_cons_ne.
Qed.

(** Releasing an object the holder has: the pool exists. *)
Lemma pools_ok_put k o H w :
  pools_ok ((k, o) :: H) w →
  ∃ p, pool_of k w = Some p ∧ pools_ok H (set_pool k (rte_mempool_put p o) w).
Proof.
  intros HJ. destruct (pool_of k w) as [p|] eqn:Hp.
  - exists p. split; [done|]. intros k'. rewrite pool_of_set, held_set_pool. specialize (HJ k').
    unfold held in *. rewrite <- app_comm_cons in HJ. destruct (decide (k = k')) as [<-|Hne].
    + rewrite objs_cons_eq in HJ. rewrite Hp in HJ. cbn in *. by rewrite mp_put_law, <- app_comm_cons, Permutation_middle.
    + by rewrite objs_cons_ne in HJ.
  - specialize (HJ k). rewrite Hp in HJ. unfold held in HJ. rewrite <- app_comm_cons, objs_cons_eq in HJ. done.
Qed.

(** Creating a pool that does not exist yet. *)
Lemma pools_ok_create k p H w :
  pool_of k w = None → rte_mempool_create (pool_cap k) = Some p → pools_ok H w → pools_ok H (set_pool k p w).
Proof.
  intros Hp Hc HJ k'. rewrite pool_of_set, held_set_pool. specialize (HJ k').
  destruct (decide (k = k')) as [<-|Hne]; [|done].
  rewrite Hp in HJ. cbn in *. rewrite HJ, app_nil_r. by apply mp_create_law.
Qed.

(** ** The operations *)

Abbreviation pshift H H' m := (shifts (pools_ok H) (pools_ok H') m).

Lemma pools_frame H : frame_closed (pools_ok H).
Proof. by split. Qed.

(** Issuing a command hands its objects to the queue, or back to the caller. *)
Lemma cmd_argv_pools H shard cb argv w rc w' :
  pools_ok (hold_cb cb ++ H) w → v_port_db_cmd_argv shard cb argv w = Some (rc, w') →
  rc = RET_CODE_OK ∧ pools_ok H w' ∨ rc = RET_CODE_ERR ∧ pools_ok (hold_cb cb ++ H) w'.
Proof.
  intros HJ. unfold v_port_db_cmd_argv. case_match; [intros [= <- <-]; by right|].
  destruct (rte_mempool_get (db_pending_pool (w_db w))) as [[o p]|] eqn:Hg; [|intros [= <- <-]; by right].
  pose proof (pools_ok_get PK_DB _ _ _ _ w eq_refl Hg HJ) as HJ1.
  case_match; intros [= <- <-].
  - left. split; [done|]. eapply pools_ok_ext, HJ1; [done|].
    unfold held. cbn. rewrite bind_app. cbn. rewrite app_nil_r. unfold hold_cmd. cbn. solve_Permutation.
  - right. split; [done|]. destruct (pools_ok_put _ _ _ _ HJ1) as (p2&Hp2&HJ2).
    cbn in Hp2. injection Hp2 as <-. eapply pools_ok_ext, HJ2; done.
Qed.
Lemma bind_Some_inv {A B} (m : M A) (f : A → M B) w b w' :
  (m ≫= f) w = Some (b, w') → ∃ w1 a, m w = Some (a, w1) ∧ f a w1 = Some (b, w').
Proof. unfold mbind, SM_bind. destruct (m w) as [[a w1]|]; [by eauto|done]. Qed.

(** Releasing an object in the code. *)
Lemma put_shift k o H (m : M ()) :
  (∀ w p, pool_of k w = Some p → m w = Some (tt, set_pool k (rte_mempool_put p o) w)) →
  pshift ((k, o) :: H) H m.
Proof.
  intros Hm w a w' HJ E. destruct (pools_ok_put _ _ _ _ HJ) as (p&Hp&HJ').
  rewrite (Hm w p Hp) in E. by injection E as _ <-.
Qed.

Lemma evalsha_put_shift o H : pshift ((PK_EVALSHA, o) :: H) H (evalsha_put o).
Proof. apply put_shift. by intros w p [= <-]. Qed.
Lemma load_put_shift o H : pshift ((PK_LOAD, o) :: H) H (load_put o).
Proof. apply put_shift. by intros w p [= <-]. Qed.
Lemma sess_put_shift o H : pshift ((PK_SESS, o) :: H) H (sess_pending_put o).
Proof. apply put_shift. unfold sess_pending_put. by cbn; intros w p ->. Qed.
Lemma retrans_put_shift o H : pshift ((PK_RETRANS, o) :: H) H (retrans_pending_put o).
Proof. apply put_shift. unfold retrans_pending_put. by cbn; intros w p ->. Qed.
Lemma node_put_shift o H : pshift ((PK_NODE, o) :: H) H (node_pending_put o).
Proof. apply put_shift. unfold node_pending_put. by cbn; intros w p ->. Qed.

(** A call that either hands [R] over or leaves it with the caller. *)
Definition hands (R : list res) (m : M Z) : Prop :=
  ∀ H w rc w', pools_ok (R ++ H) w → m w = Some (rc, w') →
    rc = RET_CODE_OK ∧ pools_ok H w' ∨ rc = RET_CODE_ERR ∧ pools_ok (R ++ H) w'.

Lemma cmd_hands shard cb argv : hands (hold_cb cb) (v_port_db_cmd_argv shard cb argv).
Proof. intros H w rc w'. apply cmd_argv_pools. Qed.

Lemma hands_nil m H : hands [] m → preserves (pools_ok H) m.
Proof. intros Hm w rc w' HJ E. by destruct (Hm H _ _ _ HJ E) as [[_ ?]|[_ ?]]. Qed.

(** The objects of the two lazily created pools. *)
Lemma sess_ensure_pres H : preserves (pools_ok H) sess_ensure_pool.
Proof.
  intros w rc w' HJ. unfold sess_ensure_pool. case_match; [by intros [= _ <-]|].
  case_match eqn:Hc; intros [= _ <-]; [|done]. by apply (pools_ok_create PK_SESS).
Qed.

Lemma retrans_ensure_pres H : preserves (pools_ok H) retrans_ensure_pool.
Proof.
  intros w rc w' HJ. unfold retrans_ensure_pool. case_match; [by intros [= _ <-]|].
  case_match eqn:Hc; intros [= _ <-]; [|done]. by apply (pools_ok_create PK_RETRANS).
Qed.

(** The frame of every call that uses a pending object. *)
Lemma pending_frame k H (get : M (option Z)) (put : Z → M ()) (issue : Z → M Z) :
  (∀ w o w', get w = Some (o, w') →
     match o with
     | Some obj => ∃ p p', pool_of k w = Some p ∧ rte_mempool_get p = Some (obj, p') ∧ w' = set_pool k p' w
     | None => w' = w
     end) →
  (∀ obj, pshift ((k, obj) :: H) H (put obj)) →
  (∀ obj, hands [(k, obj)] (issue obj)) →
  preserves (pools_ok H) (
    o ← get;
    match o with
    | None => mret RET_CODE_ERR
    | Some obj =>
        rc ← issue obj;
        if negb (rc =? RET_CODE_OK) then _ ← put obj; mret RET_CODE_ERR else mret RET_CODE_OK
    end).
Proof.
  intros Hget Hput Hissue w rc w' HJ. unfold mbind, SM_bind, mret, SM_ret.
  destruct (get w) as [[o w1]|] eqn:Eg; [|done]. apply Hget in Eg.
  destruct o as [obj|]; [|by subst; intros [= _ <-]].
  destruct Eg as (p&p'&Hp&Hg&->). pose proof (pools_ok_get k p obj p' H w Hp Hg HJ) as HJ1.
  destruct (issue obj (set_pool k p' w)) as [[rc1 w2]|] eqn:Ei; [|done].
  destruct (Hissue obj H _ _ _ HJ1 Ei) as [[-> HJ2]|[-> HJ2]]; cbn; [by intros [= _ <-]|].
  destruct (put obj w2) as [[[] w3]|] eqn:Ep; [|done]. intros [= _ <-]. by eapply Hput.
Qed.

Lemma with_pending_pres H issue :
  (∀ obj, hands [(PK_SESS, obj)] (issue obj)) → preserves (pools_ok H) (with_pending issue).
Proof.
  intros Hi. unfold with_pending. apply (pending_frame PK_SESS); [|intros obj; apply sess_put_shift|done].
  intros w o w'. unfold sess_pending_get. destruct (w_sess_pool w) as [p|] eqn:Hp; [|done].
  destruct (rte_mempool_get p) as [[obj p']|] eqn:Hg; intros [= <- <-]; [|done]. by exists p, p'.
Qed.

(** ** v_db_script *)

Section script.
Variable iu : evalsha_user → Z → option v_db_reply → M ().
Hypothesis IU : iu_ok pools_ok (λ u H, hold_user u ++ H) iu.

Lemma user_then_put u st r o H :
  pshift ((PK_EVALSHA, o) :: hold_user u ++ H) H (_ ← iu u st r; evalsha_put o).
Proof.
  apply (shifts_bind _ (pools_ok ((PK_EVALSHA, o) :: H))); [|intros _; apply evalsha_put_shift].
  intros w a w' HJ E. eapply IU, E. eapply pools_ok_perm, HJ. solve_Permutation.
Qed.

Lemma issue_evalsha_shift p H : pshift (hold_ep p ++ H) H (issue_evalsha iu p).
Proof.
  intros w a w' HJ. unfold issue_evalsha, mbind, SM_bind.
  destruct (v_port_db_cmd_argv _ _ _ w) as [[rc w1]|] eqn:E; [|done].
  destruct (cmd_hands _ (fp_evalsha_reply_cb p) _ H _ _ _ HJ E) as [[-> HJ1]|[-> HJ1]]; cbn [when negb Z.eqb].
  - by intros [= _ <-].
  - by apply (user_then_put (ep_user p) RET_CODE_ERR None (ep_obj p) H w1 a w').
Qed.

Lemma evalsha_hands shard id keys argv u : hands (hold_user u) (v_db_evalsha iu shard id keys argv u).
Proof.
  intros H w rc w' HJ. unfold v_db_evalsha.
  case_match; [intros [= <- <-]; by right|].
  destruct (if _ <=? shard then None else _) as [sha|]; [|intros [= <- <-]; by right].
  destruct (rte_mempool_get (g_evalsha_pool (w_script w))) as [[o p]|] eqn:Hg; [|intros [= <- <-]; by right].
  pose proof (pools_ok_get PK_EVALSHA _ _ _ _ w eq_refl Hg HJ) as HJ1.
  destruct (scratch_copy_all _ _).
  - intros (w1&a&Hi&[= <- <-])%bind_Some_inv. left. split; [done|].
    eapply (issue_evalsha_shift (EvalshaPending o shard id u false _) H), Hi. done.
  - intros (w1&a&Hi&[= <- <-])%bind_Some_inv. right. split; [done|].
    eapply evalsha_put_shift, Hi. done.
Qed.
End script.
End pools.
