(* ===== verification/Commands.v ===== *)
(** The command protocol of a pod: every command it ever sends has one of
    twelve forms, each tied to the callback that will read its reply, to the
    shard of its key, and, for a script, to the SHA-1 of the right text.
    Commands are only ever appended. *)
From S2P Require Import Prelude Seid Dpdk Heap Redis World DbScript SessStore RetransCache IdAlloc.
From S2P Require Import DispatchQ NodeState Flow Sweeper Pod Server Preserve Pools SessCas.

Lemma delete_absent {A} (l : list A) : ∀ i, l !! i = None → delete i l = l.
Proof. induction l as [|x l IH]; intros [|i] H; try done. cbn. f_equal. by apply IH. Qed.

(** ** The forms *)

Section forms.
Context {DP : Dpdk} {PP : PfcpPort} {SS : ScriptSha}.

(** The argument vector of an EVALSHA. *)
Definition evalsha_of (id : v_script_id_t) (keys args : list bytes) : list bytes :=
  $"EVALSHA" :: script_sha id :: snprintf 8 (dec (Z.of_nat (length keys))) :: keys ++ args.

(** A script call, by the callback that waits for its result. *)
Definition script_form (p : v_evalsha_pending) : Prop :=
  match ep_user p with
  | fp_cas_write_reply_cb q =>
      ep_script_id p = V_SCRIPT_SESS_CAS_WRITE ∧ ∃ part seid blob st, let key := make_key part seid in
        ep_shard p = v_port_db_shard_of key ∧
        ep_argv p = evalsha_of V_SCRIPT_SESS_CAS_WRITE [key]
          [snprintf 24 (dec (cp_exp_ver q)); blob; snprintf 8 (dec (state_ttl st))]
  | fp_delete_reply_cb q =>
      ep_script_id p = V_SCRIPT_SESS_DELETE ∧ ∃ part seid, let key := make_key part seid in
        ep_shard p = v_port_db_shard_of key ∧
        ep_argv p = evalsha_of V_SCRIPT_SESS_DELETE [key] [snprintf 24 (dec (cp_exp_ver q))]
  | fp_teid_refill_reply_cb part =>
      ep_script_id p = V_SCRIPT_TEID_REFILL ∧ ep_shard p = shard_for_part part ∧
      ep_argv p = evalsha_of V_SCRIPT_TEID_REFILL [teid_free_key part; teid_next_key part]
        [snprintf 8 (dec V_ID_BLK_SIZE); snprintf 8 (dec V_TEID_FREE_FLOOR)]
  end.

(** The form of a command on shard [s] with arguments [argv]. *)
Definition cmd_form (cb : v_db_cb_t) (s : Z) (argv : list bytes) : Prop :=
  match cb with
  | fp_evalsha_reply_cb p => s = ep_shard p ∧ argv = ep_argv p ∧ script_form p
  | fp_load_reply_cb lc =>
      s = lc_shard lc ∧ argv = [$"SCRIPT"; $"LOAD"; g_script_src (lc_script_id lc)] ∧
      ∀ p, lc_resume lc = Some p → lc_script_id lc = ep_script_id p ∧ lc_shard lc = ep_shard p ∧ script_form p
  | fp_read_reply_cb _ => ∃ part seid, let key := make_key part seid in
      s = v_port_db_shard_of key ∧ argv = [$"HMGET"; key; V_SESS_FIELD_DATA; V_SESS_FIELD_VER]
  | fp_confirm_reply_cb _ => ∃ part seid, let key := make_key part seid in
      s = v_port_db_shard_of key ∧ argv = [$"PERSIST"; key]
  | fp_seid_refill_reply_cb part => s = shard_for_part part ∧ argv = [$"INCRBY"; seid_next_key part; dec V_ID_BLK_SIZE]
  | fp_seed_reply_cb => ∃ part, s = shard_for_part part ∧ argv = [$"SETNX"; teid_next_key part; $"1"]
  | fp_teid_free_reply_cb => ∃ part local, s = shard_for_part part ∧ argv = [$"RPUSH"; teid_free_key part; dec local]
  | fp_lookup_reply_cb _ => ∃ part smf seq, let key := retrans_key part smf seq in
      s = v_port_db_shard_of key ∧ argv = [$"GET"; key]
  | fp_store_ack_cb => ∃ part smf seq resp, let key := retrans_key part smf seq in
      s = v_port_db_shard_of key ∧ argv = [$"SETEX"; key; snprintf 8 (dec V_RETRANS_TTL); resp]
  | fp_recovery_reply_cb _ => ∃ node ts opts, let key := recovery_key node in
      s = v_port_db_shard_of key ∧ argv = [$"SET"; key; dec ts] ++ opts
  | fp_simple_ack_cb _ => ∃ node fields, let key := assoc_key node in
      s = v_port_db_shard_of key ∧ argv = [$"HSET"; key] ++ fields
  | fp_assoc_query_reply_cb _ => ∃ node, let key := assoc_key node in
      s = v_port_db_shard_of key ∧ argv = [$"HMGET"; key; $"associated"; $"smf"]
  end.

Definition well_formed (c : db_cmd) : Prop := cmd_form (dc_cb c) (dc_shard c) (dc_argv c).

(** The cached SHA-1 values are those of the scripts. *)
Definition shas_ok (w : world) : Prop :=
  ∀ s id sha, g_sha (w_script w) !! (s, script_index id) = Some sha → sha = script_sha id.

(** The keys of the node are made from its identifier. *)
Definition node_keys (w : world) : bytes * bytes := (g_recovery_key (w_node w), g_assoc_key (w_node w)).

(** A process whose queue extends [q]. *)
Record cmds_ok (q : list db_cmd) (w : world) : Prop := {
  co_appends : q `prefix_of` db_queue (w_db w);
  co_shas : shas_ok w;
  co_forms : Forall well_formed (db_queue (w_db w));
  co_node : ∃ node, node_keys w = (recovery_key node, assoc_key node);
}.

(** What a server answers to a SCRIPT LOAD. *)
Definition load_honest (c : db_cmd) (reply : option v_db_reply) : Prop :=
  ∀ lc sha, dc_cb c = fp_load_reply_cb lc → reply = Some (V_DB_REPLY_STRING sha) → sha = script_sha (lc_script_id lc).

End forms.

#[global] Arguments well_formed {_} _ : simpl never.

(** ** Every operation keeps to them *)

Section keep.
Context {DP : Dpdk} {PP : PfcpPort} {SS : ScriptSha}.

Abbreviation ck := cmds_ok.
Abbreviation no_hold := (λ (_ : evalsha_user) (q : list db_cmd), q).
Abbreviation user_call := (evalsha_user → Z → option v_db_reply → M ()).

Lemma ck_frame q w w' :
  ck q w → db_queue (w_db w') = db_queue (w_db w) → g_sha (w_script w') = g_sha (w_script w) →
  node_keys w' = node_keys w → ck q w'.
Proof. intros [H1 H2 H3 H4] Hq Hs Hn. split; unfold shas_ok; by rewrite ?Hq, ?Hs, ?Hn. Qed.

(** A command of the right form is appended. *)
Lemma ck_cmd q s cb argv : cmd_form cb s argv → preserves (ck q) (v_port_db_cmd_argv s cb argv).
Proof.
  intros Hf w rc w' Hw. unfold v_port_db_cmd_argv. destruct (_ || _); [by intros [= _ <-]|].
  destruct (rte_mempool_get _) as [[o p]|]; [|by intros [= _ <-]].
  destruct (db_accept _ _); intros [= _ <-]; [|by eapply ck_frame].
  destruct Hw as [H1 H2 H3 H4]. split; cbn; [by apply prefix_app_r|done| |done].
  apply Forall_app. split; [done|]. repeat constructor. exact Hf.
Qed.

Lemma ck_ensure q : preserves (ck q) sess_ensure_pool.
Proof. unfold sess_ensure_pool. pres_prim; by eapply ck_frame. Qed.
Lemma ck_get q : preserves (ck q) sess_pending_get.
Proof. unfold sess_pending_get. pres_prim; by eapply ck_frame. Qed.
Lemma ck_put q o : preserves (ck q) (sess_pending_put o).
Proof. unfold sess_pending_put. pres_prim; by eapply ck_frame. Qed.
Lemma ck_rensure q : preserves (ck q) retrans_ensure_pool.
Proof. unfold retrans_ensure_pool. pres_prim; by eapply ck_frame. Qed.
Lemma ck_rget q : preserves (ck q) retrans_pending_get.
Proof. unfold retrans_pending_get. pres_prim; by eapply ck_frame. Qed.
Lemma ck_rput q o : preserves (ck q) (retrans_pending_put o).
Proof. unfold retrans_pending_put. pres_prim; by eapply ck_frame. Qed.
Lemma ck_nput q o : preserves (ck q) (node_pending_put o).
Proof. unfold node_pending_put. pres_prim; by eapply ck_frame. Qed.
Lemma ck_ids q f : preserves (ck q) (ids_modify f).
Proof. apply preserves_modify. intros w Hw. by eapply ck_frame. Qed.
Lemma ck_seid_ring q p : preserves (ck q) (seid_ring p).
Proof. unfold seid_ring. pres_prim. Qed.
Lemma ck_teid_ring q p : preserves (ck q) (teid_ring p).
Proof. unfold teid_ring. pres_prim. Qed.
Lemma ck_eput q o : preserves (ck q) (evalsha_put o).
Proof. apply preserves_modify. intros w Hw. by eapply ck_frame. Qed.
Lemma ck_lput q o : preserves (ck q) (load_put o).
Proof. apply preserves_modify. intros w Hw. by eapply ck_frame. Qed.
Lemma ck_ctx_get q c : preserves (ck q) (ctx_get c).
Proof. unfold ctx_get. pres_prim. Qed.

#[local] Hint Resolve ck_ensure ck_get ck_put ck_rensure ck_rget ck_rput ck_nput ck_ids ck_seid_ring ck_teid_ring
  ck_eput ck_lput ck_ctx_get : pres.

(** The user callbacks of the transport, called on a failure. *)
Lemma ck_user (iu : user_call) q u st r : iu_ok ck no_hold iu → preserves (ck q) (iu u st r).
Proof. intros H. apply (H u st r q). Qed.
#[local] Hint Resolve ck_user : pres.

Lemma ck_pending q issue : (∀ o, preserves (ck q) (issue o)) → preserves (ck q) (with_pending issue).
Proof. intros Hi. unfold with_pending. pres. Qed.

Lemma ck_issue iu q p : iu_ok ck no_hold iu → script_form p → preserves (ck q) (issue_evalsha iu p).
Proof. intros IU Hp. unfold issue_evalsha. apply preserves_bind; [by apply ck_cmd|intros rc; pres]. Qed.

(** The SHA of an EVALSHA comes from the cache. *)
Lemma ck_evalsha iu q s id keys argv u :
  iu_ok ck no_hold iu →
  (∀ o, script_form (EvalshaPending o s id u false (evalsha_of id keys argv))) →
  preserves (ck q) (v_db_evalsha iu s id keys argv u).
Proof.
  intros IU Hp w rc w' Hw. unfold v_db_evalsha. case_match; [by intros [= _ <-]|].
  destruct (if _ <=? s then None else sha_cached _ _ _) as [sha|] eqn:Hsha; [|by intros [= _ <-]].
  assert (sha = script_sha id) as ->.
  { destruct (_ <=? s); [done|]. unfold sha_cached in Hsha.
    destruct (g_sha _ !! _) as [[|b sha']|] eqn:Hg; try done. case_decide; [done|]. injection Hsha as <-.
    by eapply (co_shas _ _ Hw). }
  destruct (rte_mempool_get _) as [[o p]|]; [|by intros [= _ <-]].
  destruct (scratch_copy_all _ _); intros E.
  - eapply (preserves_bind (ck q)), E; [apply ck_issue; [done|apply Hp]|pres|by eapply ck_frame].
  - eapply (preserves_bind (ck q)), E; [pres|pres|by eapply ck_frame].
Qed.

#[local] Hint Resolve ck_pending : pres.

Lemma ck_seid_refill q p : preserves (ck q) (seid_maybe_refill p).
Proof.
  unfold seid_maybe_refill, clear_seid_inflight, v_port_db_cmd.
  do 2 (apply preserves_bind; [pres|intros ?]). do 2 (case_match; [pres|]).
  apply preserves_bind; [pres|intros _]. apply preserves_bind; [by apply ck_cmd|intros rc; pres].
Qed.

Lemma ck_teid_refill iu q p : iu_ok ck no_hold iu → preserves (ck q) (teid_maybe_refill iu p).
Proof.
  intros IU. unfold teid_maybe_refill, clear_teid_inflight, v_port_db_cmd.
  do 2 (apply preserves_bind; [pres|intros ?]). do 2 (case_match; [pres|]).
  apply preserves_bind; [pres|intros _]. apply preserves_bind.
  - case_match; [pres|]. apply preserves_bind; [pres|intros _]. apply ck_cmd. by exists p.
  - intros _. apply preserves_bind; [by apply ck_evalsha|intros rc; pres].
Qed.

#[local] Hint Resolve ck_seid_refill ck_teid_refill : pres.

Lemma cmds_flow_closed : flow_closed ck no_hold.
Proof.
  split.
  - intros q. split; intros; by eapply ck_frame.
  - intros. unfold v_sess_read, v_port_db_cmd. apply preserves_bind; [pres|intros rc]. case_match; [pres|].
    apply ck_pending. intros o. apply ck_cmd. by exists part, seid.
  - intros. unfold v_sess_confirm, v_port_db_cmd. apply preserves_bind; [pres|intros rc]. case_match; [pres|].
    apply ck_pending. intros o. apply ck_cmd. by exists part, seid.
  - intros. unfold v_sess_cas_write. apply preserves_bind; [pres|intros rc]. case_match; [pres|].
    apply preserves_bind; [pres|intros v]. case_match; [|pres].
    apply ck_pending. intros o. apply ck_evalsha; [done|]. intros o'. split; [done|]. by eexists part, seid, _, st.
  - intros. unfold v_sess_delete. apply preserves_bind; [pres|intros rc]. case_match; [pres|].
    apply ck_pending. intros o. apply ck_evalsha; [done|]. intros o'. split; [done|]. by exists part, seid.
  - intros. unfold v_retrans_lookup, v_port_db_cmd. apply preserves_bind; [pres|intros rc]. case_match; [pres|].
    apply preserves_bind; [pres|intros [o|]; [|pres]]. apply preserves_bind; [|pres]. apply ck_cmd. by exists part, f, seq.
  - intros. unfold v_retrans_store. apply ck_cmd. by exists part, f, seq, resp.
  - intros. unfold v_seid_alloc. pres.
  - intros. unfold v_teid_alloc. pres.
  - intros. unfold v_teid_free, v_port_db_cmd. apply preserves_bind; [|pres]. apply ck_cmd. by exists part, (v_teid_local teid).
  - intros cc p st r q Hcc. unfold cas_write_reply_cb. cbn. change (shifts ?P ?Q ?m) with (preserves P m). pres.
  - intros cc p st r q Hcc. unfold delete_reply_cb. cbn. change (shifts ?P ?Q ?m) with (preserves P m). pres.
  - intros part st r q. unfold teid_refill_reply_cb, clear_teid_inflight. change (shifts ?P ?Q ?m) with (preserves P m). pres.
Qed.

End keep.

(** ** The events of a pod *)

Section events.
Context {DP : Dpdk} {PP : PfcpPort} {SS : ScriptSha}.

Abbreviation ck := cmds_ok.
Abbreviation no_hold := (λ (_ : evalsha_user) (q : list db_cmd), q).

Lemma iu_cmds : iu_ok ck no_hold iu.
Proof. apply iu_ok_iu, cmds_flow_closed. Qed.

#[local] Hint Resolve ck_put ck_rput ck_nput ck_ids ck_seid_ring ck_teid_ring ck_eput ck_lput ck_ctx_get : pres.

Lemma ck_iu q u st r : preserves (ck q) (iu u st r).
Proof. apply ck_user, iu_cmds. Qed.
#[local] Hint Resolve ck_iu : pres.

Lemma ck_request_load q s id resume :
  (∀ p, resume = Some p → id = ep_script_id p ∧ s = ep_shard p ∧ script_form p) →
  preserves (ck q) (request_script_load s id resume).
Proof.
  intros Hr w rc w' Hw. unfold request_script_load. destruct (rte_mempool_get _) as [[o p]|]; [|by intros [= _ <-]].
  intros E. eapply (preserves_bind (ck q)), E; [|intros; pres|by eapply ck_frame].
  apply ck_cmd. split; [done|]. split; [done|]. exact Hr.
Qed.

(** A SHA-1 that was there already is put there again. *)
Lemma set_part_same p sha : script_form p → sha = script_sha (ep_script_id p) → script_form (set_part_sha p sha).
Proof.
  intros Hp ->. unfold script_form in *. cbn [set_part_sha ep_user ep_script_id ep_shard ep_argv].
  destruct (ep_user p).
  - destruct Hp as (Hid&part&seid&blob&st&Hs&Ha). split; [done|]. exists part, seid, blob, st. by rewrite Hid, Ha.
  - destruct Hp as (Hid&part&seid&Hs&Ha). split; [done|]. exists part, seid. by rewrite Hid, Ha.
  - destruct Hp as (Hid&Hs&Ha). by rewrite Hid, Ha.
Qed.

Lemma ck_load_reply q lc st reply s argv :
  cmd_form (fp_load_reply_cb lc) s argv →
  (∀ sha, reply = Some (V_DB_REPLY_STRING sha) → sha = script_sha (lc_script_id lc)) →
  preserves (ck q) (load_reply_cb iu lc st reply).
Proof.
  intros (_&_&Hp) Hsha. unfold load_reply_cb.
  destruct (if st =? RET_CODE_OK then _ else None) as [sha|] eqn:E; [|pres].
  assert (sha = script_sha (lc_script_id lc)) as ->.
  { apply Hsha. destruct (st =? _); [|done]. destruct reply as [[| | |sha'| |]|]; try done.
    case_decide; [|done]. by injection E as ->. }
  apply preserves_bind; [|intros _; apply preserves_bind; [|pres]].
  - apply preserves_modify. intros w [H1 H2 H3 H4]. split; [done| |done|done]. intros s' id' sha'.
    cbn. destruct (decide ((s', script_index id') = (lc_shard lc, script_index (lc_script_id lc)))) as [[= -> He]|Hne].
    + rewrite He, lookup_insert_eq. intros [= <-]. f_equal. by destruct id', (lc_script_id lc).
    + rewrite lookup_insert_ne by done. apply H2.
  - destruct (lc_resume lc) as [p|]; [|pres]. destruct (Hp p eq_refl) as (Hid&_&Hf).
    apply ck_issue; [apply iu_cmds|]. apply set_part_same; [done|by rewrite Hid].
Qed.

Lemma ck_evalsha_reply q p st reply : script_form p → preserves (ck q) (evalsha_reply_cb iu p st reply).
Proof.
  intros Hp. unfold evalsha_reply_cb. case_match; [|pres]. apply preserves_bind; [|intros rc; pres].
  apply ck_request_load. by intros p' [= <-].
Qed.

Lemma ck_invoke q c st reply : well_formed c → load_honest c reply → preserves (ck q) (db_invoke (dc_cb c) st reply).
Proof.
  intros Hf Hl. unfold well_formed in Hf. unfold load_honest in Hl. destruct (dc_cb c) eqn:Ecb; cbn [db_invoke].
  - apply ck_evalsha_reply, Hf.
  - eapply ck_load_reply; [exact Hf|]. intros sha. by apply Hl.
  - unfold read_reply_cb. pose proof (call_read_pres _ _ cmds_flow_closed). 
    pose proof (ctx_set_pres _ _ cmds_flow_closed). pres.
  - unfold confirm_reply_cb. pose proof (call_simple_pres _ _ cmds_flow_closed). pres.
  - unfold seid_refill_reply_cb, clear_seid_inflight. pres.
  - apply preserves_ret.
  - apply preserves_ret.
  - unfold lookup_reply_cb. pose proof (call_retrans_pres _ _ cmds_flow_closed). pres.
  - apply preserves_ret.
  - unfold recovery_reply_cb, recovery_ts_loaded_cb.
    assert (∀ ts, preserves (ck q) (modify (λ w, set_node (node_set_ts ts (w_node w)) w))).
    { intros ts. apply preserves_modify. intros w Hw. by eapply ck_frame. } pres.
  - unfold simple_ack_cb, node_cb_noop. pres.
  - unfold assoc_query_reply_cb, assoc_cb_noop. pres.
Qed.

Lemma ck_node_issue q key argv cb user :
  (∀ p, cmd_form (cb p) (v_port_db_shard_of key) argv) → preserves (ck q) (node_issue key argv cb user).
Proof.
  intros Hf. unfold node_issue, v_port_db_cmd. apply preserves_bind; [unfold node_pending_get; pres_prim; by eapply ck_frame|].
  intros [o|]; [|pres]. apply preserves_bind; [by apply ck_cmd|intros rc; pres].
Qed.

Lemma ck_node q call user : preserves (ck q) (node_do call user).
Proof.
  intros w rc w' Hw. destruct (node_do_issue call user w) as (key&argv&cb&->&Hc).
  destruct (co_node _ _ Hw) as [node [= Hr Ha]]. apply ck_node_issue; [|done]. intros p.
  destruct Hc as [(->&->&ts&opts&->)|[(->&->&fields&->)|(->&->&->)]]; cbn [cmd_form];
    exists node; rewrite ?Hr, ?Ha; eauto.
Qed.

(** The commands left when an event begins. *)
Definition remaining (e : event) (q : list db_cmd) : list db_cmd :=
  match e with EvReply i _ => delete i q | _ => q end.

(** Every answered SCRIPT LOAD carries the SHA-1 of its script. *)
Definition honest (e : event) (w : world) : Prop :=
  match e with EvReply i r => ∀ c, db_queue (w_db w) !! i = Some c → load_honest c r | _ => True end.

Lemma step_cmds e w w' :
  honest e w → cmds_ok (db_queue (w_db w)) w → pod_step e w = Some (tt, w') → cmds_ok (remaining e (db_queue (w_db w))) w'.
Proof.
  intros Hh Hw. pose proof cmds_flow_closed as FC. set (q := db_queue (w_db w)) in *.
  assert (∀ m : M (), preserves (ck q) m → m w = Some (tt, w') → ck q w') as Hm by (intros m Hm E; by eapply Hm).
  destruct e; cbn [pod_step remaining]; try (apply Hm).
  - apply preserves_modify. intros w1 Hw1. by eapply ck_frame.
  - cbn. apply preserves_bind; [|intros; pres]. apply preserves_bind; [unfold rx_dequeue; pres_prim; by eapply ck_frame|].
    intros [m|]; [|pres]. apply preserves_bind; [unfold dispatch_msg_get; pres_prim|intros x].
    apply preserves_bind; [apply (handle_msg_pres _ _ FC)|intros _].
    apply preserves_bind; [apply preserves_modify; intros w1 Hw1; by eapply ck_frame|intros _]. pres.
  - intros (w1&o&Et&E)%bind_Some_inv. unfold take_db_cmd in Et. fold q in Et.
    destruct (q !! i) as [c|] eqn:Ei; injection Et as <- <-.
    2: { injection E as <-. by rewrite delete_absent. }
    assert (ck (delete i q) (set_db (db_set_queue (delete i q) (w_db w)) w)) as Hw1.
    { destruct Hw as [_ H2 H3 H4]. split; [done|done| |done]. cbn. fold q in H3.
      rewrite (delete_Permutation _ _ _ Ei) in H3. by apply Forall_cons in H3 as [_ H3]. }
    revert Hw1 E. generalize (set_db (db_set_queue (delete i q) (w_db w)) w). intros w1 Hw1 E.
    unfold on_reply in E. eapply (preserves_bind (ck (delete i q))), E; [|intros|exact Hw1].
    + apply ck_invoke; [|by apply Hh]. eapply Forall_forall; [exact (co_forms _ _ Hw)|]. by eapply list_elem_of_lookup_2.
    + apply preserves_modify. intros w2 Hw2. by eapply ck_frame.
  - apply preserves_bind; [unfold take_vdp_call; pres_prim; by eapply ck_frame|intros [c|]; [|pres]].
    apply (call_vdp_pres _ _ FC).
  - apply preserves_bind; [|intros _; pres]. unfold v_dispatch_io_drain_tx. pres_prim; by eapply ck_frame.
  - apply preserves_modify. intros w1 Hw1. by eapply ck_frame.
  - unfold script_reconnect_cb.
    assert (∀ s id, preserves (ck q) (request_script_load s id None)) as Hr by (intros; by apply ck_request_load). pres.
  - apply preserves_modify. intros w1 Hw1. by eapply ck_frame.
  - apply preserves_modify. intros w1 Hw1. by eapply ck_frame.
  - apply preserves_bind; [pres|intros n]. case_match; [|pres]. apply preserves_bind; [apply ck_node|intros _; pres].
  - apply preserves_bind; [pres|intros w0]. case_match; [|pres]. apply (timeout_handler_pres _ _ FC), iu_cmds.
Qed.

End events.
