(* ===== verification/Registers.v ===== *)
(** What the commands of the pods do to the session records of a shard: every
    session key holds a versioned record or nothing, a command moves the
    version of its own record by one at most, and all other commands leave
    the session records alone. *)
From S2P Require Import Prelude Seid Dpdk Heap Redis Scripts World DbScript SessStore RetransCache IdAlloc.
From S2P Require Import DispatchQ NodeState Flow Sweeper Pod Server Pools SessCas SessHistory Commands.

(** ** Keys *)

(** The first byte tells the key families apart. *)
Lemma retrans_key_head part smf seq : head (retrans_key part smf seq) = Some "t"%char.
Proof. reflexivity. Qed.
Lemma seid_next_head part : head (seid_next_key part) = Some "v"%char.
Proof. reflexivity. Qed.
Lemma teid_free_head part : head (teid_free_key part) = Some "v"%char.
Proof. reflexivity. Qed.
Lemma teid_next_head part : head (teid_next_key part) = Some "v"%char.
Proof. reflexivity. Qed.
Lemma recovery_key_head node : head (recovery_key node) = Some "u"%char.
Proof. reflexivity. Qed.
Lemma assoc_key_head node : head (assoc_key node) = Some "u"%char.
Proof. reflexivity. Qed.

(** A key of no session. *)
Definition foreign (k : bytes) : Prop := head k ≠ Some "p"%char.

Lemma foreign_key k part seid : foreign k → make_key part seid ≠ k.
Proof. intros Hk <-. by apply Hk. Qed.

Create Rewrite HintDb keys.
#[export] Hint Rewrite retrans_key_head seid_next_head teid_free_head teid_next_head recovery_key_head assoc_key_head : keys.
Ltac foreign := unfold foreign; autorewrite with keys; done.

(** ** The scripts on any arguments *)

Section scripts.
Context {R : Redis} {L : Lua}.

(** The version of a record, 0 for none. *)
Definition ver_of (cur : option sess_rec) : Z := match cur with Some r => sr_ver r | None => 0 end.

Lemma rec_at_ext s s' key cur : rview s' !! key = rview s !! key → rec_at s key cur → rec_at s' key cur.
Proof. intros H. destruct cur; cbn; by rewrite H. Qed.

Lemma rec_at_det s key cur cur' : rec_at s key cur → rec_at s key cur' → cur = cur'.
Proof.
  destruct cur as [[v d l]|], cur' as [[v' d' l']|]; cbn; try done.
  - intros (Hv&h&Hk&Hver&Hd) (Hv'&h'&Hk'&Hver'&Hd'). rewrite Hk in Hk'. injection Hk' as <- <-.
    rewrite Hver in Hver'. apply (f_equal (λ o, default [] o)) in Hver'. cbn in Hver'. apply dec_inj in Hver'; [congruence|u_lia..].
  - intros (_&h&Hk&_) Hn. congruence.
  - intros Hn (_&h&Hk&_). congruence.
Qed.

(** What a successful write did, given the expected version as it was sent. *)
Definition wrote (e data : bytes) (ttl : Z) (cur cur' : option sess_rec) : Prop :=
  e = $"0" ∧ cur = None ∧ cur' = Some (SessRec 1 data (if ttl =? 0 then None else Some ttl)) ∨
  ∃ r, cur = Some r ∧ e = dec (sr_ver r) ∧
       cur' = Some (SessRec (sr_ver r + 1) data (if ttl =? 0 then sr_ttl r else Some ttl)).

(** The life of a record: it is created at version 1, replaced under the next
    version, kept but for its lease, or gone. *)
Inductive evolves : option sess_rec → option sess_rec → Prop :=
  | ev_gone cur : evolves cur None
  | ev_new data ttl : evolves None (Some (SessRec 1 data ttl))
  | ev_write v data ttl data' ttl' : evolves (Some (SessRec v data ttl)) (Some (SessRec (v + 1) data' ttl'))
  | ev_kept v data ttl ttl' : evolves (Some (SessRec v data ttl)) (Some (SessRec v data ttl')).

Lemma evolves_refl cur : evolves cur cur.
Proof. destruct cur as [[]|]; constructor. Qed.

Lemma evolves_ver cur cur' : evolves cur cur' → ver_of cur' <= Z.max 1 (ver_of cur + 1).
Proof. intros []; cbn; lia. Qed.

Lemma wrote_evolves e data ttl cur cur' : wrote e data ttl cur cur' → evolves cur cur'.
Proof. intros [(_&->&->)|([v d l]&->&_&->)]; constructor. Qed.

Lemma lua_sess_cas_write_any s key cur e data ttl :
  rec_at s key cur → ver_of cur < 2 ^ 53 - 1 → 0 <= ttl < 2 ^ 31 →
  ∃ z s' cur', lua_sess_cas_write key e data (dec ttl) s = (inr z, s') ∧ rec_at s' key cur' ∧ only_key key s s' ∧
    (z = 1 ∧ wrote e data ttl cur cur' ∨ (z = 0 ∨ z = -1) ∧ cur' = cur).
Proof.
  intros Hc Hv Ht. destruct (decide (e = $"0")) as [->|He].
  - destruct (lua_sess_cas_write_spec s key cur 0 data ttl Hc ltac:(lia) Ht) as (s'&Hr&Hc'&Ho).
    rewrite dec_zero in Hr. exists (cas_spec 0 data ttl cur).1, s', (cas_spec 0 data ttl cur).2.
    split; [exact Hr|]. split; [done|]. split; [done|]. unfold wrote. destruct cur; cbn; [right|left]; auto.
  - destruct cur as [r|].
    + cbn [ver_of] in Hv. destruct (decide (e = dec (sr_ver r))) as [->|Hne].
      * pose proof Hc as (Hver&_).
        destruct (lua_sess_cas_write_spec s key _ (sr_ver r) data ttl Hc ltac:(lia) Ht) as (s'&Hr&Hc'&Ho).
        unfold cas_spec in *. rewrite (proj2 (Z.eqb_neq (sr_ver r) 0)), Z.eqb_refl in * by lia. cbn [negb orb fst snd] in Hr, Hc'.
        do 3 eexists. split; [exact Hr|]. split; [exact Hc'|]. split; [done|]. left. split; [done|]. right. by exists r.
      * exists 0, s, (Some r). unfold lua_sess_cas_write. rewrite (script_bind_inr _ _ _ _ _ (hget_ver s key _ Hc)).
        rewrite decide_False by done. cbn. rewrite decide_True by done. split; [done|]. split; [done|]. split; [done|]. right; auto.
    + exists (-1), s, None. unfold lua_sess_cas_write. rewrite (script_bind_inr _ _ _ _ _ (hget_ver s key _ Hc)).
      rewrite decide_False by done. split; [done|]. split; [done|]. split; [done|]. right; auto.
Qed.

Lemma lua_sess_delete_any s key cur e :
  rec_at s key cur →
  ∃ z s' cur', lua_sess_delete key e s = (inr z, s') ∧ rec_at s' key cur' ∧ only_key key s s' ∧
    (z = 1 ∧ (∃ r, cur = Some r ∧ e = dec (sr_ver r) ∧ cur' = None) ∨ (z = 0 ∨ z = -1) ∧ cur' = cur).
Proof.
  intros Hc. destruct cur as [r|].
  - destruct (decide (e = dec (sr_ver r))) as [->|Hne].
    + pose proof Hc as (Hver&_).
      destruct (lua_sess_delete_spec s key _ (sr_ver r) Hc ltac:(u_lia)) as (s'&Hr&Hc'&Ho).
      unfold delete_spec in *. rewrite Z.eqb_refl in *. cbn [fst snd] in Hr, Hc'.
      do 3 eexists. split; [exact Hr|]. split; [exact Hc'|]. split; [done|]. left. split; [done|]. by exists r.
    + exists 0, s, (Some r). unfold lua_sess_delete. rewrite (script_bind_inr _ _ _ _ _ (hget_ver s key _ Hc)).
      cbn. rewrite decide_True by done. split; [done|]. split; [done|]. split; [done|]. right; auto.
  - exists (-1), s, None. unfold lua_sess_delete. rewrite (script_bind_inr _ _ _ _ _ (hget_ver s key _ Hc)).
    split; [done|]. split; [done|]. split; [done|]. right; auto.
Qed.

(** ** Frames *)

(** [m] leaves the key [k] alone. *)
Definition spares {A} (k : bytes) (m : script A) : Prop := ∀ s, rview (m s).2 !! k = rview s !! k.

Lemma spares_ret {A} k (a : A) : spares k (mret a).
Proof. done. Qed.

Lemma spares_bind {A B} k (m : script A) (f : A → script B) : spares k m → (∀ a, spares k (f a)) → spares k (m ≫= f).
Proof.
  intros Hm Hf s. unfold mbind, script_bind. pose proof (Hm s) as H. destruct (m s) as [[e|a] s']; cbn in *; [done|].
  by rewrite Hf.
Qed.

Lemma spares_call k cmd k' args : cmd ∈ one_key_commands → k ≠ k' → spares k (redis_call (cmd :: k' :: args)).
Proof.
  intros Hc Hk s. unfold redis_call. pose proof (exec_frame s cmd k' args k Hc Hk) as H.
  destruct (exec _ s) as [r s']. cbn in H. by destruct r.
Qed.

Lemma spares_coerce k s : spares k (lua_coerce s).
Proof. unfold lua_coerce. by destruct (lua_tonumber s). Qed.

Ltac one_key := unfold one_key_commands; repeat (apply elem_of_cons; first [by left|right]).

Lemma pop_loop_spares k fk n : k ≠ fk → spares k (lua_pop_loop fk n).
Proof.
  intros Hk. induction n as [|n IH]; cbn [lua_pop_loop]; [apply spares_ret|].
  apply spares_bind; [apply spares_call; [one_key|done]|intros r]. case_match; [|apply spares_ret].
  apply spares_bind; [done|intros; apply spares_ret].
Qed.

Lemma teid_refill_spares k fk nk blk floor : k ≠ fk → k ≠ nk → spares k (lua_teid_refill fk nk blk floor).
Proof.
  intros Hf Hn. unfold lua_teid_refill. apply spares_bind; [apply spares_call; [one_key|done]|intros len].
  apply spares_bind; [apply spares_coerce|intros fl]. apply spares_bind.
  - case_match; [|apply spares_ret]. apply spares_bind; [apply spares_coerce|intros n; by apply pop_loop_spares].
  - intros [|id out]; [|apply spares_ret]. apply spares_bind; [apply spares_call; [one_key|done]|intros base].
    apply spares_bind; [apply spares_coerce|intros; apply spares_ret].
Qed.

End scripts.

(** ** Serving a command *)

Section serving.
Context {DP : Dpdk} {PP : PfcpPort} {R : Redis} {L : Lua} {SS : ScriptSha}.

(** A plain command on a single key. *)
Lemma serve_one_key sh cmd key args k :
  cmd ∈ one_key_commands → k ≠ key →
  rview (sh_store (serve (cmd :: key :: args) sh).2) !! k = rview (sh_store sh) !! k.
Proof.
  intros Hc Hk. assert (cmd ≠ $"EVALSHA" ∧ cmd ≠ $"SCRIPT") as [He Hs].
  { unfold one_key_commands in Hc. repeat (apply elem_of_cons in Hc as [->|Hc]; [done|]). by apply not_elem_of_nil in Hc. }
  pose proof (exec_frame (sh_store sh) cmd key args k Hc Hk) as H. unfold serve. destruct args as [|a args].
  - by destruct (exec _ _) as [r s'].
  - rewrite decide_False by done. rewrite decide_False by (by intros []). by destruct (exec _ _) as [r s'].
Qed.

Lemma evalsha_of_argv id keys args : (length keys < 10)%nat → evalsha_of id keys args = evalsha_argv (script_sha id) keys args.
Proof.
  intros Hk. unfold evalsha_of, evalsha_argv. rewrite snprintf_fits; [done|].
  pose proof (dec_length (Z.of_nat (length keys)) 1 ltac:(lia) ltac:(lia)). lia.
Qed.

(** What a served command does to the record at [key], in general. *)
Definition record_step (key : bytes) (cur : option sess_rec) (sh' : shard) : Prop :=
  ∃ cur', rec_at (sh_store sh') key cur' ∧ evolves cur cur'.

Lemma record_same key cur sh sh' :
  rec_at (sh_store sh) key cur → rview (sh_store sh') !! key = rview (sh_store sh) !! key → record_step key cur sh'.
Proof. intros Hc Hv. exists cur. split; [by eapply rec_at_ext|apply evolves_refl]. Qed.

(** What a session script returns: its three results, or the script is not
    in the cache of the shard. *)
Definition cas_reply_type (rep : v_db_reply) : Prop :=
  rep = V_DB_REPLY_ERROR NOSCRIPT ∨ ∃ z, rep = V_DB_REPLY_INTEGER z ∧ (z = 1 ∨ z = 0 ∨ z = -1).

(** A CAS write on its own key, and on any other. *)
Lemma serve_cas_any sh key k cur e data st reply sh' :
  rec_at (sh_store sh) k cur → ver_of cur < 2 ^ 53 - 1 →
  (key = k ∨ ∃ curk, rec_at (sh_store sh) key curk ∧ ver_of curk < 2 ^ 53 - 1) →
  serve (evalsha_of V_SCRIPT_SESS_CAS_WRITE [key] [e; data; snprintf 8 (dec (state_ttl st))]) sh = (reply, sh') →
  record_step k cur sh' ∧ cas_reply_type reply ∧
  (key = k → reply = V_DB_REPLY_INTEGER 1 → ∃ cur', rec_at (sh_store sh') k cur' ∧ wrote e data (state_ttl st) cur cur').
Proof.
  intros Hc Hv Hkey. assert (0 <= state_ttl st < 2 ^ 31) as Ht by (by destruct st).
  assert (snprintf 8 (dec (state_ttl st)) = dec (state_ttl st)) as -> by (by destruct st).
  rewrite evalsha_of_argv by (cbn; lia). destruct (sh_loaded sh V_SCRIPT_SESS_CAS_WRITE) eqn:Hl.
  2: { rewrite serve_noscript by done. intros [= <- <-]. split; [by eapply record_same|]. split; [by left|done]. }
  assert (∃ curk, rec_at (sh_store sh) key curk ∧ ver_of curk < 2 ^ 53 - 1 ∧ (key = k → curk = cur)) as (curk&Hck&Hvk&Hsame).
  { destruct (decide (key = k)) as [->|Hne]; [by exists cur|]. destruct Hkey as [->|(curk&?&?)]; [done|by exists curk]. }
  destruct (lua_sess_cas_write_any (sh_store sh) key curk e data (state_ttl st) Hck Hvk Ht) as (z&s'&curk'&Hr&Hc'&Ho&Hz).
  rewrite (serve_evalsha sh V_SCRIPT_SESS_CAS_WRITE [key] [e; data; dec (state_ttl st)] (V_DB_REPLY_INTEGER z) s'); [|done|cbn; lia|].
  2: { cbn [run_script]. unfold return_integer. by rewrite Hr. }
  intros [= <- <-]. assert (cas_reply_type (V_DB_REPLY_INTEGER z)) as Hty.
  { right. exists z. split; [done|]. destruct Hz as [[? _]|[[?|?] _]]; auto. }
  destruct (decide (key = k)) as [->|Hne].
  - rewrite (Hsame eq_refl) in *. split; [|split; [done|]].
    + exists curk'. split; [done|]. destruct Hz as [[_ Hw]|[_ ->]]; [by eapply wrote_evolves|apply evolves_refl].
    + intros _ [= ->]. exists curk'. split; [done|]. by destruct Hz as [[_ Hw]|[[?|?] _]].
  - split; [|done]. eapply record_same; [exact Hc|]. by apply Ho.
Qed.

Lemma serve_delete_any sh key k cur e reply sh' :
  rec_at (sh_store sh) k cur → (key = k ∨ ∃ curk, rec_at (sh_store sh) key curk) →
  serve (evalsha_of V_SCRIPT_SESS_DELETE [key] [e]) sh = (reply, sh') →
  record_step k cur sh' ∧ cas_reply_type reply ∧
  (key = k → reply = V_DB_REPLY_INTEGER 1 → rec_at (sh_store sh') k None ∧ ∃ r, cur = Some r ∧ e = dec (sr_ver r)).
Proof.
  intros Hc Hkey. rewrite evalsha_of_argv by (cbn; lia). destruct (sh_loaded sh V_SCRIPT_SESS_DELETE) eqn:Hl.
  2: { rewrite serve_noscript by done. intros [= <- <-]. split; [by eapply record_same|]. split; [by left|done]. }
  assert (∃ curk, rec_at (sh_store sh) key curk ∧ (key = k → curk = cur)) as (curk&Hck&Hsame).
  { destruct (decide (key = k)) as [->|Hne]; [by exists cur|]. destruct Hkey as [->|(curk&?)]; [done|by exists curk]. }
  destruct (lua_sess_delete_any (sh_store sh) key curk e Hck) as (z&s'&curk'&Hr&Hc'&Ho&Hz).
  rewrite (serve_evalsha sh V_SCRIPT_SESS_DELETE [key] [e] (V_DB_REPLY_INTEGER z) s'); [|done|cbn; lia|].
  2: { cbn [run_script]. unfold return_integer. by rewrite Hr. }
  intros [= <- <-]. assert (cas_reply_type (V_DB_REPLY_INTEGER z)) as Hty.
  { right. exists z. split; [done|]. destruct Hz as [[? _]|[[?|?] _]]; auto. }
  destruct (decide (key = k)) as [->|Hne].
  - rewrite (Hsame eq_refl) in *. split; [|split; [done|]].
    + exists curk'. split; [done|]. destruct Hz as [[_ (r&_&_&->)]|[_ ->]]; [constructor|apply evolves_refl].
    + intros _ [= ->]. destruct Hz as [[_ (r&->&->&->)]|[[?|?] _]]; [|done..]. split; [done|by exists r].
  - split; [|done]. eapply record_same; [exact Hc|]. by apply Ho.
Qed.

End serving.

(** ** Every command of a pod *)

Section sessions.
Context {DP : Dpdk} {PP : PfcpPort} {R : Redis} {L : Lua} {SS : ScriptSha}.

(** Every session key of the shard holds a record of version [n] at most, or
    nothing. *)
Definition sessions (n : Z) (sh : shard) : Prop :=
  ∀ part seid, ∃ cur, rec_at (sh_store sh) (make_key part seid) cur ∧ ver_of cur <= n.

(** A command that is no session's. *)
Definition same_sessions (sh sh' : shard) : Prop :=
  ∀ part seid, rview (sh_store sh') !! make_key part seid = rview (sh_store sh) !! make_key part seid.

Lemma serve_foreign sh cmd key args :
  cmd ∈ one_key_commands → foreign key → same_sessions sh (serve (cmd :: key :: args) sh).2.
Proof. intros Hc Hk part seid. apply serve_one_key; [done|by apply foreign_key]. Qed.

Lemma serve_id_refill sh part :
  same_sessions sh (serve (evalsha_of V_SCRIPT_TEID_REFILL [teid_free_key part; teid_next_key part]
    [snprintf 8 (dec V_ID_BLK_SIZE); snprintf 8 (dec V_TEID_FREE_FLOOR)]) sh).2.
Proof.
  rewrite evalsha_of_argv by (cbn; lia). destruct (sh_loaded sh V_SCRIPT_TEID_REFILL) eqn:Hl; [|by rewrite serve_noscript].
  destruct (run_script V_SCRIPT_TEID_REFILL [teid_free_key part; teid_next_key part]
    [snprintf 8 (dec V_ID_BLK_SIZE); snprintf 8 (dec V_TEID_FREE_FLOOR)] (sh_store sh)) as [r s'] eqn:E.
  rewrite (serve_evalsha _ _ _ _ r s') by (done || cbn; lia). cbn [snd]. intros p q. cbn [run_script] in E.
  pose proof (teid_refill_spares (make_key p q) (teid_free_key part) (teid_next_key part)
    (snprintf 8 (dec V_ID_BLK_SIZE)) (snprintf 8 (dec V_TEID_FREE_FLOOR))) as Hs.
  specialize (Hs ltac:(apply foreign_key; foreign) ltac:(apply foreign_key; foreign) (sh_store sh)).
  destruct (lua_teid_refill _ _ _ _ _) as [[e|v] s1]; cbn in E, Hs; by injection E as _ <-.
Qed.

Lemma serve_load_same sh id : sh_store (serve [$"SCRIPT"; $"LOAD"; g_script_src id] sh).2 = sh_store sh.
Proof. by destruct (serve_load sh id) as (sh'&->&?&_). Qed.

Ltac one_key := unfold one_key_commands; repeat (apply elem_of_cons; first [by left|right]).
Ltac foreign_cmd := apply serve_foreign; [one_key|foreign].

(** PERSIST on one session, seen from any session. *)
Lemma serve_confirm_any sh key k cur :
  rec_at (sh_store sh) k cur → (key = k ∨ ∃ curk, rec_at (sh_store sh) key curk) →
  record_step k cur (serve [$"PERSIST"; key] sh).2.
Proof.
  intros Hc Hkey. change [_; _] with (op_argv key OpConfirm). destruct (decide (key = k)) as [->|Hne].
  - destruct (serve_confirm sh k cur Hc) as (s'&->&Hc'). exists (confirm_contract cur). split; [exact Hc'|].
    destruct cur as [[]|]; constructor.
  - eapply record_same; [done|]. apply (serve_one_key sh $"PERSIST" key [] k); [one_key|done].
Qed.

(** Any command of a pod lets every session record evolve. *)
Lemma serve_evolves c sh n part seid cur :
  well_formed c → n < 2 ^ 53 - 1 → sessions n sh → rec_at (sh_store sh) (make_key part seid) cur →
  record_step (make_key part seid) cur (serve (dc_argv c) sh).2.
Proof.
  intros Hf Hb Hn Hc. assert (ver_of cur < 2 ^ 53 - 1) as Hv.
  { destruct (Hn part seid) as (cur'&Hc'&?). pose proof (rec_at_det _ _ _ _ Hc Hc') as ->. lia. }
  assert (∀ sh', same_sessions sh sh' → record_step (make_key part seid) cur sh') as Hsame.
  { intros sh' H. by eapply record_same. }
  unfold well_formed in Hf. destruct (dc_cb c) as [p|lc|p|p|part'| | |p| |p|p|p]; cbn [cmd_form] in Hf.
  - destruct Hf as (_&->&Hp). unfold script_form in Hp. destruct (ep_user p) as [q|q|part'].
    + destruct Hp as (_&part'&seid'&blob&st&_&->). destruct (serve _ sh) as [r sh'] eqn:E. cbn [snd].
      destruct (Hn part' seid') as (curk&Hck&Hvk). eapply serve_cas_any, E; [done|done|].
      right. exists curk. split; [done|lia].
    + destruct Hp as (_&part'&seid'&_&->). destruct (serve _ sh) as [r sh'] eqn:E. cbn [snd].
      destruct (Hn part' seid') as (curk&Hck&Hvk). eapply serve_delete_any, E; [done|]. right. by exists curk.
    + destruct Hp as (_&_&->). apply Hsame, serve_id_refill.
  - destruct Hf as (_&->&_). apply Hsame. intros ? ?. by rewrite serve_load_same.
  - destruct Hf as (part'&seid'&_&->). destruct (Hn part' seid') as (curk&Hck&_).
    change [_; _; _; _] with (op_argv (make_key part' seid') OpRead). rewrite (serve_read sh _ curk Hck). by apply Hsame.
  - destruct Hf as (part'&seid'&_&->). destruct (Hn part' seid') as (curk&Hck&_).
    apply serve_confirm_any; [done|]. right. by exists curk.
  - destruct Hf as (_&->). apply Hsame. foreign_cmd.
  - destruct Hf as (part'&_&->). apply Hsame. foreign_cmd.
  - destruct Hf as (part'&l&_&->). apply Hsame. foreign_cmd.
  - destruct Hf as (part'&smf&seq&_&->). apply Hsame. foreign_cmd.
  - destruct Hf as (part'&smf&seq&resp&_&->). apply Hsame. foreign_cmd.
  - destruct Hf as (node&ts&opts&_&->). apply Hsame. foreign_cmd.
  - destruct Hf as (node&fields&_&->). apply Hsame. foreign_cmd.
  - destruct Hf as (node&_&->). apply Hsame. foreign_cmd.
Qed.

(** So the versions move by one at most. *)
Lemma serve_sessions c sh n :
  well_formed c → 0 <= n < 2 ^ 53 - 1 → sessions n sh → sessions (n + 1) (serve (dc_argv c) sh).2.
Proof.
  intros Hf Hb Hn part seid. destruct (Hn part seid) as (cur&Hc&Hv).
  destruct (serve_evolves c sh n part seid cur Hf ltac:(lia) Hn Hc) as (cur'&Hc'&He%evolves_ver). exists cur'. split; [done|lia].
Qed.

End sessions.
