(* ===== verification/PoolsPod.v ===== *)
(** Conservation of the pending-object pools, for the whole pod: every entry
    point of the storage, cache and allocator components respects the
    invariant of Pools.v, hence so does every event of the process. *)
From S2P Require Import Prelude Seid Dpdk Heap Redis World DbScript SessStore RetransCache IdAlloc.
From S2P Require Import DispatchQ NodeState Flow Sweeper Pod Preserve Pools.

Section pools_pod.
Context {DP : Dpdk} {PP : PfcpPort}.

Abbreviation pshift H H' m := (shifts (pools_ok H) (pools_ok H') m).
Abbreviation phold := (λ u H, hold_user u ++ H).

Lemma ids_modify_pools H f : preserves (pools_ok H) (ids_modify f).
Proof. by apply preserves_modify. Qed.

Lemma seid_ring_pools H p : preserves (pools_ok H) (seid_ring p).
Proof. unfold seid_ring. pres_prim. Qed.

Lemma teid_ring_pools H p : preserves (pools_ok H) (teid_ring p).
Proof. unfold teid_ring. pres_prim. Qed.

Lemma cmd_pools H shard cb argv : hold_cb cb = [] → preserves (pools_ok H) (v_port_db_cmd_argv shard cb argv).
Proof. intros Hcb. apply hands_nil. rewrite <- Hcb. apply cmd_hands. Qed.

Lemma evalsha_pools iu H shard id keys argv u :
  iu_ok pools_ok phold iu → hold_user u = [] →
  preserves (pools_ok H) (v_db_evalsha iu shard id keys argv u).
Proof. intros IU Hu. apply hands_nil. rewrite <- Hu. by apply evalsha_hands. Qed.

#[local] Hint Resolve ids_modify_pools seid_ring_pools teid_ring_pools cmd_pools evalsha_pools
  sess_ensure_pres retrans_ensure_pres : pres.

Lemma seid_refill_pools H p : preserves (pools_ok H) (seid_maybe_refill p).
Proof. unfold seid_maybe_refill, clear_seid_inflight, v_port_db_cmd. pres. Qed.
#[local] Hint Resolve seid_refill_pools : pres.

Lemma teid_refill_pools iu H p : iu_ok pools_ok phold iu → preserves (pools_ok H) (teid_maybe_refill iu p).
Proof. intros IU. unfold teid_maybe_refill, clear_teid_inflight, v_port_db_cmd. pres. Qed.
#[local] Hint Resolve teid_refill_pools : pres.

Lemma refill_reply_pools H p st r : preserves (pools_ok H) (teid_refill_reply_cb p st r).
Proof. unfold teid_refill_reply_cb, clear_teid_inflight. pres. Qed.

Lemma seid_reply_pools H p st r : preserves (pools_ok H) (seid_refill_reply_cb p st r).
Proof. unfold seid_refill_reply_cb, clear_seid_inflight. pres. Qed.

Lemma hands_cas_write iu part seid ver cb arg obj :
  iu_ok pools_ok phold iu → ∀ blob a b,
  hands [(PK_SESS, obj)] (v_db_evalsha iu (v_port_db_shard_of (make_key part seid)) V_SCRIPT_SESS_CAS_WRITE
    [make_key part seid] [a; blob; b] (fp_cas_write_reply_cb (CasPending obj arg cb ver))).
Proof. intros IU blob a b. exact (evalsha_hands iu IU _ _ _ _ (fp_cas_write_reply_cb (CasPending obj arg cb ver))). Qed.

Lemma ctx_get_pools H c : preserves (pools_ok H) (ctx_get c).
Proof. unfold ctx_get. pres_prim. Qed.
#[local] Hint Resolve ctx_get_pools : pres.

(** A completed storage call: the user callback, then the pending object. *)
Lemma sess_cb_shift (m : M ()) obj H :
  (∀ H, preserves (pools_ok H) m) → pshift ((PK_SESS, obj) :: H) H (_ ← m; sess_pending_put obj).
Proof.
  intros Hm. apply (shifts_bind _ (pools_ok ((PK_SESS, obj) :: H))); [apply Hm|intros _; apply sess_put_shift].
Qed.

(** The component calls below v_flow respect the conservation invariant. *)
Lemma pools_flow_closed : flow_closed pools_ok phold.
Proof.
  split.
  - apply pools_frame.
  - intros. unfold v_sess_read. apply preserves_bind; [apply sess_ensure_pres|intros rc]. case_match; [pres|].
    apply with_pending_pres. intros obj. exact (cmd_hands _ (fp_read_reply_cb (ReadPending obj arg cb c)) _).
  - intros. unfold v_sess_confirm. apply preserves_bind; [apply sess_ensure_pres|intros rc]. case_match; [pres|].
    apply with_pending_pres. intros obj. exact (cmd_hands _ (fp_confirm_reply_cb (SimplePending obj arg cb)) _).
  - intros iu x part seid ver c st cb arg IU. unfold v_sess_cas_write.
    apply preserves_bind; [apply sess_ensure_pres|intros rc]. case_match; [pres|].
    apply preserves_bind; [pres|intros v]. case_match; [|pres].
    apply with_pending_pres. intros obj. by apply hands_cas_write.
  - intros iu x part seid ver cb arg IU. unfold v_sess_delete.
    apply preserves_bind; [apply sess_ensure_pres|intros rc]. case_match; [pres|].
    apply with_pending_pres. intros obj. exact (evalsha_hands iu IU _ _ _ _ (fp_delete_reply_cb (CasPending obj arg cb ver))).
  - intros. unfold v_retrans_lookup. apply preserves_bind; [apply retrans_ensure_pres|intros rc]. case_match; [pres|].
    apply (pending_frame PK_RETRANS); [|intros obj; apply retrans_put_shift|].
    + intros w o w'. unfold retrans_pending_get. destruct (w_retrans_pool w) as [p|] eqn:Hp; [|done].
      destruct (rte_mempool_get p) as [[obj p']|] eqn:Hg; intros [= <- <-]; [|done]. by exists p, p'.
    + intros obj. exact (cmd_hands _ (fp_lookup_reply_cb (RetransPending obj cb arg)) _).
  - intros. unfold v_retrans_store. pres.
  - intros. unfold v_seid_alloc. pres.
  - intros iu x part IU. unfold v_teid_alloc. pres.
  - intros. unfold v_teid_free, v_port_db_cmd. pres.
  - intros cc p status reply x Hcc. unfold cas_write_reply_cb.
    destruct (cas_reply _ _ _) as [[st res] ver]. by apply sess_cb_shift.
  - intros cc p status reply x Hcc. unfold delete_reply_cb.
    destruct (cas_reply _ _ _) as [[st res] ver]. by apply sess_cb_shift.
  - intros. apply refill_reply_pools.
Qed.

(** ** The completion of a command *)

Lemma iu_pools : iu_ok pools_ok phold iu.
Proof. apply iu_ok_iu, pools_flow_closed. Qed.

Lemma request_load_hands shard id resume :
  hands (match resume with Some p => hold_ep p | None => [] end) (request_script_load shard id resume).
Proof.
  intros H w rc w' HJ. unfold request_script_load.
  destruct (rte_mempool_get (g_load_pool (w_script w))) as [[o p]|] eqn:Hg; [|intros [= <- <-]; by right].
  pose proof (pools_ok_get PK_LOAD _ _ _ _ w eq_refl Hg HJ) as HJ1.
  intros (w1&rc1&Ec&E)%bind_Some_inv.
  destruct (cmd_hands _ (fp_load_reply_cb (ScriptLoadCtx o shard id resume)) _ H _ _ _ HJ1 Ec)
    as [[-> HJ2]|[-> HJ2]]; cbn in E; [left; by injection E as <- <-|right].
  apply bind_Some_inv in E as (w2&[]&Ep&[= <- <-]). split; [done|]. eapply (load_put_shift o), Ep. exact HJ2.
Qed.

Lemma load_reply_pools lc st r H : pshift (hold_cb (fp_load_reply_cb lc) ++ H) H (load_reply_cb iu lc st r).
Proof.
  unfold load_reply_cb. cbn [hold_cb].
  assert (∀ m : M (), (∀ H, pshift (match lc_resume lc with Some p => hold_ep p | None => [] end ++ H) H m) →
    pshift (((PK_LOAD, lc_obj lc) :: match lc_resume lc with Some p => hold_ep p | None => [] end) ++ H) H
      (_ ← m; load_put (lc_obj lc))) as Hcase.
  { intros m Hm. apply (shifts_bind _ (pools_ok ((PK_LOAD, lc_obj lc) :: H))); [|intros _; apply load_put_shift].
    intros w a w' HJ E. eapply Hm, E. eapply pools_ok_perm, HJ. solve_Permutation. }
  destruct (if st =? RET_CODE_OK then _ else None) as [sha|].
  - apply (shifts_bind _ (pools_ok (((PK_LOAD, lc_obj lc) :: match lc_resume lc with Some p => hold_ep p | None => [] end) ++ H)));
      [by apply preserves_modify|intros _]. apply Hcase. intros H1.
    destruct (lc_resume lc) as [p|]; [|apply preserves_ret].
    apply (issue_evalsha_shift iu iu_pools (set_part_sha p _)).
  - apply Hcase. intros H1. destruct (lc_resume lc) as [p|]; [|apply preserves_ret].
    apply user_then_put, iu_pools.
Qed.

Lemma evalsha_reply_pools p st r H : pshift (hold_ep p ++ H) H (evalsha_reply_cb iu p st r).
Proof.
  unfold evalsha_reply_cb. case_match; [|apply user_then_put, iu_pools].
  intros w a w' HJ (w1&rc&El&E)%bind_Some_inv.
  destruct (request_load_hands _ _ (Some (set_retried p)) H _ _ _ HJ El) as [[-> HJ1]|[-> HJ1]];
    cbn [when negb Z.eqb] in E; [by injection E as _ <-|].
  by apply (user_then_put iu iu_pools (ep_user p) RET_CODE_ERR r (ep_obj p) H w1 a w').
Qed.

Lemma node_cb_pools obj H (m : M ()) :
  preserves (pools_ok H) m → pshift ((PK_NODE, obj) :: H) H (_ ← node_pending_put obj; m).
Proof. intros Hm. eapply shifts_bind; [apply node_put_shift|by intros _]. Qed.

(** A reply callback releases exactly what its command carried. *)
Lemma db_invoke_pools cb st r H : pshift (hold_cb cb ++ H) H (db_invoke cb st r).
Proof.
  destruct cb; cbn [db_invoke].
  - apply evalsha_reply_pools.
  - apply load_reply_pools.
  - unfold read_reply_cb. case_match; [|apply sess_cb_shift; intros; apply (call_read_pres _ _ pools_flow_closed)].
    case_match. case_match; [apply sess_cb_shift; intros; apply (call_read_pres _ _ pools_flow_closed)|].
    eapply shifts_bind; [apply ctx_get_pools|intros x]. case_match.
    eapply shifts_bind; [apply (ctx_set_pres _ _ pools_flow_closed)|intros _].
    apply sess_cb_shift. intros. case_match; apply (call_read_pres _ _ pools_flow_closed).
  - unfold confirm_reply_cb. apply sess_cb_shift. intros. apply (call_simple_pres _ _ pools_flow_closed).
  - apply seid_reply_pools.
  - apply preserves_ret.
  - apply preserves_ret.
  - unfold lookup_reply_cb. case_match. case_match. eapply shifts_bind; [|intros _; apply retrans_put_shift].
    apply (call_retrans_pres _ _ pools_flow_closed).
  - apply preserves_ret.
  - unfold recovery_reply_cb. apply node_cb_pools. case_match; [apply preserves_ret|].
    apply preserves_bind; [apply preserves_gets|intros now].
    apply preserves_bind; [by apply preserves_modify|intros _; apply preserves_ret].
  - unfold simple_ack_cb. apply node_cb_pools, preserves_ret.
  - unfold assoc_query_reply_cb. apply node_cb_pools. case_match. case_match. apply preserves_ret.
Qed.

(** Taking the i-th command off the queue moves its objects to the stack. *)
Lemma take_db_cmd_pools i w o w' H :
  pools_ok H w → take_db_cmd i w = Some (o, w') →
  match o with Some c => pools_ok (hold_cmd c ++ H) w' | None => w' = w end.
Proof.
  intros HJ. unfold take_db_cmd. destruct (db_queue (w_db w) !! i) as [c|] eqn:E; intros [= <- <-]; [|done].
  eapply pools_ok_ext, HJ; [by intros []|]. unfold held. cbn.
  rewrite (delete_Permutation _ _ _ E) at 1. cbn. solve_Permutation.
Qed.

Lemma on_reply_pools c r H : pshift (hold_cmd c ++ H) H (on_reply db_invoke c r).
Proof.
  unfold on_reply. apply (shifts_bind _ (pools_ok ((PK_DB, dc_obj c) :: H))).
  - intros w a w' HJ E. eapply db_invoke_pools, E. eapply pools_ok_perm, HJ. unfold hold_cmd. solve_Permutation.
  - intros _. apply put_shift. by intros w p [= <-].
Qed.

(** A call of v_node_state. *)
Lemma node_issue_pools H key argv cb user :
  (∀ p, hold_cb (cb p) = [(PK_NODE, np_obj p)]) → preserves (pools_ok H) (node_issue key argv cb user).
Proof.
  intros Hh. unfold node_issue. apply (pending_frame PK_NODE).
  - intros w1 o w2. unfold node_pending_get. destruct (g_node_pool (w_node w1)) as [p|] eqn:E; [|done].
    destruct (rte_mempool_get p) as [[obj p']|] eqn:Eg; intros [= <- <-]; [|done]. by exists p, p'.
  - intros obj. apply node_put_shift.
  - intros obj. pose proof (cmd_hands (v_port_db_shard_of key) (cb (NodePending obj user)) argv) as Hcmd.
    by rewrite Hh in Hcmd.
Qed.

Lemma node_do_pools H call user : preserves (pools_ok H) (node_do call user).
Proof.
  intros w rc w' HJ. destruct (node_do_issue call user w) as (key&argv&cb&->&Hn).
  apply node_issue_pools; [|done]. by destruct Hn as [[-> _]|[[-> _]|[-> _]]].
Qed.

(** Every event conserves the pools. *)
Lemma pod_step_pools e : preserves (pools_ok []) (pod_step e).
Proof.
  destruct e; cbn [pod_step].
  - by apply preserves_modify.
  - cbn. unfold rx_dequeue, dispatch_msg_get, dispatch_msg_put.
    assert (preserves (pools_ok []) (v_dispatch_worker_poll 1 v_flow_handle_msg)); [|pres].
    cbn. apply preserves_bind; [unfold rx_dequeue; pres_prim|intros [m|]; [|pres]].
    apply preserves_bind; [unfold dispatch_msg_get; pres_prim|intros x].
    apply preserves_bind; [apply (handle_msg_pres _ _ pools_flow_closed)|intros _].
    apply preserves_bind; [by apply preserves_modify|intros _]. pres.
  - intros w a w' HJ (w1&o&Et&E)%bind_Some_inv. pose proof (take_db_cmd_pools _ _ _ _ _ HJ Et) as Ho.
    destruct o as [c|]; [|by injection E as _ <-; subst]. by eapply on_reply_pools.
  - apply preserves_bind; [unfold take_vdp_call; pres_prim|intros [c|]; [|pres]].
    apply (call_vdp_pres _ _ pools_flow_closed).
  - apply preserves_bind; [unfold v_dispatch_io_drain_tx; pres_prim|intros _; pres].
  - by apply preserves_modify.
  - unfold script_reconnect_cb.
    pose proof (λ s i, hands_nil _ [] (request_load_hands s i None)). pres.
  - by apply preserves_modify.
  - by apply preserves_modify.
  - apply preserves_bind; [pres|intros n]. case_match; [|pres]. apply preserves_bind; [apply node_do_pools|intros _; pres].
  - apply preserves_bind; [pres|intros w0]. case_match; [|pres].
    apply (timeout_handler_pres _ _ pools_flow_closed), iu_pools.
Qed.

Lemma pod_run_pools es : preserves (pools_ok []) (pod_run es).
Proof. induction es as [|e es IH]; cbn [pod_run]; [pres|]. apply preserves_bind; [apply pod_step_pools|done]. Qed.

End pools_pod.
