(* ===== verification/Own.v ===== *)
(** Ownership of transactions, session contexts and decoded requests.  A
    suspended procedure is a continuation: a command or data-plane operation
    in flight that carries the transaction.  The invariant says that every
    live transaction has exactly one continuation, that every live context
    and request is referenced by exactly one transaction, and that the
    transaction is in the state its continuation expects. *)
From S2P Require Import Prelude Seid Dpdk Heap Redis World DbScript SessStore RetransCache IdAlloc.
From S2P Require Import DispatchQ NodeState Flow Sweeper Pod.

(** ** Continuations *)

Inductive role :=
  | RLookup (cb : v_retrans_cb_t)
  | RRead (cb : v_sess_read_cb_t) (ctx : Z)
  | RCas (cb : v_sess_cas_cb_t) (exp_ver : Z)
  | RConfirm
  | RVdp (cb : v_vdp_cb_t)
  | RBad. (* a callback that needs a transaction but carries NULL *)

Definition cont_of (r : role) (arg : option Z) : list (role * Z) :=
  match arg with Some t => [(r, t)] | None => [(RBad, 0)] end.

(** The continuation of a CAS callback. *)
Definition call_conts (p : cas_pending) : list (role * Z) :=
  match cp_cb p with
  | fp_delete_pending_noop_cb | fp_delete_pending_cb => []
  | cb => cont_of (RCas cb (cp_exp_ver p)) (cp_arg p)
  end.

(** The callbacks of a CAS write. *)
Definition writes (cb : v_sess_cas_cb_t) : bool :=
  match cb with fp_cas_write_cb | fp_mod_cas_cb | fp_mod_compensate_write_cb => true | _ => false end.

(** The deletion of a request never waits for a write script. *)
Definition cas_conts (p : cas_pending) : list (role * Z) :=
  match cp_cb p with fp_del_delete_cb => [(RBad, 0)] | _ => call_conts p end.

(** And only it, or nobody, waits for a delete script. *)
Definition del_conts (p : cas_pending) : list (role * Z) :=
  match cp_cb p with
  | fp_del_delete_cb | fp_delete_pending_noop_cb | fp_delete_pending_cb => call_conts p
  | _ => [(RBad, 0)]
  end.

Definition user_conts (u : evalsha_user) : list (role * Z) :=
  match u with
  | fp_cas_write_reply_cb p => cas_conts p
  | fp_delete_reply_cb p => del_conts p
  | fp_teid_refill_reply_cb _ => []
  end.

Definition cb_conts (cb : v_db_cb_t) : list (role * Z) :=
  match cb with
  | fp_evalsha_reply_cb p => user_conts (ep_user p)
  | fp_load_reply_cb lc => match lc_resume lc with Some p => user_conts (ep_user p) | None => [] end
  | fp_read_reply_cb p => cont_of (RRead (rp_cb p) (rp_ctx p)) (rp_arg p)
  | fp_confirm_reply_cb p =>
      match sp_cb p with fp_confirm_cb => cont_of RConfirm (sp_arg p) | fp_confirm_retry_cb => [] end
  | fp_lookup_reply_cb p => cont_of (RLookup (rt_cb p)) (rt_arg p)
  | _ => []
  end.

(** Partition indices carried by refill commands index the ring arrays. *)
Definition part_ok (p : Z) : Prop := 0 <= p < V_NUM_PARTS.

Definition user_parts (u : evalsha_user) : Prop :=
  match u with fp_teid_refill_reply_cb p => part_ok p | _ => True end.

Definition cb_parts (cb : v_db_cb_t) : Prop :=
  match cb with
  | fp_seid_refill_reply_cb p => part_ok p
  | fp_evalsha_reply_cb p => user_parts (ep_user p)
  | fp_load_reply_cb lc => match lc_resume lc with Some p => user_parts (ep_user p) | None => True end
  | _ => True
  end.

(** ** What a command in flight asks for *)

(** The key of the session a transaction works on. *)
Definition session_key (x : v_txn) : bytes := make_key (t_part_id x) (t_seid x).

(** A write by establishment is pending, any other one confirmed. *)
Definition write_state (cb : v_sess_cas_cb_t) : v_sess_state_t :=
  match cb with fp_cas_write_cb => V_SESS_PENDING | _ => V_SESS_CONFIRMED end.

(** The arguments of the session scripts, for the session of [x]. *)
Definition script_call (x : v_txn) (p : v_evalsha_pending) : Prop :=
  let key := session_key x in
  match ep_user p with
  | fp_cas_write_reply_cb q =>
      ep_shard p = v_port_db_shard_of key ∧ ep_script_id p = V_SCRIPT_SESS_CAS_WRITE ∧
      ∃ sha blob, ep_argv p = [$"EVALSHA"; sha; $"1"; key; snprintf 24 (dec (cp_exp_ver q)); blob;
        snprintf 8 (dec (match write_state (cp_cb q) with V_SESS_PENDING => V_SESS_PENDING_TTL | V_SESS_CONFIRMED => 0 end))]
  | fp_delete_reply_cb q =>
      ep_shard p = v_port_db_shard_of key ∧ ep_script_id p = V_SCRIPT_SESS_DELETE ∧
      ∃ sha, ep_argv p = [$"EVALSHA"; sha; $"1"; key; snprintf 24 (dec (cp_exp_ver q))]
  | fp_teid_refill_reply_cb _ => True
  end.

(** A command on shard [s] with callback [cb] asks for the operation that
    [cb] expects, on the session of [x]. *)
Definition asks (x : v_txn) (s : Z) (cb : v_db_cb_t) (argv : list bytes) : Prop :=
  let key := session_key x in
  match cb with
  | fp_read_reply_cb _ => s = v_port_db_shard_of key ∧ argv = [$"HMGET"; key; V_SESS_FIELD_DATA; V_SESS_FIELD_VER]
  | fp_confirm_reply_cb _ => s = v_port_db_shard_of key ∧ argv = [$"PERSIST"; key]
  | fp_evalsha_reply_cb p => s = ep_shard p ∧ argv = ep_argv p ∧ script_call x p
  | fp_load_reply_cb lc =>
      ∀ p, lc_resume lc = Some p → s = ep_shard p ∧ lc_shard lc = ep_shard p ∧ lc_script_id lc = ep_script_id p ∧
        argv = [$"SCRIPT"; $"LOAD"; g_script_src (ep_script_id p)] ∧ script_call x p
  | _ => True
  end.

(** The delete and write scripts resume the callbacks meant for them. *)
Definition cas_cb_state (cb : v_sess_cas_cb_t) : v_txn_state_t :=
  match cb with fp_mod_compensate_write_cb => TXN_ST_VDP_WAIT | _ => TXN_ST_DB_WRITE_WAIT end.

Definition role_state (r : role) : v_txn_state_t :=
  match r with
  | RLookup _ | RBad => TXN_ST_RECV
  | RRead _ _ => TXN_ST_DB_READ_WAIT
  | RCas cb _ => cas_cb_state cb
  | RConfirm => TXN_ST_DB_CONFIRM_WAIT
  | RVdp _ => TXN_ST_VDP_WAIT
  end.

(** The context and snapshot a continuation relies on. *)
Definition role_ctx (r : role) (x : v_txn) : Prop :=
  match r with
  | RLookup _ => t_ctx x = None ∧ t_impl x = None
  | RRead _ c => t_ctx x = Some c ∧ t_impl x = None
  | RCas fp_mod_cas_cb _ | RVdp fp_mod_vdp_cb => is_Some (t_ctx x) ∧ is_Some (t_impl x)
  | RCas _ _ | RConfirm | RVdp _ => is_Some (t_ctx x) ∧ t_impl x = None
  | RBad => False
  end.

(** Versions: an establishment writes version 1 over nothing. *)
Definition role_ver (r : role) (x : v_txn) : Prop :=
  match r with
  | RCas fp_cas_write_cb v => v = 0
  | RVdp fp_vdp_create_cb | RConfirm => t_db_ver x = 1
  | RCas _ v => v = t_db_ver x
  | _ => True
  end.

Definition txn_ok (r : role) (x : v_txn) : Prop :=
  is_Some (t_req x) ∧ role_ctx r x ∧ role_ver r x ∧ t_state x = role_state r ∧
  part_ok (t_part_id x) ∧ 0 <= t_cas_retry x < V_CAS_MAX_RETRY.

Definition ctx_refs (x : v_txn) : list Z := option_list (t_ctx x) ++ option_list (t_impl x).
Definition req_refs (x : v_txn) : list Z := option_list (t_req x).

Section own.
Context {DP : Dpdk} {PP : PfcpPort}.

Definition conts (w : world) : list (role * Z) :=
  (db_queue (w_db w) ≫= λ c, cb_conts (dc_cb c)) ++ ((λ v, (RVdp (vc_cb v), vc_arg v)) <$> vdp_queue (w_vdp w)).

Definition all_refs (f : v_txn → list Z) (m : gmap Z v_txn) : list Z := map_to_list m ≫= λ tx, f tx.2.

(** The transactions other than the one the running code holds. *)
Definition others (T : option Z) (m : gmap Z v_txn) : gmap Z v_txn :=
  match T with Some t => delete t m | None => m end.

Definition live {A} (h : heap A) : list Z := (map_to_list (hp_mem h)).*1.

(** Rings hold live datagram buffers, [D] being held by a worker. *)
Definition disp_ok (D : list Z) (d : dispatch) : Prop :=
  heap_wf (g_msg_pool d) ∧ ring_items (g_rx_ring d) ++ ring_items (g_tx_ring d) ++ D ≡ₚ live (g_msg_pool d).

Definition ids_total (w : world) : Prop :=
  ∀ p, part_ok p → is_Some (g_seid_ring (w_ids w) !! p) ∧ is_Some (g_teid_ring (w_ids w) !! p).

(** The record of transaction [u], the contents of its contexts and that of
    its request are what they were in [w0]. *)
Definition undisturbed (u : Z) (w0 w : world) : Prop :=
  hp_mem (w_txns w) !! u = hp_mem (w_txns w0) !! u ∧
  ∀ x, hp_mem (w_txns w0) !! u = Some x →
    (∀ c, c ∈ ctx_refs x → hp_mem (w_ctxs w) !! c = hp_mem (w_ctxs w0) !! c) ∧
    (∀ m, m ∈ req_refs x → hp_mem (w_msgs w) !! m = hp_mem (w_msgs w0) !! m).

(** What the callers of the running code hold: datagram buffers and contexts.
    A claim may follow a transaction that the code does not run on, from a
    state on, and the requests, which no procedure adds to. *)
Record ambient := Ambient {
  amb_disp : list Z;
  amb_ctx : list Z;
  amb_by : option (Z * world);
  amb_msgs : option (gmap Z pfcp_msg);
}.

(** A command in flight indexes valid partitions and asks for what its
    transaction waits for. *)
Definition cmd_fine (m : gmap Z v_txn) (c : db_cmd) : Prop :=
  cb_parts (dc_cb c) ∧
  ∀ r t x, (r, t) ∈ cb_conts (dc_cb c) → m !! t = Some x → asks x (dc_shard c) (dc_cb c) (dc_argv c).

(** The running code holds transaction [T], contexts [C] and requests [Ms],
    its callers hold [D]; everything else is owned as the header says. *)
Record Own (D : ambient) (T : option Z) (C Ms : list Z) (w : world) : Prop := {
  o_txns : heap_wf (w_txns w);
  o_ctxs : heap_wf (w_ctxs w);
  o_msgs : heap_wf (w_msgs w);
  o_cont : (conts w).*2 ++ option_list T ≡ₚ live (w_txns w);
  o_ctx : all_refs ctx_refs (others T (hp_mem (w_txns w))) ++ C ++ amb_ctx D ≡ₚ live (w_ctxs w);
  o_req : all_refs req_refs (others T (hp_mem (w_txns w))) ++ Ms ≡ₚ live (w_msgs w);
  o_role r t : (r, t) ∈ conts w → ∃ x, hp_mem (w_txns w) !! t = Some x ∧ txn_ok r x;
  o_cmds c : c ∈ db_queue (w_db w) → cmd_fine (hp_mem (w_txns w)) c;
  o_ids : ids_total w;
  o_disp : disp_ok (amb_disp D) (w_disp w);
  o_by u w0 : amb_by D = Some (u, w0) → T ≠ Some u ∧ is_Some (hp_mem (w_txns w0) !! u) ∧ undisturbed u w0 w;
  o_less M : amb_msgs D = Some M → hp_mem (w_msgs w) ⊆ M;
}.

(** The running code works on transaction [t], whose record is [x]. *)
Definition foc (D : ambient) (t : Z) (x : v_txn) (C Ms : list Z) (w : world) : Prop :=
  Own D (Some t) C Ms w ∧ hp_mem (w_txns w) !! t = Some x.

(** ** Maps and their reference lists *)

Lemma all_refs_delete f m t x : m !! t = Some x → all_refs f m ≡ₚ f x ++ all_refs f (delete t m).
Proof. intros Hm. unfold all_refs. by rewrite <- (map_to_list_delete m t x Hm). Qed.

Lemma live_elem {A} (h : heap A) p : p ∈ live h ↔ is_Some (hp_mem h !! p).
Proof.
  unfold live. rewrite list_elem_of_fmap. split.
  - intros ([k v]&->&Hk%elem_of_map_to_list). by exists v.
  - intros [v Hv]. exists (p, v). by rewrite elem_of_map_to_list.
Qed.

Lemma live_set {A} (h : heap A) p a b : hp_mem h !! p = Some b → live (heap_set p a h) ≡ₚ live h.
Proof.
  intros Hp. unfold live. cbn. rewrite <- insert_delete_eq, map_to_list_insert by apply lookup_delete_eq.
  cbn. by rewrite <- (map_to_list_delete _ _ _ Hp).
Qed.

Lemma live_free {A} (h : heap A) p a : hp_mem h !! p = Some a → live h ≡ₚ p :: live (heap_free p h).
Proof. intros Hp. unfold live. cbn. by rewrite <- (map_to_list_delete _ _ _ Hp). Qed.

Lemma live_alloc {A} (a : A) h p h' :
  heap_wf h → heap_alloc a h = Some (p, h') →
  heap_wf h' ∧ live h' ≡ₚ p :: live h ∧ hp_mem h' = <[p := a]> (hp_mem h) ∧ hp_mem h !! p = None.
Proof.
  intros Hwf Ha. destruct (heap_alloc_Some a h p h' Hwf Ha) as (Hn&Hm&Hwf'&_).
  split; [done|]. split; [|done]. unfold live. rewrite Hm. by rewrite map_to_list_insert.
Qed.

End own.
