(* ===== verification/OwnPrim.v ===== *)
(** The primitives of the session procedures on the ownership invariant: each
    lemma runs one primitive of a procedure that holds transaction [t]. *)
From S2P Require Import Prelude Seid Dpdk Heap Redis World DbScript SessStore RetransCache IdAlloc.
From S2P Require Import DispatchQ NodeState Flow Sweeper Pod Own.

Section prim.
Context {DP : Dpdk} {PP : PfcpPort}.
Context (D : ambient).

Abbreviation own := (Own D).
Abbreviation focus := (foc D).

(** ** Frames *)

Lemma live_nodup {A} (h : heap A) : NoDup (live h).
Proof. apply NoDup_fst_map_to_list. Qed.

Lemma undisturbed_step u w0 w w' :
  undisturbed u w0 w → hp_mem (w_txns w') !! u = hp_mem (w_txns w) !! u →
  (∀ x c, hp_mem (w_txns w0) !! u = Some x → c ∈ ctx_refs x → hp_mem (w_ctxs w') !! c = hp_mem (w_ctxs w) !! c) →
  (∀ x m, hp_mem (w_txns w0) !! u = Some x → m ∈ req_refs x → hp_mem (w_msgs w') !! m = hp_mem (w_msgs w) !! m) →
  undisturbed u w0 w'.
Proof.
  intros [Hx Hr] Ht Hc Hm. split; [congruence|]. intros x H0. destruct (Hr x H0) as [H1 H2].
  split; [intros c Hin; rewrite (Hc x c H0 Hin); by apply H1|intros m Hin; rewrite (Hm x m H0 Hin); by apply H2].
Qed.

(** The transaction that is followed shares nothing with the running code. *)
Lemma by_refs T C Ms w u w0 x :
  own T C Ms w → amb_by D = Some (u, w0) → hp_mem (w_txns w0) !! u = Some x →
  T ≠ Some u ∧ (∀ c, c ∈ ctx_refs x → is_Some (hp_mem (w_ctxs w) !! c) ∧ c ∉ C ++ amb_ctx D) ∧
  (∀ m, m ∈ req_refs x → is_Some (hp_mem (w_msgs w) !! m) ∧ m ∉ Ms).
Proof.
  intros HO Hb Hx. destruct (o_by _ _ _ _ _ HO _ _ Hb) as (HT&_&[Hu _]). rewrite Hx in Hu.
  assert (others T (hp_mem (w_txns w)) !! u = Some x) as Ho.
  { destruct T as [t|]; cbn; [|done]. rewrite lookup_delete_ne; [done|congruence]. }
  pose proof (o_ctx _ _ _ _ _ HO) as Hc. pose proof (o_req _ _ _ _ _ HO) as Hm.
  rewrite (all_refs_delete ctx_refs _ _ _ Ho) in Hc. rewrite (all_refs_delete req_refs _ _ _ Ho) in Hm. split; [done|split].
  - intros c Hin. split; [apply live_elem; rewrite <- Hc, !elem_of_app; by left; left|].
    intros Hc'. pose proof (live_nodup (w_ctxs w)) as Hn. rewrite <- Hc, <- app_assoc in Hn.
    apply NoDup_app in Hn as (_&Hn&_). apply (Hn c Hin). apply elem_of_app. by right.
  - intros m Hin. split; [apply live_elem; rewrite <- Hm, !elem_of_app; by left; left|].
    intros Hm'. pose proof (live_nodup (w_msgs w)) as Hn. rewrite <- Hm, <- app_assoc in Hn.
    apply NoDup_app in Hn as (_&Hn&_). apply (Hn m Hin). apply elem_of_app. by right.
Qed.

(** It stays undisturbed by a change to what the code holds: transaction [t],
    context [c], request [m]. *)
Lemma by_step T T' C Ms w w' :
  own T C Ms w → (∀ u, T ≠ Some u → T' ≠ Some u) →
  (∀ u, T ≠ Some u → is_Some (hp_mem (w_txns w) !! u) → hp_mem (w_txns w') !! u = hp_mem (w_txns w) !! u) →
  (∀ c, is_Some (hp_mem (w_ctxs w) !! c) → c ∉ C ++ amb_ctx D → hp_mem (w_ctxs w') !! c = hp_mem (w_ctxs w) !! c) →
  (∀ m, is_Some (hp_mem (w_msgs w) !! m) → m ∉ Ms → hp_mem (w_msgs w') !! m = hp_mem (w_msgs w) !! m) →
  ∀ u w0, amb_by D = Some (u, w0) → T' ≠ Some u ∧ is_Some (hp_mem (w_txns w0) !! u) ∧ undisturbed u w0 w'.
Proof.
  intros HO HT Ht Hc Hm u w0 Hb. destruct (o_by _ _ _ _ _ HO _ _ Hb) as (Hu&[x Hx]&Hund).
  split; [by apply HT|]. split; [by exists x|]. destruct (by_refs _ _ _ _ _ _ _ HO Hb Hx) as (_&Hcx&Hmx).
  eapply undisturbed_step; [done| | |].
  - apply Ht; [done|]. rewrite (proj1 Hund). by exists x.
  - intros y c Hy Hin. rewrite Hx in Hy. injection Hy as <-. destruct (Hcx c Hin). by apply Hc.
  - intros y m Hy Hin. rewrite Hx in Hy. injection Hy as <-. destruct (Hmx m Hin). by apply Hm.
Qed.

(** Only the queues' continuations, the rings and the identifier rings of the
    rest of the state matter. *)
Lemma own_frame T C Ms w w' :
  own T C Ms w → w_txns w' = w_txns w → w_ctxs w' = w_ctxs w → w_msgs w' = w_msgs w →
  conts w' ≡ₚ conts w → (∀ c, c ∈ db_queue (w_db w') → cmd_fine (hp_mem (w_txns w)) c) →
  ids_total w' → disp_ok (amb_disp D) (w_disp w') → own T C Ms w'.
Proof.
  intros HO Ht Hc Hm Hq Hp Hi Hd. pose proof HO as [H1 H2 H3 H4 H5 H6 H7 H8 H9 H10 H11 H12].
  split; rewrite ?Ht, ?Hc, ?Hm; try done.
  - by rewrite Hq.
  - intros r t Hr. apply H7. by rewrite <- Hq.
  - apply (by_step _ _ _ _ _ _ HO); intros; by rewrite ?Ht, ?Hc, ?Hm.
Qed.

(** A change outside everything the invariant reads. *)
Lemma own_same T C Ms w w' :
  own T C Ms w → w_txns w' = w_txns w → w_ctxs w' = w_ctxs w → w_msgs w' = w_msgs w →
  db_queue (w_db w') = db_queue (w_db w) → vdp_queue (w_vdp w') = vdp_queue (w_vdp w) →
  w_ids w' = w_ids w → w_disp w' = w_disp w → own T C Ms w'.
Proof.
  intros HO Ht Hc Hm Hq Hv Hi Hd. eapply own_frame; [done..| | | |].
  - unfold conts. by rewrite Hq, Hv.
  - rewrite Hq. apply (o_cmds _ _ _ _ _ HO).
  - unfold ids_total. rewrite Hi. apply (o_ids _ _ _ _ _ HO).
  - rewrite Hd. apply (o_disp _ _ _ _ _ HO).
Qed.

(** Only transactions in flight matter to the commands. *)
Lemma cmd_cont c r t w : c ∈ db_queue (w_db w) → (r, t) ∈ cb_conts (dc_cb c) → (r, t) ∈ conts w.
Proof. intros Hc Hr. unfold conts. apply elem_of_app. left. apply list_elem_of_bind. by exists c. Qed.

Lemma cmds_except T C Ms w t m c :
  own T C Ms w → (∀ r, (r, t) ∉ conts w) → (∀ u, u ≠ t → m !! u = hp_mem (w_txns w) !! u) →
  c ∈ db_queue (w_db w) → cmd_fine m c.
Proof.
  intros HO Ht Hm Hc. destruct (o_cmds _ _ _ _ _ HO c Hc) as [Hp Ha]. split; [done|]. intros r u x Hr Hx.
  eapply Ha; [done|]. rewrite <- Hm; [done|]. intros ->. by eapply Ht, cmd_cont.
Qed.

(** The held transaction has no continuation in flight. *)
Lemma foc_not_cont t x C Ms w r : focus t x C Ms w → (r, t) ∈ conts w → False.
Proof.
  intros [HO _] Hr. pose proof (o_cont _ _ _ _ _ HO) as Hp.
  assert (NoDup ((conts w).*2 ++ option_list (Some t))) as Hn by (rewrite Hp; apply live_nodup).
  apply NoDup_app in Hn as (_&Hn&_). apply (Hn t); [|by left].
  apply list_elem_of_fmap. by exists (r, t).
Qed.

Lemma foc_perm t x C C' Ms Ms' w : C ≡ₚ C' → Ms ≡ₚ Ms' → focus t x C Ms w → focus t x C' Ms' w.
Proof.
  intros Hc Hm [[] Hx]. split; [|done]. split; try done; by rewrite <- ?Hc, <- ?Hm.
Qed.

(** ** Transactions *)

Lemma wp_txn_get t x C Ms w (Q : v_txn → world → Prop) :
  focus t x C Ms w → Q x w → wp (txn_get t) Q w.
Proof. intros [_ Hx] HQ. unfold wp, txn_get, heap_get. by rewrite Hx. Qed.

Lemma foc_upd t x y C Ms w :
  focus t x C Ms w → focus t y C Ms (set_txns (heap_set t y (w_txns w)) w).
Proof.
  intros HF. pose proof HF as [HO Hx]. pose proof HO as [H1 H2 H3 H4 H5 H6 H7 H8 H9 H10 H11 H12].
  assert (hp_mem (w_txns (set_txns (heap_set t y (w_txns w)) w)) = <[t := y]> (hp_mem (w_txns w))) as Hm by done.
  split; [|rewrite Hm; apply lookup_insert_eq].
  split; try done.
  - by apply (heap_set_spec t (w_txns w) y x).
  - rewrite H4. symmetry. by apply (live_set (w_txns w) t y x).
  - rewrite Hm. cbn [others]. by rewrite delete_insert_eq.
  - rewrite Hm. cbn [others]. by rewrite delete_insert_eq.
  - intros r t' Hr. rewrite Hm. destruct (decide (t' = t)) as [->|Hne].
    + by destruct (foc_not_cont _ _ _ _ _ _ HF Hr).
    + rewrite lookup_insert_ne by done. by apply H7.
  - intros c. eapply (cmds_except _ _ _ w t); [exact HO|intros r Hr; by eapply foc_not_cont|].
    intros u Hu. rewrite Hm. by rewrite lookup_insert_ne.
  - apply (by_step _ _ _ _ _ _ HO); try done. intros u Hu _. rewrite Hm, lookup_insert_ne; [done|congruence].
Qed.

Lemma wp_txn_upd t x f C Ms w (Q : () → world → Prop) :
  focus t x C Ms w → (∀ w', focus t (f x) C Ms w' → Q tt w') → wp (txn_upd t f) Q w.
Proof.
  intros HF HQ. unfold wp, txn_upd, heap_get. rewrite (proj2 HF). apply HQ. by apply foc_upd with x.
Qed.

(** Releasing a transaction that owns nothing any more. *)
Lemma wp_txn_destroy t x w (Q : () → world → Prop) :
  focus t x [] [] w → (∀ w', own None [] [] w' → Q tt w') → wp (v_port_txn_destroy t) Q w.
Proof.
  intros HF HQ. pose proof HF as [HO Hx]. pose proof HO as [H1 H2 H3 H4 H5 H6 H7 H8 H9 H10 H11 H12].
  unfold wp, v_port_txn_destroy, heap_get. rewrite Hx. apply HQ.
  destruct (heap_free_spec t _ _ H1 Hx) as (Hm&Hwf&_).
  split; try done.
  - cbn. rewrite app_nil_r. rewrite (live_free _ _ _ Hx) in H4. cbn in H4.
    rewrite <- Permutation_cons_append in H4. by apply Permutation_cons_inv in H4.
  - intros r t' Hr. cbn. destruct (decide (t' = t)) as [->|Hne].
    + by destruct (foc_not_cont _ _ _ _ _ _ HF Hr).
    + rewrite lookup_delete_ne by done. by apply H7.
  - intros c. eapply (cmds_except _ _ _ w t); [exact HO|intros r Hr; by eapply foc_not_cont|].
    intros u Hu. cbn. by rewrite lookup_delete_ne.
  - apply (by_step _ _ _ _ _ _ HO); try done. intros u Hu _. cbn. rewrite lookup_delete_ne; [done|congruence].
Qed.

Lemma wp_txn_create Ms w (Q : option Z → world → Prop) :
  own None [] Ms w → Q None w →
  (∀ t w', focus t txn_zero [] Ms w' → Q (Some t) w') → wp v_port_txn_create Q w.
Proof.
  intros HO HN HS. pose proof HO as [H1 H2 H3 H4 H5 H6 H7 H8 H9 H10 H11 H12]. unfold wp, v_port_txn_create.
  destruct (heap_alloc txn_zero (w_txns w)) as [[t h]|] eqn:Ea; [|done].
  destruct (live_alloc _ _ _ _ H1 Ea) as (Hwf&Hl&Hm&Hn). apply HS.
  split; [|cbn; rewrite Hm; apply lookup_insert_eq].
  split; cbn [others w_txns set_txns w_ctxs w_msgs w_disp option_list]; try done.
  - change (conts (set_txns h w)) with (conts w). rewrite Hl, <- H4. cbn. solve_Permutation.
  - rewrite Hm, delete_insert_id by done. done.
  - rewrite Hm, delete_insert_id by done. done.
  - intros r t' Hr. destruct (H7 r t' Hr) as (x&Hx&Hok). exists x. split; [|done].
    rewrite Hm, lookup_insert_ne; [done|]. intros ->. congruence.
  - intros c. eapply (cmds_except _ _ _ w t); [exact HO| |].
    + intros r Hr. destruct (H7 r t Hr) as (x&Hx&_). congruence.
    + intros u Hu. by rewrite Hm, lookup_insert_ne.
  - intros u w0 Hb. destruct (o_by _ _ _ _ _ HO u w0 Hb) as (_&[x Hx]&[Hu _]).
    assert (u ≠ t) as Hne by (intros ->; congruence).
    revert u w0 Hb Hx Hu Hne. intros u w0 Hb Hx Hu Hne. split; [congruence|]. split; [by exists x|].
    eapply undisturbed_step; [apply (H11 u w0 Hb)|cbn; by rewrite Hm, lookup_insert_ne|done..].
Qed.

(** ** Contexts and messages *)

Lemma wp_ctx_alloc t x C Ms w (Q : option Z → world → Prop) :
  focus t x C Ms w → Q None w → (∀ c w', focus t x (c :: C) Ms w' → Q (Some c) w') →
  wp v_port_ctx_alloc Q w.
Proof.
  intros [HO Hx] HN HS. pose proof HO as [H1 H2 H3 H4 H5 H6 H7 H8 H9 H10 H11 H12]. unfold wp, v_port_ctx_alloc.
  destruct (heap_alloc _ _) as [[c h]|] eqn:Ea; [|done].
  destruct (live_alloc _ _ _ _ H2 Ea) as (Hwf&Hl&Hm&Hn). apply HS.
  split; [|done]. split; try done.
  - cbn [w_ctxs w_txns set_ctxs]. rewrite Hl, <- H5. solve_Permutation.
  - apply (by_step _ _ _ _ _ _ HO); try done. intros c' [v Hc'] _. cbn. rewrite Hm, lookup_insert_ne; [done|congruence].
Qed.

(** Every context the procedure holds is live. *)
Lemma own_ctx_live T C Ms w c : own T C Ms w → c ∈ C ++ amb_ctx D → is_Some (hp_mem (w_ctxs w) !! c).
Proof. intros HO Hc. apply live_elem. rewrite <- (o_ctx _ _ _ _ _ HO), elem_of_app. by right. Qed.

Lemma foc_ctx_live t x C Ms w c : focus t x C Ms w → c ∈ C ++ amb_ctx D → is_Some (hp_mem (w_ctxs w) !! c).
Proof. intros [HO _]. by apply (own_ctx_live _ _ _ _ _ HO). Qed.

Lemma own_ctx_free T C C' Ms c w (Q : () → world → Prop) :
  own T C Ms w → C ≡ₚ c :: C' → (∀ w', own T C' Ms w' ∧ w_txns w' = w_txns w → Q tt w') →
  wp (v_port_ctx_free c) Q w.
Proof.
  intros HO HC HQ. destruct (own_ctx_live _ _ _ _ c HO) as [v Hv]; [rewrite HC; by left|].
  pose proof HO as [H1 H2 H3 H4 H5 H6 H7 H8 H9 H10 H11 H12].
  unfold wp, v_port_ctx_free, heap_get. rewrite Hv. apply HQ. split; [|done].
  destruct (heap_free_spec c _ _ H2 Hv) as (Hm&Hwf&_).
  split; try done.
  - cbn [w_ctxs w_txns set_ctxs]. rewrite HC, (live_free _ _ _ Hv) in H5. cbn [app] in H5.
    rewrite <- Permutation_middle in H5. by apply Permutation_cons_inv in H5.
  - apply (by_step _ _ _ _ _ _ HO); try done. intros c' _ Hc'. cbn. rewrite lookup_delete_ne; [done|].
    intros ->. apply Hc'. rewrite HC. by left.
Qed.

Lemma wp_ctx_free t x C C' Ms c w (Q : () → world → Prop) :
  focus t x C Ms w → C ≡ₚ c :: C' → (∀ w', focus t x C' Ms w' → Q tt w') → wp (v_port_ctx_free c) Q w.
Proof.
  intros [HO Hx] HC HQ. eapply own_ctx_free; [done..|]. intros w' [HO' Ht]. apply HQ. split; [done|by rewrite Ht].
Qed.

Lemma wp_ctx_get t x C Ms c w (Q : pdu_ses_ctx → world → Prop) :
  focus t x C Ms w → c ∈ C ++ amb_ctx D → (∀ v, Q v w) → wp (ctx_get c) Q w.
Proof.
  intros HF Hc HQ. destruct (foc_ctx_live _ _ _ _ _ c HF Hc) as [v Hv].
  unfold wp, ctx_get, heap_get. rewrite Hv. apply HQ.
Qed.

Lemma wp_ctx_set t x C Ms c v w (Q : () → world → Prop) :
  focus t x C Ms w → c ∈ C ++ amb_ctx D → (∀ w', focus t x C Ms w' → Q tt w') → wp (ctx_set c v) Q w.
Proof.
  intros HF Hc HQ. destruct (foc_ctx_live _ _ _ _ _ c HF Hc) as [u Hu].
  destruct HF as [HO Hx]. pose proof HO as [H1 H2 H3 H4 H5 H6 H7 H8 H9 H10 H11 H12].
  unfold wp, ctx_set, heap_get. rewrite Hu. apply HQ.
  split; [|done]. split; try done.
  - by apply (heap_set_spec c (w_ctxs w) v u).
  - rewrite H5. symmetry. by apply (live_set (w_ctxs w) c v u).
  - apply (by_step _ _ _ _ _ _ HO); try done. intros c' _ Hc'. cbn. rewrite lookup_insert_ne; [done|by intros ->].
Qed.

Lemma wp_msg_get_own T C Ms m w (Q : pfcp_msg → world → Prop) :
  own T C Ms w → m ∈ Ms → (∀ v, Q v w) → wp (msg_get m) Q w.
Proof.
  intros HO Hm HQ. assert (is_Some (hp_mem (w_msgs w) !! m)) as [v Hv].
  { apply live_elem. rewrite <- (o_req _ _ _ _ _ HO). apply elem_of_app. by right. }
  unfold wp, msg_get, heap_get. rewrite Hv. apply HQ.
Qed.

Lemma own_msg_free T C Ms Ms' m w (Q : () → world → Prop) :
  own T C Ms w → Ms ≡ₚ m :: Ms' → (∀ w', own T C Ms' w' ∧ w_txns w' = w_txns w → Q tt w') →
  wp (v_port_pfcp_msg_free m) Q w.
Proof.
  intros HO HM HQ. assert (is_Some (hp_mem (w_msgs w) !! m)) as [v Hv].
  { apply live_elem. rewrite <- (o_req _ _ _ _ _ HO). rewrite HM. apply elem_of_app. right. by left. }
  pose proof HO as [H1 H2 H3 H4 H5 H6 H7 H8 H9 H10 H11 H12].
  unfold wp, v_port_pfcp_msg_free, heap_get. rewrite Hv. apply HQ.
  destruct (heap_free_spec m _ _ H3 Hv) as (Hm&Hwf&_). split; [|done].
  split; try done.
  - cbn [w_msgs w_txns set_msgs]. rewrite HM, (live_free _ _ _ Hv) in H6. rewrite <- Permutation_middle in H6.
    by apply Permutation_cons_inv in H6.
  - apply (by_step _ _ _ _ _ _ HO); try done. intros m' _ Hm'. cbn. rewrite lookup_delete_ne; [done|].
    intros ->. apply Hm'. rewrite HM. by left.
  - intros M HM'. cbn. etrans; [apply delete_subseteq|by apply H12].
Qed.

Lemma wp_msg_free t x C Ms Ms' m w (Q : () → world → Prop) :
  focus t x C Ms w → Ms ≡ₚ m :: Ms' → (∀ w', focus t x C Ms' w' → Q tt w') → wp (v_port_pfcp_msg_free m) Q w.
Proof.
  intros [HO Hx] HM HQ. eapply own_msg_free; [done..|]. intros w' [HO' Ht]. apply HQ. split; [done|by rewrite Ht].
Qed.

Lemma wp_decode C Ms T buf w (Q : option Z → world → Prop) :
  amb_msgs D = None → own T C Ms w → Q None w → (∀ m w', own T C (m :: Ms) w' → Q (Some m) w') →
  wp (pfcp_decode buf) Q w.
Proof.
  intros HD HO HN HS. pose proof HO as [H1 H2 H3 H4 H5 H6 H7 H8 H9 H10 H11 H12]. unfold wp, pfcp_decode.
  destruct (v_port_pfcp_decode buf) as [v|]; [|done].
  destruct (heap_alloc _ _) as [[m h]|] eqn:Ea; [|done].
  destruct (live_alloc _ _ _ _ H3 Ea) as (Hwf&Hl&Hm&Hn). apply HS.
  split; try done.
  - cbn [w_msgs w_txns set_msgs]. rewrite Hl, <- H6. solve_Permutation.
  - apply (by_step _ _ _ _ _ _ HO); try done. intros m' [v' Hv'] _. cbn. rewrite Hm, lookup_insert_ne; [done|congruence].
  - intros M. by rewrite HD.
Qed.

End prim.

Section push.
Context {DP : Dpdk} {PP : PfcpPort}.

(** A context kept by the caller during a call. *)
Definition push_ctx (p : Z) (D : ambient) : ambient := Ambient (amb_disp D) (p :: amb_ctx D) (amb_by D) (amb_msgs D).

Lemma own_push D T C C' Ms p w : C ≡ₚ p :: C' → Own D T C Ms w ↔ Own (push_ctx p D) T C' Ms w.
Proof.
  intros HC. split; intros []; split; try done; cbn [amb_ctx amb_disp push_ctx] in *.
  - rewrite <- o_ctx, HC. solve_Permutation.
  - rewrite <- o_ctx, HC. solve_Permutation.
Qed.

Lemma foc_push D t x C C' Ms p w : C ≡ₚ p :: C' → foc D t x C Ms w ↔ foc (push_ctx p D) t x C' Ms w.
Proof. intros HC. unfold foc. by rewrite own_push. Qed.
End push.
