(* ===== verification/OwnCmd.v ===== *)
(** Handing a transaction over to a command or a data-plane operation, and the
    component calls of the session procedures on the ownership invariant. *)
From S2P Require Import Prelude Seid Dpdk Heap Redis World DbScript SessStore RetransCache IdAlloc.
From S2P Require Import DispatchQ NodeState Flow Sweeper Pod Preserve Own OwnPrim.

(** ** The session pool, once created, stays *)

Section sess_pool.
Context {DP : Dpdk} {PP : PfcpPort}.

Definition sess_created (x : ()) (w : world) : Prop := is_Some (w_sess_pool w).
Abbreviation sc := sess_created.
Abbreviation no_hold := (λ (_ : evalsha_user) (x : ()), x).

Lemma sc_cmd x s cb argv : preserves (sc x) (v_port_db_cmd_argv s cb argv).
Proof. unfold v_port_db_cmd_argv. pres_prim. Qed.
Lemma sc_ensure x : preserves (sc x) sess_ensure_pool.
Proof. intros w rc w' Hw. unfold sess_ensure_pool. destruct Hw as [p Hp]. rewrite Hp. intros [= _ <-]. by exists p. Qed.
Lemma sc_get x : preserves (sc x) sess_pending_get.
Proof.
  intros w o w' [p Hp]. unfold sess_pending_get. rewrite Hp.
  destruct (rte_mempool_get p) as [[obj p']|]; intros [= _ <-]; by eexists.
Qed.
Lemma sc_put x o : preserves (sc x) (sess_pending_put o).
Proof. intros w a w' [p Hp]. unfold sess_pending_put. rewrite Hp. intros [= _ <-]. by eexists. Qed.
#[local] Hint Resolve sc_cmd sc_ensure sc_get sc_put : pres.

Lemma sc_ids x f : preserves (sc x) (ids_modify f).
Proof. by apply preserves_modify. Qed.
Lemma sc_seid_ring x p : preserves (sc x) (seid_ring p).
Proof. unfold seid_ring. pres_prim. Qed.
Lemma sc_teid_ring x p : preserves (sc x) (teid_ring p).
Proof. unfold teid_ring. pres_prim. Qed.
Lemma sc_evalsha_put x o : preserves (sc x) (evalsha_put o).
Proof. by apply preserves_modify. Qed.
Lemma sc_ctx_get x c : preserves (sc x) (ctx_get c).
Proof. unfold ctx_get. pres_prim. Qed.
#[local] Hint Resolve sc_ids sc_seid_ring sc_teid_ring sc_evalsha_put sc_ctx_get : pres.

Lemma sc_with_pending x issue : (∀ o, preserves (sc x) (issue o)) → preserves (sc x) (with_pending issue).
Proof. intros Hi. unfold with_pending. pres. Qed.

Lemma sc_evalsha iu x s id keys argv u :
  iu_ok sc no_hold iu → preserves (sc x) (v_db_evalsha iu s id keys argv u).
Proof.
  intros IU w rc w' Hw. unfold v_db_evalsha.
  case_match; [by intros [= _ <-]|].
  destruct (if _ <=? s then None else _) as [sha|]; [|by intros [= _ <-]].
  destruct (rte_mempool_get _) as [[o p]|]; [|by intros [= _ <-]].
  assert (∀ p, preserves (sc x) (issue_evalsha iu p)) as Hi.
  { intros ep. unfold issue_evalsha. pose proof (λ u st r, IU u st r x) as IU'.
    change (∀ u st r, preserves (sc x) (iu u st r)) in IU'. pres. }
  destruct (scratch_copy_all _ _); intros E; eapply (preserves_bind (sc x)), E; try done.
  all: intros; pres.
Qed.
#[local] Hint Resolve sc_with_pending sc_evalsha : pres.

(** No component call of a session procedure destroys it. *)
Lemma sess_created_closed : flow_closed sc no_hold.
Proof.
  split.
  - by split.
  - intros. unfold v_sess_read, v_port_db_cmd. pres.
  - intros. unfold v_sess_confirm, v_port_db_cmd. pres.
  - intros. unfold v_sess_cas_write. pres.
  - intros. unfold v_sess_delete. pres.
  - intros. unfold v_retrans_lookup, v_port_db_cmd. unfold retrans_ensure_pool, retrans_pending_get, retrans_pending_put.
    repeat (apply preserves_bind; intros || case_match); try pres; pres_prim.
  - intros. unfold v_retrans_store. pres.
  - intros. unfold v_seid_alloc, seid_maybe_refill, clear_seid_inflight, v_port_db_cmd. pres.
  - intros. unfold v_teid_alloc, teid_maybe_refill, clear_teid_inflight, v_port_db_cmd. pres.
  - intros. unfold v_teid_free, v_port_db_cmd. pres.
  - intros cc p st r x Hcc. unfold cas_write_reply_cb. cbn. change (shifts ?P ?Q ?m) with (preserves P m). pres.
  - intros cc p st r x Hcc. unfold delete_reply_cb. cbn. change (shifts ?P ?Q ?m) with (preserves P m). pres.
  - intros part st r x. unfold teid_refill_reply_cb, clear_teid_inflight. change (shifts ?P ?Q ?m) with (preserves P m). pres.
Qed.
End sess_pool.

(** ** Handing over *)

Section hand.
Context {DP : Dpdk} {PP : PfcpPort}.
Context (D : ambient).

Abbreviation own := (Own D).
Abbreviation focus := (foc D).

(** What the running code holds: nothing, or one transaction with its record. *)
Definition stk (h : option (Z * v_txn)) (C Ms : list Z) (w : world) : Prop :=
  own (fst <$> h) C Ms w ∧ match h with Some (t, x) => hp_mem (w_txns w) !! t = Some x | None => True end.

(** The holder may give the continuations [k] to an operation in flight. *)
Definition can_give (k : list (role * Z)) (h : option (Z * v_txn)) (C Ms : list Z) : Prop :=
  match k with
  | [] => True
  | [(r, t)] => ∃ x, h = Some (t, x) ∧ txn_ok r x ∧ C ≡ₚ ctx_refs x ∧ Ms ≡ₚ req_refs x
  | _ => False
  end.

(** The holder asks for its own session. *)
Definition asks_for (k : list (role * Z)) (h : option (Z * v_txn)) (P : v_txn → Prop) : Prop :=
  ∀ r t x, (r, t) ∈ k → h = Some (t, x) → P x.

Lemma asks_none h P : asks_for [] h P.
Proof. by intros r t x H%not_elem_of_nil. Qed.

Lemma asks_held k t x (P : v_txn → Prop) : P x → asks_for k (Some (t, x)) P.
Proof. by intros H r u y _ [= _ <-]. Qed.

(** What remains with the code after it has. *)
Definition given (k : list (role * Z)) (h : option (Z * v_txn)) (C Ms : list Z) (w : world) : Prop :=
  match k with [] => stk h C Ms w | _ => own None [] [] w end.

(** A call that takes the continuations over when it succeeds. *)
Definition takes (k : list (role * Z)) h C Ms : Z → world → Prop := λ rc w',
  rc = RET_CODE_OK ∧ given k h C Ms w' ∨ rc = RET_CODE_ERR ∧ stk h C Ms w'.

Lemma stk_foc t x C Ms w : stk (Some (t, x)) C Ms w ↔ focus t x C Ms w.
Proof. done. Qed.

Lemma to_foc t x C Ms w : stk (Some (t, x)) C Ms w → focus t x C Ms w.
Proof. done. Qed.

Lemma stk_own C Ms w : stk None C Ms w ↔ own None C Ms w.
Proof. unfold stk. cbn. tauto. Qed.

Lemma stk_frame h C Ms w w' :
  stk h C Ms w → w_txns w' = w_txns w → w_ctxs w' = w_ctxs w → w_msgs w' = w_msgs w →
  conts w' ≡ₚ conts w → (∀ c, c ∈ db_queue (w_db w') → cmd_fine (hp_mem (w_txns w)) c) →
  ids_total w' → disp_ok (amb_disp D) (w_disp w') → stk h C Ms w'.
Proof. intros [HO Hh] Ht ??????. split; [by eapply own_frame|by rewrite Ht]. Qed.

Lemma stk_same h C Ms w w' :
  stk h C Ms w → w_txns w' = w_txns w → w_ctxs w' = w_ctxs w → w_msgs w' = w_msgs w →
  db_queue (w_db w') = db_queue (w_db w) → vdp_queue (w_vdp w') = vdp_queue (w_vdp w) →
  w_ids w' = w_ids w → w_disp w' = w_disp w → stk h C Ms w'.
Proof. intros [HO Hh] Ht ??????. split; [by eapply own_same|by rewrite Ht]. Qed.

(** A new continuation for the transaction the code holds. *)
Lemma own_give r t x C Ms w w' :
  focus t x C Ms w → txn_ok r x → C ≡ₚ ctx_refs x → Ms ≡ₚ req_refs x →
  w_txns w' = w_txns w → w_ctxs w' = w_ctxs w → w_msgs w' = w_msgs w →
  conts w' ≡ₚ (r, t) :: conts w → (∀ c, c ∈ db_queue (w_db w') → cmd_fine (hp_mem (w_txns w)) c) →
  ids_total w' → disp_ok (amb_disp D) (w_disp w') → own None [] [] w'.
Proof.
  intros [HO Hx] Hok HC HM Ht Hc Hm Hq Hp Hi Hd. pose proof HO as [H1 H2 H3 H4 H5 H6 H7 H8 H9 H10 H11 H12].
  split; rewrite ?Ht, ?Hc, ?Hm; try done.
  - rewrite Hq, <- H4. cbn. solve_Permutation.
  - rewrite <- H5. cbn [others]. rewrite (all_refs_delete _ _ _ _ Hx), HC. solve_Permutation.
  - rewrite <- H6. cbn [others]. rewrite (all_refs_delete _ _ _ _ Hx), HM. solve_Permutation.
  - intros r' t'. rewrite Hq, elem_of_cons. intros [[= -> ->]|Hr]; [by exists x|by apply H7].
  - apply (by_step D _ _ _ _ _ _ HO); intros; by rewrite ?Ht, ?Hc, ?Hm.
Qed.

(** Issuing a command. *)
Lemma cmd_takes s cb argv h C Ms w :
  stk h C Ms w → can_give (cb_conts cb) h C Ms → cb_parts cb → asks_for (cb_conts cb) h (λ x, asks x s cb argv) →
  wp (v_port_db_cmd_argv s cb argv)
     (λ rc w', takes (cb_conts cb) h C Ms rc w' ∧ w_sess_pool w' = w_sess_pool w) w.
Proof.
  intros HS Hg Hp Ha. unfold wp, v_port_db_cmd_argv, takes. destruct (_ || _).
  { split; [by right|done]. }
  destruct (rte_mempool_get _) as [[o p]|]; [|by split; [right|]].
  destruct (db_accept _ _); split; try done.
  2: { right. split; [done|]. by eapply stk_same. }
  left. split; [done|]. unfold given.
  set (w' := set_db _ w).
  assert (∀ c, c ∈ db_queue (w_db w') → cmd_fine (hp_mem (w_txns w)) c) as Hparts.
  { intros c Hc. cbn in Hc. apply elem_of_app in Hc as [Hc| ->%list_elem_of_singleton].
    { by apply (o_cmds _ _ _ _ _ (proj1 HS)). }
    split; [done|]. cbn [dc_cb dc_shard dc_argv]. intros r t x Hr Hx. eapply Ha; [exact Hr|].
    destruct (cb_conts cb) as [|[r' t'] [|]]; [by apply not_elem_of_nil in Hr| |done].
    apply list_elem_of_singleton in Hr as [= -> ->]. destruct Hg as (x'&->&_). pose proof (proj2 HS) as Hx'. cbn in Hx'. congruence. }
  assert (conts w' ≡ₚ cb_conts cb ++ conts w) as Hconts.
  { unfold conts. cbn. rewrite bind_app. cbn. rewrite app_nil_r. solve_Permutation. }
  pose proof (o_ids _ _ _ _ _ (proj1 HS)). pose proof (o_disp _ _ _ _ _ (proj1 HS)).
  destruct (cb_conts cb) as [|[r t] [|]] eqn:E; [|destruct Hg as (x&->&Hok&HC&HM)|done].
  - by eapply stk_frame.
  - by apply (own_give r t x C Ms w w').
Qed.

Lemma cmd_none s cb argv h C Ms w :
  stk h C Ms w → cb_conts cb = [] → cb_parts cb →
  wp (v_port_db_cmd_argv s cb argv) (λ _ w', stk h C Ms w') w.
Proof.
  intros HS Hc Hp. eapply wp_mono; [apply cmd_takes; try done; rewrite Hc; [done|apply asks_none]|].
  intros rc w' [[[_ Hg]|[_ Hg]] _]; [|done]. by rewrite Hc in Hg.
Qed.

(** A data-plane operation carries its transaction. *)
Lemma vdp_takes op cb t x C Ms w :
  focus t x C Ms w → txn_ok (RVdp cb) x → C ≡ₚ ctx_refs x → Ms ≡ₚ req_refs x →
  wp (vdp_dispatch op cb t) (takes [(RVdp cb, t)] (Some (t, x)) C Ms) w.
Proof.
  intros HF Hok HC HM. unfold wp, vdp_dispatch, takes. destruct (vdp_accept _ _).
  - left. split; [done|]. eapply own_give; try done.
    + unfold conts. cbn. rewrite fmap_app. cbn. solve_Permutation.
    + apply (o_cmds _ _ _ _ _ (proj1 HF)).
    + apply (o_ids _ _ _ _ _ (proj1 HF)).
    + apply (o_disp _ _ _ _ _ (proj1 HF)).
  - right. split; [done|]. by apply (stk_same (Some (t, x)) C Ms w).
Qed.

(** ** Synchronous failure of an EVALSHA *)

(** The user callback, run with status ERR because the command could not be
    issued, releases what the continuation held. *)
Definition user_sess (u : evalsha_user) (w : world) : Prop :=
  match u with fp_teid_refill_reply_cb _ => True | _ => sess_created tt w end.

Definition fails_ok (iu : evalsha_user → Z → option v_db_reply → M ()) : Prop :=
  ∀ u r h C Ms w,
    stk h C Ms w → can_give (user_conts u) h C Ms → user_parts u → user_sess u w →
    wp (iu u RET_CODE_ERR r) (λ _ w', given (user_conts u) h C Ms w') w.

Section script.
Variable iu : evalsha_user → Z → option v_db_reply → M ().
Hypothesis IU : fails_ok iu.

Lemma given_same k h C Ms w w' :
  given k h C Ms w → w_txns w' = w_txns w → w_ctxs w' = w_ctxs w → w_msgs w' = w_msgs w →
  db_queue (w_db w') = db_queue (w_db w) → vdp_queue (w_vdp w') = vdp_queue (w_vdp w) →
  w_ids w' = w_ids w → w_disp w' = w_disp w → given k h C Ms w'.
Proof. intros Hg. unfold given. case_match; intros; [by eapply stk_same|by eapply own_same]. Qed.

Lemma wp_evalsha_put o Q w :
  (∀ w', w_txns w' = w_txns w → w_ctxs w' = w_ctxs w → w_msgs w' = w_msgs w →
     db_queue (w_db w') = db_queue (w_db w) → vdp_queue (w_vdp w') = vdp_queue (w_vdp w) →
     w_ids w' = w_ids w → w_disp w' = w_disp w → Q tt w') → wp (evalsha_put o) Q w.
Proof. intros HQ. by apply HQ. Qed.

(** The failure branch shared by issue_evalsha, load_reply_cb and
    evalsha_reply_cb: user callback, then the pending object. *)
Lemma wp_user_fail u r o h C Ms w :
  stk h C Ms w → can_give (user_conts u) h C Ms → user_parts u → user_sess u w →
  wp (_ ← iu u RET_CODE_ERR r; evalsha_put o) (λ _ w', given (user_conts u) h C Ms w') w.
Proof.
  intros HS Hg Hp Hs. apply wp_bind. eapply wp_mono; [by apply IU|]. intros [] w' Hw'.
  apply wp_evalsha_put. intros. by eapply given_same.
Qed.

Lemma wp_issue_evalsha p h C Ms w :
  stk h C Ms w → can_give (user_conts (ep_user p)) h C Ms → user_parts (ep_user p) → user_sess (ep_user p) w →
  asks_for (user_conts (ep_user p)) h (λ x, script_call x p) →
  wp (issue_evalsha iu p) (λ _ w', given (user_conts (ep_user p)) h C Ms w') w.
Proof.
  intros HS Hg Hp Hs Ha. unfold issue_evalsha. apply wp_bind.
  eapply wp_mono; [apply (cmd_takes _ (fp_evalsha_reply_cb p) _ h C Ms); try done|].
  { intros r t x Hr Hh. split; [done|]. split; [done|]. by eapply Ha. }
  intros rc w' [[[-> Hw]|[-> Hw]] Hsp]; [exact Hw|].
  cbn. apply wp_user_fail; try done. unfold user_sess, sess_created in *. by rewrite Hsp.
Qed.

(** The arguments of an EVALSHA, whatever the SHA. *)
Definition evalsha_for (s : Z) (id : v_script_id_t) (keys argv : list bytes) (u : evalsha_user) (x : v_txn) : Prop :=
  ∀ o sha, script_call x (EvalshaPending o s id u false ($"EVALSHA" :: sha :: snprintf 8 (dec (Z.of_nat (length keys))) :: keys ++ argv)).

Lemma wp_evalsha s id keys argv u h C Ms w :
  stk h C Ms w → can_give (user_conts u) h C Ms → user_parts u → user_sess u w →
  asks_for (user_conts u) h (evalsha_for s id keys argv u) →
  wp (v_db_evalsha iu s id keys argv u) (takes (user_conts u) h C Ms) w.
Proof.
  intros HS Hg Hp Hs Ha. unfold v_db_evalsha, wp, takes.
  destruct (V_DB_EVALSHA_MAX_PARTS <? _); [by right|].
  destruct (if _ <=? s then None else _) as [sha|]; [|by right].
  destruct (rte_mempool_get _) as [[o p]|]; [|by right].
  set (w1 := set_script _ w). destruct (scratch_copy_all _ _).
  - apply wp_bind. eapply wp_mono; [apply (wp_issue_evalsha (EvalshaPending o s id u false _) h C Ms); try done|].
    + by eapply stk_same.
    + intros r t x Hr Hh. by eapply Ha.
    + intros [] w' Hw'. by left.
  - apply wp_bind. apply wp_evalsha_put. intros. right. split; [done|]. by eapply stk_same.
Qed.
End script.
End hand.
