(* ===== verification/OwnCalls.v ===== *)
(** The component calls of the session procedures on the ownership invariant:
    transmit queue, retransmit cache, identifier rings and session store. *)
From S2P Require Import Prelude Seid Dpdk Heap Redis World DbScript SessStore RetransCache IdAlloc.
From S2P Require Import DispatchQ NodeState Flow Sweeper Pod Preserve Own OwnPrim OwnCmd.

Section calls.
Context {DP : Dpdk} {PP : PfcpPort}.
Context (D : ambient).

Abbreviation stack := (stk D).
Abbreviation takes := (OwnCmd.takes D).

(** ** Transmit queue *)

Lemma tx_enqueue_disp buf peer d : disp_ok (amb_disp D) d → disp_ok (amb_disp D) (dispatch_tx_enqueue buf peer d).2.
Proof.
  intros [Hwf Hp]. unfold dispatch_tx_enqueue. case_match; [done|].
  destruct (heap_alloc _ _) as [[m h]|] eqn:Ea; [|done].
  destruct (live_alloc _ _ _ _ Hwf Ea) as (Hwf'&Hl&Hm&Hn).
  destruct (rte_ring_enqueue _ _) as [r|] eqn:Er; cbn.
  - apply ring_enqueue_inv in Er as (Hr&_&_). split; [done|]. cbn. rewrite Hl, <- Hp, Hr. solve_Permutation.
  - assert (hp_mem h !! m = Some (DispatchMsg buf (peer_bytes peer))) as Hg by (rewrite Hm; apply lookup_insert_eq).
    destruct (heap_free_spec m h _ Hwf' Hg) as (Hf&Hwf2&_). split; [done|]. cbn.
    rewrite (live_free _ _ _ Hg) in Hl. apply Permutation_cons_inv in Hl. by rewrite Hl.
Qed.

Lemma wp_tx_enqueue buf peer h C Ms w (Q : Z → world → Prop) :
  stack h C Ms w → (∀ rc w', stack h C Ms w' → Q rc w') → wp (v_dispatch_tx_enqueue buf peer) Q w.
Proof.
  intros HS HQ. unfold wp, v_dispatch_tx_enqueue.
  pose proof (tx_enqueue_disp buf peer _ (o_disp _ _ _ _ _ (proj1 HS))) as Hd.
  destruct (dispatch_tx_enqueue buf peer (w_disp w)) as [rc d]. apply HQ. cbn in Hd.
  eapply stk_frame; try done; [apply (o_cmds _ _ _ _ _ (proj1 HS))|apply (o_ids _ _ _ _ _ (proj1 HS))].
Qed.

(** ** Fire-and-forget commands *)

Lemma wp_store part f seq resp h C Ms w (Q : Z → world → Prop) :
  stack h C Ms w → (∀ rc w', stack h C Ms w' → Q rc w') → wp (v_retrans_store part f seq resp) Q w.
Proof. intros HS HQ. eapply wp_mono; [by apply (cmd_none D _ fp_store_ack_cb)|done]. Qed.

Lemma wp_teid_free part teid h C Ms w (Q : () → world → Prop) :
  stack h C Ms w → (∀ w', stack h C Ms w' → Q tt w') → wp (v_teid_free part teid) Q w.
Proof.
  intros HS HQ. unfold v_teid_free. apply wp_bind.
  eapply wp_mono; [by apply (cmd_none D _ fp_teid_free_reply_cb)|]. intros rc w' Hw. by apply HQ.
Qed.

(** ** Identifier rings *)

Lemma wp_ids_modify f h C Ms w (Q : () → world → Prop) :
  stack h C Ms w → ids_total (set_ids (f (w_ids w)) w) → (∀ w', stack h C Ms w' → Q tt w') →
  wp (ids_modify f) Q w.
Proof.
  intros HS Hi HQ. apply HQ. eapply stk_frame; try done.
  - apply (o_cmds _ _ _ _ _ (proj1 HS)).
  - apply (o_disp _ _ _ _ _ (proj1 HS)).
Qed.

(** Updates that keep every ring defined. *)
Lemma ids_total_seid p r w : ids_total w → ids_total (set_ids (ids_set_seid_ring p r (w_ids w)) w).
Proof.
  intros Hi q Hq. destruct (Hi q Hq). split; [|done]. cbn. destruct (decide (p = q)) as [->|].
  - rewrite lookup_insert_eq. by eexists.
  - by rewrite lookup_insert_ne.
Qed.

Lemma ids_total_teid p r w : ids_total w → ids_total (set_ids (ids_set_teid_ring p r (w_ids w)) w).
Proof.
  intros Hi q Hq. destruct (Hi q Hq). split; [done|]. cbn. destruct (decide (p = q)) as [->|].
  - rewrite lookup_insert_eq. by eexists.
  - by rewrite lookup_insert_ne.
Qed.

Lemma stk_ids h C Ms w : stack h C Ms w → ids_total w.
Proof. intros [HO _]. apply (o_ids _ _ _ _ _ HO). Qed.

Lemma wp_seid_ring p h C Ms w (Q : rte_ring → world → Prop) :
  stack h C Ms w → part_ok p → (∀ r, Q r w) → wp (seid_ring p) Q w.
Proof.
  intros HS Hp HQ. destruct (stk_ids _ _ _ _ HS p Hp) as [[r Hr] _].
  unfold wp, seid_ring. rewrite Hr. apply HQ.
Qed.

Lemma wp_teid_ring p h C Ms w (Q : rte_ring → world → Prop) :
  stack h C Ms w → part_ok p → (∀ r, Q r w) → wp (teid_ring p) Q w.
Proof.
  intros HS Hp HQ. destruct (stk_ids _ _ _ _ HS p Hp) as [_ [r Hr]].
  unfold wp, teid_ring. rewrite Hr. apply HQ.
Qed.

Lemma wp_clear_seid p h C Ms w (Q : () → world → Prop) :
  stack h C Ms w → (∀ w', stack h C Ms w' → Q tt w') → wp (clear_seid_inflight p) Q w.
Proof. intros HS HQ. eapply wp_ids_modify; [done| |done]. by apply stk_ids in HS. Qed.

Lemma wp_clear_teid p h C Ms w (Q : () → world → Prop) :
  stack h C Ms w → (∀ w', stack h C Ms w' → Q tt w') → wp (clear_teid_inflight p) Q w.
Proof. intros HS HQ. eapply wp_ids_modify; [done| |done]. by apply stk_ids in HS. Qed.

Lemma wp_seid_refill p h C Ms w (Q : () → world → Prop) :
  stack h C Ms w → part_ok p → (∀ w', stack h C Ms w' → Q tt w') → wp (seid_maybe_refill p) Q w.
Proof.
  intros HS Hp HQ. unfold seid_maybe_refill. apply wp_bind. eapply wp_seid_ring; [done..|intros r].
  apply wp_bind, wp_gets. case_match; [by apply HQ|]. case_match; [by apply HQ|].
  apply wp_bind. eapply wp_ids_modify; [done|exact (stk_ids _ _ _ _ HS)|intros w1 HS1].
  apply wp_bind. eapply wp_mono; [by apply (cmd_none D _ (fp_seid_refill_reply_cb p))|].
  intros rc w2 HS2. apply wp_when; intros _; [eapply wp_clear_seid; [exact HS2|exact HQ]|by apply HQ].
Qed.

Lemma wp_seid_alloc p h C Ms w (Q : Z → world → Prop) :
  stack h C Ms w → part_ok p → (∀ s w', stack h C Ms w' → Q s w') → wp (v_seid_alloc p) Q w.
Proof.
  intros HS Hp HQ. unfold v_seid_alloc. apply wp_bind. eapply wp_seid_refill; [done..|intros w1 HS1].
  apply wp_bind. eapply wp_seid_ring; [done..|intros r]. destruct (rte_ring_dequeue r) as [[o r']|]; [|by apply HQ].
  apply wp_bind. eapply wp_ids_modify; [done|by apply ids_total_seid, (stk_ids h C Ms)|].
  intros w2 HS2. by apply HQ.
Qed.

Lemma wp_seid_reply p st r h C Ms w (Q : () → world → Prop) :
  stack h C Ms w → part_ok p → (∀ w', stack h C Ms w' → Q tt w') → wp (seid_refill_reply_cb p st r) Q w.
Proof.
  intros HS Hp HQ. unfold seid_refill_reply_cb. apply wp_bind. eapply wp_clear_seid; [done|intros w1 HS1].
  destruct r as [[]|]; try by apply HQ. case_match; [by apply HQ|].
  apply wp_bind. eapply wp_seid_ring; [done..|intros r].
  eapply wp_ids_modify; [done|by apply ids_total_seid, (stk_ids h C Ms)|done].
Qed.

Lemma wp_teid_reply p st r h C Ms w (Q : () → world → Prop) :
  stack h C Ms w → part_ok p → (∀ w', stack h C Ms w' → Q tt w') → wp (teid_refill_reply_cb p st r) Q w.
Proof.
  intros HS Hp HQ. unfold teid_refill_reply_cb. apply wp_bind. eapply wp_clear_teid; [done|intros w1 HS1].
  case_match; [by apply HQ|].
  apply wp_bind. eapply wp_teid_ring; [done..|intros ring].
  destruct (teid_refill_ring p r ring) as [r'|]; [|by apply HQ].
  eapply wp_ids_modify; [done|by apply ids_total_teid, (stk_ids h C Ms)|done].
Qed.

Section with_iu.
Variable iu : evalsha_user → Z → option v_db_reply → M ().
Hypothesis IU : fails_ok D iu.

Lemma wp_teid_refill p h C Ms w (Q : () → world → Prop) :
  stack h C Ms w → part_ok p → (∀ w', stack h C Ms w' → Q tt w') → wp (teid_maybe_refill iu p) Q w.
Proof.
  intros HS Hp HQ. unfold teid_maybe_refill. apply wp_bind. eapply wp_teid_ring; [done..|intros r].
  apply wp_bind, wp_gets. case_match; [by apply HQ|]. case_match; [by apply HQ|].
  apply wp_bind. eapply wp_ids_modify; [done|exact (stk_ids _ _ _ _ HS)|intros w1 HS1].
  apply wp_bind. apply wp_mono with (P := λ _ w', stack h C Ms w').
  { case_match; [done|]. apply wp_bind.
    eapply wp_ids_modify; [done|exact (stk_ids _ _ _ _ HS1)|intros w2 HS2].
    by apply (cmd_none D _ fp_seed_reply_cb). }
  intros _ w2 HS2. apply wp_bind.
  eapply wp_mono; [by apply (wp_evalsha D iu IU _ _ _ _ (fp_teid_refill_reply_cb p) h C Ms); [..|apply asks_none]|].
  intros rc w3 [[-> HS3]|[-> HS3]]; cbn; [by apply HQ|]. eapply wp_clear_teid; [exact HS3|exact HQ].
Qed.

Lemma wp_teid_alloc p h C Ms w (Q : Z → world → Prop) :
  stack h C Ms w → part_ok p → (∀ s w', stack h C Ms w' → Q s w') → wp (v_teid_alloc iu p) Q w.
Proof.
  intros HS Hp HQ. unfold v_teid_alloc. apply wp_bind. eapply wp_teid_refill; [done..|intros w1 HS1].
  apply wp_bind. eapply wp_teid_ring; [done..|intros r]. destruct (rte_ring_dequeue r) as [[o r']|]; [|by apply HQ].
  apply wp_bind. eapply wp_ids_modify; [done|by apply ids_total_teid, (stk_ids h C Ms)|].
  intros w2 HS2. by apply HQ.
Qed.
End with_iu.

(** ** Retransmit cache *)

Lemma wp_lookup part f seq cb arg h C Ms w :
  stack h C Ms w → can_give (cont_of (RLookup cb) arg) h C Ms →
  wp (v_retrans_lookup part f seq cb arg) (takes (cont_of (RLookup cb) arg) h C Ms) w.
Proof.
  intros HS Hg. unfold v_retrans_lookup. apply wp_bind.
  apply wp_mono with (P := λ rc w', stack h C Ms w' ∧ (rc = RET_CODE_OK → is_Some (w_retrans_pool w')) ∧
    (rc = RET_CODE_OK ∨ rc = RET_CODE_ERR)).
  { unfold wp, retrans_ensure_pool. destruct (w_retrans_pool w) eqn:Ep; [by eauto|].
    destruct (rte_mempool_create _); [|by split; [|split; [|right]]].
    split; [by eapply stk_same|]. split; [by eexists|by left]. }
  intros rc w1 (HS1&Hpool&[-> | ->]); cbn; [|by right].
  destruct (Hpool eq_refl) as [pool Hp].
  apply wp_bind. unfold wp, retrans_pending_get. rewrite Hp.
  destruct (rte_mempool_get pool) as [[o pool']|]; [|by right].
  apply wp_bind. eapply wp_mono.
  { apply wp_mono with (P := λ rc w', takes (cont_of (RLookup cb) arg) h C Ms rc w' ∧ is_Some (w_retrans_pool w')).
    - apply wp_preserves.
      + unfold v_port_db_cmd, v_port_db_cmd_argv. pres_prim.
      + by eexists.
      + eapply wp_mono; [apply (cmd_takes D _ (fp_lookup_reply_cb (RetransPending o cb arg)) _ h C Ms); try done|by intros ?? []].
        by eapply stk_same.
    - intros rc w2 H. exact H. }
  intros rc w2 [[[-> HG]|[-> HS2]] [p2 Hp2]]; cbn; [by left|].
  apply wp_bind. unfold wp, retrans_pending_put. rewrite Hp2. right. split; [done|]. by eapply stk_same.
Qed.

(** ** Session store *)

Lemma wp_sess_ensure h C Ms w (Q : Z → world → Prop) :
  stack h C Ms w → (∀ w', stack h C Ms w' → sess_created tt w' → Q RET_CODE_OK w') →
  (∀ w', stack h C Ms w' → Q RET_CODE_ERR w') → wp sess_ensure_pool Q w.
Proof.
  intros HS HO HE. unfold wp, sess_ensure_pool. destruct (w_sess_pool w) eqn:Ep.
  - apply HO; [done|]. by eexists.
  - destruct (rte_mempool_create _); [|by apply HE]. apply HO; [by eapply stk_same|by eexists].
Qed.

Lemma wp_with_pending k issue h C Ms w :
  stack h C Ms w → sess_created tt w →
  (∀ o w', stack h C Ms w' → sess_created tt w' →
     wp (issue o) (λ rc w2, takes k h C Ms rc w2 ∧ (rc = RET_CODE_ERR → sess_created tt w2)) w') →
  wp (with_pending issue) (takes k h C Ms) w.
Proof.
  intros HS [pool Hp] Hi. unfold with_pending. apply wp_bind. unfold wp, sess_pending_get. rewrite Hp.
  destruct (rte_mempool_get pool) as [[o pool']|]; [|by right].
  apply wp_bind. eapply wp_mono; [apply Hi; [by eapply stk_same|by eexists]|].
  intros rc w2 [[[-> HG]|[-> HS2]] Hs]; cbn; [by left|].
  destruct (Hs eq_refl) as [p2 Hp2].
  apply wp_bind. unfold wp, sess_pending_put. rewrite Hp2. right. split; [done|]. by eapply stk_same.
Qed.

Lemma cmd_takes_sess s cb argv h C Ms w :
  stack h C Ms w → can_give (cb_conts cb) h C Ms → cb_parts cb → sess_created tt w →
  asks_for (cb_conts cb) h (λ x, asks x s cb argv) →
  wp (v_port_db_cmd s cb argv)
    (λ rc w2, takes (cb_conts cb) h C Ms rc w2 ∧ (rc = RET_CODE_ERR → sess_created tt w2)) w.
Proof.
  intros HS Hg Hp Hs Ha. eapply wp_mono; [by apply cmd_takes|]. intros rc w' [Ht Heq].
  split; [done|]. intros _. unfold sess_created. by rewrite Heq.
Qed.

(** A call on the session of [x]. *)
Definition on_session (part seid : Z) (x : v_txn) : Prop := part = t_part_id x ∧ seid = t_seid x.

Lemma wp_sess_read part seid c cb arg h C Ms w :
  stack h C Ms w → can_give (cont_of (RRead cb c) arg) h C Ms →
  asks_for (cont_of (RRead cb c) arg) h (on_session part seid) →
  wp (v_sess_read part seid c cb arg) (takes (cont_of (RRead cb c) arg) h C Ms) w.
Proof.
  intros HS Hg Ha. unfold v_sess_read. apply wp_bind. eapply wp_sess_ensure; [done| |intros w1 HS1; by right].
  intros w1 HS1 Hs1. cbn. apply wp_with_pending; [done..|]. intros o w2 HS2 Hs2.
  apply (cmd_takes_sess _ (fp_read_reply_cb (ReadPending o arg cb c))); try done.
  intros r t x Hr Hh. by destruct (Ha r t x Hr Hh) as [-> ->].
Qed.

(** The continuation of a confirm. *)
Definition confirm_conts (cb : v_sess_cb_t) (arg : option Z) : list (role * Z) :=
  match cb with fp_confirm_cb => cont_of RConfirm arg | fp_confirm_retry_cb => [] end.

Lemma wp_sess_confirm part seid cb arg h C Ms w :
  stack h C Ms w → can_give (confirm_conts cb arg) h C Ms → asks_for (confirm_conts cb arg) h (on_session part seid) →
  wp (v_sess_confirm part seid cb arg) (takes (confirm_conts cb arg) h C Ms) w.
Proof.
  intros HS Hg Ha. unfold v_sess_confirm. apply wp_bind. eapply wp_sess_ensure; [done| |intros w1 HS1; by right].
  intros w1 HS1 Hs1. cbn. apply wp_with_pending; [done..|]. intros o w2 HS2 Hs2.
  apply (cmd_takes_sess _ (fp_confirm_reply_cb (SimplePending o arg cb))); try done.
  intros r t x Hr Hh. by destruct (Ha r t x Hr Hh) as [-> ->].
Qed.

Section sess_iu.
Variable iu : evalsha_user → Z → option v_db_reply → M ().
Hypothesis IU : fails_ok D iu.
Hypothesis IUs : iu_ok sess_created (λ _ x, x) iu.

Lemma evalsha_takes_sess s id keys argv u h C Ms w :
  stack h C Ms w → can_give (user_conts u) h C Ms → user_parts u → sess_created tt w →
  asks_for (user_conts u) h (evalsha_for s id keys argv u) →
  wp (v_db_evalsha iu s id keys argv u)
    (λ rc w2, takes (user_conts u) h C Ms rc w2 ∧ (rc = RET_CODE_ERR → sess_created tt w2)) w.
Proof.
  intros HS Hg Hp Hs Ha. eapply wp_mono.
  - apply (wp_preserves (sess_created tt)); [by apply sc_evalsha|done|]. apply wp_evalsha; try done. by destruct u.
  - by intros rc w' [? ?].
Qed.

Lemma wp_sess_cas_write part seid ver c st cb arg h C Ms w (o : Z) :
  stack h C Ms w → c ∈ C ++ amb_ctx D → is_Some h → can_give (cas_conts (CasPending o arg cb ver)) h C Ms →
  asks_for (cas_conts (CasPending o arg cb ver)) h (on_session part seid) → st = write_state cb →
  wp (v_sess_cas_write iu part seid ver c st cb arg) (takes (cas_conts (CasPending o arg cb ver)) h C Ms) w.
Proof.
  intros HS Hc [[t x] ->] Hg Ha ->. unfold v_sess_cas_write. apply wp_bind.
  eapply wp_sess_ensure; [done| |intros w1 HS1; by right].
  intros w1 HS1 Hs1. cbn. apply wp_bind. eapply wp_ctx_get; [by apply HS1|done|intros v].
  case_match; [|by right]. apply wp_with_pending; [done..|]. intros o2 w2 HS2 Hs2.
  apply (evalsha_takes_sess _ _ _ _ (fp_cas_write_reply_cb (CasPending o2 arg cb ver))); try done.
  intros r u y Hr Hh o3 sha. destruct (Ha r u y Hr Hh) as [-> ->]. split; [done|]. split; [done|]. by eexists _, _.
Qed.

Lemma wp_sess_delete part seid ver cb arg h C Ms w (o : Z) :
  stack h C Ms w → can_give (del_conts (CasPending o arg cb ver)) h C Ms →
  asks_for (del_conts (CasPending o arg cb ver)) h (on_session part seid) →
  wp (v_sess_delete iu part seid ver cb arg) (takes (del_conts (CasPending o arg cb ver)) h C Ms) w.
Proof.
  intros HS Hg Ha. unfold v_sess_delete. apply wp_bind.
  eapply wp_sess_ensure; [done| |intros w1 HS1; by right].
  intros w1 HS1 Hs1. cbn. apply wp_with_pending; [done..|]. intros o2 w2 HS2 Hs2.
  apply (evalsha_takes_sess _ _ _ _ (fp_delete_reply_cb (CasPending o2 arg cb ver))); try done.
  intros r u y Hr Hh o3 sha. destruct (Ha r u y Hr Hh) as [-> ->]. split; [done|]. split; [done|]. by eexists _.
Qed.
End sess_iu.
End calls.
