(* ===== verification/OwnFlow.v ===== *)
(** Every callback of the session procedures, resumed with the transaction its
    continuation carries, runs without undefined behaviour and leaves the
    transaction either released, with everything it owned, or handed over to
    its next continuation. *)
From S2P Require Import Prelude Seid Dpdk Heap Redis World DbScript SessStore RetransCache IdAlloc.
From S2P Require Import DispatchQ NodeState Flow Sweeper Pod Preserve Own OwnPrim OwnCmd OwnCalls.

(** One primitive of a procedure that holds a transaction. *)
Ltac w_next := let w := fresh "w" in let HF := fresh "HF" in intros w HF.
Ltac w_get := apply wp_bind; eapply wp_txn_get; [eassumption|].
Ltac w_upd := first [apply wp_bind; eapply wp_txn_upd|eapply wp_txn_upd]; [eassumption|]; w_next.

Ltac held :=
  match goal with
  | H : foc ?D ?t ?x ?C ?Ms ?w |- stk _ _ _ _ ?w => exact (proj2 (stk_foc D t x C Ms w) H)
  | H : stk ?D (Some (?t, ?x)) ?C ?Ms ?w |- foc _ _ _ _ _ ?w => exact (proj1 (stk_foc D t x C Ms w) H)
  end.

Section flow.
Context {DP : Dpdk} {PP : PfcpPort}.
Context (D : ambient).

Abbreviation focus := (foc D).
Abbreviation idle := (λ (_ : ()) (w' : world), Own D None [] [] w').

(** The specification of a resumed callback. *)
Definition resumes (r : role) (m : Z → M ()) : Prop :=
  ∀ t x w, focus t x (ctx_refs x) (req_refs x) w → txn_ok r x → wp (m t) idle w.

Lemma wp_deref (o : option Z) c w (Q : Z → world → Prop) : o = Some c → Q c w → wp (deref o) Q w.
Proof. by intros ->. Qed.

Lemma wp_part_rr h C Ms w (Q : Z → world → Prop) :
  stk D h C Ms w → (∀ p w', part_ok p → stk D h C Ms w' → Q p w') → wp part_rr Q w.
Proof.
  intros HS HQ. apply HQ; [|by eapply stk_same].
  unfold part_ok, V_NUM_PARTS. change (1024 - 1) with (2 ^ 10 - 1). rewrite land_ones_mod by lia.
  by apply Z.mod_pos_bound.
Qed.

Lemma hash_part v4 v6 : part_ok (hash_ue_ip v4 v6).
Proof.
  unfold hash_ue_ip, part_ok, V_NUM_PARTS. pose proof (Z.mod_pos_bound (fnv1a (le_bytes 4 v4 ++ v6)) 1024 eq_refl).
  rewrite u16_small by u_lia. done.
Qed.

(** ** Ends of a procedure *)

Lemma wp_reply t x C r w cause (Q : () → world → Prop) :
  focus t x C [r] w → t_req x = Some r → C ≡ₚ option_list (t_ctx x) → 
  (∀ w', focus t x C [r] w' → Q tt w') → wp (reply_and_cache x cause) Q w.
Proof.
  intros HF Hr HC HQ. unfold reply_and_cache.
  apply wp_bind. eapply wp_deref; [done|].
  apply wp_bind. eapply wp_msg_get_own; [by apply HF|by left|intros req].
  apply wp_bind. apply wp_mono with (P := λ _ w', w' = w).
  { case_match; [|done]. destruct (t_ctx x) as [c|]; [|done]. apply wp_bind.
    eapply wp_ctx_get; [done| |done]. rewrite HC. by left. }
  intros ctx w1 ->. destruct (v_port_pfcp_encode_rsp req ctx cause RSP_BUF_BYTES) as [buf|]; [|by apply HQ].
  apply wp_bind. eapply (wp_store D _ _ _ _ (Some (t, x))); [done|intros rc w1 HF1].
  apply wp_bind. eapply (wp_tx_enqueue D _ _ (Some (t, x))); [done|intros rc2 w2 HF2]. by apply HQ.
Qed.

(** Releasing the request and the transaction. *)
Lemma wp_release_req t x r w :
  focus t x [] [r] w → t_req x = Some r →
  wp (_ ← match t_req x with
          | Some r => _ ← v_port_pfcp_msg_free r; txn_upd t (txn_set_req None)
          | None => mret tt
          end; v_port_txn_destroy t) idle w.
Proof.
  intros HF Hr. rewrite Hr. apply wp_bind. apply wp_bind.
  eapply wp_msg_free; [done|done|w_next]. w_upd.
  eapply wp_txn_destroy; [done|]. by intros.
Qed.

Lemma wp_finish t x C r w cause :
  focus t x C [r] w → t_req x = Some r → C ≡ₚ option_list (t_ctx x) → wp (finish t cause) idle w.
Proof.
  intros HF Hr HC. unfold finish. w_get. apply wp_bind. eapply wp_reply; [done..|w_next].
  unfold v_port_txn_set_state. w_upd. w_get. cbn [t_ctx t_req txn_set_state].
  apply wp_bind. destruct (t_ctx x) as [c|] eqn:Hc.
  - apply wp_bind. eapply wp_ctx_free; [done|exact HC|w_next]. w_upd.
    by eapply (wp_release_req t (txn_set_ctx None (txn_set_state TXN_ST_REPLIED x)) r).
  - apply Permutation_nil_r in HC as ->.
    by eapply (wp_release_req t (txn_set_state TXN_ST_REPLIED x) r).
Qed.

Lemma wp_drop_request t x r w :
  focus t x [] [r] w → t_req x = Some r → wp (drop_request t) idle w.
Proof.
  intros HF Hr. unfold drop_request. w_get. rewrite Hr. apply wp_bind.
  eapply wp_msg_free; [done|done|w_next]. w_upd. eapply wp_txn_destroy; [done|]. by intros.
Qed.

Lemma wp_reply_cached t x r resp w :
  focus t x [] [r] w → t_req x = Some r → wp (reply_cached t resp) idle w.
Proof.
  intros HF Hr. unfold reply_cached. w_get.
  apply wp_bind. eapply (wp_tx_enqueue D _ _ (Some (t, x))); [done|intros rc w1 HF1].
  eapply wp_drop_request; [exact HF1|done].
Qed.

Lemma wp_drop_snapshot t x C C' Ms w (Q : () → world → Prop) :
  focus t x C Ms w → C ≡ₚ option_list (t_impl x) ++ C' →
  (∀ w', focus t (txn_set_impl None x) C' Ms w' → Q tt w') → wp (drop_snapshot t) Q w.
Proof.
  intros HF HC HQ. unfold drop_snapshot. w_get. destruct (t_impl x) as [p|] eqn:Hp.
  - apply wp_bind. eapply wp_ctx_free; [done|exact HC|w_next]. w_upd. by apply HQ.
  - apply HQ. destruct x; cbn in *. subst. eapply foc_perm; [exact HC|done|done].
Qed.

(** ** Unpacking what a continuation promises *)

Lemma txn_ok_req r x : txn_ok r x → ∃ m, t_req x = Some m ∧ req_refs x = [m].
Proof. intros [[m Hm] _]. exists m. unfold req_refs. by rewrite Hm. Qed.

Lemma refs_no_impl x : t_impl x = None → ctx_refs x = option_list (t_ctx x).
Proof. intros H. unfold ctx_refs. rewrite H. apply app_nil_r. Qed.

(** finish from a continuation without snapshot *)
Lemma finish_resumes r cause : (∀ x, role_ctx r x → t_impl x = None) → resumes r (λ t, finish t cause).
Proof.
  intros Hi t x w HF Hok. destruct (txn_ok_req _ _ Hok) as (m&Hm&Hr). rewrite Hr in HF.
  eapply wp_finish; [done..|]. destruct Hok as (_&Hc&_). by rewrite refs_no_impl by (by apply Hi).
Qed.

(** A call that takes the continuation over, else a failure branch. *)
Lemma takes_or k h C Ms (m : M Z) (f : M ()) w :
  k ≠ [] → wp m (takes D k h C Ms) w → (∀ w', stk D h C Ms w' → wp f idle w') →
  wp (rc ← m; when (negb (rc =? RET_CODE_OK)) f) idle w.
Proof.
  intros Hk Hm Hf. apply wp_bind. eapply wp_mono; [done|].
  intros rc w' [[-> Hg]|[-> Hs]]; cbn; [by destruct k|by apply Hf].
Qed.

Lemma confirm_cb_ok st : resumes RConfirm (λ t, confirm_cb t st).
Proof.
  intros t x w HF Hok. unfold confirm_cb. case_match; by eapply (finish_resumes RConfirm _ ltac:(by intros ? [])).
Qed.

Lemma compensate_ok v st res ver : resumes (RCas fp_mod_compensate_write_cb v) (λ t, mod_compensate_write_cb t st res ver).
Proof. apply finish_resumes. by intros x [_ ?]. Qed.

(** ** Establishment *)

Section with_iu.
Variable iu : evalsha_user → Z → option v_db_reply → M ().
Hypothesis IU : fails_ok D iu.
Hypothesis IUs : iu_ok sess_created (λ _ x, x) iu.

(** Fire-and-forget deletion of a pending record. *)
Lemma wp_delete_noop part seid ver h C Ms w (Q : Z → world → Prop) :
  stk D h C Ms w → (∀ rc w', stk D h C Ms w' → Q rc w') →
  wp (v_sess_delete iu part seid ver fp_delete_pending_noop_cb None) Q w.
Proof.
  intros HS HQ. eapply wp_mono; [by apply (wp_sess_delete D iu IU IUs _ _ _ _ _ h C Ms _ 0); [..|apply asks_none]|].
  intros rc w' [[_ Hg]|[_ Hg]]; by apply HQ.
Qed.

(** The compensation of a failed establishment: record, TEID, reply. *)
Lemma wp_undo_establishment r t x w part seid ver teid cause :
  (∀ x, role_ctx r x → t_impl x = None) → focus t x (ctx_refs x) (req_refs x) w → txn_ok r x →
  wp (_ ← v_sess_delete iu part seid ver fp_delete_pending_noop_cb None;
      _ ← v_teid_free part teid; finish t cause) idle w.
Proof.
  intros Hi HF Hok. apply wp_bind. eapply (wp_delete_noop _ _ _ (Some (t, x))); [done|intros rc w1 HF1%to_foc].
  apply wp_bind. eapply (wp_teid_free D _ _ (Some (t, x))); [done|intros w2 HF2%to_foc].
  by eapply (finish_resumes r cause Hi).
Qed.

Lemma vdp_create_cb_ok res : resumes (RVdp fp_vdp_create_cb) (λ t, vdp_create_cb iu t res).
Proof.
  intros t x w HF Hok. unfold vdp_create_cb. w_get. case_decide.
  { eapply wp_undo_establishment; [|done|done]. by intros ? []. }
  unfold v_port_txn_set_state. w_upd.
  set (x' := txn_set_state TXN_ST_DB_CONFIRM_WAIT x).
  assert (txn_ok RConfirm x') as Hok'.
  { unfold txn_ok in *. destruct_and!. by split_and!. }
  eapply takes_or; [|apply (wp_sess_confirm D _ _ fp_confirm_cb (Some t) (Some (t, x'))); [exact HF0|by exists x'|by apply asks_held]|]; [done|].
  intros w1 HF1%to_foc. eapply (finish_resumes RConfirm _ ltac:(by intros ? []) t x'); [exact HF1|exact Hok'].
Qed.

Lemma cas_write_cb_ok st res ver :
  (st = RET_CODE_OK → res = V_CAS_OK → ver = 1) →
  resumes (RCas fp_cas_write_cb 0) (λ t, cas_write_cb iu t st res ver).
Proof.
  intros Hver t x w HF Hok. unfold cas_write_cb. w_get. case_match eqn:Hc.
  { apply wp_bind. eapply (wp_teid_free D _ _ (Some (t, x))); [done|intros w1 HF1%to_foc].
    by eapply (finish_resumes (RCas fp_cas_write_cb 0) _ ltac:(by intros ? [])). }
  apply orb_false_iff in Hc as [Hst%negb_false_iff%Z.eqb_eq Hres%bool_decide_eq_false].
  apply dec_stable in Hres.
  w_upd. unfold v_port_txn_set_state. w_upd.
  set (x' := txn_set_state TXN_ST_VDP_WAIT (txn_set_db_ver ver x)) in *.
  destruct Hok as (?&[[c Hcx] ?]&?&?&?&?).
  assert (txn_ok (RVdp fp_vdp_create_cb) x') as Hok'.
  { split; [done|]. split; [by split; [eexists|]|]. split; [by apply Hver|done]. }
  apply wp_bind. eapply wp_deref; [done|].
  eapply takes_or; [|eapply (vdp_takes D _ _ t x'); [exact HF1|done..]|]; [done|].
  intros w3 HF3%to_foc. by eapply wp_undo_establishment; [|exact HF3|done]; intros ? [].
Qed.

(** A transaction whose session record is being written for the first time. *)
Lemma wp_cas_fail t x r w part teid cause C :
  focus t x C [r] w → t_req x = Some r → C ≡ₚ option_list (t_ctx x) →
  wp (_ ← v_teid_free part teid; finish t cause) idle w.
Proof.
  intros HF Hr HC. apply wp_bind. eapply (wp_teid_free D _ _ (Some (t, x))); [done|intros w2 HF2%to_foc].
  by eapply wp_finish.
Qed.

Lemma lookup_cb_ok st hit resp : resumes (RLookup fp_retrans_lookup_cb) (λ t, retrans_lookup_cb iu t st hit resp).
Proof.
  intros t x w HF Hok. destruct (txn_ok_req _ _ Hok) as (r&Hr&HR). rewrite HR in HF.
  destruct Hok as (_&[Hctx Himpl]&_&Hst&_&Hretry).
  unfold ctx_refs in HF. rewrite Hctx, Himpl in HF. cbn in HF.
  unfold retrans_lookup_cb. case_match; [by eapply wp_reply_cached|].
  w_get. apply wp_bind. eapply wp_deref; [done|].
  apply wp_bind. eapply wp_msg_get_own; [by apply HF|by left|intros req].
  apply wp_bind. apply wp_mono with (P := λ part w', part_ok part ∧ focus t x [] [r] w').
  { destruct (v_port_pfcp_ue_ip req) as [[v4 v6]|]; [split; [apply hash_part|done]|].
    by eapply (wp_part_rr (Some (t, x))). }
  intros part w1 [Hpart HF1]. w_upd.
  apply wp_bind. eapply (wp_seid_alloc D _ (Some (t, _))); [held|done|intros seid w3 HF3%to_foc].
  apply wp_bind. eapply (wp_teid_alloc D iu IU _ (Some (t, _))); [held|done|intros teid w4 HF4%to_foc].
  case_match.
  { apply wp_bind. apply wp_when; intros _.
    - eapply (wp_teid_free D _ _ (Some (t, _))); [held|intros w5 HF5%to_foc].
      eapply wp_finish; [exact HF5|done|]. cbn. by rewrite Hctx.
    - eapply wp_finish; [exact HF4|done|]. cbn. by rewrite Hctx. }
  w_upd. w_upd. apply wp_bind. eapply wp_ctx_alloc; [done| |].
  { eapply wp_cas_fail; [done|done|]. cbn. by rewrite Hctx. }
  intros c w7 HF7. w_upd. apply wp_bind. eapply wp_ctx_get; [done|by left|intros v].
  destruct (v_port_pfcp_build_session req seid teid v) as [rc v'].
  apply wp_bind. eapply wp_ctx_set; [done|by left|w_next].
  case_match; [by eapply wp_cas_fail|].
  unfold v_port_txn_set_state. w_upd.
  match goal with H : focus t ?y [c] [r] ?w |- wp _ _ ?w => set (x' := y) in * end.
  assert (txn_ok (RCas fp_cas_write_cb 0) x') as Hok'.
  { split; [by eexists|]. split; [by split; [eexists|]|]. done. }
  eapply takes_or; [|eapply (wp_sess_cas_write D iu IU IUs _ _ 0 c _ fp_cas_write_cb (Some t) (Some (t, x')) [c] [r] _ 0)|];
    [done|held|by left|by eexists| |by apply asks_held|done|].
  - exists x'. split; [done|]. split; [done|]. unfold ctx_refs, req_refs. cbn. by rewrite Himpl, Hr.
  - intros w10 HF10%to_foc. by eapply wp_cas_fail; [exact HF10| |].
Qed.
(** ** Modification *)

(** A transaction that is about to read its record: it owns request [r] and
    context [c] and nothing else. *)
Record fresh_read (x : v_txn) (c r : Z) : Prop := {
  fr_req : t_req x = Some r;
  fr_ctx : t_ctx x = Some c;
  fr_impl : t_impl x = None;
  fr_part : part_ok (t_part_id x);
  fr_retry : 0 <= t_cas_retry x < V_CAS_MAX_RETRY;
}.

Lemma start_read_ok cb start t x c r w :
  start = (_ ← v_port_txn_set_state t TXN_ST_DB_READ_WAIT;
           x ← txn_get t;
           c ← deref (t_ctx x);
           rc ← v_sess_read (t_part_id x) (t_seid x) c cb (Some t);
           when (negb (rc =? RET_CODE_OK)) (finish t V_PFCP_CAUSE_SYSTEM_FAILURE)) →
  focus t x [c] [r] w → fresh_read x c r → wp start idle w.
Proof.
  intros -> HF [Hr Hc Hi Hp Hret]. unfold v_port_txn_set_state. w_upd. w_get.
  apply wp_bind. eapply wp_deref; [done|].
  set (x' := txn_set_state TXN_ST_DB_READ_WAIT x) in *.
  assert (txn_ok (RRead cb c) x') as Hok'.
  { split; [by eexists|]. by split. }
  eapply takes_or; [|eapply (wp_sess_read D _ _ c cb (Some t) (Some (t, x')) [c] [r])|]; [done|held| |by apply asks_held|].
  - exists x'. split; [done|]. split; [done|]. unfold ctx_refs, req_refs. cbn. by rewrite Hc, Hi, Hr.
  - intros w2 HF2%to_foc. eapply wp_finish; [exact HF2|done|]. cbn. by rewrite Hc.
Qed.

Lemma mod_start_read_ok t x c r w : focus t x [c] [r] w → fresh_read x c r → wp (mod_start_read t) idle w.
Proof. intros HF Hx. by eapply (start_read_ok fp_mod_read_cb). Qed.

Lemma del_start_read_ok t x c r w : focus t x [c] [r] w → fresh_read x c r → wp (del_start_read t) idle w.
Proof. intros HF Hx. by eapply (start_read_ok fp_del_read_cb). Qed.

(** The CAS conflict branch shared by Modification and Deletion. *)
Lemma retry_ok start t x c r w :
  (∀ x w, focus t x [c] [r] w → fresh_read x c r → wp (start t) idle w) →
  focus t x [c] [r] w → fresh_read x c r →
  wp (_ ← txn_upd t (λ x, txn_set_cas_retry (u8 (t_cas_retry x + 1)) x);
      x ← txn_get t;
      if V_CAS_MAX_RETRY <=? t_cas_retry x then finish t V_PFCP_CAUSE_SYSTEM_FAILURE
      else c ← deref (t_ctx x); _ ← v_port_ctx_clear c; start t) idle w.
Proof.
  intros Hs HF [Hr Hc Hi Hp Hret]. w_upd. w_get. case_match eqn:Hm.
  { eapply wp_finish; [done|done|]. cbn. by rewrite Hc. }
  apply wp_bind. eapply wp_deref; [done|]. apply wp_bind. unfold v_port_ctx_clear.
  eapply wp_ctx_set; [done|by left|w_next]. eapply Hs; [done|]. split; try done.
  cbn in Hm |- *. unfold V_CAS_MAX_RETRY in *. pose proof (u8_range (t_cas_retry x + 1)). u_lia.
Qed.

(** The snapshot and the context of a modification. *)
Lemma mod_refs r x : txn_ok r x → is_Some (t_ctx x) ∧ is_Some (t_impl x) →
  ∃ m c p, t_req x = Some m ∧ t_ctx x = Some c ∧ t_impl x = Some p ∧ req_refs x = [m] ∧ ctx_refs x = [c; p].
Proof.
  intros [[m Hm] _] [[c Hc] [p Hp]]. exists m, c, p. unfold req_refs, ctx_refs. by rewrite Hm, Hc, Hp.
Qed.

Lemma wp_drop_finish t x m c p w cause :
  focus t x [c; p] [m] w → t_req x = Some m → t_ctx x = Some c → t_impl x = Some p →
  wp (_ ← drop_snapshot t; finish t cause) idle w.
Proof.
  intros HF Hm Hc Hp. apply wp_bind. eapply (wp_drop_snapshot t x _ [c]); [done|rewrite Hp; solve_Permutation|w_next].
  eapply wp_finish; [done|done|]. cbn. by rewrite Hc.
Qed.

Lemma mod_cas_cb_ok v st res ver : resumes (RCas fp_mod_cas_cb v) (λ t, mod_cas_cb t st res ver).
Proof.
  intros t x w HF Hok. destruct (mod_refs _ _ Hok) as (m&c&p&Hm&Hc&Hp&HR&HC); [by destruct Hok as (_&?&_)|].
  rewrite HR, HC in HF. destruct Hok as (_&_&_&_&Hpart&Hret). unfold mod_cas_cb.
  case_match; [by eapply wp_drop_finish|]. destruct res.
  - w_upd. unfold v_port_txn_set_state. w_upd. w_get. apply wp_bind. eapply wp_deref; [done|].
    set (x' := txn_set_state TXN_ST_VDP_WAIT (txn_set_db_ver ver x)) in *.
    assert (txn_ok (RVdp fp_mod_vdp_cb) x') as Hok'.
    { split; [by eexists|]. split; [split; by eexists|]. done. }
    eapply takes_or; [|eapply (vdp_takes D _ fp_mod_vdp_cb t x' [c; p] [m])|]; [done|done|done| | |].
    + unfold ctx_refs. cbn. by rewrite Hc, Hp.
    + unfold req_refs. cbn. by rewrite Hm.
    + intros w3 HF3%to_foc. by eapply wp_drop_finish.
  - apply wp_bind. eapply (wp_drop_snapshot t x _ [c]); [done|rewrite Hp; solve_Permutation|w_next].
    eapply (retry_ok mod_start_read); [|done|by split]. intros. by eapply mod_start_read_ok.
  - by eapply wp_drop_finish.
Qed.

(** The compensating write: the snapshot stays with the caller. *)
Hypothesis IUp : ∀ p, fails_ok (push_ctx p D) iu.

Lemma wp_compensate t x c m p part seid ver st w :
  focus t x [c; p] [m] w → txn_ok (RCas fp_mod_compensate_write_cb ver) x →
  t_ctx x = Some c → t_req x = Some m → on_session part seid x → st = V_SESS_CONFIRMED →
  wp (v_sess_cas_write iu part seid ver p st fp_mod_compensate_write_cb (Some t))
    (λ rc w', rc = RET_CODE_OK ∧ Own D None [p] [] w' ∨ rc = RET_CODE_ERR ∧ focus t x [c; p] [m] w') w.
Proof.
  intros HF Hok Hc Hm Hse Hst. assert ([c; p] ≡ₚ [p; c]) as Hcp by apply Permutation_swap.
  apply (proj1 (foc_push D t x _ [c] [m] p w Hcp)) in HF.
  eapply wp_mono.
  - eapply (wp_sess_cas_write (push_ctx p D) iu (IUp p) IUs _ _ ver p st _ _ (Some (t, x)) [c] [m] _ 0).
    + exact HF.
    + right. by left.
    + by eexists.
    + exists x. split; [done|]. split; [done|]. destruct Hok as (_&[_ Hi]&_).
      unfold ctx_refs, req_refs. by rewrite Hc, Hm, Hi.
    + by apply asks_held.
    + done.
  - intros rc w' [[-> HO]|[-> HS]]; [left|right]; (split; [done|]).
    + by apply (proj2 (own_push D None [p] [] [] p w' ltac:(done))).
    + by apply (proj2 (foc_push D t x _ [c] [m] p w' Hcp)).
Qed.

Lemma mod_vdp_cb_ok res : resumes (RVdp fp_mod_vdp_cb) (λ t, mod_vdp_cb iu t res).
Proof.
  intros t x w HF Hok. destruct (mod_refs _ _ Hok) as (m&c&p&Hm&Hc&Hp&HR&HC); [by destruct Hok as (_&?&_)|].
  rewrite HR, HC in HF. destruct Hok as (_&_&_&Hst&Hpart&Hret). unfold mod_vdp_cb. w_get. w_upd. case_decide.
  - rewrite Hp. apply wp_bind. eapply wp_deref; [done|].
    set (x' := txn_set_impl None x) in *.
    assert (txn_ok (RCas fp_mod_compensate_write_cb (t_db_ver x)) x') as Hok'.
    { split; [by eexists|]. split; [by split; [eexists|]|]. done. }
    apply wp_bind.
    eapply wp_mono; [eapply (wp_compensate t x' c m p); try done|].
    + intros rc w2 Hw2. apply wp_bind. destruct Hw2 as [[-> Ho]|[-> HF2]]; cbn.
      * eapply own_ctx_free; [exact Ho|done|]. by intros w3 [HO _].
      * eapply wp_ctx_free; [exact HF2|apply Permutation_swap|w_next]. eapply wp_finish; [done|done|]. cbn. by rewrite Hc.
  - rewrite Hp. cbn. apply wp_bind. eapply (wp_ctx_free _ _ _ _ [c]); [done|solve_Permutation|w_next].
    eapply wp_finish; [done|done|]. cbn. by rewrite Hc.
Qed.
(** What a read continuation owns. *)
Lemma read_refs cb c x : txn_ok (RRead cb c) x →
  ∃ m, t_req x = Some m ∧ req_refs x = [m] ∧ ctx_refs x = [c] ∧ fresh_read x c m.
Proof.
  intros ([m Hm]&[Hc Hi]&_&_&?&?). exists m. unfold req_refs, ctx_refs. rewrite Hm, Hc, Hi. by split_and!.
Qed.

Lemma wp_snapshot_fail t x c p m w cause :
  focus t x [p; c] [m] w → t_req x = Some m → t_ctx x = Some c →
  wp (_ ← v_port_ctx_free p; finish t cause) idle w.
Proof.
  intros HF Hm Hc. apply wp_bind. eapply wp_ctx_free; [done|done|w_next].
  eapply wp_finish; [done|done|]. by rewrite Hc.
Qed.

Lemma wp_snapshot_fail_clear t x c p m w cause :
  focus t x [p; c] [m] w → t_req x = Some m → t_ctx x = Some c →
  wp (_ ← v_port_ctx_free p; _ ← txn_upd t (txn_set_impl None); finish t cause) idle w.
Proof.
  intros HF Hm Hc. apply wp_bind. eapply wp_ctx_free; [done|done|w_next]. w_upd.
  eapply wp_finish; [done|done|]. cbn. by rewrite Hc.
Qed.

Lemma mod_read_cb_ok st found c ver : resumes (RRead fp_mod_read_cb c) (λ t, mod_read_cb iu t st found c ver).
Proof.
  intros t x w HF Hok. destruct (read_refs _ _ _ Hok) as (m&Hm&HR&HC&[_ Hc Hi Hp Hret]).
  rewrite HR, HC in HF. unfold mod_read_cb.
  case_match; [eapply wp_finish; [done|done|by rewrite Hc]|].
  case_decide; [eapply wp_finish; [done|done|by rewrite Hc]|].
  w_upd. apply wp_bind. eapply wp_ctx_alloc; [done|eapply wp_finish; [done|done|cbn; by rewrite Hc]|].
  intros p w1 HF1. apply wp_bind. eapply wp_ctx_get; [done|right; by left|intros vc].
  apply wp_bind. eapply wp_ctx_get; [done|by left|intros vp].
  match goal with |- context [match ?o with Some p' => _ ≫= _ | None => _ end] => destruct o as [p'|] end.
  2: by eapply wp_snapshot_fail.
  apply wp_bind. eapply wp_ctx_set; [done|by left|w_next]. w_upd. w_get.
  apply wp_bind. eapply wp_deref; [done|].
  apply wp_bind. eapply wp_msg_get_own; [match goal with H : foc _ _ _ _ _ ?w |- Own _ _ _ _ ?w => exact (proj1 H) end|by left|intros req].
  destruct (v_port_pfcp_modify_session req vc) as [rc c'].
  apply wp_bind. eapply wp_ctx_set; [done|right; by left|w_next].
  case_match; [by eapply wp_snapshot_fail_clear|].
  unfold v_port_txn_set_state. w_upd.
  match goal with H : focus t ?y [p; c] [m] ?w |- wp _ _ ?w => set (x' := y) in * end.
  assert (txn_ok (RCas fp_mod_cas_cb ver) x') as Hok'.
  { split; [by eexists|]. split; [split; by eexists|]. done. }
  eapply takes_or; [|eapply (wp_sess_cas_write D iu IU IUs _ _ ver c _ fp_mod_cas_cb (Some t) (Some (t, x')) [p; c] [m] _ 0)|];
    [done|held|right; by left|by eexists| |by apply asks_held|done|].
  - exists x'. split; [done|]. split; [done|]. unfold ctx_refs, req_refs. cbn. rewrite Hc, Hm.
    split; [apply Permutation_swap|done].
  - intros w6 HF6%to_foc. by eapply wp_snapshot_fail_clear; [exact HF6| |].
Qed.

(** ** Deletion *)

(** A continuation with a context and no snapshot. *)
Lemma plain_refs r x : txn_ok r x → is_Some (t_ctx x) ∧ t_impl x = None →
  ∃ m c, req_refs x = [m] ∧ ctx_refs x = [c] ∧ fresh_read x c m.
Proof.
  intros ([m Hm]&_&_&_&?&?) [[c Hc] Hi]. exists m, c. unfold req_refs, ctx_refs. rewrite Hm, Hc, Hi. by split_and!.
Qed.

Lemma del_delete_cb_ok v st res ver : resumes (RCas fp_del_delete_cb v) (λ t, del_delete_cb t st res ver).
Proof.
  intros t x w HF Hok. pose proof Hok as (_&Hcx&_). destruct (plain_refs _ _ Hok Hcx) as (m&c&HR&HC&[Hm Hc Hi Hp Hret]).
  rewrite HR, HC in HF. unfold del_delete_cb.
  case_match; [eapply wp_finish; [done|done|by rewrite Hc]|]. destruct res.
  - w_get. apply wp_bind. eapply wp_deref; [done|]. apply wp_bind. eapply wp_ctx_get; [done|by left|intros vc].
    apply wp_bind. eapply (wp_teid_free D _ _ (Some (t, x))); [done|intros w1 HF1%to_foc].
    eapply wp_finish; [done|done|by rewrite Hc].
  - eapply (retry_ok del_start_read); [|done|done]. intros. by eapply del_start_read_ok.
  - eapply wp_finish; [done|done|by rewrite Hc].
Qed.

Lemma del_vdp_cb_ok res : resumes (RVdp fp_del_vdp_cb) (λ t, del_vdp_cb iu t res).
Proof.
  intros t x w HF Hok. pose proof Hok as (_&Hcx&_). destruct (plain_refs _ _ Hok Hcx) as (m&c&HR&HC&[Hm Hc Hi Hp Hret]).
  rewrite HR, HC in HF. unfold del_vdp_cb.
  case_decide; [eapply wp_finish; [done|done|by rewrite Hc]|].
  unfold v_port_txn_set_state. w_upd. w_get.
  set (x' := txn_set_state TXN_ST_DB_WRITE_WAIT x) in *.
  assert (txn_ok (RCas fp_del_delete_cb (t_db_ver x')) x') as Hok'.
  { split; [by eexists|]. split; [by split; [eexists|]|]. done. }
  eapply takes_or; [|eapply (wp_sess_delete D iu IU IUs _ _ (t_db_ver x') fp_del_delete_cb (Some t) (Some (t, x')) [c] [m] _ 0)|];
    [done|held| |by apply asks_held|].
  - exists x'. split; [done|]. split; [done|]. unfold ctx_refs, req_refs. cbn. by rewrite Hc, Hm, Hi.
  - intros w2 HF2%to_foc. eapply wp_finish; [exact HF2|done|]. cbn. by rewrite Hc.
Qed.

Lemma del_read_cb_ok st found c ver : resumes (RRead fp_del_read_cb c) (λ t, del_read_cb t st found c ver).
Proof.
  intros t x w HF Hok. destruct (read_refs _ _ _ Hok) as (m&Hm&HR&HC&[_ Hc Hi Hp Hret]).
  rewrite HR, HC in HF. unfold del_read_cb.
  case_match; [eapply wp_finish; [done|done|by rewrite Hc]|].
  case_decide; [eapply wp_finish; [done|done|by rewrite Hc]|].
  w_upd. unfold v_port_txn_set_state. w_upd. w_get.
  match goal with H : focus t ?y [c] [m] ?w |- wp _ _ ?w => set (x' := y) in * end.
  assert (txn_ok (RVdp fp_del_vdp_cb) x') as Hok'.
  { split; [by eexists|]. split; [by split; [eexists|]|]. done. }
  eapply takes_or; [|eapply (vdp_takes D _ fp_del_vdp_cb t x' [c] [m])|]; [done|done|done| | |].
  - unfold ctx_refs. cbn. by rewrite Hc, Hi.
  - unfold req_refs. cbn. by rewrite Hm.
  - intros w3 HF3%to_foc. eapply wp_finish; [exact HF3|done|]. cbn. by rewrite Hc.
Qed.

(** ** The lookups of Modification and Deletion *)

Lemma alloc_then_ok start t x r w :
  (∀ x c w, focus t x [c] [r] w → fresh_read x c r → wp (start t) idle w) →
  focus t x [] [r] w → t_req x = Some r → t_impl x = None → part_ok (t_part_id x) →
  0 <= t_cas_retry x < V_CAS_MAX_RETRY → wp (alloc_ctx_then t start) idle w.
Proof.
  intros Hs HF Hr Hi Hp Hret. unfold alloc_ctx_then. apply wp_bind.
  eapply wp_ctx_alloc; [done| |].
  - w_upd. by eapply wp_finish.
  - intros c w1 HF1. w_upd. eapply Hs; [done|]. by split.
Qed.

Lemma lookup_ok start st hit resp t x w cb :
  (∀ x c r w, focus t x [c] [r] w → fresh_read x c r → wp (start t) idle w) →
  focus t x (ctx_refs x) (req_refs x) w → txn_ok (RLookup cb) x →
  wp (if (st =? RET_CODE_OK) && hit then reply_cached t resp else alloc_ctx_then t start) idle w.
Proof.
  intros Hs HF ([m Hm]&[Hc Hi]&_&_&?&?). unfold ctx_refs, req_refs in HF. rewrite Hc, Hi, Hm in HF. cbn in HF.
  case_match; [by eapply wp_reply_cached|]. eapply alloc_then_ok; try done. intros. by eapply Hs.
Qed.

Lemma mod_lookup_ok st hit resp : resumes (RLookup fp_mod_retrans_lookup_cb) (λ t, mod_retrans_lookup_cb t st hit resp).
Proof. intros t x w HF Hok. eapply lookup_ok; [|done..]. intros. by eapply mod_start_read_ok. Qed.

Lemma del_lookup_ok st hit resp : resumes (RLookup fp_del_retrans_lookup_cb) (λ t, del_retrans_lookup_cb t st hit resp).
Proof. intros t x w HF Hok. eapply lookup_ok; [|done..]. intros. by eapply del_start_read_ok. Qed.
End with_iu.

(** ** A received message *)

Lemma start_txn_ok r peer init cb w :
  (∀ x, t_req (init x) = t_req x ∧ t_ctx (init x) = t_ctx x ∧ t_impl (init x) = t_impl x ∧
        t_cas_retry (init x) = t_cas_retry x ∧ (part_ok (t_part_id x) → part_ok (t_part_id (init x)))) →
  Own D None [] [r] w → wp (start_txn r peer init cb) idle w.
Proof.
  intros Hinit HO. unfold start_txn. apply wp_bind. eapply wp_msg_get_own; [done|by left|intros m].
  apply wp_bind. eapply wp_txn_create; [done| |].
  - eapply own_msg_free; [done|done|]. by intros w' [? _].
  - intros t w1 HF1. w_upd.
    match goal with H : focus t ?y [] [r] ?w |- wp _ _ ?w => set (x' := y) in * end.
    destruct (Hinit (txn_set_peer peer (txn_set_req (Some r) txn_zero))) as (Hr&Hc&Hi&Hret&Hp).
    assert (txn_ok (RLookup cb) x') as Hok'.
    { split; [exists r; exact Hr|]. split; [by split; [exact Hc|exact Hi]|]. split; [done|]. split; [done|].
      split; [by apply Hp|]. cbn. by rewrite Hret. }
    eapply takes_or; [|eapply (wp_lookup D _ _ _ cb (Some t) (Some (t, x')) [] [r])|]; [done|held| |].
    + exists x'. split; [done|]. split; [done|]. unfold ctx_refs, req_refs. cbn. by rewrite Hr, Hc, Hi.
    + intros w2 HF2%to_foc. eapply wp_drop_request; [exact HF2|exact Hr].
Qed.

Lemma wp_free_req r w : Own D None [] [r] w → wp (v_port_pfcp_msg_free r) idle w.
Proof. intros HO. eapply own_msg_free; [done|done|]. by intros w' [? _]. Qed.

Lemma seid_validate_part s p : v_seid_validate s = Some p → 0 <= s → part_ok p.
Proof.
  unfold v_seid_validate. intros H Hs. repeat case_match; try done. injection H as <-.
  rewrite v_seid_part_div by done. unfold part_ok, V_NUM_PARTS. by apply Z.mod_pos_bound.
Qed.

Lemma handle_existing_ok r peer cb w : Own D None [] [r] w → wp (handle_existing r peer cb) idle w.
Proof.
  intros HO. unfold handle_existing. apply wp_bind. eapply wp_msg_get_own; [done|by left|intros m].
  destruct (v_seid_validate _) as [part|] eqn:Ev.
  - apply start_txn_ok; [|done]. intros x. split_and!; try done. intros _. cbn.
    eapply seid_validate_part; [done|]. pose proof (hdr_seid_range m). u_lia.
  - unfold reply_ctx_not_found. apply wp_bind. eapply wp_msg_get_own; [done|by left|intros m'].
    apply wp_bind. case_match; [|by apply wp_free_req].
    apply wp_bind. eapply (wp_tx_enqueue D _ _ None); [by apply stk_own|intros rc w1 [HO1 _]]. by apply wp_free_req.
Qed.

Lemma handle_msg_ok msg w : amb_msgs D = None → Own D None [] [] w → wp (v_flow_handle_msg msg) idle w.
Proof.
  intros HD HO. unfold v_flow_handle_msg. apply wp_bind. eapply wp_decode; [done|done|done|].
  intros r w1 HO1. apply wp_bind. eapply wp_msg_get_own; [done|by left|intros m].
  repeat case_match; try by apply wp_free_req.
  - unfold handle_establishment. apply start_txn_ok; [|done]. by intros x.
  - by apply handle_existing_ok.
  - by apply handle_existing_ok.
Qed.

End flow.
