(* ===== verification/OwnPod.v ===== *)
(** The ownership invariant across every event of the pod: no undefined
    behaviour, whatever the database and the data plane answer. *)
From S2P Require Import Prelude Seid Dpdk Heap Redis World DbScript SessStore RetransCache IdAlloc.
From S2P Require Import DispatchQ NodeState Flow Sweeper Pod Preserve Pools PoolsPod.
From S2P Require Import Own OwnPrim OwnCmd OwnCalls OwnFlow.

Section callbacks.
Context {DP : Dpdk} {PP : PfcpPort}.
Context (D : ambient).

Abbreviation stack := (stk D).
Abbreviation giveable := can_give.
Abbreviation gives k h C Ms := (λ (_ : ()) (w' : world), given D k h C Ms w').

(** A resumed transaction callback, from a single continuation. *)
Lemma resume_given r m t x C Ms w :
  resumes D r m → stack (Some (t, x)) C Ms w → txn_ok r x → C ≡ₚ ctx_refs x → Ms ≡ₚ req_refs x →
  wp (m t) (gives [(r, t)] (Some (t, x)) C Ms) w.
Proof. intros Hr HS Hok HC HM. apply Hr with x; [|done]. eapply foc_perm; [exact HC|exact HM|exact HS]. Qed.

Lemma giveable_cont r arg h C Ms :
  giveable (cont_of r arg) h C Ms → r ≠ RBad →
  ∃ t x, arg = Some t ∧ h = Some (t, x) ∧ txn_ok r x ∧ C ≡ₚ ctx_refs x ∧ Ms ≡ₚ req_refs x.
Proof.
  destruct arg as [t|]; cbn; intros (x&Hh&Hok&HC&HM) Hr; [by exists t, x|].
  by destruct Hok as (_&[]&_).
Qed.

(** A callback stored with its transaction argument. *)
Lemma call_given r arg (m : Z → M ()) h C Ms w :
  resumes D r m → r ≠ RBad → stack h C Ms w → giveable (cont_of r arg) h C Ms →
  wp (t ← deref arg; m t) (gives (cont_of r arg) h C Ms) w.
Proof.
  intros Hr Hb HS Hg. destruct (giveable_cont _ _ _ _ _ Hg Hb) as (t&x&->&->&Hok&HC&HM).
  by apply (resume_given r m t x C Ms w).
Qed.

(** The failure report of a CAS write or delete, for any nested caller. *)
Lemma cas_write_cb_err iu v : resumes D (RCas fp_cas_write_cb v) (λ t, cas_write_cb iu t RET_CODE_ERR V_CAS_GONE 0).
Proof.
  intros t x w HF Hok. unfold cas_write_cb. w_get. cbn.
  apply wp_bind. eapply (wp_teid_free D _ _ (Some (t, x))); [done|intros w1 HF1%to_foc].
  by eapply (finish_resumes D (RCas fp_cas_write_cb v) _ ltac:(by intros ? [])).
Qed.

Lemma call_cas_err iu p h C Ms w :
  stack h C Ms w → giveable (call_conts p) h C Ms →
  wp (call_cas iu (cp_cb p) RET_CODE_ERR V_CAS_GONE 0 (cp_arg p)) (gives (call_conts p) h C Ms) w.
Proof.
  intros HS Hg. unfold call_conts in *. destruct (cp_cb p); cbn [call_cas]; try done.
  all: apply call_given; try done.
  - apply cas_write_cb_err.
  - apply mod_cas_cb_ok.
  - apply compensate_ok.
  - apply del_delete_cb_ok.
Qed.

Lemma bad_not_given h C Ms : ¬ giveable [(RBad, 0)] h C Ms.
Proof. by intros (x&_&(_&[]&_)&_). Qed.

Lemma cas_call_conts p h C Ms : giveable (cas_conts p) h C Ms → cas_conts p = call_conts p.
Proof. unfold cas_conts. destruct (cp_cb p); try done. by intros []%bad_not_given. Qed.

Lemma del_call_conts p h C Ms : giveable (del_conts p) h C Ms → del_conts p = call_conts p.
Proof. unfold del_conts. destruct (cp_cb p); try done; by intros []%bad_not_given. Qed.

Lemma cas_reply_err r v : cas_reply RET_CODE_ERR r v = (RET_CODE_ERR, V_CAS_GONE, 0).
Proof. by destruct r as [[]|]. Qed.

(** The user callback and the release of its pending object. *)
Lemma wp_then_sess_put (m : M ()) k o h C Ms w :
  preserves (sess_created tt) m → sess_created tt w → wp m (gives k h C Ms) w →
  wp (_ ← m; sess_pending_put o) (gives k h C Ms) w.
Proof.
  intros Hp Hs Hm. apply wp_bind. eapply wp_mono; [by apply (wp_preserves (sess_created tt))|].
  intros [] w' [Hg [pool Hpool]]. unfold wp, sess_pending_put. rewrite Hpool. by eapply given_same.
Qed.

Lemma call_cas_sess d cb st res ver arg : preserves (sess_created tt) (call_cas (invoke_user d) cb st res ver arg).
Proof. eapply (call_cas_pres _ _ sess_created_closed), (invoke_user_ok _ _ sess_created_closed). Qed.
End callbacks.

Section depth.
Context {DP : Dpdk} {PP : PfcpPort}.

(** One level of nesting is enough for a synchronous failure. *)
Lemma invoke_user_fails D d : fails_ok D (invoke_user (S d)).
Proof.
  intros u r h C Ms w HS Hg Hp Hs. destruct u as [p|p|part]; cbn [invoke_user user_conts] in *.
  - unfold cas_write_reply_cb. rewrite cas_reply_err.
    apply wp_then_sess_put; [apply call_cas_sess|done|].
    pose proof (cas_call_conts _ _ _ _ Hg) as E. rewrite E in Hg |- *. by apply call_cas_err.
  - unfold delete_reply_cb. rewrite cas_reply_err.
    apply wp_then_sess_put; [apply call_cas_sess|done|].
    pose proof (del_call_conts _ _ _ _ Hg) as E. rewrite E in Hg |- *. by apply call_cas_err.
  - by eapply wp_teid_reply; [exact HS| |].
Qed.

Lemma iu_sess : iu_ok sess_created (λ _ x, x) iu.
Proof. apply iu_ok_iu, sess_created_closed. Qed.

Lemma iu_fails D : fails_ok D iu.
Proof. apply invoke_user_fails. Qed.

Lemma iu1_sess : iu_ok sess_created (λ _ x, x) (invoke_user 1).
Proof. apply invoke_user_ok, sess_created_closed. Qed.
End depth.

Section pod.
Context {DP : Dpdk} {PP : PfcpPort}.
Context (D : ambient).

Abbreviation stack := (stk D).
Abbreviation giveable := can_give.
Abbreviation gives k h C Ms := (λ (_ : ()) (w' : world), given D k h C Ms w').

(** Any outcome of a CAS write. *)
Lemma call_cas_ok p st res h C Ms w ver :
  (st = RET_CODE_OK → res = V_CAS_OK → ver = cas_new_ver (cp_exp_ver p)) →
  stack h C Ms w → giveable (cas_conts p) h C Ms →
  wp (call_cas (invoke_user 1) (cp_cb p) st res ver (cp_arg p)) (gives (cas_conts p) h C Ms) w.
Proof.
  intros Hver HS Hg. pose proof (cas_call_conts _ _ _ _ Hg) as E. rewrite E in Hg |- *. clear E. unfold call_conts in *. destruct (cp_cb p); cbn [call_cas]; try done.
  - destruct (giveable_cont _ _ _ _ _ Hg ltac:(done)) as (t&x&_&_&(_&_&Hv&_)&_). cbn in Hv.
    rewrite Hv in *. apply call_given; try done.
    apply cas_write_cb_ok; [apply invoke_user_fails|apply iu1_sess|by intros; rewrite Hver].
  - apply call_given; try done. apply mod_cas_cb_ok.
  - apply call_given; try done. apply compensate_ok.
  - apply call_given; try done. apply del_delete_cb_ok.
Qed.

Lemma call_del_ok p st res ver h C Ms w :
  stack h C Ms w → giveable (del_conts p) h C Ms →
  wp (call_cas (invoke_user 1) (cp_cb p) st res ver (cp_arg p)) (gives (del_conts p) h C Ms) w.
Proof.
  intros HS Hg. unfold del_conts, call_conts in *. destruct (cp_cb p); cbn [call_cas]; try done.
  all: try by destruct Hg as (x&_&(_&[]&_)&_).
  apply call_given; try done. apply del_delete_cb_ok.
Qed.

Lemma cas_reply_ver st r v :
  (cas_reply st r v).1.1 = RET_CODE_OK → (cas_reply st r v).1.2 = V_CAS_OK → (cas_reply st r v).2 = v.
Proof.
  destruct r as [[]|]; cbn; try done. case_match; [|done]. unfold cas_outcome. by repeat case_match.
Qed.

(** Any reply to an EVALSHA reaches its user callback. *)
Lemma iu_reply u st r h C Ms w :
  stack h C Ms w → giveable (user_conts u) h C Ms → user_parts u → user_sess u w →
  wp (iu u st r) (gives (user_conts u) h C Ms) w.
Proof.
  intros HS Hg Hp Hs. destruct u as [p|p|part]; cbn [user_conts user_sess] in *.
  - change (iu (fp_cas_write_reply_cb p)) with (cas_write_reply_cb (call_cas (invoke_user 1)) p).
    unfold cas_write_reply_cb. pose proof (cas_reply_ver st r (cas_new_ver (cp_exp_ver p))) as Hv.
    destruct (cas_reply st r _) as [[st' res] ver]. cbn [fst snd] in Hv.
    apply wp_then_sess_put; [apply call_cas_sess|exact Hs|by apply call_cas_ok].
  - change (iu (fp_delete_reply_cb p)) with (delete_reply_cb (call_cas (invoke_user 1)) p).
    unfold delete_reply_cb. destruct (cas_reply st r _) as [[st' res] ver].
    apply wp_then_sess_put; [apply call_cas_sess|exact Hs|by apply call_del_ok].
  - by eapply wp_teid_reply; [exact HS| |].
Qed.

Lemma wp_user_reply u st r o h C Ms w :
  stack h C Ms w → giveable (user_conts u) h C Ms → user_parts u → user_sess u w →
  wp (_ ← iu u st r; evalsha_put o) (gives (user_conts u) h C Ms) w.
Proof.
  intros HS Hg Hp Hs. apply wp_bind. eapply wp_mono; [by apply iu_reply|]. intros [] w' Hw'.
  apply wp_evalsha_put. intros. by eapply given_same.
Qed.

Definition resume_conts (o : option v_evalsha_pending) : list (role * Z) :=
  match o with Some p => user_conts (ep_user p) | None => [] end.
Definition resume_parts (o : option v_evalsha_pending) : Prop :=
  match o with Some p => user_parts (ep_user p) | None => True end.
Definition resume_sess (o : option v_evalsha_pending) (w : world) : Prop :=
  match o with Some p => user_sess (ep_user p) w | None => True end.

(** The command that waits for a script, and the load that repeats it. *)
Definition resume_call (s : Z) (id : v_script_id_t) (o : option v_evalsha_pending) (x : v_txn) : Prop :=
  match o with Some p => s = ep_shard p ∧ id = ep_script_id p ∧ script_call x p | None => True end.

Lemma wp_request_load s id resume h C Ms w :
  stack h C Ms w → giveable (resume_conts resume) h C Ms → resume_parts resume →
  asks_for (resume_conts resume) h (resume_call s id resume) →
  wp (request_script_load s id resume)
    (λ rc w', takes D (resume_conts resume) h C Ms rc w' ∧ w_sess_pool w' = w_sess_pool w) w.
Proof.
  intros HS Hg Hp Ha. unfold wp, request_script_load.
  destruct (rte_mempool_get _) as [[o pool]|]; [|by split; [right|]].
  set (w1 := set_script _ w). apply wp_bind.
  eapply wp_mono; [apply (cmd_takes D _ (fp_load_reply_cb (ScriptLoadCtx o s id resume)) _ h C Ms); try done|].
  - by eapply stk_same.
  - intros r t x Hr Hh p Hres. cbn in Hres. subst resume. by destruct (Ha r t x Hr Hh) as (->&->&?).
  - intros rc w2 [[[-> Hg2]|[-> HS2]] Hsp]; cbn.
    + split; [by left|exact Hsp].
    + apply wp_bind. split; [|exact Hsp]. right. split; [done|]. by eapply stk_same.
Qed.

Lemma wp_load_put o Q w :
  (∀ w', w_txns w' = w_txns w → w_ctxs w' = w_ctxs w → w_msgs w' = w_msgs w →
     db_queue (w_db w') = db_queue (w_db w) → vdp_queue (w_vdp w') = vdp_queue (w_vdp w) →
     w_ids w' = w_ids w → w_disp w' = w_disp w → Q tt w') → wp (load_put o) Q w.
Proof. intros HQ. by apply HQ. Qed.

(** Repeating a command changes its SHA only. *)
Lemma set_sha_call x p sha : script_call x p → script_call x (set_part_sha p sha).
Proof.
  unfold script_call. cbn. destruct (ep_user p); [intros (?&?&sha'&blob&->)|intros (?&?&sha'&->)|done]; (split; [done|]; split; [done|]).
  - by exists sha, blob.
  - by exists sha.
Qed.

Lemma load_reply_ok lc st r h C Ms w :
  stack h C Ms w → giveable (resume_conts (lc_resume lc)) h C Ms → resume_parts (lc_resume lc) →
  resume_sess (lc_resume lc) w → asks_for (resume_conts (lc_resume lc)) h (resume_call (lc_shard lc) (lc_script_id lc) (lc_resume lc)) →
  wp (load_reply_cb iu lc st r) (gives (resume_conts (lc_resume lc)) h C Ms) w.
Proof.
  intros HS Hg Hp Hs Ha. unfold load_reply_cb.
  assert (∀ m w, wp m (gives (resume_conts (lc_resume lc)) h C Ms) w →
    wp (_ ← m; load_put (lc_obj lc)) (gives (resume_conts (lc_resume lc)) h C Ms) w) as Hput.
  { intros m w1 Hm. apply wp_bind. eapply wp_mono; [exact Hm|]. intros [] w' Hw'.
    apply wp_load_put. intros. by eapply given_same. }
  destruct (if st =? RET_CODE_OK then _ else None) as [sha|].
  - apply wp_bind, wp_modify. apply Hput. set (w1 := set_script _ w).
    assert (stack h C Ms w1) as HS1 by (by eapply stk_same).
    destruct (lc_resume lc) as [p|]; [|exact HS1].
    apply (wp_issue_evalsha D iu (iu_fails D) (set_part_sha p sha)); try done.
    intros r' t x Hr Hh. destruct (Ha r' t x Hr Hh) as (_&_&Hc). by apply set_sha_call.
  - apply Hput. destruct (lc_resume lc) as [p|]; [|exact HS]. by apply wp_user_fail; [apply iu_fails|..].
Qed.

Lemma evalsha_reply_ok p st r h C Ms w :
  stack h C Ms w → giveable (user_conts (ep_user p)) h C Ms → user_parts (ep_user p) →
  user_sess (ep_user p) w → asks_for (user_conts (ep_user p)) h (λ x, script_call x p) →
  wp (evalsha_reply_cb iu p st r) (gives (user_conts (ep_user p)) h C Ms) w.
Proof.
  intros HS Hg Hp Hs Ha. unfold evalsha_reply_cb. case_match; [|by apply wp_user_reply].
  apply wp_bind. eapply wp_mono; [apply (wp_request_load _ _ (Some (set_retried p)) h C Ms); try done|].
  { intros r' t x Hr Hh. split; [done|]. split; [done|]. exact (Ha r' t x Hr Hh). }
  intros rc w1 [[[-> Hg1]|[-> HS1]] Hsp]; cbn; [exact Hg1|].
  apply wp_user_fail; try done; [apply iu_fails|]. unfold user_sess, sess_created in *. by rewrite Hsp.
Qed.

Lemma call_read_ok cb st f c ver arg h C Ms w :
  stack h C Ms w → giveable (cont_of (RRead cb c) arg) h C Ms →
  wp (call_read cb st f c ver arg) (gives (cont_of (RRead cb c) arg) h C Ms) w.
Proof.
  intros HS Hg. destruct cb; cbn [call_read]; apply call_given; try done.
  - apply mod_read_cb_ok; [apply iu_fails|apply iu_sess].
  - apply del_read_cb_ok.
Qed.

Lemma call_read_sess cb st f c ver arg : preserves (sess_created tt) (call_read cb st f c ver arg).
Proof. apply (call_read_pres _ _ sess_created_closed). Qed.

Lemma read_reply_ok p st r h C Ms w :
  stack h C Ms w → giveable (cont_of (RRead (rp_cb p) (rp_ctx p)) (rp_arg p)) h C Ms → sess_created tt w →
  wp (read_reply_cb call_read p st r) (gives (cont_of (RRead (rp_cb p) (rp_ctx p)) (rp_arg p)) h C Ms) w.
Proof.
  intros HS Hg Hs. unfold read_reply_cb. destruct (read_fields st r) as [[data ver]|].
  2: { apply wp_then_sess_put; [apply call_read_sess|done|by apply call_read_ok]. }
  case_match; [apply wp_then_sess_put; [apply call_read_sess|done|by apply call_read_ok]|].
  destruct (giveable_cont _ _ _ _ _ Hg ltac:(done)) as (t&x&Ha&->&Hok&HC&HM).
  assert (rp_ctx p ∈ C ++ amb_ctx D) as Hin.
  { rewrite elem_of_app, HC. left. destruct Hok as (_&[Hc _]&_). unfold ctx_refs. rewrite Hc. by left. }
  apply wp_bind. eapply wp_ctx_get; [exact HS|done|intros v].
  destruct (v_port_pdu_deserialize _ _) as [rc v']. apply wp_bind.
  apply wp_mono with (P := λ _ w', stack (Some (t, x)) C Ms w' ∧ sess_created tt w').
  { apply (wp_preserves (sess_created tt)); [apply (ctx_set_pres _ _ sess_created_closed)|done|].
    eapply wp_ctx_set; [exact HS|done|done]. }
  intros [] w1 [HS1 Hs1]. apply wp_then_sess_put; [case_match; apply call_read_sess|done|].
  case_match; by apply call_read_ok.
Qed.
End pod.

(** ** Events *)

Section events.
Context {DP : Dpdk} {PP : PfcpPort}.

(** Nothing is held between two events, nothing is followed. *)
Definition no_amb : ambient := Ambient [] [] None None.

(** A transaction and the requests may be followed across an event. *)
Variables (whom : option (Z * world)) (Ms0 : option (gmap Z pfcp_msg)).
Abbreviation amb := (Ambient [] [] whom Ms0).

Abbreviation stack := (stk amb).
Abbreviation gives k h C Ms := (λ (_ : ()) (w' : world), given amb k h C Ms w').

(** An object in flight shows that its pool exists. *)
Lemma held_created k o H w : pools_ok ((k, o) :: H) w → is_Some (pool_of k w).
Proof. intros HJ. destruct (pools_ok_put _ _ _ _ HJ) as (p&Hp&_). by exists p. Qed.

Lemma held_user_sess u H w : pools_ok (hold_user u ++ H) w → user_sess u w.
Proof. destruct u; cbn; intros HJ; try done; by apply (held_created PK_SESS) in HJ. Qed.

Lemma held_ep_sess p H w : pools_ok (hold_ep p ++ H) w → user_sess (ep_user p) w.
Proof.
  intros HJ. apply (held_user_sess _ ((PK_EVALSHA, ep_obj p) :: H)).
  eapply pools_ok_perm, HJ. unfold hold_ep. cbn. by rewrite Permutation_middle.
Qed.

(** A completed command resumes whatever its callback carries. *)
Lemma db_invoke_ok cb st r h C Ms H w :
  stack h C Ms w → can_give (cb_conts cb) h C Ms → cb_parts cb → pools_ok (hold_cb cb ++ H) w →
  asks_for (cb_conts cb) h (λ x, ∃ s argv, asks x s cb argv) →
  wp (db_invoke cb st r) (gives (cb_conts cb) h C Ms) w.
Proof.
  intros HS Hg Hp HJ Ha. destruct cb as [p|lc|p|p|part| | |p| |p|p|p]; cbn [db_invoke cb_conts hold_cb] in *.
  - apply evalsha_reply_ok; try done; [by eapply held_ep_sess|].
    intros r' t x Hr Hh. by destruct (Ha r' t x Hr Hh) as (s&argv&_&_&?).
  - apply load_reply_ok; try done.
    + destruct (lc_resume lc) as [p|]; [|done]. cbn.
      apply (held_ep_sess p ((PK_LOAD, lc_obj lc) :: H)). eapply pools_ok_perm, HJ. apply (Permutation_middle (hold_ep p) H).
    + intros r' t x Hr Hh. destruct (Ha r' t x Hr Hh) as (s&argv&Hlc). unfold resume_call. destruct (lc_resume lc) as [p|] eqn:Hres; [|done].
      by destruct (Hlc p Hres) as (->&->&->&_&?).
  - apply read_reply_ok; try done. by apply (held_created PK_SESS) in HJ.
  - unfold confirm_reply_cb. apply wp_then_sess_put.
    + apply (call_simple_pres _ _ sess_created_closed).
    + by apply (held_created PK_SESS) in HJ.
    + destruct (sp_cb p); cbn [call_simple]; [|exact HS]. apply call_given; try done. apply confirm_cb_ok.
  - by eapply wp_seid_reply; [exact HS| |].
  - exact HS.
  - exact HS.
  - unfold lookup_reply_cb. destruct (lookup_outcome st r) as [[st' hit] resp]. apply wp_bind.
    apply wp_mono with (P := λ _ w', given amb (cont_of (RLookup (rt_cb p)) (rt_arg p)) h C Ms w' ∧
      pools_ok ((PK_RETRANS, rt_obj p) :: H) w').
    { apply (wp_preserves (pools_ok ((PK_RETRANS, rt_obj p) :: H))); [apply (call_retrans_pres _ _ pools_flow_closed)|exact HJ|].
      destruct (rt_cb p); cbn [call_retrans]; apply call_given; try done.
      - apply lookup_cb_ok; [apply iu_fails|apply iu_sess].
      - apply mod_lookup_ok.
      - apply del_lookup_ok. }
    intros [] w' [Hg' [pool Hpool]%held_created]. cbn in Hpool. unfold wp, retrans_pending_put. rewrite Hpool.
    by eapply given_same.
  - exact HS.
  - unfold recovery_reply_cb. apply wp_bind. destruct (held_created _ _ _ _ HJ) as [pool Hpool]. cbn in Hpool.
    unfold wp, node_pending_put. rewrite Hpool. set (w1 := set_node _ w).
    assert (stack h C Ms w1) as HS1 by (by eapply stk_same).
    destruct (negb (st =? RET_CODE_OK)); [exact HS1|]. cbn. by eapply stk_same.
  - unfold simple_ack_cb. apply wp_bind. destruct (held_created _ _ _ _ HJ) as [pool Hpool]. cbn in Hpool.
    unfold wp, node_pending_put. rewrite Hpool. by eapply stk_same.
  - unfold assoc_query_reply_cb. apply wp_bind. destruct (held_created _ _ _ _ HJ) as [pool Hpool]. cbn in Hpool.
    unfold wp, node_pending_put. rewrite Hpool. destruct (assoc_outcome st r) as [[st' a] smf]. by eapply stk_same.
Qed.

(** The followed transaction is none of these. *)
Definition apart (k : list (role * Z)) : Prop := ∀ r t u w0, (r, t) ∈ k → whom = Some (u, w0) → t ≠ u.

(** Taking a continuation off a queue puts its transaction on the stack. *)
Lemma own_take k rest w w' :
  Own amb None [] [] w → conts w ≡ₚ k ++ rest → conts w' ≡ₚ rest → (length k ≤ 1)%nat →
  w_txns w' = w_txns w → w_ctxs w' = w_ctxs w → w_msgs w' = w_msgs w → w_ids w' = w_ids w → w_disp w' = w_disp w →
  (∀ c, c ∈ db_queue (w_db w') → c ∈ db_queue (w_db w)) → apart k →
  ∃ h C Ms, stack h C Ms w' ∧ can_give k h C Ms ∧ (∀ t x, h = Some (t, x) → hp_mem (w_txns w) !! t = Some x) ∧ (∀ w2, given amb k h C Ms w2 → Own amb None [] [] w2).
Proof.
  intros HO Hk Hk' Hlen Ht Hc Hm Hi Hd Hp Hap. pose proof HO as [H1 H2 H3 H4 H5 H6 H7 H8 H9 H10 H11 H12].
  destruct k as [|[r t] [|]]; [| |cbn in Hlen; lia].
  - exists None, [], []. split; [|split; [done|split; [done|by intros w2 [? _]]]]. split; [|done].
    split; rewrite ?Ht, ?Hc, ?Hm, ?Hd; try done.
    + by rewrite Hk', <- H4, Hk.
    + intros r t Hr. apply H7. by rewrite Hk, <- Hk'.
    + intros c Hcq. by apply H8, Hp.
    + unfold ids_total. by rewrite Hi.
    + apply (by_step amb _ _ _ _ _ _ HO); intros; by rewrite ?Ht, ?Hc, ?Hm.
  - destruct (H7 r t) as (x&Hx&Hok); [rewrite Hk; by left|].
    exists (Some (t, x)), (ctx_refs x), (req_refs x). split; [|split; [by exists x|split; [by intros ? ? [= <- <-]|by intros w2 ?]]].
    split; [|by rewrite Ht]. cbn [fmap option_fmap option_map fst].
    split; rewrite ?Ht, ?Hc, ?Hm, ?Hd; try done.
    + rewrite Hk', <- H4, Hk. cbn. solve_Permutation.
    + cbn [others]. rewrite <- H5. cbn [others]. rewrite (all_refs_delete ctx_refs _ _ _ Hx). solve_Permutation.
    + cbn [others]. rewrite <- H6. cbn [others]. rewrite (all_refs_delete req_refs _ _ _ Hx). solve_Permutation.
    + intros r' t' Hr. apply H7. rewrite Hk, Hk' in *. by right.
    + intros c Hcq. by apply H8, Hp.
    + unfold ids_total. by rewrite Hi.
    + intros u w0 Hb. destruct (H11 u w0 Hb) as (_&Hu&Hund). split; [|split; [done|]].
      * intros [= ->]. eapply (Hap r u u w0); [by left|exact Hb|done].
      * eapply undisturbed_step; [exact Hund|by rewrite Ht|intros; by rewrite Hc|intros; by rewrite Hm].
Qed.

Lemma cb_conts_length cb : (length (cb_conts cb) ≤ 1)%nat.
Proof.
  assert (∀ r a, (length (cont_of r a) ≤ 1)%nat) as Hc by (by intros r [] ; cbn; lia).
  assert (∀ u, (length (user_conts u) ≤ 1)%nat) as Hu.
  { intros [p|p|]; cbn; [unfold cas_conts, call_conts|unfold del_conts, call_conts|lia]; destruct (cp_cb p); try apply Hc; cbn; lia. }
  destruct cb as [p|lc|p|p|part| | |p| |p|p|p]; cbn; try lia; try done.
  - destruct (lc_resume lc); [done|cbn; lia].
  - case_match; [apply Hc|cbn; lia].
Qed.

(** ** Datagrams *)

Lemma own_disp D T C Ms w d :
  Own D T C Ms w → disp_ok (amb_disp D) d → Own D T C Ms (set_disp d w).
Proof. intros HO Hd. eapply own_frame; try done; [apply (o_cmds _ _ _ _ _ HO)|apply (o_ids _ _ _ _ _ HO)]. Qed.

Lemma rx_disp D buf peer d : disp_ok D d → disp_ok D (dispatch_rx buf peer d).
Proof.
  intros [Hwf Hp]. unfold dispatch_rx. case_match; [done|].
  destruct (heap_alloc _ _) as [[m h]|] eqn:Ea; [|done].
  destruct (live_alloc _ _ _ _ Hwf Ea) as (Hwf'&Hl&Hm&Hn).
  destruct (rte_ring_enqueue _ _) as [r|] eqn:Er; cbn.
  - apply ring_enqueue_inv in Er as (Hr&_&_). split; [done|]. cbn. rewrite Hl, <- Hp, Hr. solve_Permutation.
  - assert (hp_mem h !! m = Some (DispatchMsg buf (peer_bytes peer))) as Hg by (rewrite Hm; apply lookup_insert_eq).
    destruct (heap_free_spec m h _ Hwf' Hg) as (Hf&Hwf2&_). split; [done|]. cbn.
    rewrite (live_free _ _ _ Hg) in Hl. apply Permutation_cons_inv in Hl. by rewrite Hl.
Qed.

Lemma put_disp D m d : disp_ok (m :: D) d →
  disp_ok D (Dispatch (g_rx_ring d) (g_tx_ring d) (heap_free m (g_msg_pool d))).
Proof.
  intros [Hwf Hp]. assert (is_Some (hp_mem (g_msg_pool d) !! m)) as [x Hx].
  { apply live_elem. rewrite <- Hp, !elem_of_app. right; right. by left. }
  destruct (heap_free_spec m _ _ Hwf Hx) as (_&Hwf2&_). split; [done|]. cbn.
  rewrite (live_free _ _ _ Hx) in Hp. eapply Permutation_cons_inv. rewrite <- Hp. solve_Permutation.
Qed.

Lemma drain_ok D n : ∀ d, disp_ok D d → ∃ l d', dispatch_drain n d = Some (l, d') ∧ disp_ok D d'.
Proof.
  induction n as [|n IH]; intros d Hd; cbn [dispatch_drain]; [by eauto|].
  destruct (rte_ring_dequeue _) as [[m r]|] eqn:Er; [|by eauto].
  apply ring_dequeue_inv in Er as [Hr _]. destruct Hd as [Hwf Hp].
  assert (disp_ok (m :: D) (Dispatch (g_rx_ring d) r (g_msg_pool d))) as Hd1.
  { split; [done|]. cbn. rewrite <- Hp, Hr. solve_Permutation. }
  assert (is_Some (heap_get (g_msg_pool d) m)) as [x Hx].
  { apply live_elem. rewrite <- Hp, Hr, !elem_of_app. right; left. by left. }
  rewrite Hx. destruct (IH _ (put_disp _ _ _ Hd1)) as (l&d'&Hdr&Hd'). cbn in Hdr. rewrite Hdr. by eauto.
Qed.

(** One poll: the datagram is held by the worker while the handler runs. *)
Lemma poll_ok w : Ms0 = None → Own amb None [] [] w →
  wp (v_dispatch_worker_poll 1 v_flow_handle_msg) (λ _ w', Own amb None [] [] w') w.
Proof.
  intros HM HO. cbn. apply wp_bind. unfold wp, rx_dequeue.
  destruct (rte_ring_dequeue _) as [[m r]|] eqn:Er; [|exact HO].
  apply ring_dequeue_inv in Er as [Hr _].
  pose proof (o_disp _ _ _ _ _ HO) as [Hwf Hp]. cbn in Hp.
  set (d1 := Dispatch r (g_tx_ring (w_disp w)) (g_msg_pool (w_disp w))).
  assert (disp_ok [m] d1) as Hd1.
  { split; [done|]. cbn. rewrite <- Hp, Hr. solve_Permutation. }
  assert (Own (Ambient [m] [] whom Ms0) None [] [] (set_disp d1 w)) as HO1.
  { destruct HO. by split. }
  apply wp_bind.
  assert (is_Some (heap_get (g_msg_pool d1) m)) as [x Hx].
  { apply live_elem. rewrite <- (proj2 Hd1), !elem_of_app. right; right. by left. }
  unfold wp at 1, dispatch_msg_get. cbn [w_disp set_disp]. rewrite Hx.
  apply wp_bind. eapply wp_mono; [by apply (handle_msg_ok (Ambient [m] [] whom Ms0))|]. intros [] w2 HO2.
  apply wp_bind, wp_modify, wp_bind, wp_ret. 
  pose proof (put_disp [] m (w_disp w2) (o_disp _ _ _ _ _ HO2)) as Hd2.
  destruct HO2. by split.
Qed.

(** ** Every event *)

Lemma cmd_node shard cb argv w rc w' : v_port_db_cmd_argv shard cb argv w = Some (rc, w') → w_node w' = w_node w.
Proof.
  unfold v_port_db_cmd_argv. destruct (_ || _); [by intros [= _ <-]|].
  destruct (rte_mempool_get _) as [[??]|]; [|by intros [= _ <-]]. by destruct (db_accept _ _); intros [= _ <-].
Qed.

Definition is_timeout (e : event) : bool := match e with EvTimeout _ => true | _ => false end.

Lemma reconnect_ok s w : Own amb None [] [] w →
  wp (script_reconnect_cb s) (λ _ w', Own amb None [] [] w') w.
Proof.
  intros HO. assert (∀ id w, Own amb None [] [] w →
    wp (request_script_load s id None) (λ _ w', Own amb None [] [] w') w) as Hl.
  { intros id w1 HO1. eapply wp_mono; [by apply (wp_request_load amb s id None None [] []); [apply stk_own|..|apply asks_none]|].
    by intros rc w2 [[[_ ?%stk_own]|[_ ?%stk_own]] _]. }
  unfold script_reconnect_cb. repeat (apply wp_bind; eapply wp_mono; [by apply Hl|]; clear w HO; intros ? w HO).
  exact HO.
Qed.

(** A call of v_node_state from outside any procedure. *)
Lemma node_issue_ok key argv cb user w : is_Some (g_node_pool (w_node w)) →
  (∀ p, cb_conts (cb p) = [] ∧ cb_parts (cb p)) → Own amb None [] [] w →
  wp (node_issue key argv cb user) (λ _ w', Own amb None [] [] w') w.
Proof.
  intros [pool Hp] Hc HO. unfold node_issue. apply wp_bind. unfold wp at 1, node_pending_get. rewrite Hp.
  destruct (rte_mempool_get pool) as [[obj pool']|]; [|exact HO].
  apply wp_bind. set (w1 := set_node _ w). destruct (Hc (NodePending obj user)) as [Hc1 Hc2].
  assert (stk amb None [] [] w1) as HS1 by (apply stk_own; by eapply own_same).
  pose proof (cmd_none amb (v_port_db_shard_of key) _ argv None [] [] w1 HS1 Hc1 Hc2) as Hw.
  unfold wp at 1, v_port_db_cmd. unfold wp in Hw.
  destruct (v_port_db_cmd_argv _ _ _ w1) as [[rc w2]|] eqn:E; [|done]. apply stk_own in Hw.
  destruct (negb _); [|exact Hw]. apply cmd_node in E.
  apply wp_bind. unfold wp, node_pending_put. rewrite E. by eapply own_same.
Qed.

Lemma node_do_ok call user w : is_Some (g_node_pool (w_node w)) → Own amb None [] [] w →
  wp (node_do call user) (λ _ w', Own amb None [] [] w') w.
Proof.
  intros Hn HO. unfold wp. destruct (node_do_issue call user w) as (key&argv&cb&->&Hc).
  apply (node_issue_ok key argv cb user w Hn); [|done]. by destruct Hc as [[-> _]|[[-> _]|[-> _]]].
Qed.

Lemma call_vdp_ok cb res : resumes amb (RVdp cb) (λ t, call_vdp cb t res).
Proof.
  destruct cb; cbn [call_vdp].
  - apply vdp_create_cb_ok; [apply iu_fails|apply iu_sess].
  - apply mod_vdp_cb_ok; [apply iu_sess|intros p; apply iu_fails].
  - apply del_vdp_cb_ok; [apply iu_fails|apply iu_sess].
Qed.

(** The continuation that an event resumes. *)
Definition resumed (e : event) (w : world) : list (role * Z) :=
  match e with
  | EvReply i _ => match db_queue (w_db w) !! i with Some c => cb_conts (dc_cb c) | None => [] end
  | EvVdp i _ => match vdp_queue (w_vdp w) !! i with Some v => [(RVdp (vc_cb v), vc_arg v)] | None => [] end
  | _ => []
  end.

Lemma vdp_event_ok i res w : Own amb None [] [] w → apart (resumed (EvVdp i res) w) →
  wp (pod_step (EvVdp i res)) (λ _ w', Own amb None [] [] w') w.
Proof.
  intros HO. cbn [pod_step resumed]. intros Hap. apply wp_bind. unfold wp, take_vdp_call.
  destruct (vdp_queue (w_vdp w) !! i) as [v|] eqn:Ei; [|exact HO].
  set (w1 := set_vdp _ w).
  destruct (own_take [(RVdp (vc_cb v), vc_arg v)] (conts w1) w w1) as (h&C&Ms&HS&Hg&Hx&Hend); try done.
  - unfold conts. cbn. rewrite (delete_Permutation _ _ _ Ei) at 1. cbn. solve_Permutation.
  - destruct Hg as (x&->&Hok&HC&HM).
    eapply wp_mono; [apply (resume_given amb _ (λ t, call_vdp (vc_cb v) t res) _ x C Ms w1 (call_vdp_ok _ _) HS Hok HC HM)|].
    intros [] w2. apply Hend.
Qed.

Lemma reply_event_ok i r w : Own amb None [] [] w → pools_ok [] w → apart (resumed (EvReply i r) w) →
  wp (pod_step (EvReply i r)) (λ _ w', Own amb None [] [] w') w.
Proof.
  intros HO HJ. cbn [pod_step resumed]. intros Hap. apply wp_bind.
  destruct (take_db_cmd i w) as [[o w1]|] eqn:Et; [|by unfold take_db_cmd in Et; case_match].
  pose proof (take_db_cmd_pools _ _ _ _ _ HJ Et) as HJ1. unfold wp at 1. rewrite Et.
  unfold take_db_cmd in Et. destruct (db_queue (w_db w) !! i) as [c|] eqn:Ei; injection Et as <- <-; [|exact HO].
  set (w1 := set_db _ w) in *.
  destruct (own_take (cb_conts (dc_cb c)) (conts w1) w w1) as (h&C&Ms&HS&Hg&Hx&Hend); try done.
  - unfold conts. cbn. rewrite (delete_Permutation _ _ _ Ei) at 1. cbn. solve_Permutation.
  - apply cb_conts_length.
  - intros c' Hc'. cbn in Hc'. rewrite (delete_Permutation _ _ _ Ei). by right.
  - unfold on_reply. apply wp_bind.
    eapply wp_mono; [apply (db_invoke_ok _ _ _ h C Ms ((PK_DB, dc_obj c) :: []) w1 HS Hg)|].
    + apply (o_cmds _ _ _ _ _ HO). by eapply list_elem_of_lookup_2.
    + eapply pools_ok_perm, HJ1. unfold hold_cmd. cbn. by rewrite Permutation_cons_append, app_nil_r.
    + intros r' t x Hr Hh. exists (dc_shard c), (dc_argv c).
      destruct (o_cmds _ _ _ _ _ HO c) as [_ Hask]; [by eapply list_elem_of_lookup_2|]. by eapply Hask, Hx.
    + intros [] w2 Hg2. apply wp_modify. apply Hend. by eapply given_same.
Qed.

Lemma pod_step_apart e w :
  is_timeout e = false → apart (resumed e w) → (e = EvPoll → Ms0 = None) → Own amb None [] [] w → pools_ok [] w →
  wp (pod_step e) (λ _ w', Own amb None [] [] w') w.
Proof.
  intros He Hap HM HO HJ. destruct e; try done; cbn [pod_step].
  - apply wp_modify. apply own_disp; [done|]. apply rx_disp, (o_disp _ _ _ _ _ HO).
  - apply wp_bind. eapply wp_mono; [apply poll_ok; [by apply HM|done]|done].
  - by apply reply_event_ok.
  - by apply vdp_event_ok.
  - apply wp_bind. unfold wp, v_dispatch_io_drain_tx.
    destruct (drain_ok [] 1 (w_disp w) (o_disp _ _ _ _ _ HO)) as (l&d&->&Hd). by apply own_disp.
  - apply wp_modify. by eapply own_same.
  - by apply reconnect_ok.
  - apply wp_modify. by eapply own_same.
  - apply wp_modify. by eapply own_same.
  - apply wp_bind. unfold wp at 1, gets. destruct (g_node_pool (w_node w)) as [p|] eqn:Ep; [|exact HO].
    apply wp_bind. eapply wp_mono; [apply node_do_ok; [by rewrite Ep|done]|done].
Qed.
End events.

Section steps.
Context {DP : Dpdk} {PP : PfcpPort}.

Lemma pod_step_ok e w : is_timeout e = false → Own no_amb None [] [] w → pools_ok [] w →
  wp (pod_step e) (λ _ w', Own no_amb None [] [] w') w.
Proof. intros He HO HJ. by apply pod_step_apart. Qed.

(** The invariant with a transaction followed, and without. *)
Lemma own_follow whom Ms0 T C Ms w :
  (∀ u w0, whom = Some (u, w0) → T ≠ Some u ∧ is_Some (hp_mem (w_txns w0) !! u) ∧ undisturbed u w0 w) →
  (∀ M, Ms0 = Some M → hp_mem (w_msgs w) ⊆ M) →
  Own no_amb T C Ms w ↔ Own (Ambient [] [] whom Ms0) T C Ms w.
Proof. intros Hb Hm. split; intros []; by split. Qed.

(** An event disturbs no transaction but the one it resumes. *)
Lemma step_undisturbed e w w' u x :
  is_timeout e = false → Own no_amb None [] [] w → pools_ok [] w → hp_mem (w_txns w) !! u = Some x →
  (∀ r, (r, u) ∉ resumed e w) → pod_step e w = Some (tt, w') → undisturbed u w w'.
Proof.
  intros He HO HJ Hx Hu E. pose proof (pod_step_apart (Some (u, w)) None e w He) as Hs. unfold wp in Hs. rewrite E in Hs.
  refine (proj2 (proj2 (o_by _ _ _ _ _ (Hs _ _ _ HJ) u w eq_refl))); [|done|].
  - intros r t v w0 Hr [= <- _] ->. by eapply Hu.
  - apply own_follow; [|done|done]. intros v w0 [= <- <-]. split; [done|]. split; [by exists x|]. by split.
Qed.

(** An event other than the arrival of a request adds no request. *)
Lemma step_requests e w w' :
  is_timeout e = false → e ≠ EvPoll → Own no_amb None [] [] w → pools_ok [] w → pod_step e w = Some (tt, w') →
  hp_mem (w_msgs w') ⊆ hp_mem (w_msgs w).
Proof.
  intros He Hp HO HJ E. pose proof (pod_step_apart None (Some (hp_mem (w_msgs w))) e w He) as Hs. unfold wp in Hs. rewrite E in Hs.
  refine (o_less _ _ _ _ _ (Hs _ _ _ HJ) _ eq_refl); [by intros ? ? ? ? _|done|].
  apply own_follow; [done|by intros M [= <-]|done].
Qed.
End steps.
