(* ===== verification/Transport.v ===== *)
(** Component v_dispatch, properties: the two rings are first-in first-out
    channels of datagrams, byte for byte with the peer address; when a
    datagram is dropped; and when the buffer pool runs dry, which takes at
    least two buffers in the hands of workers. *)
From S2P Require Import Prelude Dpdk Heap Redis World DispatchQ Pools Own OwnPod.

Section transport.
Context {DP : Dpdk} {PP : PfcpPort}.
Implicit Types (d : dispatch) (h : heap v_dispatch_msg) (x : v_dispatch_msg).

(** The datagrams waiting in a ring. *)
Definition chan (h : heap v_dispatch_msg) (r : rte_ring) : list v_dispatch_msg := omap (heap_get h) (ring_items r).
Definition rx_view d := chan (g_msg_pool d) (g_rx_ring d).
Definition tx_view d := chan (g_msg_pool d) (g_tx_ring d).

Definition ring_full (r : rte_ring) : bool := ring_cap r <=? Z.of_nat (length (ring_items r)).
Definition oversized (buf : bytes) : bool := V_DISPATCH_MSG_MAX_BYTES <? Z.of_nat (length buf).

Definition ring_ok (r : rte_ring) : Prop :=
  ring_cap r = V_DISPATCH_RING_SIZE - 1 ∧ Z.of_nat (length (ring_items r)) <= ring_cap r.

(** The buffers in [D] are held by workers. *)
Record disp_wf (D : list Z) d : Prop := {
  dw_ok : disp_ok D d;
  dw_total : heap_total (g_msg_pool d) = V_DISPATCH_POOL_CAP;
  dw_rx : ring_ok (g_rx_ring d);
  dw_tx : ring_ok (g_tx_ring d);
}.

#[local] Opaque V_DISPATCH_MSG_MAX_BYTES.

Lemma live_size {A} (h : heap A) : length (live h) = size (hp_mem h).
Proof. unfold live. rewrite length_fmap. apply length_map_to_list. Qed.

(** The pool is dry when rings and workers hold all buffers. *)
Definition exhausted (D : list Z) d : bool :=
  V_DISPATCH_POOL_CAP <=? Z.of_nat (length (ring_items (g_rx_ring d)) + length (ring_items (g_tx_ring d)) + length D).

Lemma pool_left D d : disp_wf D d → exhausted D d = bool_decide (mp_free (hp_pool (g_msg_pool d)) = []).
Proof.
  intros [[_ Hp] Ht _ _]. apply Permutation_length in Hp. rewrite live_size, !length_app in Hp.
  unfold heap_total in Ht. unfold exhausted.
  destruct (mp_free _) as [|p l]; cbn [length] in Ht.
  - rewrite bool_decide_true by done. apply Z.leb_le. lia.
  - rewrite bool_decide_false by done. apply Z.leb_gt. lia.
Qed.

(** The rings alone never hold all buffers, nor with one more. *)
Lemma exhausted_held D d : disp_wf D d → exhausted D d = true → (2 <= length D)%nat.
Proof.
  intros [_ _ [Hc1 Hl1] [Hc2 Hl2]] H%Z.leb_le. unfold V_DISPATCH_POOL_CAP in H. lia.
Qed.

(** A channel only depends on the buffers it holds. *)
Lemma chan_ext h h' r : (∀ m, m ∈ ring_items r → heap_get h' m = heap_get h m) → chan h' r = chan h r.
Proof.
  unfold chan. generalize (ring_items r). intros l. induction l as [|m l IH]; intros H; [done|]. cbn.
  rewrite H by left. rewrite IH; [done|]. intros. apply H. by right.
Qed.

Lemma ring_live D d m : disp_ok D d → m ∈ ring_items (g_rx_ring d) ∨ m ∈ ring_items (g_tx_ring d) →
  is_Some (hp_mem (g_msg_pool d) !! m).
Proof. intros [_ Hp] Hm. apply live_elem. rewrite <- Hp, !elem_of_app. tauto. Qed.

(** A new buffer is in no channel. *)
Lemma chan_alloc D d a p h r : disp_ok D d → heap_alloc a (g_msg_pool d) = Some (p, h) →
  (∀ m, m ∈ ring_items r → m ∈ ring_items (g_rx_ring d) ∨ m ∈ ring_items (g_tx_ring d)) →
  chan h r = chan (g_msg_pool d) r.
Proof.
  intros Hd Ha Hr. pose proof Hd as [Hwf _]. apply heap_alloc_Some in Ha as (Hn&Hm&_); [|done].
  apply chan_ext. intros m Hin. unfold heap_get. rewrite Hm, lookup_insert_ne; [done|]. intros <-.
  destruct (ring_live D d p Hd (Hr p Hin)) as [x Hx]. congruence.
Qed.

(** Storing a datagram in one ring leaves the invariant. *)
Lemma disp_wf_push D d a p h r r' (rx : bool) :
  disp_wf D d → heap_alloc a (g_msg_pool d) = Some (p, h) →
  r = (if rx then g_rx_ring d else g_tx_ring d) → rte_ring_enqueue r p = Some r' →
  let d' := if rx then Dispatch r' (g_tx_ring d) h else Dispatch (g_rx_ring d) r' h in
  disp_wf D d' ∧ rx_view d' = rx_view d ++ (if rx then [a] else []) ∧ tx_view d' = tx_view d ++ (if rx then [] else [a]).
Proof.
  intros Hw Ha Hr He. pose proof Hw as [Hd Ht Hrx Htx]. pose proof Hd as [Hwf Hp].
  pose proof (heap_alloc_Some _ _ _ _ Hwf Ha) as (Hn&Hm&Hwf'&Htot).
  destruct (live_alloc _ _ _ _ Hwf Ha) as (_&Hl&_&_).
  apply ring_enqueue_inv in He as (Hi&Hc&Hlt). subst r.
  assert (heap_get h p = Some a) as Hg by (unfold heap_get; rewrite Hm; apply lookup_insert_eq).
  assert (ring_ok r') as Hok by (destruct rx; [destruct Hrx|destruct Htx]; split; rewrite ?Hc, ?Hi, ?length_app; cbn; lia).
  destruct rx; cbn zeta; (split; [split; [split; [done|]|by rewrite <- Ht|done|done]|]); cbn.
  1, 3: rewrite Hl, <- Hp, Hi; solve_Permutation.
  - unfold rx_view, tx_view. cbn. rewrite app_nil_r. split; [|apply (chan_alloc D d a p h); [done|done|by right]].
    rewrite <- (chan_alloc D d a p h (g_rx_ring d)) by (done || by left).
    unfold chan. rewrite Hi, omap_app. cbn. by rewrite Hg.
  - unfold rx_view, tx_view. cbn. rewrite app_nil_r. split; [apply (chan_alloc D d a p h); [done|done|by left]|].
    rewrite <- (chan_alloc D d a p h (g_tx_ring d)) by (done || by right).
    unfold chan. rewrite Hi, omap_app. cbn. by rewrite Hg.
Qed.

(** A full ring: the buffer goes back, nothing changes. *)
Lemma disp_wf_drop D d a p h : disp_wf D d → heap_alloc a (g_msg_pool d) = Some (p, h) →
  let d' := Dispatch (g_rx_ring d) (g_tx_ring d) (heap_free p h) in
  disp_wf D d' ∧ rx_view d' = rx_view d ∧ tx_view d' = tx_view d.
Proof.
  intros [Hd Ht Hrx Htx] Ha. pose proof Hd as [Hwf Hp].
  pose proof (heap_alloc_Some _ _ _ _ Hwf Ha) as (Hn&Hm&Hwf'&Htot).
  destruct (live_alloc _ _ _ _ Hwf Ha) as (_&Hl&_&_).
  assert (hp_mem h !! p = Some a) as Hg by (rewrite Hm; apply lookup_insert_eq).
  destruct (heap_free_spec p h a Hwf' Hg) as (Hf&Hwf2&Htot2).
  assert (∀ r, (∀ m, m ∈ ring_items r → m ∈ ring_items (g_rx_ring d) ∨ m ∈ ring_items (g_tx_ring d)) →
    chan (heap_free p h) r = chan (g_msg_pool d) r) as Hch.
  { intros r Hr. apply chan_ext. intros m Hin. unfold heap_get. rewrite Hf, lookup_delete_ne, Hm, lookup_insert_ne; [done|..];
      intros <-; destruct (ring_live D d p Hd (Hr p Hin)) as [x Hx]; congruence. }
  cbn zeta. split; [|by split; apply Hch; [left|right]]. split; [|cbn; by rewrite Htot2, Htot|done|done].
  split; [done|]. cbn. rewrite (live_free _ _ _ Hg) in Hl. apply Permutation_cons_inv in Hl. by rewrite Hl.
Qed.

Lemma enqueue_full r (x : Z) : ring_full r = true → rte_ring_enqueue r x = None.
Proof. unfold ring_full. intros H%Z.leb_le. by apply ring_enqueue_full. Qed.

Lemma enqueue_room r (x : Z) : ring_full r = false → ∃ r', rte_ring_enqueue r x = Some r'.
Proof. unfold ring_full. intros H%Z.leb_gt. destruct (ring_enqueue_ok r x H) as (r'&?&_). by exists r'. Qed.

(** Taking the oldest buffer out of a ring. *)
Lemma chan_pop D d (rx : bool) m r :
  disp_wf D d → rte_ring_dequeue (if rx then g_rx_ring d else g_tx_ring d) = Some (m, r) →
  let d1 := if rx then Dispatch r (g_tx_ring d) (g_msg_pool d) else Dispatch (g_rx_ring d) r (g_msg_pool d) in
  disp_wf (m :: D) d1 ∧ ∃ x, heap_get (g_msg_pool d) m = Some x ∧
    rx_view d = (if rx then [x] else []) ++ rx_view d1 ∧ tx_view d = (if rx then [] else [x]) ++ tx_view d1.
Proof.
  intros [Hd Ht Hrx Htx] Hr. apply ring_dequeue_inv in Hr as [Hi Hc].
  assert (is_Some (heap_get (g_msg_pool d) m)) as [x Hx].
  { apply (ring_live D d m Hd). destruct rx; [left|right]; rewrite Hi; left. }
  assert (ring_ok r) as Hok.
  { destruct rx; [destruct Hrx as [Hc0 Hl]|destruct Htx as [Hc0 Hl]]; rewrite Hi in Hl; cbn in Hl; split; rewrite ?Hc; lia. }
  destruct Hd as [Hwf Hp]. destruct rx; cbn zeta; (split; [split; try done; split; [done|]|]); cbn.
  1, 3: rewrite <- Hp, Hi; solve_Permutation.
  all: exists x; split; [done|]; split; try done; unfold rx_view, tx_view, chan; cbn; rewrite Hi; cbn; by rewrite Hx.
Qed.

(** Releasing a buffer that no ring holds. *)
Lemma chan_put D d m :
  disp_wf (m :: D) d → let d' := Dispatch (g_rx_ring d) (g_tx_ring d) (heap_free m (g_msg_pool d)) in
  disp_wf D d' ∧ rx_view d' = rx_view d ∧ tx_view d' = tx_view d.
Proof.
  intros [Hd Ht Hrx Htx]. pose proof (put_disp D m d Hd) as Hd'. destruct Hd as [Hwf Hp].
  assert (is_Some (hp_mem (g_msg_pool d) !! m)) as [x Hx].
  { apply live_elem. rewrite <- Hp, !elem_of_app. right; right. by left. }
  destruct (heap_free_spec m _ x Hwf Hx) as (Hf&_&Htot).
  assert (NoDup (live (g_msg_pool d))) as Hnd by apply NoDup_fst_map_to_list.
  rewrite <- Hp in Hnd. assert (ring_items (g_rx_ring d) ++ ring_items (g_tx_ring d) ++ m :: D ≡ₚ
    m :: (ring_items (g_rx_ring d) ++ ring_items (g_tx_ring d)) ++ D) as Hperm by solve_Permutation.
  rewrite Hperm in Hnd. apply NoDup_cons in Hnd as [Hnin _].
  cbn zeta. split; [by split; cbn; rewrite ?Htot|].
  split; apply chan_ext; intros k Hk; unfold heap_get; cbn [g_msg_pool]; rewrite Hf, lookup_delete_ne; try done; intros ->;
    apply Hnin; rewrite !elem_of_app; tauto.
Qed.

Lemma drain_spec n : ∀ D d, disp_wf D d →
  ∃ d', dispatch_drain n d = Some (take n (tx_view d), d') ∧ disp_wf D d' ∧ tx_view d' = drop n (tx_view d) ∧ rx_view d' = rx_view d.
Proof.
  induction n as [|n IH]; intros D d Hw; cbn [dispatch_drain]; [by exists d|].
  destruct (rte_ring_dequeue (g_tx_ring d)) as [[m r]|] eqn:Er.
  - destruct (chan_pop D d false m r Hw Er) as (Hw1&x&Hx&Hrx&Htx). rewrite Hx.
    destruct (chan_put D _ m Hw1) as (Hw2&Hrx2&Htx2). cbn in Hw2, Hrx2, Htx2.
    destruct (IH D _ Hw2) as (d'&Hdr&Hw'&Ht'&Hr'). rewrite Hdr. exists d'. rewrite Htx. cbn. rewrite <- Htx2.
    split; [done|]. split; [done|]. split; [done|]. rewrite Hr', Hrx2. by rewrite Hrx.
  - apply ring_dequeue_None in Er. exists d.
    assert (tx_view d = []) as -> by (unfold tx_view, chan; by rewrite Er). by rewrite drop_nil.
Qed.

Lemma alloc_exhausted D d (a : v_dispatch_msg) : disp_wf D d →
  if exhausted D d then heap_alloc a (g_msg_pool d) = None else ∃ p h, heap_alloc a (g_msg_pool d) = Some (p, h).
Proof.
  intros Hw. rewrite (pool_left D d Hw). case_bool_decide as He.
  - destruct (heap_alloc a (g_msg_pool d)) as [[p h]|] eqn:Ea; [|done]. unfold heap_alloc in Ea.
    by rewrite (proj2 (mp_get_none _) He) in Ea.
  - destruct (heap_alloc a (g_msg_pool d)) as [[p h]|] eqn:Ea; [by exists p, h|]. by apply heap_alloc_None in Ea.
Qed.

Lemma rx_spec D d buf peer : disp_wf D d →
  let d' := dispatch_rx buf peer d in
  disp_wf D d' ∧ tx_view d' = tx_view d ∧
  rx_view d' = if oversized buf || exhausted D d || ring_full (g_rx_ring d) then rx_view d
               else rx_view d ++ [DispatchMsg buf (peer_bytes peer)].
Proof.
  intros Hw. unfold dispatch_rx. fold (oversized buf). destruct (oversized buf); [done|]. cbn [orb].
  pose proof (alloc_exhausted D d (DispatchMsg buf (peer_bytes peer)) Hw) as Ha.
  destruct (exhausted D d); [by rewrite Ha|]. destruct Ha as (p&h&Ha). rewrite Ha. cbn [orb].
  destruct (ring_full (g_rx_ring d)) eqn:Ef.
  - rewrite enqueue_full by done. by destruct (disp_wf_drop D d _ p h Hw Ha) as (?&?&?).
  - destruct (enqueue_room _ p Ef) as [r Hr]. rewrite Hr.
    destruct (disp_wf_push D d _ p h _ r true Hw Ha eq_refl Hr) as (?&?&Htx). rewrite app_nil_r in Htx. done.
Qed.

Lemma tx_spec D d buf peer : disp_wf D d →
  let '(rc, d') := dispatch_tx_enqueue buf peer d in
  disp_wf D d' ∧ rx_view d' = rx_view d ∧
  if oversized buf || exhausted D d || ring_full (g_tx_ring d) then rc = RET_CODE_ERR ∧ tx_view d' = tx_view d
  else rc = RET_CODE_OK ∧ tx_view d' = tx_view d ++ [DispatchMsg buf (peer_bytes peer)].
Proof.
  intros Hw. unfold dispatch_tx_enqueue. fold (oversized buf). destruct (oversized buf); [done|]. cbn [orb].
  pose proof (alloc_exhausted D d (DispatchMsg buf (peer_bytes peer)) Hw) as Ha.
  destruct (exhausted D d); [by rewrite Ha|]. destruct Ha as (p&h&Ha). rewrite Ha. cbn [orb].
  destruct (ring_full (g_tx_ring d)) eqn:Ef.
  - rewrite enqueue_full by done. by destruct (disp_wf_drop D d _ p h Hw Ha) as (?&?&?).
  - destruct (enqueue_room _ p Ef) as [r Hr]. rewrite Hr.
    destruct (disp_wf_push D d _ p h _ r false Hw Ha eq_refl Hr) as (?&Hrx&?). rewrite app_nil_r in Hrx. done.
Qed.

(** Taking the oldest received datagram. *)
Lemma take_spec D d : disp_wf D d →
  match rx_view d with
  | [] => rte_ring_dequeue (g_rx_ring d) = None
  | x :: l => ∃ m r, let d1 := Dispatch r (g_tx_ring d) (g_msg_pool d) in
      rte_ring_dequeue (g_rx_ring d) = Some (m, r) ∧ heap_get (g_msg_pool d) m = Some x ∧
      disp_wf (m :: D) d1 ∧ rx_view d1 = l ∧ tx_view d1 = tx_view d
  end.
Proof.
  intros Hw. destruct (rte_ring_dequeue (g_rx_ring d)) as [[m r]|] eqn:Er.
  - destruct (chan_pop D d true m r Hw Er) as (Hw1&x&Hx&Hrx&Htx). rewrite Hrx. cbn. by exists m, r.
  - apply ring_dequeue_None in Er. unfold rx_view, chan. by rewrite Er.
Qed.

(** C22: the dispatch rings are first-in first-out channels of datagrams.  [D]
    are the buffers that workers hold.  An arriving or outgoing datagram is
    dropped exactly when it exceeds V_DISPATCH_MSG_MAX_BYTES, or rings and
    workers hold all buffers of the pool, or its ring is full; otherwise it is
    appended with its bytes and its peer, and the other ring is unchanged.  A
    worker takes the oldest received datagram, the I/O core drains the oldest
    outgoing ones in order, exactly as they were enqueued, and a buffer given
    back leaves both rings as they were.  The pool only runs dry while workers
    hold at least two buffers: one worker never sees it, the four of a
    deployment can. *)
Theorem datagram_channels D d :
  disp_wf D d →
  (∀ buf peer, let d' := dispatch_rx buf peer d in
     disp_wf D d' ∧ tx_view d' = tx_view d ∧
     rx_view d' = if oversized buf || exhausted D d || ring_full (g_rx_ring d) then rx_view d
                  else rx_view d ++ [DispatchMsg buf (peer_bytes peer)]) ∧
  (∀ buf peer, let '(rc, d') := dispatch_tx_enqueue buf peer d in
     disp_wf D d' ∧ rx_view d' = rx_view d ∧
     if oversized buf || exhausted D d || ring_full (g_tx_ring d) then rc = RET_CODE_ERR ∧ tx_view d' = tx_view d
     else rc = RET_CODE_OK ∧ tx_view d' = tx_view d ++ [DispatchMsg buf (peer_bytes peer)]) ∧
  (∀ w, w_disp w = d →
     match rx_view d with
     | [] => rx_dequeue w = Some (None, w)
     | x :: l => ∃ m d1, rx_dequeue w = Some (Some m, set_disp d1 w) ∧
         dispatch_msg_get m (set_disp d1 w) = Some (x, set_disp d1 w) ∧
         disp_wf (m :: D) d1 ∧ rx_view d1 = l ∧ tx_view d1 = tx_view d
     end) ∧
  (∀ w m D', w_disp w = d → D = m :: D' → ∃ d1, dispatch_msg_put m w = Some (tt, set_disp d1 w) ∧
     disp_wf D' d1 ∧ rx_view d1 = rx_view d ∧ tx_view d1 = tx_view d) ∧
  (∀ n, ∃ d', dispatch_drain n d = Some (take n (tx_view d), d') ∧ disp_wf D d' ∧
     tx_view d' = drop n (tx_view d) ∧ rx_view d' = rx_view d) ∧
  (exhausted D d = true → (2 <= length D)%nat).
Proof.
  intros Hw. split; [intros buf peer; by apply rx_spec|]. split; [intros buf peer; by apply tx_spec|].
  split; [|split; [|split; [intros n; by apply drain_spec|by apply exhausted_held]]].
  - intros w Hd. pose proof (take_spec D d Hw) as Ht. unfold rx_dequeue, dispatch_msg_get. rewrite Hd.
    destruct (rx_view d) as [|x l]; [by rewrite Ht|]. destruct Ht as (m&r&Hr&Hx&H). rewrite Hr.
    exists m, (Dispatch r (g_tx_ring d) (g_msg_pool d)). cbn. rewrite Hx. by destruct H as (?&?&?).
  - intros w m D' Hd ->. eexists. unfold dispatch_msg_put, modify. rewrite Hd. split; [done|]. exact (chan_put D' d m Hw).
Qed.

Lemma init_wf d : v_dispatch_init = Some d → disp_wf [] d ∧ rx_view d = [] ∧ tx_view d = [].
Proof.
  unfold v_dispatch_init. destruct (rte_mempool_create V_DISPATCH_POOL_CAP) as [mp|] eqn:Emp; [|done].
  destruct (rte_ring_create V_DISPATCH_RING_SIZE) as [r|] eqn:Er; [|done]. intros [= <-].
  apply ring_create_law in Er as [Er Ec]. apply mp_create_law in Emp as [Hnd Hlen].
  unfold rx_view, tx_view, chan. cbn [g_rx_ring g_tx_ring]. rewrite Er. split; [|done].
  assert (ring_ok r) as Hok by (split; [done|]; rewrite Er, Ec; unfold V_DISPATCH_RING_SIZE; cbn; lia).
  assert (heap_wf (Heap mp (∅ : gmap Z v_dispatch_msg))) as Hwf by (split; [done|]; intros p _; apply lookup_empty).
  split; cbn; try done.
  - split; [done|]. unfold live. cbn [hp_mem g_msg_pool g_rx_ring g_tx_ring]. by rewrite map_to_list_empty, Er.
  - unfold heap_total. cbn. rewrite map_size_empty. lia.
Qed.

(** A worker poll hands the handler the oldest received datagram, with
    nothing left out, and holds exactly that buffer while the handler runs;
    an empty ring ends the poll, whose count is bounded by [max]. *)
Theorem poll_takes_oldest w handler n :
  disp_wf [] (w_disp w) →
  match rx_view (w_disp w) with
  | [] => v_dispatch_worker_poll n handler w = Some (0, w)
  | x :: l => ∃ m d1, disp_wf [m] d1 ∧ rx_view d1 = l ∧ tx_view d1 = tx_view (w_disp w) ∧
      v_dispatch_worker_poll (S n) handler w =
        (_ ← handler x; _ ← dispatch_msg_put m; k ← v_dispatch_worker_poll n handler; mret (k + 1)) (set_disp d1 w)
  end ∧
  (∀ k w', v_dispatch_worker_poll n handler w = Some (k, w') → 0 <= k <= Z.of_nat n).
Proof.
  intros Hw. split.
  - destruct (rte_ring_dequeue (g_rx_ring (w_disp w))) as [[m r]|] eqn:Er.
    + destruct (chan_pop [] (w_disp w) true m r Hw Er) as (Hw1&x&Hx&Hrx&Htx). rewrite Hrx. cbn.
      eexists m, _. split; [exact Hw1|]. split; [done|]. split; [by rewrite Htx|].
      unfold mbind at 1, SM_bind at 1. unfold rx_dequeue. rewrite Er. cbn.
      unfold mbind at 1, SM_bind at 1. unfold dispatch_msg_get. cbn. by rewrite Hx.
    + pose proof Er as Hi%ring_dequeue_None. assert (rx_view (w_disp w) = []) as ->.
      { unfold rx_view, chan. by rewrite Hi. }
      destruct n as [|n]; [done|]. cbn. unfold mbind, SM_bind, rx_dequeue. by rewrite Er.
  - clear Hw. revert w. induction n as [|n IH]; intros w k w'; cbn [v_dispatch_worker_poll].
    { intros [= <- _]. lia. }
    intros (w1&[m|]&_&Hr)%bind_Some_inv; [|injection Hr as <- <-; lia].
    apply bind_Some_inv in Hr as (w2&x&_&(w3&_&_&(w4&_&_&(w5&j&Hj&[= <- <-])%bind_Some_inv)%bind_Some_inv)%bind_Some_inv).
    apply IH in Hj. lia.
Qed.
End transport.
