(* ===== verification/Races.v ===== *)
(** Workers running at the same time.  Everywhere else an operation runs to
    its end before the next one begins; here the statements of two operations
    that workers execute concurrently, creating the pending pool of
    v_retrans_cache and creating a transaction, interleave freely. *)
From S2P Require Import Prelude Dpdk Heap Redis World RetransCache StubTxn.

(** ** Threads over a shared state *)

Section threads.
Context {pc sh : Type}.
Variable tstep : pc → sh → pc * sh.

(** One statement of thread [i]. *)
Definition sys_step (i : nat) (st : list pc * sh) : list pc * sh :=
  match st.1 !! i with
  | Some p => let '(p', s') := tstep p st.2 in (<[i := p']> st.1, s')
  | None => st
  end.

Definition sys_run (sched : list nat) (st : list pc * sh) : list pc * sh := foldl (λ st i, sys_step i st) st sched.

(** A property of every thread and one of the shared state. *)
Definition sys_holds (P : pc → Prop) (Q : sh → Prop) (st : list pc * sh) : Prop := Forall P st.1 ∧ Q st.2.

Lemma sys_run_holds (P : pc → Prop) (Q : sh → Prop) sched :
  (∀ p s, P p → Q s → P (tstep p s).1 ∧ Q (tstep p s).2) → ∀ st, sys_holds P Q st → sys_holds P Q (sys_run sched st).
Proof.
  intros Hstep. induction sched as [|i sched IH]; intros st Hst; [done|]. cbn. apply IH. unfold sys_step.
  destruct st as [ts s]. destruct Hst as [Ht Hs]. cbn in *. destruct (ts !! i) as [p|] eqn:Ei; [|done].
  pose proof (Forall_lookup_1 _ _ _ _ Ht Ei) as Hp. destruct (Hstep p s Hp Hs) as [Hp' Hs']. destruct (tstep p s) as [p' s'].
  split; [|done]. by apply Forall_insert.
Qed.

End threads.

(** ** The pending pool of v_retrans_cache *)

Section pool.
Context {DP : Dpdk} {PP : PfcpPort}.

(** The names of the pools that exist, kept by rte_mempool_create: it makes a
    pool under a new name, and refuses (EEXIST) a name that is taken. *)
Variable names : Type.
Variable taken : names → bool.
Variable create : names → option rte_mempool * names.
Hypothesis create_taken : ∀ n, taken n = true → create n = (None, n).
Hypothesis create_takes : ∀ n p n', create n = (Some p, n') → taken n' = true.

Record pool_state := PoolState { g_pool : option rte_mempool; pool_names : names }.

(** ensure_pool, statement by statement: the test, the call, the store of its
    result, the second test. *)
Inductive ensure_pc :=
  | PTest
  | PCreate
  | PStore (o : option rte_mempool)
  | PRetest
  | PDone (rc : Z).

Definition ensure_step (p : ensure_pc) (s : pool_state) : ensure_pc * pool_state :=
  match p with
  | PTest => (match g_pool s with Some _ => PDone RET_CODE_OK | None => PCreate end, s)
  | PCreate => let '(o, n) := create (pool_names s) in (PStore o, PoolState (g_pool s) n)
  | PStore o => (PRetest, PoolState o (pool_names s))
  | PRetest => (match g_pool s with Some _ => PDone RET_CODE_OK | None => PDone RET_CODE_ERR end, s)
  | PDone rc => (PDone rc, s)
  end.

(** A call that is not interrupted is [retrans_ensure_pool]. *)
Lemma ensure_alone w n :
  (create n).1 = rte_mempool_create V_RETRANS_PENDING_POOL_CAP →
  ∃ rc w' s', retrans_ensure_pool w = Some (rc, w') ∧
    sys_run ensure_step [0; 0; 0; 0]%nat ([PTest], PoolState (w_retrans_pool w) n) = ([PDone rc], s') ∧ g_pool s' = w_retrans_pool w'.
Proof.
  intros Hc. unfold retrans_ensure_pool. destruct (w_retrans_pool w) as [p|] eqn:Ep.
  - exists RET_CODE_OK, w, (PoolState (Some p) n). done.
  - rewrite <- Hc. destruct (create n) as [[p|] n'] eqn:E.
    + eexists _, _, (PoolState (Some p) n'). split; [done|]. split; [|done]. cbn. unfold sys_step. cbn. rewrite E. done.
    + eexists _, _, (PoolState None n'). split; [done|]. split; [|done]. cbn. unfold sys_step. cbn. rewrite E. done.
Qed.

(** With a pool, nothing goes wrong, however the calls interleave. *)
Lemma ensure_warm p n k sched :
  let st := sys_run ensure_step sched (replicate k PTest, PoolState (Some p) n) in
  g_pool st.2 = Some p ∧ ∀ rc, PDone rc ∈ st.1 → rc = RET_CODE_OK.
Proof.
  intros st. destruct (sys_run_holds ensure_step (λ q, q = PTest ∨ q = PDone RET_CODE_OK) (λ s, g_pool s = Some p) sched) with
    (st := (replicate k PTest, PoolState (Some p) n)) as [Ht Hs].
  - intros q s [-> | ->] Hs; cbn; [rewrite Hs|]; auto.
  - split; [|done]. apply Forall_replicate. by left.
  - split; [exact Hs|]. intros rc Hrc. rewrite Forall_forall in Ht. destruct (Ht _ Hrc) as [[=]|[= ->]]. done.
Qed.

(** Without a pool and with its name taken, no call ever succeeds again. *)
Definition dead (s : pool_state) : Prop := g_pool s = None ∧ taken (pool_names s) = true.

Lemma ensure_dead s k sched :
  dead s → let st := sys_run ensure_step sched (replicate k PTest, s) in
  dead st.2 ∧ ∀ rc, PDone rc ∈ st.1 → rc = RET_CODE_ERR.
Proof.
  intros Hd st. destruct (sys_run_holds ensure_step (λ q, match q with PStore o => o = None | PDone rc => rc = RET_CODE_ERR | _ => True end)
    dead sched) with (st := (replicate k PTest, s)) as [Ht Hs].
  - intros q s' Hq [Hn Hk]. destruct q; cbn; rewrite ?Hn; auto.
    + by split; [|split].
    + rewrite create_taken by done. by split; [|split].
    + subst o. by split; [|split].
    + by split; [|split].
    + by split; [|split].
  - split; [|done]. by apply Forall_replicate.
  - split; [exact Hs|]. intros rc Hrc. rewrite Forall_forall in Ht. exact (Ht _ Hrc).
Qed.

(** C38: two first calls can ruin the pool for good.  The pool of pending
    lookups is created by the first call of v_retrans_lookup, which workers
    make for the first datagrams.  Two calls at the same time can both find no
    pool; both create one, the second creation is refused because the name is
    taken, and its NULL can overwrite the first pool.  Then the first caller
    has been told that there is a pool and dereferences NULL; and from then
    on, whatever calls are made and however they interleave, there never is a
    pool again and each call fails: v_retrans_lookup refuses every request,
    which v_flow then drops. *)
Theorem lazy_pool_race s p n' :
  g_pool s = None → create (pool_names s) = (Some p, n') →
  ∃ sched s', sys_run ensure_step sched ([PTest; PTest], s) = ([PDone RET_CODE_OK; PDone RET_CODE_ERR], s') ∧
    (∀ k sched', let st := sys_run ensure_step sched' (replicate k PTest, s') in
       g_pool st.2 = None ∧ (create (pool_names st.2)).1 = None ∧ ∀ rc, PDone rc ∈ st.1 → rc = RET_CODE_ERR) ∧
    (∀ w, w_retrans_pool w = g_pool s' → retrans_pending_get w = None) ∧
    (∀ w part smf seq cb t, w_retrans_pool w = g_pool s' →
       rte_mempool_create V_RETRANS_PENDING_POOL_CAP = (create (pool_names s')).1 →
       v_retrans_lookup part smf seq cb (Some t) w = Some (RET_CODE_ERR, w)).
Proof.
  intros Hg Hc. pose proof (create_takes _ _ _ Hc) as Ht.
  assert (dead (PoolState None n')) as Hd by done.
  exists [0; 1; 0; 1; 0; 0; 1; 1]%nat, (PoolState None n'). split; [|split; [|split]].
  - destruct s as [g n]. cbn in Hg, Hc. subst g. cbn. unfold sys_step. cbn. rewrite Hc. cbn. rewrite create_taken by done. done.
  - intros k sched'. destruct (ensure_dead _ k sched' Hd) as [[H1 H2] H3]. split; [exact H1|]. split; [by rewrite create_taken|exact H3].
  - intros w Hw. unfold retrans_pending_get. by rewrite Hw.
  - intros w part smf seq cb t Hw Hcap. unfold v_retrans_lookup, mbind, SM_bind, retrans_ensure_pool.
    rewrite Hw. cbn [g_pool]. rewrite Hcap. cbn [pool_names]. by rewrite create_taken.
Qed.

End pool.

(** ** The slots of v_stub_txn *)

Section slots.
Context {DP : Dpdk} {PP : PfcpPort}.

(** v_port_txn_create, statement by statement: the search for a slot, the
    object from the pool, the store into the slot. *)
Inductive create_pc :=
  | TSearch
  | TGet (slot : nat)
  | TStore (slot : nat) (t : Z)
  | TDone (o : option Z).

Definition create_step (p : create_pc) (T : txn_table) : create_pc * txn_table :=
  match p with
  | TSearch => (match free_slot (g_slots T) with None => TDone None | Some i => TGet i end, T)
  | TGet i =>
      match heap_alloc (with_deadline (u64 (g_now_ms T + V_STUB_TXN_HARD_TIMEOUT_MS)) txn_zero) (tt_heap T) with
      | None => (TDone None, T)
      | Some (t, h) => (TStore i t, TxnTable h (g_slots T) (g_fired T) (g_now_ms T))
      end
  | TStore i t => (TDone (Some t), TxnTable (tt_heap T) (<[i := Some t]> (g_slots T)) (<[i := false]> (g_fired T)) (g_now_ms T))
  | TDone o => (TDone o, T)
  end.

(** A call that is not interrupted is [v_port_txn_create]. *)
Lemma create_alone T :
  sys_run create_step [0; 0; 0]%nat ([TSearch], T) = ([TDone (v_port_txn_create T).1], (v_port_txn_create T).2).
Proof.
  unfold v_port_txn_create, sys_run, sys_step. cbn. destruct (free_slot (g_slots T)) as [i|]; cbn; [|done].
  destruct (heap_alloc _ _) as [[t h]|]; done.
Qed.

Lemma slot_of_absent t l : t ∉ occupied l → slot_of t l = None.
Proof.
  intros Hn. destruct (slot_of t l) as [i|] eqn:E; [|done]. apply slot_of_Some in E. destruct Hn. apply occupied_lookup. by exists i.
Qed.

(** C39: two workers can be given one slot.  From any table with a free slot
    and two objects left, two creations at the same time can find the same
    slot and both succeed.  The transaction whose entry is overwritten is live
    but in no slot: no hard timeout ever fires for it, and v_port_txn_destroy
    takes it for a foreign pointer, so that its object is never released. *)
Theorem slot_race T i :
  table_ok T → free_slot (g_slots T) = Some i → (2 <= length (mp_free (hp_pool (tt_heap T))))%nat →
  ∃ sched T' t u, sys_run create_step sched ([TSearch; TSearch], T) = ([TDone (Some t); TDone (Some u)], T') ∧
    t ≠ u ∧ is_Some (hp_mem (tt_heap T') !! t) ∧ (t ∉ occupied (g_slots T')) ∧ v_port_txn_destroy t T' = T'.
Proof.
  intros HT Hi Hfree. set (x := with_deadline (u64 (g_now_ms T + V_STUB_TXN_HARD_TIMEOUT_MS)) txn_zero).
  destruct (heap_alloc x (tt_heap T)) as [[t h1]|] eqn:E1.
  2: { apply heap_alloc_None in E1. rewrite E1 in Hfree. cbn in Hfree. lia. }
  destruct (heap_alloc_Some _ _ _ _ (ok_heap _ HT) E1) as (Hn1&Hm1&Hwf1&_).
  destruct (heap_alloc x h1) as [[u h2]|] eqn:E2.
  2: { apply heap_alloc_None in E2. unfold heap_alloc in E1. destruct (rte_mempool_get _) as [[o pool]|] eqn:Eg; [|done].
       injection E1 as -> <-. apply mp_get_law in Eg. cbn in E2. rewrite Eg, E2 in Hfree. cbn in Hfree. lia. }
  destruct (heap_alloc_Some _ _ _ _ Hwf1 E2) as (Hn2&Hm2&_).
  assert (t ≠ u) as Htu by (intros ->; by rewrite Hm1, lookup_insert_eq in Hn2).
  assert (t ∉ occupied (<[i := Some u]> (<[i := Some t]> (g_slots T)))) as Ht.
  { intros [k Hk]%occupied_lookup. rewrite list_insert_insert_eq in Hk. apply list_lookup_insert_Some in Hk as [(_&[= ?]&_)|[_ Hk]]; [done|].
    assert (t ∈ occupied (g_slots T)) as Hl by (apply occupied_lookup; by exists k).
    apply (ok_live _ HT) in Hl as [y Hy]. congruence. }
  exists [0; 1; 0; 1; 0; 1]%nat, (TxnTable h2 (<[i := Some u]> (<[i := Some t]> (g_slots T)))
    (<[i := false]> (<[i := false]> (g_fired T))) (g_now_ms T)), t, u.
  split; [|split; [done|split; [|split; [exact Ht|]]]].
  - unfold sys_run, sys_step. cbn. rewrite Hi. cbn. fold x. rewrite E1. cbn. fold x. by rewrite E2.
  - cbn. rewrite Hm2, lookup_insert_ne, Hm1, lookup_insert_eq by done. by eexists.
  - unfold v_port_txn_destroy. cbn [g_slots]. by rewrite slot_of_absent.
Qed.

End slots.
