(* ===== verification/Boot.v ===== *)
(** Startup (main.c): the initial state of a pod before any datagram is
    accepted.  The event loop of main.c and the worker loops are the events
    of Pod.v; [wait_until] pumps completions, which are those events too. *)
From S2P Require Import Prelude Seid Dpdk Heap Redis World DbScript SessStore RetransCache IdAlloc.
From S2P Require Import DispatchQ NodeState Flow Sweeper Pod Pools.
From S2P Require StubTxn.

Definition VPE_CTX_POOL_CAP : Z := 65536.
Definition V_STUB_PFCP_MSG_POOL_CAP : Z := 4096.
Definition g_node_id : bytes := [zero; "001"%char; "002"%char; "003"%char].

Section boot.
Context {DP : Dpdk} {PP : PfcpPort}.

(** A pool of [cap] objects, none of them live. *)
Definition heap_create {A} (cap : Z) : option (heap A) :=
  match rte_mempool_create cap with Some p => Some (Heap p ∅) | None => None end.

(** v_port_db_init: the pending pool and a context for every shard (commands
    are accepted from here on); establishment comes later, as events. *)
Definition v_port_db_init (accept : nat → bool) : option db_port :=
  match rte_mempool_create V_STUB_DB_PENDING_CAP with
  | Some p => Some (DbPort (λ s, (0 <=? s) && (s <? V_STUB_DB_SHARDS)) p [] 0 accept)
  | None => None
  end.

(** The static storage of the modules that have no init function of their own. *)
Definition node_zero : node_state := NodeState [] [] 0 false None.
Definition ids_zero : id_alloc := IdAlloc ∅ ∅ ∅ ∅ ∅ false.

(** main up to v_node_state_init: each failing step is [goto fail]. *)
Definition pod_boot (db_accept vdp_accept : nat → bool) (addr pid now : Z) : option world :=
  ctxs ← heap_create VPE_CTX_POOL_CAP;
  txns ← heap_create StubTxn.V_STUB_TXN_CAP;
  script ← v_db_script_init V_STUB_DB_SHARDS;
  db ← v_port_db_init db_accept;
  disp ← v_dispatch_init;
  msgs ← heap_create V_STUB_PFCP_MSG_POOL_CAP;
  let w := World txns ctxs msgs db (VdpPort [] 0 vdp_accept) script None None ids_zero disp node_zero 0 0 now in
  match (_ ← v_flow_init addr pid; v_node_state_init g_node_id) w with
  | Some (rc, w') => if rc =? RET_CODE_OK then Some w' else None
  | None => None
  end.


End boot.
