(* ===== verification/StubDb.v ===== *)
(** Component v_stub_db, connections: the array of hiredis contexts, one per
    shard, their callbacks, and command dispatch over them.  hiredis is a
    parameter.  [db_rel] relates the array to the port of World.v, which only
    keeps whether a shard has a context. *)
From S2P Require Import Prelude Dpdk Heap Redis World Pools.
From S2P Require Pod Boot.

(** What the stub relies on in hiredis and libevent.  [redisAsyncConnect n
    live] is the outcome of the n-th call while [live] are the contexts not
    yet released: NULL, or a new context with its [err] flag;
    [redis_free_calls_back c]: whether freeing [c] runs the disconnect
    callback. *)
Class Hiredis := {
  redisAsyncConnect : nat → gset Z → option (Z * bool);
  redis_free_calls_back : Z → bool;
  event_base_new : bool;
  redis_connect_fresh n live c e : redisAsyncConnect n live = Some (c, e) → c ∉ live;
}.

Section stub_db.
Context {DP : Dpdk} {PP : PfcpPort} {HI : Hiredis}.

(** The static variables, and of hiredis: which contexts are not released,
    each context's [data] and the commands queued on the connections. *)
Record db_conn := DbConn {
  g_base : bool;
  g_ctx : list (option Z);
  g_pending_pool : option rte_mempool;
  g_reconnect_cb : bool;
  cn_no : nat;
  cn_live : gset Z;
  cn_data : gmap Z Z;
  cn_queue : list db_cmd;
  cn_issue_no : nat;
  cn_accept : nat → bool;
}.

(** Static storage *)
Definition conn_zero (accept : nat → bool) : db_conn :=
  DbConn false (replicate (Z.to_nat V_STUB_DB_SHARDS) None) None false 0 ∅ ∅ [] 0 accept.

Definition set_base b s := DbConn b (g_ctx s) (g_pending_pool s) (g_reconnect_cb s) (cn_no s) (cn_live s)
  (cn_data s) (cn_queue s) (cn_issue_no s) (cn_accept s).
Definition set_ctx l s := DbConn (g_base s) l (g_pending_pool s) (g_reconnect_cb s) (cn_no s) (cn_live s)
  (cn_data s) (cn_queue s) (cn_issue_no s) (cn_accept s).
Definition set_pool p s := DbConn (g_base s) (g_ctx s) p (g_reconnect_cb s) (cn_no s) (cn_live s)
  (cn_data s) (cn_queue s) (cn_issue_no s) (cn_accept s).
Definition set_live l s := DbConn (g_base s) (g_ctx s) (g_pending_pool s) (g_reconnect_cb s) (cn_no s) l
  (cn_data s) (cn_queue s) (cn_issue_no s) (cn_accept s).

(** v_port_db_on_reconnect *)
Definition v_port_db_on_reconnect (s : db_conn) : db_conn :=
  DbConn (g_base s) (g_ctx s) (g_pending_pool s) true (cn_no s) (cn_live s)
    (cn_data s) (cn_queue s) (cn_issue_no s) (cn_accept s).

(** v_port_db_shard_count *)
Definition v_port_db_shard_count : Z := V_STUB_DB_SHARDS.

(** The context of a shard; an index outside the array is undefined. *)
Definition ctx_of (shard : Z) (s : db_conn) : option (option Z) :=
  if shard <? 0 then None else g_ctx s !! Z.to_nat shard.

(** shard_connect *)
Definition shard_connect (shard : Z) : SM db_conn Z := λ s,
  let bump s := DbConn (g_base s) (g_ctx s) (g_pending_pool s) (g_reconnect_cb s) (S (cn_no s)) (cn_live s)
    (cn_data s) (cn_queue s) (cn_issue_no s) (cn_accept s) in
  match redisAsyncConnect (cn_no s) (cn_live s) with
  | None => Some (RET_CODE_ERR, bump s)
  | Some (_, true) => Some (RET_CODE_ERR, bump s) (* redisAsyncFree(ctx) *)
  | Some (c, false) =>
      match ctx_of shard s with
      | None => None
      | Some _ =>
          Some (RET_CODE_OK,
            DbConn (g_base s) (<[Z.to_nat shard := Some c]> (g_ctx s)) (g_pending_pool s) (g_reconnect_cb s)
              (S (cn_no s)) ({[c]} ∪ cn_live s) (<[c := shard]> (cn_data s)) (cn_queue s) (cn_issue_no s) (cn_accept s))
      end
  end.

(** connect_cb: the shard the reconnect callback is called for, if any *)
Definition connect_cb (c : Z) (status_ok : bool) (s : db_conn) : option Z :=
  if negb status_ok then None
  else if g_reconnect_cb s then cn_data s !! c else None.

(** disconnect_cb *)
Definition disconnect_cb (c : Z) : SM db_conn () := λ s,
  match cn_data s !! c with
  | Some shard => Some (tt, set_ctx (<[Z.to_nat shard := None]> (g_ctx s)) s)
  | None => None
  end.

(** redisAsyncFree; releasing a context twice is undefined *)
Definition redisAsyncFree (c : Z) : SM db_conn () := λ s,
  if decide (c ∈ cn_live s) then
    (_ ← modify (λ s, set_live (cn_live s ∖ {[c]}) s);
     if redis_free_calls_back c then disconnect_cb c else mret tt) s
  else None.

(** The loop of v_port_db_init over the shards *)
Fixpoint connect_all (shards : list Z) : SM db_conn Z :=
  match shards with
  | [] => mret RET_CODE_OK
  | i :: l =>
      rc ← shard_connect i;
      if negb (rc =? RET_CODE_OK) then mret RET_CODE_ERR else connect_all l
  end.

(** v_port_db_init *)
Definition v_port_db_init : SM db_conn Z := λ s,
  if g_base s then Some (RET_CODE_ERR, s)
  else if negb event_base_new then Some (RET_CODE_ERR, s)
  else
    let s := set_base true s in
    match rte_mempool_create V_STUB_DB_PENDING_CAP with
    | None => Some (RET_CODE_ERR, s)
    | Some p => connect_all (seqZ 0 V_STUB_DB_SHARDS) (set_pool (Some p) s)
    end.

(** v_port_db_fini *)
Definition fini_shard (i : Z) : SM db_conn () := λ s,
  match ctx_of i s with
  | None => None
  | Some None => Some (tt, s)
  | Some (Some c) =>
      (_ ← redisAsyncFree c; modify (λ s, set_ctx (<[Z.to_nat i := None]> (g_ctx s)) s)) s
  end.

Fixpoint fini_all (shards : list Z) : SM db_conn () :=
  match shards with [] => mret tt | i :: l => _ ← fini_shard i; fini_all l end.

Definition v_port_db_fini : SM db_conn () :=
  _ ← fini_all (seqZ 0 V_STUB_DB_SHARDS);
  modify (λ s, set_base false (set_pool None s)).

(** v_stub_db_test_force_reconnect *)
Definition v_stub_db_test_force_reconnect (shard : Z) : SM db_conn Z := λ s,
  if V_STUB_DB_SHARDS <=? shard then Some (RET_CODE_ERR, s)
  else
    match ctx_of shard s with
    | None => None
    | Some (Some c) => (_ ← redisAsyncFree c; shard_connect shard) s
    | Some None => shard_connect shard s
    end.

(** pending_get *)
Definition pending_get : SM db_conn (option Z) := λ s,
  match g_pending_pool s with
  | None => None
  | Some pool =>
      match rte_mempool_get pool with
      | None => Some (None, s)
      | Some (p, pool') => Some (Some p, set_pool (Some pool') s)
      end
  end.

(** redisAsyncCommandArgv on a context: the command is queued, or refused; a
    released context is undefined behaviour. *)
Definition redisAsyncCommandArgv (c : Z) (cmd : db_cmd) : SM db_conn bool := λ s,
  if decide (c ∈ cn_live s) then
    let ok := cn_accept s (cn_issue_no s) in
    Some (ok, DbConn (g_base s) (g_ctx s) (g_pending_pool s) (g_reconnect_cb s) (cn_no s) (cn_live s) (cn_data s)
      (if ok then cn_queue s ++ [cmd] else cn_queue s) (S (cn_issue_no s)) (cn_accept s))
  else None.

(** v_port_db_cmd_argv *)
Definition v_port_db_cmd_argv (shard : Z) (cb : v_db_cb_t) (argv : list bytes) : SM db_conn Z := λ s,
  if V_STUB_DB_SHARDS <=? shard then Some (RET_CODE_ERR, s)
  else
    match ctx_of shard s with
    | None => None
    | Some None => Some (RET_CODE_ERR, s)
    | Some (Some c) =>
        (o ← pending_get;
         match o with
         | None => mret RET_CODE_ERR
         | Some p =>
             ok ← redisAsyncCommandArgv c (DbCmd shard argv cb p);
             if (ok : bool) then mret RET_CODE_OK
             else
               _ ← modify (λ s, set_pool ((λ pool, rte_mempool_put pool p) <$> g_pending_pool s) s);
               mret RET_CODE_ERR
         end) s
    end.

(** v_port_db_cmd, with the format already split into arguments *)
Definition v_port_db_cmd := v_port_db_cmd_argv.

(** ** The invariant: the array holds exactly the live contexts *)

Record conn_ok (s : db_conn) : Prop := {
  co_len : length (g_ctx s) = Z.to_nat V_STUB_DB_SHARDS;
  co_ctx i c : g_ctx s !! i = Some (Some c) → c ∈ cn_live s ∧ cn_data s !! c = Some (Z.of_nat i);
  co_live c : c ∈ cn_live s → ∃ i, g_ctx s !! i = Some (Some c);
}.

(** The port of World.v keeps, of the array, which entries are set. *)
Record db_rel (s : db_conn) (d : db_port) : Prop := {
  dr_pool : g_pending_pool s = Some (db_pending_pool d);
  dr_conn i : (i < Z.to_nat V_STUB_DB_SHARDS)%nat →
    db_connected d (Z.of_nat i) = match g_ctx s !! i with Some (Some _) => true | _ => false end;
  dr_queue : cn_queue s = db_queue d;
  dr_no : cn_issue_no s = db_issue_no d;
  dr_accept : cn_accept s = db_accept d;
}.

(** [db_connected] after an event on one shard *)
Definition connected_upd (shard : Z) (b : bool) (d : db_port) : db_port :=
  DbPort (λ i, if i =? shard then b else db_connected d i) (db_pending_pool d) (db_queue d) (db_issue_no d) (db_accept d).

Lemma ctx_of_nat i s : ctx_of (Z.of_nat i) s = g_ctx s !! i.
Proof. unfold ctx_of. rewrite (proj2 (Z.ltb_ge _ _)) by lia. by rewrite Nat2Z.id. Qed.

(** A new context in an empty entry. *)
Lemma conn_ok_set i c s s' :
  conn_ok s → (i < Z.to_nat V_STUB_DB_SHARDS)%nat → g_ctx s !! i = Some None → c ∉ cn_live s →
  g_ctx s' = <[i := Some c]> (g_ctx s) → cn_live s' = {[c]} ∪ cn_live s →
  cn_data s' = <[c := Z.of_nat i]> (cn_data s) → conn_ok s'.
Proof.
  intros [Hlen Hctx Hlive] Hi Hn Hc Ec El Ed. split; rewrite ?Ec, ?El, ?Ed.
  - by rewrite length_insert.
  - intros j x. destruct (decide (j = i)) as [->|Hne].
    + rewrite list_lookup_insert_eq by (by rewrite Hlen). intros [= <-].
      split; [by apply elem_of_union_l, elem_of_singleton|apply lookup_insert_eq].
    + rewrite list_lookup_insert_ne by done. intros [Hx Hd]%Hctx. split; [by apply elem_of_union_r|].
      by rewrite lookup_insert_ne by (by intros ->).
  - intros x [->%elem_of_singleton|Hx]%elem_of_union.
    + exists i. apply list_lookup_insert_eq. by rewrite Hlen.
    + destruct (Hlive x Hx) as [j Hj]. exists j. rewrite list_lookup_insert_ne; [done|]. intros ->. congruence.
Qed.

(** A released context whose entry is cleared. *)
Lemma conn_ok_clear i c s s' :
  conn_ok s → g_ctx s !! i = Some (Some c) →
  g_ctx s' = <[i := None]> (g_ctx s) → cn_live s' = cn_live s ∖ {[c]} → cn_data s' = cn_data s → conn_ok s'.
Proof.
  intros [Hlen Hctx Hlive] Hi Ec El Ed. split; rewrite ?Ec, ?El, ?Ed.
  - by rewrite length_insert.
  - intros j x. destruct (decide (j = i)) as [->|Hne].
    + rewrite list_lookup_insert_eq by (by eapply lookup_lt_Some). done.
    + rewrite list_lookup_insert_ne by done. intros Hj. destruct (Hctx _ _ Hj) as [Hx Hd]. split; [|done].
      apply elem_of_difference. split; [done|]. intros ->%elem_of_singleton.
      destruct (Hctx _ _ Hi) as [_ Hd2]. rewrite Hd2 in Hd. injection Hd as Hd. lia.
  - intros x [Hx Hn]%elem_of_difference. destruct (Hlive x Hx) as [j Hj]. exists j.
    rewrite list_lookup_insert_ne; [done|]. intros ->. rewrite Hi in Hj. injection Hj as ->.
    by apply Hn, elem_of_singleton.
Qed.

(** Any entry: a live context, or none. *)
Lemma ctx_cases i s : conn_ok s → (i < Z.to_nat V_STUB_DB_SHARDS)%nat →
  g_ctx s !! i = Some None ∨ ∃ c, g_ctx s !! i = Some (Some c) ∧ c ∈ cn_live s.
Proof.
  intros Hok Hi. destruct (lookup_lt_is_Some_2 (g_ctx s) i) as [[c|] Hc]; [by rewrite (co_len _ Hok)| |by left].
  right. exists c. split; [done|]. by apply (co_ctx _ Hok) in Hc as [? _].
Qed.

Lemma rel_upd i b s s' d :
  db_rel s d → (∀ j, (j < Z.to_nat V_STUB_DB_SHARDS)%nat →
    match g_ctx s' !! j with Some (Some _) => true | _ => false end =
    if decide (j = i) then b else match g_ctx s !! j with Some (Some _) => true | _ => false end) →
  g_pending_pool s' = g_pending_pool s → cn_queue s' = cn_queue s → cn_issue_no s' = cn_issue_no s →
  cn_accept s' = cn_accept s → db_rel s' (connected_upd (Z.of_nat i) b d).
Proof.
  intros [] Hc Hp Hq Hn Ha. split; cbn; try congruence. intros j Hj. rewrite Hc by done.
  destruct (decide (j = i)) as [->|Hne]; [by rewrite Z.eqb_refl|].
  rewrite (proj2 (Z.eqb_neq _ _)) by lia. auto.
Qed.

(** Opening a connection in an empty entry, as [Pod.EvConnect]. *)
Lemma shard_connect_ok i s d rc s' :
  conn_ok s → db_rel s d → (i < Z.to_nat V_STUB_DB_SHARDS)%nat → g_ctx s !! i = Some None →
  shard_connect (Z.of_nat i) s = Some (rc, s') →
  conn_ok s' ∧ (rc = RET_CODE_OK ∧ is_Some (g_ctx s' !! i ≫= id) ∧ db_rel s' (connected_upd (Z.of_nat i) true d) ∨
                rc = RET_CODE_ERR ∧ g_ctx s' = g_ctx s ∧ db_rel s' d).
Proof.
  intros Hok Hrel Hi Hn. unfold shard_connect. rewrite ctx_of_nat, Hn, Nat2Z.id.
  destruct (redisAsyncConnect _ _) as [[c [|]]|] eqn:Ec.
  1, 3: intros [= <- <-]; split; [by destruct Hok; split|right; split; [done|split; [done|by destruct Hrel; split]]].
  apply redis_connect_fresh in Ec. intros [= <- <-].
  split; [by eapply (conn_ok_set i c s)|]. left. split; [done|].
  assert (i < length (g_ctx s))%nat as Hl by (by rewrite (co_len _ Hok)).
  split; [cbn; rewrite list_lookup_insert_eq by done; by eexists|].
  apply (rel_upd i true s); try done. intros j Hj. cbn. destruct (decide (j = i)) as [->|Hne].
  - by rewrite list_lookup_insert_eq.
  - by rewrite list_lookup_insert_ne.
Qed.

Lemma connect_all_ok (n : nat) : ∀ (k : nat) s d rc s',
  (k + n)%nat = Z.to_nat V_STUB_DB_SHARDS → conn_ok s → db_rel s d →
  (∀ i, (i < k)%nat → is_Some (g_ctx s !! i ≫= id)) →
  (∀ i, (k <= i < Z.to_nat V_STUB_DB_SHARDS)%nat → g_ctx s !! i = Some None) →
  connect_all (seqZ (Z.of_nat k) (Z.of_nat n)) s = Some (rc, s') →
  conn_ok s' ∧ g_base s' = g_base s ∧ (rc = RET_CODE_OK → ∃ f, db_rel s' (DbPort f (db_pending_pool d) (db_queue d) (db_issue_no d) (db_accept d)) ∧
    ∀ i, (i < Z.to_nat V_STUB_DB_SHARDS)%nat → is_Some (g_ctx s' !! i ≫= id)).
Proof.
  induction n as [|n IH]; intros k s d rc s' Hk Hok Hrel Hlo Hhi.
  { cbn. intros [= <- <-]. split; [done|]. split; [done|]. intros _. exists (db_connected d). split; [by destruct d|].
    intros i Hi. apply Hlo. lia. }
  rewrite seqZ_cons by lia. cbn [connect_all].
  replace (Z.succ (Z.of_nat k)) with (Z.of_nat (S k)) by lia. replace (Z.pred (Z.of_nat (S n))) with (Z.of_nat n) by lia.
  unfold mbind at 1, SM_bind at 1.
  destruct (shard_connect (Z.of_nat k) s) as [[rc1 s1]|] eqn:Es; [|done].
  assert (g_base s1 = g_base s) as Hb1.
  { unfold shard_connect in Es. repeat case_match; simplify_eq; done. }
  pose proof (shard_connect_ok k s d rc1 s1 Hok Hrel ltac:(lia) (Hhi k ltac:(lia)) Es) as [Hok1 Hc].
  destruct Hc as [(->&Hset&Hrel1)|(->&_&_)]; cbn [negb Z.eqb].
  2: { intros [= <- <-]. done. }
  assert (∀ j, j ≠ k → g_ctx s1 !! j = g_ctx s !! j) as Hoth.
  { intros j Hj. unfold shard_connect in Es. rewrite ctx_of_nat, Nat2Z.id in Es.
    repeat case_match; simplify_eq. cbn. by rewrite list_lookup_insert_ne. }
  intros Hr. destruct (IH (S k) s1 (connected_upd (Z.of_nat k) true d) rc s') as (H1&H2&H3); try done; [lia| | |].
  - intros i Hi. destruct (decide (i = k)) as [->|]; [done|]. rewrite Hoth by done. apply Hlo. lia.
  - intros i Hi. rewrite Hoth by lia. apply Hhi. lia.
  - split; [done|]. split; [congruence|]. intros Hrc. destruct (H3 Hrc) as (f&Hf&?). by exists f.
Qed.

Lemma conn_zero_ok accept : conn_ok (conn_zero accept).
Proof.
  split; cbn [conn_zero g_ctx cn_live cn_data].
  - apply length_replicate.
  - intros i c [H _]%lookup_replicate. done.
  - intros c Hc. by apply elem_of_empty in Hc.
Qed.

(** Start of the database port.  v_port_db_init succeeds only with a
    distinct live context in every entry; the port then is in the state the
    pod model starts from. *)
Theorem db_init_connects accept s :
  v_port_db_init (conn_zero accept) = Some (RET_CODE_OK, s) →
  conn_ok s ∧ g_base s = true ∧ (∀ i, (i < Z.to_nat V_STUB_DB_SHARDS)%nat → ∃ c, g_ctx s !! i = Some (Some c)) ∧
  ∃ d, Boot.v_port_db_init accept = Some d ∧ db_rel s d.
Proof.
  unfold v_port_db_init, Boot.v_port_db_init. cbn [g_base conn_zero]. destruct event_base_new; cbn [negb]; [|done].
  destruct (rte_mempool_create V_STUB_DB_PENDING_CAP) as [p|] eqn:Ep; [|done]. intros Hr.
  set (s0 := set_pool _ _) in Hr. set (d0 := DbPort (λ _, false) p [] 0 accept).
  destruct (connect_all_ok (Z.to_nat V_STUB_DB_SHARDS) 0 s0 d0 RET_CODE_OK s) as (Hok&Hb&Hc); try done.
  - destruct (conn_zero_ok accept) as [H1 H2 H3]. by split.
  - split; try done. intros i Hi. cbn. by rewrite lookup_replicate_2.
  - intros i Hi. lia.
  - intros i Hi. cbn [s0 set_pool set_base conn_zero g_ctx]. apply lookup_replicate_2. lia.
  - destruct (Hc eq_refl) as (f&Hrel&Hall). split; [done|]. split; [done|].
    assert (∀ i, (i < Z.to_nat V_STUB_DB_SHARDS)%nat → ∃ c, g_ctx s !! i = Some (Some c)) as Hall'.
    { intros i Hi. specialize (Hall i Hi). destruct (g_ctx s !! i) as [[c|]|]; [by exists c|by destruct Hall..]. }
    split; [done|]. eexists. split; [done|]. destruct Hrel as [Hp _ Hq Hn Ha]. split; try done.
    intros i Hi. destruct (Hall' i Hi) as [c ->]. cbn [db_connected].
    assert (Z.of_nat i < V_STUB_DB_SHARDS) by lia. lia.
Qed.

(** hiredis releases a context once its disconnect (or failed connect)
    callback has run. *)
Definition release (c : Z) : SM db_conn () := modify (λ s, set_live (cn_live s ∖ {[c]}) s).

Lemma cmd_refines s w shard cb argv :
  conn_ok s → db_rel s (w_db w) → 0 <= shard →
  ∃ rc s' w', v_port_db_cmd_argv shard cb argv s = Some (rc, s') ∧
    World.v_port_db_cmd_argv shard cb argv w = Some (rc, w') ∧ conn_ok s' ∧ db_rel s' (w_db w').
Proof.
  intros Hok Hrel Hs. unfold v_port_db_cmd_argv, World.v_port_db_cmd_argv.
  destruct (Z.leb_spec V_STUB_DB_SHARDS shard) as [Hge|Hlt]; cbn [orb]; [by eexists _, _, _|].
  rewrite <- (Z2Nat.id shard) by done. set (i := Z.to_nat shard). assert (i < Z.to_nat V_STUB_DB_SHARDS)%nat as Hi by lia.
  rewrite ctx_of_nat, (dr_conn _ _ Hrel i Hi).
  destruct (ctx_cases i s Hok Hi) as [->|(c&->&Hc)]; cbn [negb]; [by eexists _, _, _|].
  pose proof Hrel as [Hp _ Hq Hn Ha]. unfold mbind, SM_bind, pending_get. rewrite Hp.
  destruct (rte_mempool_get (db_pending_pool (w_db w))) as [[p pool]|] eqn:Eg; [|by eexists _, _, _].
  unfold redisAsyncCommandArgv. cbn [set_pool cn_live cn_accept cn_issue_no]. rewrite decide_True by done.
  rewrite Ha, Hn. assert (conn_ok (set_pool (Some pool) s)) as Hok1 by (by destruct Hok; split).
  destruct (db_accept (w_db w) (db_issue_no (w_db w))); eexists _, _, _; (split; [reflexivity|]); (split; [reflexivity|]);
    (split; [by destruct Hok; split|]); destruct Hrel as [? Hconn _ _ _]; split; cbn; try done; by rewrite ?Hq.
Qed.

(** C21: the connection array implements the port of the pod model.  A command
    is accepted or refused with the same result and the same effect on the
    pending pool and on the queue; a lost connection, once released, is the
    pod's disconnect event and a completed connect the pod's reconnect event
    of its shard; both keep the array equal to the set of live contexts. *)
Theorem stub_db_refines_port s w :
  conn_ok s → db_rel s (w_db w) →
  (∀ shard cb argv, 0 <= shard → ∃ rc s' w', v_port_db_cmd_argv shard cb argv s = Some (rc, s') ∧
     World.v_port_db_cmd_argv shard cb argv w = Some (rc, w') ∧ conn_ok s' ∧ db_rel s' (w_db w')) ∧
  (∀ c, c ∈ cn_live s → ∃ shard s' w', 0 <= shard < V_STUB_DB_SHARDS ∧
     (_ ← disconnect_cb c; release c) s = Some (tt, s') ∧ Pod.pod_step (Pod.EvDisconnect shard) w = Some (tt, w') ∧
     conn_ok s' ∧ db_rel s' (w_db w') ∧
     (g_reconnect_cb s = true → connect_cb c true s = Some shard)).
Proof.
  intros Hok Hrel. split; [intros; by apply cmd_refines|].
  intros c Hc. destruct (co_live _ Hok c Hc) as [i Hi]. destruct (co_ctx _ Hok i c Hi) as [_ Hd].
  pose proof (lookup_lt_Some _ _ _ Hi) as Hlt. rewrite (co_len _ Hok) in Hlt.
  exists (Z.of_nat i). unfold disconnect_cb, connect_cb, mbind, SM_bind. rewrite Hd, Nat2Z.id.
  eexists _, _. split; [lia|]. split; [reflexivity|]. split; [reflexivity|].
  split; [by eapply (conn_ok_clear i c s)|]. split; [|by intros ->].
  apply (rel_upd i false s); try done. intros j Hj. cbn.
  destruct (decide (j = i)) as [->|Hne].
  - rewrite list_lookup_insert_eq by (by rewrite (co_len _ Hok)). done.
  - by rewrite list_lookup_insert_ne.
Qed.

(** C37: a failed connection attempt leaves a dangling context.  The connect
    callback only logs the error, so after hiredis has released the context
    the array still points at it: the next command on the shard, a forced
    reconnect and the shutdown all use released memory. *)
Theorem failed_connect_dangles s c pool p pool' :
  conn_ok s → c ∈ cn_live s → g_pending_pool s = Some pool → rte_mempool_get pool = Some (p, pool') →
  connect_cb c false s = None ∧
  ∃ shard s', 0 <= shard < V_STUB_DB_SHARDS ∧ release c s = Some (tt, s') ∧
    (∀ cb argv, v_port_db_cmd_argv shard cb argv s' = None) ∧
    v_stub_db_test_force_reconnect shard s' = None ∧ fini_shard shard s' = None.
Proof.
  intros Hok Hc Hp Hg. split; [done|]. destruct (co_live _ Hok c Hc) as [i Hi].
  pose proof (lookup_lt_Some _ _ _ Hi) as Hlt. rewrite (co_len _ Hok) in Hlt.
  exists (Z.of_nat i). eexists. split; [lia|]. split; [reflexivity|].
  assert (c ∉ cn_live s ∖ {[c]}) as Hn by (rewrite elem_of_difference, elem_of_singleton; tauto).
  assert ((V_STUB_DB_SHARDS <=? Z.of_nat i) = false) as Hle by lia.
  unfold v_port_db_cmd_argv, v_stub_db_test_force_reconnect, fini_shard. rewrite Hle, ctx_of_nat.
  cbn [set_live g_ctx]. rewrite Hi. unfold mbind, SM_bind, redisAsyncFree, pending_get. cbn [set_live g_pending_pool cn_live].
  rewrite Hp, Hg. rewrite decide_False by done. split; [|done]. intros cb argv.
  unfold redisAsyncCommandArgv. cbn [set_pool set_live cn_live]. by rewrite decide_False by done.
Qed.

(** Freeing the context of an entry: the entry is cleared when the disconnect
    callback runs. *)
Lemma free_ok i c s :
  conn_ok s → g_ctx s !! i = Some (Some c) →
  ∃ s', redisAsyncFree c s = Some (tt, s') ∧ cn_live s' = cn_live s ∖ {[c]} ∧ cn_data s' = cn_data s ∧
    g_ctx s' = (if redis_free_calls_back c then <[i := None]> (g_ctx s) else g_ctx s) ∧
    g_pending_pool s' = g_pending_pool s ∧ cn_queue s' = cn_queue s ∧ cn_issue_no s' = cn_issue_no s ∧ cn_accept s' = cn_accept s.
Proof.
  intros Hok Hi. destruct (co_ctx _ Hok i c Hi) as [Hc Hd]. unfold redisAsyncFree. rewrite decide_True by done.
  unfold mbind, SM_bind. cbn [modify]. destruct (redis_free_calls_back c).
  - unfold disconnect_cb. cbn [set_live cn_data]. rewrite Hd, Nat2Z.id. eexists. split; [reflexivity|]. done.
  - eexists. split; [reflexivity|]. done.
Qed.

Lemma fini_all_ok (n : nat) : ∀ (k : nat) s, (k + n)%nat = Z.to_nat V_STUB_DB_SHARDS → conn_ok s →
  (∀ i, (i < k)%nat → g_ctx s !! i = Some None) →
  ∃ s', fini_all (seqZ (Z.of_nat k) (Z.of_nat n)) s = Some (tt, s') ∧ conn_ok s' ∧
    ∀ i, (i < Z.to_nat V_STUB_DB_SHARDS)%nat → g_ctx s' !! i = Some None.
Proof.
  induction n as [|n IH]; intros k s Hk Hok Hlo.
  { exists s. split; [done|]. split; [done|]. intros i Hi. apply Hlo. lia. }
  rewrite seqZ_cons by lia. cbn [fini_all].
  replace (Z.succ (Z.of_nat k)) with (Z.of_nat (S k)) by lia. replace (Z.pred (Z.of_nat (S n))) with (Z.of_nat n) by lia.
  assert (∃ s1, fini_shard (Z.of_nat k) s = Some (tt, s1) ∧ conn_ok s1 ∧ ∀ i, (i < S k)%nat → g_ctx s1 !! i = Some None)
    as (s1&E1&Hok1&Hlo1).
  { unfold fini_shard. rewrite ctx_of_nat. destruct (ctx_cases k s Hok ltac:(lia)) as [Hn|(c&Hc&_)].
    - rewrite Hn. exists s. split; [done|]. split; [done|]. intros i Hi.
      destruct (decide (i = k)) as [->|]; [done|]. apply Hlo. lia.
    - rewrite Hc. destruct (free_ok k c s Hok Hc) as (s1&E1&Hl&Hd&Hg&_).
      unfold mbind, SM_bind. rewrite E1. eexists. split; [reflexivity|].
      assert (<[k := None]> (g_ctx s1) = <[k := None]> (g_ctx s)) as Hg'.
      { rewrite Hg. destruct (redis_free_calls_back c); [apply list_insert_insert_eq|done]. }
      rewrite Nat2Z.id. cbn [set_ctx g_ctx]. rewrite Hg'. split; [by eapply (conn_ok_clear k c s)|].
      intros i Hi. destruct (decide (i = k)) as [->|Hne].
      + apply list_lookup_insert_eq. by eapply lookup_lt_Some.
      + rewrite list_lookup_insert_ne by done. apply Hlo. lia. }
  destruct (IH (S k) s1 ltac:(lia) Hok1 Hlo1) as (s'&E'&?). exists s'. split; [|done].
  unfold mbind, SM_bind. by rewrite E1.
Qed.

(** The life cycle of the connections.  A forced reconnect of a connected
    shard puts a new live context in the place of the old one, or leaves the
    shard without one, and touches no other shard; the shutdown releases
    every context exactly once. *)
Theorem connection_lifecycle s :
  conn_ok s →
  (∀ i, (i < Z.to_nat V_STUB_DB_SHARDS)%nat →
     (∀ c, g_ctx s !! i = Some (Some c) → redis_free_calls_back c = true) →
     ∀ rc s', v_stub_db_test_force_reconnect (Z.of_nat i) s = Some (rc, s') →
     conn_ok s' ∧ (∀ j, j ≠ i → g_ctx s' !! j = g_ctx s !! j) ∧
     (rc = RET_CODE_OK ∧ (∃ c, g_ctx s' !! i = Some (Some c)) ∨ rc = RET_CODE_ERR ∧ g_ctx s' !! i = Some None)) ∧
  ∃ s', v_port_db_fini s = Some (tt, s') ∧ cn_live s' = ∅ ∧ g_pending_pool s' = None ∧ g_base s' = false ∧
    ∀ i, (i < Z.to_nat V_STUB_DB_SHARDS)%nat → g_ctx s' !! i = Some None.
Proof.
  intros Hok. split.
  - intros i Hi Hcb rc s' Hr. unfold v_stub_db_test_force_reconnect in Hr.
    rewrite (proj2 (Z.leb_gt _ _)), ctx_of_nat in Hr by lia.
    (* the entry is empty when the new connection is opened *)
    assert (∃ s1, conn_ok s1 ∧ g_ctx s1 = <[i := None]> (g_ctx s) ∧ shard_connect (Z.of_nat i) s1 = Some (rc, s'))
      as (s1&Hok1&Hg1&Hr1).
    { destruct (ctx_cases i s Hok Hi) as [Hn|(c&Hc&_)].
      - rewrite Hn in Hr. exists s. split; [done|]. split; [|done]. symmetry. by apply list_insert_id.
      - rewrite Hc in Hr. destruct (free_ok i c s Hok Hc) as (s1&E1&Hl&Hd&Hg&_). rewrite (Hcb c Hc) in Hg.
        unfold mbind, SM_bind in Hr. rewrite E1 in Hr. exists s1. split; [by eapply (conn_ok_clear i c s)|done]. }
    assert (i < length (g_ctx s))%nat as Hlen by (by rewrite (co_len _ Hok)).
    assert (g_ctx s1 !! i = Some None) as Hn1 by (rewrite Hg1; by apply list_lookup_insert_eq).
    assert (∀ j, j ≠ i → g_ctx s1 !! j = g_ctx s !! j) as Hoth by (intros; rewrite Hg1; by apply list_lookup_insert_ne).
    unfold shard_connect in Hr1. rewrite ctx_of_nat, Hn1, Nat2Z.id in Hr1.
    destruct (redisAsyncConnect _ _) as [[c [|]]|] eqn:Ec; injection Hr1 as <- <-.
    1, 3: split; [by destruct Hok1; split|split; [exact Hoth|by right]].
    apply redis_connect_fresh in Ec. split; [by eapply (conn_ok_set i c s1)|]. cbn [g_ctx].
    split; [intros j Hj; rewrite list_lookup_insert_ne by done; by apply Hoth|left]. split; [done|].
    exists c. apply list_lookup_insert_eq. by rewrite Hg1, length_insert.
  - destruct (fini_all_ok (Z.to_nat V_STUB_DB_SHARDS) 0 s eq_refl Hok) as (s1&E1&Hok1&Hall); [lia|].
    unfold v_port_db_fini, mbind, SM_bind. change (seqZ 0 V_STUB_DB_SHARDS) with (seqZ (Z.of_nat 0) (Z.of_nat (Z.to_nat V_STUB_DB_SHARDS))).
    rewrite E1. eexists. split; [reflexivity|]. cbn. split; [|done].
    apply set_eq. intros c. split; [|by intros ?%elem_of_empty]. intros Hc.
    destruct (co_live _ Hok1 c Hc) as [i Hi]. pose proof (lookup_lt_Some _ _ _ Hi) as Hlt.
    rewrite (co_len _ Hok1) in Hlt. rewrite (Hall i Hlt) in Hi. done.
Qed.

End stub_db.
