(* ===== verification/StubIo.v ===== *)
(** Component v_stub_pfcp, messages and I/O: the lazily created pool of
    decoded messages with its magic number, and the recorder that stands for
    the socket: a received datagram is injected into the registered callback,
    the last sent one is kept for inspection. *)
From S2P Require Import Prelude Dpdk Heap Redis World DispatchQ StubPfcp.
From S2P Require Boot.
Import StubCodec.

Definition V_STUB_TX_BUF_CAP : Z := 512.
Definition V_STUB_MSG_MAGIC : Z := 1297303345.

Section stub_io.
Context {DP : Dpdk}.

(** struct pfcp_msg with its magic; a released one is all zero. *)
Record msg_block := MsgBlock { mb_magic : Z; mb_msg : stub_msg }.
Definition msg_zero : msg_block := MsgBlock 0 (StubMsg 0 0 0 0 0 0 (replicate 16 zero)).

(** The static variables and the contents of the pool's blocks. *)
Record pfcp_stub := PfcpStub {
  g_msg_pool : option rte_mempool;
  g_rx_cb : bool;             (* v_dispatch_rx is registered *)
  g_last_tx : bytes;          (* V_STUB_TX_BUF_CAP bytes *)
  g_last_tx_len : Z;
  ps_block : Z → msg_block;
}.

Definition pfcp_zero : pfcp_stub :=
  PfcpStub None false (replicate (Z.to_nat V_STUB_TX_BUF_CAP) zero) 0 (λ _, msg_zero).

Definition set_msg_pool p s := PfcpStub p (g_rx_cb s) (g_last_tx s) (g_last_tx_len s) (ps_block s).
Definition set_msg_block q b s := PfcpStub (g_msg_pool s) (g_rx_cb s) (g_last_tx s) (g_last_tx_len s)
  (λ r, if r =? q then b else ps_block s r).

(** ensure_msg_pool *)
Definition ensure_msg_pool (s : pfcp_stub) : Z * pfcp_stub :=
  match g_msg_pool s with
  | Some _ => (RET_CODE_OK, s)
  | None =>
      match rte_mempool_create Boot.V_STUB_PFCP_MSG_POOL_CAP with
      | None => (RET_CODE_ERR, s)
      | Some p => (RET_CODE_OK, set_msg_pool (Some p) s)
      end
  end.

(** v_port_pfcp_io_init *)
Definition v_port_pfcp_io_init (s : pfcp_stub) : Z * pfcp_stub :=
  let '(rc, s) := ensure_msg_pool s in
  if negb (rc =? RET_CODE_OK) then (RET_CODE_ERR, s)
  else (RET_CODE_OK, PfcpStub (g_msg_pool s) true (g_last_tx s) (g_last_tx_len s) (ps_block s)).

(** v_port_pfcp_io_send *)
Definition v_port_pfcp_io_send (buf : bytes) (s : pfcp_stub) : Z * pfcp_stub :=
  if V_STUB_TX_BUF_CAP <? Z.of_nat (length buf) then (RET_CODE_ERR, s)
  else (RET_CODE_OK, PfcpStub (g_msg_pool s) (g_rx_cb s) (buf ++ drop (length buf) (g_last_tx s))
                       (Z.of_nat (length buf)) (ps_block s)).

(** v_port_pfcp_decode; [None] is a failed pool get through NULL *)
Definition v_port_pfcp_decode (buf : bytes) (s : pfcp_stub) : option (option Z * pfcp_stub) :=
  match stub_decode buf with
  | None => Some (None, s)
  | Some m =>
      let '(rc, s) := ensure_msg_pool s in
      if negb (rc =? RET_CODE_OK) then Some (None, s)
      else
        match g_msg_pool s with
        | None => None
        | Some pool =>
            match rte_mempool_get pool with
            | None => Some (None, s)
            | Some (q, pool') =>
                Some (Some q, set_msg_block q (MsgBlock V_STUB_MSG_MAGIC m) (set_msg_pool (Some pool') s))
            end
        end
  end.

(** v_port_pfcp_msg_free *)
Definition v_port_pfcp_msg_free (msg : option Z) (s : pfcp_stub) : option pfcp_stub :=
  match msg with
  | None => Some s
  | Some q =>
      if negb (mb_magic (ps_block s q) =? V_STUB_MSG_MAGIC) then Some s
      else
        match g_msg_pool s with
        | None => None
        | Some pool => Some (set_msg_block q msg_zero (set_msg_pool (Some (rte_mempool_put pool q)) s))
        end
  end.

(** v_port_pfcp_delete_session *)
Definition v_port_pfcp_delete_session (req : stub_msg) (c : bytes) : Z * bytes := (RET_CODE_OK, c).

(** v_stub_pfcp_io_inject_rx: the callback is v_dispatch_rx *)
Definition v_stub_pfcp_io_inject_rx (buf : bytes) (peer : option sockaddr) (s : pfcp_stub) : M () :=
  if g_rx_cb s then v_dispatch_rx buf peer else mret tt.

(** v_stub_pfcp_io_last_tx: the bytes copied out and the full length *)
Definition v_stub_pfcp_io_last_tx (out_cap : Z) (s : pfcp_stub) : bytes * Z :=
  let n := if g_last_tx_len s <? out_cap then g_last_tx_len s else out_cap in
  (take (Z.to_nat n) (g_last_tx s), g_last_tx_len s).

(** v_stub_pfcp_io_reset *)
Definition v_stub_pfcp_io_reset (s : pfcp_stub) : pfcp_stub :=
  PfcpStub (g_msg_pool s) (g_rx_cb s) (replicate (Z.to_nat V_STUB_TX_BUF_CAP) zero) 0 (ps_block s).

(** What v_dispatch_io_drain_tx hands to the socket, in order. *)
Fixpoint send_all (l : list v_dispatch_msg) (s : pfcp_stub) : pfcp_stub :=
  match l with [] => s | x :: l' => send_all l' (v_port_pfcp_io_send (m_buf x) s).2 end.

(** ** Refinement of the heap of requests *)

(** Live blocks hold their message under the magic, all others do not. *)
Record msg_rel (s : pfcp_stub) (h : heap stub_msg) : Prop := {
  pr_pool : g_msg_pool s = Some (hp_pool h);
  pr_wf : heap_wf h;
  pr_live p m : hp_mem h !! p = Some m → ps_block s p = MsgBlock V_STUB_MSG_MAGIC m;
  pr_dead p : hp_mem h !! p = None → mb_magic (ps_block s p) ≠ V_STUB_MSG_MAGIC;
}.

Lemma io_init_rel s : v_port_pfcp_io_init pfcp_zero = (RET_CODE_OK, s) →
  g_rx_cb s = true ∧ ∃ p, msg_rel s (Heap p ∅).
Proof.
  unfold v_port_pfcp_io_init, ensure_msg_pool. cbn [g_msg_pool pfcp_zero].
  destruct (rte_mempool_create _) as [p|] eqn:E; [|done]. intros [= <-].
  apply mp_create_law in E as [Hnd _]. split; [done|]. exists p. split; try done.
Qed.

(** The stub's message pool implements the request port of the pod model.
    A datagram is decoded into a message exactly when the contract decodes
    and allocates it, with the same object and the same fields; a release
    frees live messages only, so that a double release changes nothing. *)
Theorem stub_msgs_refine_port s h w :
  msg_rel s h → w_msgs w = h →
  (∀ buf, ∃ o s' h', v_port_pfcp_decode buf s = Some (o, s') ∧ pfcp_decode buf w = Some (o, set_msgs h' w) ∧ msg_rel s' h') ∧
  (∀ q, ∃ s' h', v_port_pfcp_msg_free (Some q) s = Some s' ∧
     World.v_port_pfcp_msg_free q w = Some (tt, set_msgs h' w) ∧ msg_rel s' h').
Proof.
  intros Hrel Hw. pose proof Hrel as [Hp Hwf Hl Hd]. assert (set_msgs h w = w) as Hid by (rewrite <- Hw; by destruct w). split.
  - intros buf. unfold v_port_pfcp_decode, pfcp_decode, ensure_msg_pool. cbn [World.v_port_pfcp_decode stub_pfcp].
    destruct (stub_decode buf) as [m|]; [|by exists None, s, h; rewrite Hid]. rewrite Hp. cbn [negb Z.eqb]. rewrite Hp.
    rewrite Hw. change (@heap_alloc DP (@pfcp_msg stub_pfcp)) with (@heap_alloc DP stub_msg). destruct (heap_alloc m h) as [[q h']|] eqn:Ea.
    + destruct (heap_alloc_Some _ _ _ _ Hwf Ea) as (Hnone&Hmem&Hwf'&_).
      unfold heap_alloc in Ea. destruct (rte_mempool_get (hp_pool h)) as [[q' pool]|]; [|done].
      injection Ea as -> <-. eexists _, _, _. split; [reflexivity|]. split; [reflexivity|].
      split; cbn [set_msg_block set_msg_pool g_msg_pool ps_block hp_pool hp_mem]; try done.
      * intros r x. destruct (Z.eqb_spec r q) as [->|Hne]; [rewrite lookup_insert_eq; by intros [= <-]|].
        rewrite lookup_insert_ne by done. apply Hl.
      * intros r. destruct (Z.eqb_spec r q) as [->|Hne]; [by rewrite lookup_insert_eq|].
        rewrite lookup_insert_ne by done. apply Hd.
    + apply heap_alloc_None, mp_get_none in Ea. rewrite Ea. exists None, s, h. by rewrite Hid.
  - intros q. unfold v_port_pfcp_msg_free, World.v_port_pfcp_msg_free, heap_get. rewrite Hw, Hp.
    assert (∀ A (a b : A), match @hp_mem DP (@pfcp_msg stub_pfcp) h !! q with Some _ => a | None => b end =
      match hp_mem h !! q with Some _ => a | None => b end) as -> by done.
    destruct (hp_mem h !! q) as [m|] eqn:Eq.
    + rewrite (Hl q m Eq). cbn [mb_magic]. rewrite Z.eqb_refl. cbn [negb].
      destruct (heap_free_spec q h m Hwf Eq) as (Hmem&Hwf'&_). eexists _, _. split; [reflexivity|]. split; [reflexivity|].
      split; cbn [set_msg_block set_msg_pool g_msg_pool ps_block heap_free hp_pool hp_mem]; try done.
      * intros r x. destruct (Z.eqb_spec r q) as [->|Hne]; [by rewrite lookup_delete_eq|].
        rewrite lookup_delete_ne by done. apply Hl.
      * intros r. destruct (Z.eqb_spec r q) as [->|Hne]; [done|]. rewrite lookup_delete_ne by done. apply Hd.
    + rewrite (proj2 (Z.eqb_neq _ _)) by (by apply Hd). cbn [negb]. exists s, h. by rewrite Hid.
Qed.

(** ** The recorder *)

Definition io_ok (s : pfcp_stub) : Prop :=
  length (g_last_tx s) = Z.to_nat V_STUB_TX_BUF_CAP ∧ 0 <= g_last_tx_len s <= V_STUB_TX_BUF_CAP.

Lemma send_ok buf s : io_ok s → io_ok (v_port_pfcp_io_send buf s).2.
Proof.
  intros [Hl Hn]. unfold v_port_pfcp_io_send. destruct (Z.ltb_spec V_STUB_TX_BUF_CAP (Z.of_nat (length buf))); [done|].
  split; cbn; [rewrite length_app, length_drop; lia|lia].
Qed.

Lemma send_all_app l l' s : send_all (l ++ l') s = send_all l' (send_all l s).
Proof. revert s. induction l as [|x l IH]; intros s; [done|]. apply IH. Qed.

Lemma send_all_ok l : ∀ s, io_ok s → io_ok (send_all l s).
Proof. induction l as [|x l IH]; intros s Hs; [done|]. by apply IH, send_ok. Qed.

(** The recorder observes the last datagram that was drained, byte for
    byte, when it fits the 512 bytes of the recorder (every response of the
    stub codec does); a larger one is refused and leaves the previous one. *)
Theorem last_tx_observed l x s :
  io_ok s →
  (Z.of_nat (length (m_buf x)) <= V_STUB_TX_BUF_CAP →
     v_stub_pfcp_io_last_tx V_STUB_TX_BUF_CAP (send_all (l ++ [x]) s) = (m_buf x, Z.of_nat (length (m_buf x)))) ∧
  (V_STUB_TX_BUF_CAP < Z.of_nat (length (m_buf x)) → send_all (l ++ [x]) s = send_all l s) ∧
  (∀ req ctx cause cap buf, stub_encode_rsp req ctx cause cap = Some buf → Z.of_nat (length buf) <= V_STUB_TX_BUF_CAP) ∧
  v_stub_pfcp_io_last_tx V_STUB_TX_BUF_CAP (v_stub_pfcp_io_reset (send_all l s)) = ([], 0).
Proof.
  intros Hs. rewrite send_all_app. cbn [send_all]. pose proof (send_all_ok l s Hs) as [Hl Hn].
  generalize dependent (send_all l s). intros s1 Hl Hn. unfold v_port_pfcp_io_send, v_stub_pfcp_io_last_tx.
  split; [|split; [|split]].
  - intros Hx. rewrite (proj2 (Z.ltb_ge V_STUB_TX_BUF_CAP (Z.of_nat (length (m_buf x))))) by done. cbn [snd g_last_tx g_last_tx_len].
    assert (∀ a, (if a <? V_STUB_TX_BUF_CAP then a else V_STUB_TX_BUF_CAP) = Z.min a V_STUB_TX_BUF_CAP) as ->.
    { intros a. destruct (Z.ltb_spec a V_STUB_TX_BUF_CAP); lia. }
    rewrite Z.min_l, Nat2Z.id, take_app_length by exact Hx. done.
  - intros Hx. by rewrite (proj2 (Z.ltb_lt _ _)).
  - intros req ctx cause cap buf. unfold stub_encode_rsp. destruct (Z.of_nat cap <? Z.of_nat WIRE_RSP_SIZE); [done|]. intros Hb. apply (inj Some) in Hb as <-.
    rewrite !length_app, !length_le_enc. unfold V_STUB_TX_BUF_CAP. lia.
  - by cbn.
Qed.

End stub_io.
