(* ===== verification/Safety.v ===== *)
(** Process-level safety: a pod started by main.c and driven by any sequence
    of datagrams, replies, data-plane results, reconnects and disconnects has
    no undefined behaviour, leaks nothing and loses no pending object. *)
From S2P Require Import Prelude Seid Dpdk Heap Redis World DbScript SessStore RetransCache IdAlloc.
From S2P Require Import DispatchQ NodeState Flow Sweeper Pod Preserve Pools PoolsPod.
From S2P Require Import Own OwnPrim OwnCmd OwnCalls OwnFlow OwnPod Boot.

Section safety.
Context {DP : Dpdk} {PP : PfcpPort}.

(** The invariant of a pod between two events. *)
Definition pod_inv (w : world) : Prop := Own no_amb None [] [] w ∧ pools_ok [] w.

(** During startup only script loads are in flight. *)
Definition plain_load (c : db_cmd) : Prop :=
  match dc_cb c with fp_load_reply_cb lc => lc_resume lc = None | _ => False end.

(** Startup: connections come and go, script loads complete. *)
Definition is_boot (e : event) : bool :=
  match e with EvReply _ _ | EvConnect _ | EvReconnect _ | EvDisconnect _ | EvTime _ => true | _ => false end.

(** Nothing allocated, and no procedure in flight. *)
Definition pod_clean (w : world) : Prop :=
  hp_mem (w_txns w) = ∅ ∧ hp_mem (w_ctxs w) = ∅ ∧ hp_mem (w_msgs w) = ∅ ∧ hp_mem (g_msg_pool (w_disp w)) = ∅ ∧
  heap_wf (w_txns w) ∧ heap_wf (w_ctxs w) ∧ heap_wf (w_msgs w) ∧ heap_wf (g_msg_pool (w_disp w)) ∧
  ring_items (g_rx_ring (w_disp w)) = [] ∧ ring_items (g_tx_ring (w_disp w)) = [] ∧
  Forall plain_load (db_queue (w_db w)) ∧ vdp_queue (w_vdp w) = [].

(** An event sequence without hard timeouts. *)
Definition no_timeout (es : list event) : Prop := Forall (λ e, is_timeout e = false) es.

Lemma pod_step_inv e w : is_timeout e = false → pod_inv w → ∃ w', pod_step e w = Some (tt, w') ∧ pod_inv w'.
Proof.
  intros He [HO HJ]. pose proof (pod_step_ok e w He HO HJ) as Hs. unfold wp in Hs.
  destruct (pod_step e w) as [[[] w']|] eqn:E; [|done]. exists w'. split; [done|]. split; [done|].
  by eapply pod_step_pools.
Qed.

Lemma pod_run_inv es : ∀ w, no_timeout es → pod_inv w → ∃ w', pod_run es w = Some (tt, w') ∧ pod_inv w'.
Proof.
  induction es as [|e es IH]; intros w Hes Hw; [by exists w|].
  apply Forall_cons in Hes as [He Hes]. destruct (pod_step_inv e w He Hw) as (w1&E1&Hw1).
  destruct (IH w1 Hes Hw1) as (w2&E2&Hw2). exists w2. split; [|done].
  cbn [pod_run]. unfold mbind, SM_bind. by rewrite E1.
Qed.

(** A run in two parts. *)
Lemma pod_run_split es es' : ∀ w w1, pod_run es w = Some (tt, w1) → pod_run (es ++ es') w = pod_run es' w1.
Proof.
  induction es as [|e es IH]; intros w w1; cbn [pod_run app]; [by intros [= ->]|].
  unfold mbind, SM_bind. destruct (pod_step e w) as [[[] w2]|]; [|done]. apply IH.
Qed.

(** Reading the invariant at quiescence. *)
Lemma live_nil {A} (h : heap A) : live h ≡ₚ [] → hp_mem h = ∅.
Proof.
  intros H. apply map_empty. intros i. destruct (hp_mem h !! i) as [a|] eqn:E; [|done].
  assert (i ∈ live h) as Hi by (apply live_elem; by exists a). rewrite H in Hi. by apply not_elem_of_nil in Hi.
Qed.

Lemma pod_inv_quiescent w : pod_inv w → db_queue (w_db w) = [] → vdp_queue (w_vdp w) = [] →
  hp_mem (w_txns w) = ∅ ∧ hp_mem (w_ctxs w) = ∅ ∧ hp_mem (w_msgs w) = ∅ ∧
  ∀ k p, pool_of k w = Some p → NoDup (mp_free p) ∧ rte_mempool_avail_count p = pool_cap k.
Proof.
  intros [HO HJ] Hq Hv. assert (conts w = []) as Hc by (unfold conts; by rewrite Hq, Hv).
  assert (hp_mem (w_txns w) = ∅) as Ht.
  { apply live_nil. symmetry. rewrite <- (o_cont _ _ _ _ _ HO), Hc. done. }
  split; [done|]. split; [|split].
  - apply live_nil. rewrite <- (o_ctx _ _ _ _ _ HO). cbn [others]. by rewrite Ht.
  - apply live_nil. rewrite <- (o_req _ _ _ _ _ HO). cbn [others]. by rewrite Ht.
  - intros k p Hp. specialize (HJ k). rewrite Hp in HJ. unfold held in HJ. rewrite Hq in HJ. cbn in HJ.
    rewrite app_nil_r in HJ. by rewrite mp_avail_law.
Qed.

(** ** Startup *)

Lemma create_rings_total ps : ∀ a a', create_rings ps a = (true, a') →
  ∀ p, p ∈ ps ∨ (is_Some (g_seid_ring a !! p) ∧ is_Some (g_teid_ring a !! p)) →
  is_Some (g_seid_ring a' !! p) ∧ is_Some (g_teid_ring a' !! p).
Proof.
  induction ps as [|q ps IH]; intros a a'; cbn [create_rings].
  { intros [= <-] p [H|H]; [by apply not_elem_of_nil in H|done]. }
  destruct (rte_ring_create _) as [rs|]; [|done]. intros Hc p Hp. eapply IH; [done|].
  destruct (decide (p = q)) as [->|Hne].
  - right. cbn. rewrite !lookup_insert_eq. split; by eexists.
  - destruct Hp as [[->|Hp]%elem_of_cons|Hp]; [done|by left|right]. cbn. by rewrite !lookup_insert_ne.
Qed.

Lemma initial_refills_ok ps : ∀ w, Forall part_ok ps → stk no_amb None [] [] w → pools_ok [] w →
  wp (initial_refills iu ps) (λ _ w', stk no_amb None [] [] w' ∧ pools_ok [] w') w.
Proof.
  induction ps as [|p ps IH]; intros w Hps HS HJ; cbn [initial_refills]; [done|].
  apply Forall_cons in Hps as [Hp Hps].
  apply wp_bind. eapply wp_mono; [apply (wp_preserves (pools_ok [])); [apply seid_refill_pools|done|]|].
  { by eapply (wp_seid_refill no_amb p None [] [] w (λ _ w', stk no_amb None [] [] w')). }
  intros [] w1 [HS1 HJ1]. apply wp_bind.
  eapply wp_mono; [apply (wp_preserves (pools_ok [])); [apply teid_refill_pools, iu_pools|done|]|].
  { by eapply (wp_teid_refill no_amb iu (iu_fails no_amb) p None [] [] w1 (λ _ w', stk no_amb None [] [] w')). }
  intros [] w2 [HS2 HJ2]. by apply IH.
Qed.

Lemma parts_in_range : Forall part_ok (seqZ 0 V_NUM_PARTS).
Proof. apply Forall_forall. intros p Hp%elem_of_seqZ. unfold part_ok. lia. Qed.

(** A plain load resumes nothing. *)
Lemma plain_conts q : Forall plain_load q → (q ≫= λ c, cb_conts (dc_cb c)) = [].
Proof.
  induction 1 as [|c q Hc _ IH]; [done|]. cbn. rewrite IH, app_nil_r.
  unfold plain_load in Hc. destruct (dc_cb c); try done. cbn. by rewrite Hc.
Qed.

Lemma plain_no_cont c r t : plain_load c → (r, t) ∈ cb_conts (dc_cb c) → False.
Proof. intros Hc Hr. unfold plain_load in Hc. destruct (dc_cb c); try done. cbn in Hr. rewrite Hc in Hr. by apply not_elem_of_nil in Hr. Qed.

Lemma plain_parts c : plain_load c → cb_parts (dc_cb c).
Proof. unfold plain_load. destruct (dc_cb c); try done. cbn. by intros ->. Qed.

(** A script load without a caller to resume. *)
Lemma load_clean s id w : pod_clean w → wp (request_script_load s id None) (λ _ w', pod_clean w') w.
Proof.
  intros Hw. unfold wp, request_script_load.
  destruct (rte_mempool_get _) as [[o pool]|]; [|exact Hw].
  unfold mbind, SM_bind, v_port_db_cmd, v_port_db_cmd_argv. cbn.
  destruct (_ || _); [exact Hw|]. destruct (rte_mempool_get _) as [[o2 pool2]|]; [|exact Hw].
  destruct (db_accept _ _); cbn; [|exact Hw]. unfold pod_clean in *. cbn. destruct_and!. split_and!; try done.
  apply Forall_app. split; [done|]. by repeat constructor.
Qed.

Lemma boot_step_clean e w : is_boot e = true → pod_clean w → wp (pod_step e) (λ _ w', pod_clean w') w.
Proof.
  intros He Hw. destruct e; try done; cbn [pod_step].
  - apply wp_bind. unfold wp, take_db_cmd. destruct (db_queue (w_db w) !! i) as [c|] eqn:Ei; [|exact Hw].
    assert (Forall plain_load (db_queue (w_db w))) as Hq by apply Hw.
    pose proof (proj1 (Forall_forall _ _) Hq c ltac:(by eapply list_elem_of_lookup_2)) as Hc.
    assert (Forall plain_load (delete i (db_queue (w_db w)))) as Hq'.
    { rewrite (delete_Permutation _ _ _ Ei) in Hq. by apply Forall_cons in Hq as [_ Hq]. }
    set (w1 := set_db _ w). assert (pod_clean w1) as Hw1 by (unfold pod_clean in *; by destruct_and!).
    unfold on_reply. apply wp_bind. unfold plain_load in Hc. destruct (dc_cb c) as [|lc| | | | | | | | | |]; try done.
    cbn [db_invoke]. unfold load_reply_cb. rewrite Hc. by destruct (if _ =? RET_CODE_OK then _ else None).
  - unfold script_reconnect_cb. revert Hw. generalize w. intros w1 Hw1. repeat (apply wp_bind; eapply wp_mono; [by apply load_clean|]; clear w1 Hw1; intros ? w1 Hw1).
    exact Hw1.
Qed.

Lemma boot_run_clean es : ∀ w, Forall (λ e, is_boot e = true) es → pod_clean w → pools_ok [] w →
  ∃ w', pod_run es w = Some (tt, w') ∧ pod_clean w' ∧ pools_ok [] w'.
Proof.
  induction es as [|e es IH]; intros w Hes Hw HJ; [by exists w|]. apply Forall_cons in Hes as [He Hes].
  destruct (wp_total _ _ _ (boot_step_clean e w He Hw)) as ([]&w1&E&Hw1).
  destruct (IH w1 Hes Hw1 ltac:(by eapply pod_step_pools)) as (w2&E2&Hw2). exists w2. split; [|done].
  cbn [pod_run]. unfold mbind, SM_bind. by rewrite E.
Qed.

(** v_id_alloc_init establishes the invariant from a clean state. *)
Lemma id_init_inv w : pod_clean w → pools_ok [] w →
  ∃ rc w', v_id_alloc_init iu w = Some (rc, w') ∧ (rc = RET_CODE_OK → pod_inv w').
Proof.
  intros (Ht&Hc&Hm&Hd&Wt&Wc&Wm&Wd&Hr&Htx&Hq&Hv) HJ. unfold v_id_alloc_init.
  destruct (g_initialized _); [by exists RET_CODE_ERR, w|]. cbn zeta. destruct (negb id_tables); [by eexists RET_CODE_ERR, _|].
  destruct (create_rings _ _) as [[] a] eqn:Ea; [|by eexists RET_CODE_ERR, _].
  set (w1 := set_ids (ids_set_initialized true a) w).
  assert (conts w1 = []) as Hcs by (unfold conts; cbn; by rewrite Hv, plain_conts).
  assert (stk no_amb None [] [] w1) as HS.
  { apply stk_own. split; try done; cbn.
    - unfold live. cbn. by rewrite Hcs, Ht.
    - unfold all_refs, live. by rewrite Ht, Hc.
    - unfold all_refs, live. by rewrite Ht, Hm.
    - rewrite Hcs. intros r t H%not_elem_of_nil. done.
    - intros c Hin. assert (plain_load c) as Hl by by eapply Forall_forall. split; [by apply plain_parts|].
      intros r t x Hrt. exfalso. by eapply plain_no_cont.
    - intros p Hp. eapply (create_rings_total _ _ _ Ea). left. apply elem_of_seqZ. unfold part_ok in Hp. lia.
    - split; [done|]. unfold live. by rewrite Hr, Htx, Hd. }
  pose proof (initial_refills_ok (seqZ 0 V_NUM_PARTS) w1 parts_in_range HS HJ) as Hi.
  unfold wp in Hi. unfold mbind at 1, SM_bind at 1.
  destruct (initial_refills iu _ w1) as [[[] w2]|]; [|done]. destruct Hi as [HS2 HJ2].
  exists RET_CODE_OK, w2. split; [done|]. intros _. split; [exact (proj1 HS2)|done].
Qed.

Lemma heap_create_clean {A} cap (h : heap A) : heap_create cap = Some h → hp_mem h = ∅ ∧ heap_wf h.
Proof.
  unfold heap_create. destruct (rte_mempool_create cap) as [p|] eqn:E; intros [= <-].
  apply mp_create_law in E as [Hn _]. split; [done|]. by split.
Qed.

Lemma create_free k p : rte_mempool_create (pool_cap k) = Some p → pool_ok (Some p) (pool_cap k) [].
Proof. intros [Hn Hl]%mp_create_law. cbn. by rewrite app_nil_r. Qed.

(** The state main.c reaches before v_id_alloc_init is clean. *)
Lemma pod_boot_clean da va addr pid now w : pod_boot da va addr pid now = Some w → pod_clean w ∧ pools_ok [] w.
Proof.
  unfold pod_boot. intros (ctxs&Hc&(txns&Ht&(script&Hs&(db&Hd&(disp&Hp&(msgs&Hm&Hb)%bind_Some)%bind_Some)%bind_Some)%bind_Some)%bind_Some)%bind_Some.
  apply heap_create_clean in Hc as [??], Ht as [??], Hm as [??].
  unfold v_dispatch_init in Hp. destruct (rte_mempool_create V_DISPATCH_POOL_CAP) as [mp|] eqn:Emp; [|done].
  destruct (rte_ring_create V_DISPATCH_RING_SIZE) as [r|] eqn:Er; [|done]. injection Hp as <-.
  apply ring_create_law in Er as [Er _]. apply mp_create_law in Emp as [Emp _].
  unfold v_port_db_init in Hd. destruct (rte_mempool_create V_STUB_DB_PENDING_CAP) as [dp|] eqn:Edp; [|done]. injection Hd as <-.
  unfold v_db_script_init in Hs. cbn in Hs.
  destruct (rte_mempool_create V_DB_EVALSHA_POOL_CAP) as [ep|] eqn:Eep; [|done].
  destruct (rte_mempool_create V_DB_SCRIPT_LOAD_POOL_CAP) as [lp|] eqn:Elp; [|done]. injection Hs as <-.
  unfold mbind, SM_bind, v_flow_init, v_node_state_init in Hb.
  destruct (rte_mempool_create V_NODE_STATE_PENDING_POOL_CAP) as [np|] eqn:Enp; cbn in Hb; rewrite ?Enp in Hb; [|done].
  injection Hb as <-. split; [done|].
  intros k. destruct k; cbn; try done; by (apply (create_free PK_DB) || apply (create_free PK_EVALSHA) ||
    apply (create_free PK_LOAD) || apply (create_free PK_NODE)).
Qed.

(** The states of a pod that was started as main.c starts it. *)
Definition pod_started (w : world) : Prop :=
  ∃ da va addr pid now w0 es0 w1,
    pod_boot da va addr pid now = Some w0 ∧ Forall (λ e, is_boot e = true) es0 ∧
    pod_run es0 w0 = Some (tt, w1) ∧ v_id_alloc_init iu w1 = Some (RET_CODE_OK, w).

Definition pod_reachable (w : world) : Prop :=
  ∃ w0 es, pod_started w0 ∧ no_timeout es ∧ pod_run es w0 = Some (tt, w).

Lemma pod_started_inv w : pod_started w → pod_inv w.
Proof.
  intros (da&va&addr&pid&now&w0&es0&w1&Hb&Hes&Hr&Hi). apply pod_boot_clean in Hb as [Hw0 HJ0].
  destruct (boot_run_clean es0 w0 Hes Hw0 HJ0) as (w1'&Hr'&Hw1&HJ1). rewrite Hr in Hr'. injection Hr' as <-.
  destruct (id_init_inv w1 Hw1 HJ1) as (rc&w'&Hi'&Hinv). rewrite Hi in Hi'. injection Hi' as <- <-. by apply Hinv.
Qed.

Lemma pod_reachable_inv w : pod_reachable w → pod_inv w.
Proof.
  intros (w0&es&Hs&Hes&Hr). destruct (pod_run_inv es w0 Hes (pod_started_inv w0 Hs)) as (w'&Hr'&Hinv).
  rewrite Hr in Hr'. by injection Hr' as <-.
Qed.

(** ** Properties *)

(** C1: no undefined behaviour.  From the initialisation of main.c on, through
    connection set-up and script loading, the initial refills and then any
    sequence of received datagrams, polls, replies (of any shape, in any
    order), lost connections, data-plane results and reconnects, every
    function of the process returns: no NULL pointer, no released
    transaction, context, message, buffer or ring is ever dereferenced, and
    nested callbacks stay within depth 2.  Hard timeouts are excluded: they
    break this property (see [timeout_use_after_free]). *)
Theorem pod_no_undefined_behaviour da va addr pid now w0 es0 :
  pod_boot da va addr pid now = Some w0 → Forall (λ e, is_boot e = true) es0 →
  ∃ w1, pod_run es0 w0 = Some (tt, w1) ∧
  ∃ rc w2, v_id_alloc_init iu w1 = Some (rc, w2) ∧
  (rc = RET_CODE_OK → ∀ es, no_timeout es → ∃ w3, pod_run es w2 = Some (tt, w3)).
Proof.
  intros [Hw0 HJ0]%pod_boot_clean Hes. destruct (boot_run_clean es0 w0 Hes Hw0 HJ0) as (w1&Hr&Hw1&HJ1).
  exists w1. split; [done|]. destruct (id_init_inv w1 Hw1 HJ1) as (rc&w2&Hi&Hinv).
  exists rc, w2. split; [done|]. intros Hrc es Hes'.
  destruct (pod_run_inv es w2 Hes' (Hinv Hrc)) as (w3&?&_). by exists w3.
Qed.

(** C2: no leak.  Whenever a reachable pod has no command and no data-plane
    operation in flight, every transaction, every session context (the
    request's and the modification's snapshot) and every decoded request has
    been released, and each of the six pending-object pools holds all of its
    distinct objects again. *)
Theorem quiescent_no_leak w :
  pod_reachable w → db_queue (w_db w) = [] → vdp_queue (w_vdp w) = [] →
  heap_live (w_txns w) = ∅ ∧ heap_live (w_ctxs w) = ∅ ∧ heap_live (w_msgs w) = ∅ ∧
  ∀ k p, pool_of k w = Some p → NoDup (mp_free p) ∧ rte_mempool_avail_count p = pool_cap k.
Proof.
  intros Hw Hq Hv. destruct (pod_inv_quiescent w (pod_reachable_inv w Hw) Hq Hv) as (Ht&Hc&Hm&Hp).
  unfold heap_live. by rewrite Ht, Hc, Hm, !dom_empty_L.
Qed.

(** C11: the transaction state machine.  In every reachable state each live
    transaction waits for exactly one completion, that completion's callback
    is the one its state names (RECV: lookup, DB_READ_WAIT: read,
    DB_WRITE_WAIT: CAS write or delete, VDP_WAIT: data plane or compensation,
    DB_CONFIRM_WAIT: confirm), its request and context are live, it carries a
    snapshot exactly while a modification is being written or pushed, and it
    has been retried fewer than V_CAS_MAX_RETRY times. *)
Theorem txn_state_machine w t x :
  pod_reachable w → hp_mem (w_txns w) !! t = Some x →
  ∃ r, txn_ok r x ∧ (∀ r', (r', t) ∈ conts w ↔ r' = r) ∧
    (∀ m, t_req x = Some m → is_Some (hp_mem (w_msgs w) !! m)) ∧
    (∀ c, c ∈ ctx_refs x → is_Some (hp_mem (w_ctxs w) !! c)).
Proof.
  intros Hw Hx. destruct (pod_reachable_inv w Hw) as [HO _].
  pose proof (o_cont _ _ _ _ _ HO) as Hc. cbn in Hc. rewrite app_nil_r in Hc.
  assert (t ∈ (conts w).*2) as Ht by (rewrite Hc; apply live_elem; by eexists).
  apply list_elem_of_fmap in Ht as ([r t']&->&Hr).
  destruct (o_role _ _ _ _ _ HO r t' Hr) as (x'&Hx'&Hok). cbn in Hx.
  assert (x' = x) as -> by congruence.
  exists r. split; [done|]. split; [|split].
  - intros r'. split; [|by intros ->]. intros Hr'. 
    assert (NoDup (conts w).*2) as Hn by (rewrite Hc; apply live_nodup).
    apply list_elem_of_lookup in Hr as [i Hi], Hr' as [j Hj].
    assert (i = j) as ->; [|by simplify_eq].
    eapply (NoDup_lookup _ i j t' Hn); by rewrite list_lookup_fmap, ?Hi, ?Hj.
  - intros m Hm. apply live_elem. rewrite <- (o_req _ _ _ _ _ HO), app_nil_r. cbn [others].
    rewrite (all_refs_delete _ _ _ _ Hx'). unfold req_refs at 1. rewrite Hm. by left.
  - intros c Hcx. apply live_elem. rewrite <- (o_ctx _ _ _ _ _ HO). cbn [others].
    rewrite (all_refs_delete _ _ _ _ Hx'), !elem_of_app. by left; left.
Qed.

(** Whatever the database answers, the sweeper's branch for an establishment
    in VDP_WAIT changes nothing for an establishment: it deletes the pending
    record only when db_ver is 0, but the CAS callback has stored version 1.
    (For the other procedures see ClusterInv.v.) *)
Lemma establishment_vdp_timeout_deletes_nothing w t x :
  pod_reachable w → (RVdp fp_vdp_create_cb, t) ∈ conts w → hp_mem (w_txns w) !! t = Some x →
  t_state x = TXN_ST_VDP_WAIT ∧ t_db_ver x = 1 ∧ timeout_action iu x w = Some (tt, w).
Proof.
  intros Hw Hr Hx. destruct (pod_reachable_inv w Hw) as [HO _].
  destruct (o_role _ _ _ _ _ HO _ _ Hr) as (x'&Hx'&(_&_&Hv&Hs&_)).
  assert (x' = x) as -> by congruence. cbn in Hv, Hs. split; [done|]. split; [done|].
  unfold timeout_action. rewrite Hs, Hv. done.
Qed.

End safety.
