(* ===== verification/Protocol.v ===== *)
(** The session procedures as an abstract protocol: what one transaction does
    with the completions it waits for, until it is answered.  Progress.v
    proves that the callbacks of v_flow.c over the transport of v_db_script.c
    follow it. *)
From S2P Require Import Prelude Heap Redis World DbScript SessStore RetransCache Own.

(** ** Completions, answers, protocol states *)

(** What completes: a command ([None]: the connection broke) or a data-plane
    operation. *)
Inductive completion := CReply (reply : option v_db_reply) | CVdp (res : v_vdp_result_t).

(** How a request ends: a response with a cause, the cached response of the
    first transmission, or nothing. *)
Inductive answer := Cause (cause : Z) | Cached (resp : bytes) | Dropped.

(** A transaction waits in a role, at a stage of the EVALSHA transport, after
    a number of conflicts; or it has been answered. *)
Inductive outcome := Wait (r : role) (stage : nat) (conflicts : Z) | Answered (a : answer).

Abbreviation ACCEPTED := (Answered (Cause V_PFCP_CAUSE_REQUEST_ACCEPTED)).
Abbreviation REJECTED := (Answered (Cause V_PFCP_CAUSE_REQUEST_REJECTED)).
Abbreviation NOT_FOUND := (Answered (Cause V_PFCP_CAUSE_SESSION_CTX_NOT_FOUND)).
Abbreviation FAILURE := (Answered (Cause V_PFCP_CAUSE_SYSTEM_FAILURE)).
Abbreviation NO_RESOURCES := (Answered (Cause V_PFCP_CAUSE_NO_RESOURCES_AVAILABLE)).

(** ** Reading replies *)

Definition reply_status (reply : option v_db_reply) : Z :=
  match reply with Some _ => RET_CODE_OK | None => RET_CODE_ERR end.

Definition cached_response (reply : option v_db_reply) : option bytes :=
  match reply with Some (V_DB_REPLY_STRING resp) => Some resp | _ => None end.

(** HMGET: [None] malformed, [Some false] no such session. *)
Definition session_found (reply : option v_db_reply) : option bool :=
  match read_fields (reply_status reply) reply with
  | None => None
  | Some (data, ver) => Some (negb (reply_is_nil data || reply_is_nil ver))
  end.

(** The result of a CAS script; [None] is a failed round trip. *)
Definition cas_result (reply : option v_db_reply) : option v_cas_result_t :=
  match reply with
  | Some (V_DB_REPLY_INTEGER 1) => Some V_CAS_OK
  | Some (V_DB_REPLY_INTEGER 0) => Some V_CAS_CONFLICT
  | Some (V_DB_REPLY_INTEGER (-1)) => Some V_CAS_GONE
  | _ => None
  end.

Definition sha_reply (reply : option v_db_reply) : bool :=
  match reply with Some (V_DB_REPLY_STRING sha) => bool_decide (length sha = V_DB_SCRIPT_SHA_LEN) | _ => false end.

(** ** The procedures *)

(** After a conflict: read again, or give up after V_CAS_MAX_RETRY conflicts. *)
Definition after_conflict (cb : v_sess_read_cb_t) (k : Z) (o : outcome) : Prop :=
  (k + 1 < V_CAS_MAX_RETRY ∧ ∃ c, o = Wait (RRead cb c) 0 (k + 1)) ∨ o = FAILURE.

(** One step of a procedure.  Where a step needs a resource of the process
    (an identifier, a context, a command slot) it may also end in failure. *)
Inductive proc_step : role → Z → completion → outcome → Prop :=
  | ps_cached cb k reply resp :
      cached_response reply = Some resp → proc_step (RLookup cb) k (CReply reply) (Answered (Cached resp))
  | ps_est_write k reply o :
      cached_response reply = None → o ∈ [Wait (RCas fp_cas_write_cb 0) 2 k; NO_RESOURCES; FAILURE] →
      proc_step (RLookup fp_retrans_lookup_cb) k (CReply reply) o
  | ps_est_install v k reply o :
      match cas_result reply with
      | Some V_CAS_OK => o ∈ [Wait (RVdp fp_vdp_create_cb) 0 k; FAILURE]
      | _ => o = FAILURE
      end → proc_step (RCas fp_cas_write_cb v) k (CReply reply) o
  | ps_est_confirm k res o :
      match res with V_VDP_ACCEPT => o ∈ [Wait RConfirm 0 k; FAILURE] | _ => o = REJECTED end →
      proc_step (RVdp fp_vdp_create_cb) k (CVdp res) o
  | ps_est_done k reply :
      proc_step RConfirm k (CReply reply) (match reply with Some _ => ACCEPTED | None => FAILURE end)
  | ps_mod_read k reply o :
      cached_response reply = None → (∃ c, o = Wait (RRead fp_mod_read_cb c) 0 k) ∨ o = FAILURE →
      proc_step (RLookup fp_mod_retrans_lookup_cb) k (CReply reply) o
  | ps_mod_write c k reply o :
      match session_found reply with
      | None => o = FAILURE
      | Some false => o = NOT_FOUND
      | Some true => (∃ v, o = Wait (RCas fp_mod_cas_cb v) 2 k) ∨ o = FAILURE
      end → proc_step (RRead fp_mod_read_cb c) k (CReply reply) o
  | ps_mod_install v k reply o :
      match cas_result reply with
      | None => o = FAILURE
      | Some V_CAS_OK => o ∈ [Wait (RVdp fp_mod_vdp_cb) 0 k; FAILURE]
      | Some V_CAS_CONFLICT => after_conflict fp_mod_read_cb k o
      | Some V_CAS_GONE => o = NOT_FOUND
      end → proc_step (RCas fp_mod_cas_cb v) k (CReply reply) o
  | ps_mod_done k res o :
      match res with
      | V_VDP_ACCEPT => o = ACCEPTED
      | _ => (∃ v, o = Wait (RCas fp_mod_compensate_write_cb v) 2 k) ∨ o = REJECTED ∨ o = FAILURE
      end → proc_step (RVdp fp_mod_vdp_cb) k (CVdp res) o
  | ps_mod_restored v k reply : proc_step (RCas fp_mod_compensate_write_cb v) k (CReply reply) REJECTED
  | ps_del_read k reply o :
      cached_response reply = None → (∃ c, o = Wait (RRead fp_del_read_cb c) 0 k) ∨ o = FAILURE →
      proc_step (RLookup fp_del_retrans_lookup_cb) k (CReply reply) o
  | ps_del_remove c k reply o :
      match session_found reply with
      | None => o = FAILURE
      | Some false => o = NOT_FOUND
      | Some true => o ∈ [Wait (RVdp fp_del_vdp_cb) 0 k; FAILURE]
      end → proc_step (RRead fp_del_read_cb c) k (CReply reply) o
  | ps_del_delete k res o :
      match res with
      | V_VDP_ACCEPT => (∃ v, o = Wait (RCas fp_del_delete_cb v) 2 k) ∨ o = FAILURE
      | _ => o = REJECTED
      end → proc_step (RVdp fp_del_vdp_cb) k (CVdp res) o
  | ps_del_done v k reply o :
      match cas_result reply with
      | None => o = FAILURE
      | Some V_CAS_OK => o = ACCEPTED
      | Some V_CAS_CONFLICT => after_conflict fp_del_read_cb k o
      | Some V_CAS_GONE => o = NOT_FOUND
      end → proc_step (RCas fp_del_delete_cb v) k (CReply reply) o.

(** The transport below: a first EVALSHA (stage 2) may be answered NOSCRIPT
    and then waits for SCRIPT LOAD (stage 1), whose reply repeats the command
    (stage 0).  (A load that resumes a command not marked as retried, stage 3,
    does not occur, but its callback would handle it.)  A transport that gives
    up reports a failed round trip to the procedure. *)
Inductive wait_step : role → nat → Z → completion → outcome → Prop :=
  | ws_done r k c o : proc_step r k c o → wait_step r 0 k c o
  | ws_known r k reply o :
      is_noscript (reply_status reply) reply = false → proc_step r k (CReply reply) o → wait_step r 2 k (CReply reply) o
  | ws_noscript r k reply o :
      is_noscript (reply_status reply) reply = true → o = Wait r 1 k ∨ proc_step r k (CReply None) o →
      wait_step r 2 k (CReply reply) o
  | ws_loaded r s k reply o :
      s ∈ [1%nat; 3%nat] → sha_reply reply = true → o = Wait r (s - 1) k ∨ proc_step r k (CReply None) o →
      wait_step r s k (CReply reply) o
  | ws_load_failed r s k reply o :
      s ∈ [1%nat; 3%nat] → sha_reply reply = false → proc_step r k (CReply None) o → wait_step r s k (CReply reply) o.

(** ** Every step makes progress *)

(** The rounds a procedure may still begin, the current one included. *)
Definition rounds_left (k : Z) : nat := Z.to_nat (V_CAS_MAX_RETRY - k).

(** The completions still needed in the worst case from a role on, a CAS
    counting as one. *)
Definition base_left (r : role) (k : Z) : nat :=
  match r with
  | RLookup fp_retrans_lookup_cb => 6
  | RCas fp_cas_write_cb _ => 3
  | RVdp fp_vdp_create_cb => 2
  | RConfirm => 1
  | RLookup fp_mod_retrans_lookup_cb => 5 + 4 * rounds_left k
  | RRead fp_mod_read_cb _ => 4 + 4 * rounds_left k
  | RCas fp_mod_cas_cb _ => 1 + 4 * rounds_left k
  | RVdp fp_mod_vdp_cb => 4
  | RCas fp_mod_compensate_write_cb _ => 1
  | RLookup fp_del_retrans_lookup_cb => 1 + 5 * rounds_left k
  | RRead fp_del_read_cb _ => 5 * rounds_left k
  | RVdp fp_del_vdp_cb => 5 * rounds_left k - 1
  | RCas fp_del_delete_cb _ => 5 * rounds_left k - 4
  | _ => 1
  end.

Definition completions_left (o : outcome) : nat :=
  match o with Wait r s k => s + base_left r k | Answered _ => 0 end.

Lemma rounds_left_pos k : k < V_CAS_MAX_RETRY → (1 <= rounds_left k)%nat.
Proof. unfold rounds_left, V_CAS_MAX_RETRY. lia. Qed.

Lemma rounds_left_next k : 0 <= k → k + 1 < V_CAS_MAX_RETRY → rounds_left k = S (rounds_left (k + 1)).
Proof. unfold rounds_left, V_CAS_MAX_RETRY. lia. Qed.

(** Counting conflicts never leaves its range. *)
Definition conflicts_ok (o : outcome) : Prop := match o with Wait _ _ k => 0 <= k < V_CAS_MAX_RETRY | Answered _ => True end.

Lemma base_left_pos r k : k < V_CAS_MAX_RETRY → (1 <= base_left r k)%nat.
Proof. intros Hk%rounds_left_pos. destruct r; cbn; repeat case_match; lia. Qed.

Ltac outcomes :=
  repeat match goal with
  | H : _ ∈ _ :: _ |- _ => apply elem_of_cons in H as [->|H]
  | H : _ ∈ [] |- _ => by apply not_elem_of_nil in H
  | H : _ ∨ _ |- _ => destruct H as [H|H]
  | H : ∃ _, _ |- _ => destruct H as [? H]
  | H : _ ∧ _ |- _ => destruct H as [? H]
  | H : after_conflict _ _ _ |- _ => unfold after_conflict in H
  | H : match ?x with _ => _ end |- _ => destruct x
  end; subst.

Lemma proc_step_decreases r k c o :
  0 <= k < V_CAS_MAX_RETRY → proc_step r k c o →
  conflicts_ok o ∧ (completions_left o < base_left r k)%nat.
Proof.
  intros Hk Hs. pose proof (rounds_left_pos k ltac:(lia)) as Hp. pose proof (rounds_left_next k ltac:(lia)) as Hn.
  destruct Hs; repeat match goal with cb : v_retrans_cb_t |- _ => destruct cb end;
    outcomes; cbn [conflicts_ok completions_left base_left] in *; try case_match;
    split; try done; try lia.
  all: cbn; lia.
Qed.

Lemma wait_step_decreases r s k c o :
  0 <= k < V_CAS_MAX_RETRY → wait_step r s k c o →
  conflicts_ok o ∧ (completions_left o < completions_left (Wait r s k))%nat.
Proof.
  intros Hk Hs. pose proof (λ c o, proc_step_decreases r k c o Hk) as Hd.
  destruct Hs; outcomes;
    try match goal with H : proc_step _ _ _ _ |- _ => apply Hd in H as [? ?] end;
    split; cbn [conflicts_ok completions_left] in *; try done; lia.
Qed.

(** ** Whole runs *)

(** The protocol run along a sequence of completions. *)
Inductive proto_run : outcome → list completion → outcome → Prop :=
  | run_here o : proto_run o [] o
  | run_step r s k c o cs o' : wait_step r s k c o → proto_run o cs o' → proto_run (Wait r s k) (c :: cs) o'.

(** What a request must have gone through to be accepted. *)
Definition accepted_after (cb : v_retrans_cb_t) (cs : list completion) : Prop :=
  match cb with
  | fp_retrans_lookup_cb =>
      ∃ pre r1 r2, cs = pre ++ [CReply r1; CVdp V_VDP_ACCEPT; CReply (Some r2)] ∧ cas_result r1 = Some V_CAS_OK
  | fp_mod_retrans_lookup_cb =>
      ∃ pre r1, cs = pre ++ [CReply r1; CVdp V_VDP_ACCEPT] ∧ cas_result r1 = Some V_CAS_OK
  | fp_del_retrans_lookup_cb =>
      ∃ pre mid r1, cs = pre ++ CVdp V_VDP_ACCEPT :: mid ++ [CReply r1] ∧ cas_result r1 = Some V_CAS_OK ∧
        Forall (λ c, ∃ r, c = CReply r) mid
  end.

(** The same from every state of a procedure. *)
Definition accepts (o : outcome) (cs : list completion) : Prop :=
  match o with
  | Answered a => a = Cause V_PFCP_CAUSE_REQUEST_ACCEPTED ∧ cs = []
  | Wait (RLookup cb) _ _ => accepted_after cb cs
  | Wait (RCas fp_cas_write_cb _) _ _ => accepted_after fp_retrans_lookup_cb cs
  | Wait (RVdp fp_vdp_create_cb) O _ => ∃ r2, cs = [CVdp V_VDP_ACCEPT; CReply (Some r2)]
  | Wait RConfirm O _ => ∃ r2, cs = [CReply (Some r2)]
  | Wait (RRead fp_mod_read_cb _) _ _ | Wait (RCas fp_mod_cas_cb _) _ _ => accepted_after fp_mod_retrans_lookup_cb cs
  | Wait (RVdp fp_mod_vdp_cb) O _ => cs = [CVdp V_VDP_ACCEPT]
  | Wait (RCas fp_mod_compensate_write_cb _) _ _ => False
  | Wait (RRead fp_del_read_cb _) _ _ => accepted_after fp_del_retrans_lookup_cb cs
  | Wait (RVdp fp_del_vdp_cb) O _ => accepted_after fp_del_retrans_lookup_cb cs
  | Wait (RCas fp_del_delete_cb _) _ _ =>
      accepted_after fp_del_retrans_lookup_cb cs ∨
      ∃ mid r1, cs = mid ++ [CReply r1] ∧ cas_result r1 = Some V_CAS_OK ∧ Forall (λ c, ∃ r, c = CReply r) mid
  | _ => True
  end.

Lemma accepted_cons cb c cs : accepted_after cb cs → accepted_after cb (c :: cs).
Proof.
  destruct cb; cbn.
  - intros (pre&r1&r2&->&H). by exists (c :: pre), r1, r2.
  - intros (pre&r1&->&H). by exists (c :: pre), r1.
  - intros (pre&mid&r1&->&H). by exists (c :: pre), mid, r1.
Qed.

#[local] Arguments accepted_after : simpl never.

(** A transport that gave up never leads to acceptance, unless a later round
    does. *)
Lemma gave_up_accepts r s k c o cs : proc_step r k (CReply None) o → accepts o cs → accepts (Wait r (S s) k) (c :: cs).
Proof.
  intros Hs Ha. inversion Hs; cbn in *; outcomes; cbn in *; try done; try (by destruct Ha as [[=] _]); by apply accepted_cons.
Qed.

(** Waiting at another stage of the transport. *)
Lemma stage_accepts r s s' k reply cs : accepts (Wait r (S s') k) cs → accepts (Wait r (S s) k) (CReply reply :: cs).
Proof.
  intros H. destruct r as [cb|[] c|[] v| |[]|]; cbn in *; try done; try by apply accepted_cons.
  destruct H as [H|(mid&r1&->&Hr&Hm)]; [left; by apply accepted_cons|right].
  exists (CReply reply :: mid), r1. split; [done|]. split; [done|]. constructor; [by eexists|done].
Qed.

Lemma proc_accepts r k c o cs : proc_step r k c o → accepts o cs → accepts (Wait r 0 k) (c :: cs).
Proof.
  intros Hs Ha. destruct Hs; try match goal with cb : v_retrans_cb_t |- _ => destruct cb end;
    repeat match goal with H : match cas_result ?r with _ => _ end |- _ => destruct (cas_result r) as [[]|] eqn:? end;
    outcomes; cbn [accepts] in *; try done; try (destruct Ha; discriminate); try by apply accepted_cons.
  - destruct Ha as [r2 ->]. by exists [], reply, r2.
  - destruct Ha as [r2 ->]. by exists r2.
  - destruct reply as [r2|]; [|by destruct Ha]. destruct Ha as [_ ->]. by exists r2.
  - subst cs. by exists [], reply.
  - by destruct Ha as [_ ->].
  - destruct Ha as [Ha|(mid&r1&->&Hr&Hm)]; [by apply accepted_cons|]. by exists [], mid, r1.
  - destruct Ha as [_ ->]. right. by exists [], reply.
  - left. by apply accepted_cons.
Qed.

Lemma accepts_stage r s k cs : accepts (Wait r 0 k) cs → accepts (Wait r s k) cs.
Proof. destruct s; [done|]. by destruct r as [| |[] ?| |[]|]. Qed.

Lemma step_accepts r s k c o cs : wait_step r s k c o → accepts o cs → accepts (Wait r s k) (c :: cs).
Proof.
  intros Hs Ha. destruct Hs as [| |r k reply o Hn [->|Ho]|r s k reply o Hin Hsha Ho|r s k reply o Hin Hsha Ho].
  - by eapply proc_accepts.
  - by eapply accepts_stage, proc_accepts.
  - by eapply stage_accepts.
  - by eapply gave_up_accepts.
  - destruct s as [|s]; [by apply elem_of_cons in Hin as [[=]|[[=]|[]%not_elem_of_nil]%elem_of_cons]|]. destruct Ho as [->|Ho]; [|by eapply gave_up_accepts].
    replace (S s - 1)%nat with s in Ha by lia. destruct s as [|s]; [|by eapply stage_accepts].
    apply stage_accepts with (s' := 0%nat). by apply accepts_stage.
  - destruct s as [|s]; [by apply elem_of_cons in Hin as [[=]|[[=]|[]%not_elem_of_nil]%elem_of_cons]|]. by eapply gave_up_accepts.
Qed.

(** An accepted request: the database took its CAS and the data plane its
    rule, in the order of its procedure, and an establishment was confirmed. *)
Lemma run_accepted o cs : proto_run o cs ACCEPTED → accepts o cs.
Proof.
  intros H. remember ACCEPTED as o' eqn:Eo. induction H as [o|r s k c o cs o' Hs _ IH]; subst; [done|].
  eapply step_accepts; [exact Hs|by apply IH].
Qed.
