(* ===== verification/Progress.v ===== *)
(** The session procedures against the protocol of Protocol.v, part one: what
    an operation does to the transactions in flight.  An operation may leave
    all of them alone ([silent]), change the one it works on ([local]), or
    move it along the protocol ([moves]): hand it over to exactly one new
    completion, or answer it. *)
From S2P Require Import Prelude Seid Dpdk Heap Redis World DbScript SessStore RetransCache IdAlloc.
From S2P Require Import DispatchQ NodeState Flow Sweeper Pod Pools Own Protocol.

(** The stages of the transport. *)
Definition stage (cb : v_db_cb_t) : nat :=
  match cb with
  | fp_evalsha_reply_cb p => if ep_retried p then 0 else 2
  | fp_load_reply_cb lc =>
      match lc_resume lc with Some p => if ep_retried p then 1 else 3 | None => 0 end
  | _ => 0
  end.

Section waiting.
Context {DP : Dpdk} {PP : PfcpPort}.

(** What is waited for: the transaction, its role, the transport stage. *)
Definition wait : Type := Z * role * nat.

Definition cmd_waits (c : db_cmd) : list wait := (λ rt : role * Z, (rt.2, rt.1, stage (dc_cb c))) <$> cb_conts (dc_cb c).
Definition vdp_wait (v : vdp_call) : wait := (vc_arg v, RVdp (vc_cb v), 0%nat).

Definition waits (w : world) : list wait :=
  (db_queue (w_db w) ≫= cmd_waits) ++ (vdp_wait <$> vdp_queue (w_vdp w)).

Definition retry_of (w : world) (t : Z) : Z := match hp_mem (w_txns w) !! t with Some x => t_cas_retry x | None => 0 end.

End waiting.

Abbreviation same_waits w w' := (∀ e, e ∈ waits w' ↔ e ∈ waits w).

Section progress.
Context {DP : Dpdk} {PP : PfcpPort}.

(** What a response depends on: the rings, the decoded requests, and each
    transaction's request and peer. *)
Definition facts (w : world) (t : Z) : option (option Z * sockaddr) :=
  (λ x, (t_req x, t_peer x)) <$> hp_mem (w_txns w) !! t.

Definition same_view (w w' : world) : Prop :=
  w_disp w' = w_disp w ∧ w_msgs w' = w_msgs w ∧ ∀ t, facts w' t = facts w t.

(** Effects that hand no transaction over and leave the conflict counts alone;
    [calm_but t] says so of the transactions other than [t]. *)
Definition calm (w w' : world) : Prop := same_waits w w' ∧ ∀ t, retry_of w' t = retry_of w t.
Definition calm_but (t : Z) (w w' : world) : Prop := same_waits w w' ∧ ∀ u, u ≠ t → retry_of w' u = retry_of w u.

(** The same, and no response is sent or changed. *)
Definition silent (w w' : world) : Prop := calm w w' ∧ same_view w w'.
Definition local (t : Z) (w w' : world) : Prop := calm_but t w w' ∧ same_view w w'.

(** The datagram an answer sends, and the rings after it. *)
Definition response (a : answer) (m : pfcp_msg) (buf : option bytes) : Prop :=
  match a with
  | Cause c => ∃ ctx, (c ≠ V_PFCP_CAUSE_REQUEST_ACCEPTED → ctx = None) ∧ buf = v_port_pfcp_encode_rsp m ctx c RSP_BUF_BYTES
  | Cached resp => buf = Some resp
  | Dropped => buf = None
  end.

Definition sent (buf : option bytes) (peer : sockaddr) (d : dispatch) : dispatch :=
  match buf with Some b => (dispatch_tx_enqueue b (Some peer) d).2 | None => d end.

(** [t] is answered: the response to its request goes to its peer. *)
Definition answered (t : Z) (a : answer) (w w' : world) : Prop :=
  ∃ x, hp_mem (w_txns w) !! t = Some x ∧
    ∃ buf, w_disp w' = sent buf (t_peer x) (w_disp w) ∧
      ∀ r m, t_req x = Some r → hp_mem (w_msgs w) !! r = Some m → response a m buf.

(** [t] moves to an outcome in [P], nothing else happens to transactions. *)
Definition moves (t : Z) (P : outcome → Prop) (w w' : world) : Prop :=
  (∀ u, u ≠ t → retry_of w' u = retry_of w u) ∧
  ∃ o, P o ∧
    match o with
    | Wait r s k => (∀ e, e ∈ waits w' ↔ e = (t, r, s) ∨ e ∈ waits w) ∧ retry_of w' t = k ∧ w_disp w' = w_disp w
    | Answered a => same_waits w w' ∧ answered t a w w'
    end.

(** [m] has only such effects. *)
Definition does {A} (R : world → world → Prop) (m : M A) : Prop := ∀ w a w', m w = Some (a, w') → R w w'.

(** The same from states in which [t] has met [k] conflicts. *)
Definition does_from {A} (t k : Z) (R : world → world → Prop) (m : M A) : Prop :=
  ∀ w a w', retry_of w t = k → m w = Some (a, w') → R w w'.

#[export] Instance same_view_preorder : PreOrder same_view.
Proof.
  split; [done|]. intros w1 w2 w3 (H1&H2&H3) (H4&H5&H6). split; [congruence|]. split; [congruence|].
  intros t. by rewrite H6, H3.
Qed.

#[export] Instance calm_preorder : PreOrder calm.
Proof.
  split; [by split|]. intros w1 w2 w3 [H1 H2] [H3 H4].
  split; [intros e; by rewrite H3, H1|intros t; by rewrite H4, H2].
Qed.

#[export] Instance calm_but_preorder t : PreOrder (calm_but t).
Proof.
  split; [by split|]. intros w1 w2 w3 [H1 H2] [H3 H4].
  split; [intros e; by rewrite H3, H1|intros u Hu; by rewrite H4, H2].
Qed.

#[export] Instance silent_preorder : PreOrder silent.
Proof. split; [intros w; split; reflexivity|]. intros w1 w2 w3 [H1 H2] [H3 H4]. split; by etrans. Qed.

Lemma silent_calm w w' : silent w w' → calm w w'.
Proof. by intros [? _]. Qed.

Lemma calm_calm_but t w w' : calm w w' → calm_but t w w'.
Proof. intros [H1 H2]. by split. Qed.

Lemma silent_local t w w' : silent w w' → local t w w'.
Proof. intros [H1 H2]. split; [by apply calm_calm_but|done]. Qed.

Lemma silent_retry w w' t : silent w w' → retry_of w' t = retry_of w t.
Proof. by intros [[_ H] _]. Qed.

Lemma same_view_answered t a w1 w2 w3 : same_view w1 w2 → answered t a w2 w3 → answered t a w1 w3.
Proof.
  intros (H1&H2&H3) (x2&Hx&buf&Hd&Hb). pose proof (H3 t) as H4. unfold facts in H4. rewrite Hx in H4.
  destruct (hp_mem (w_txns w1) !! t) as [x|] eqn:Ex; [|done]. injection H4 as Hr Hp.
  exists x. split; [first [exact Ex|done]|]. exists buf. split; [congruence|]. intros r m Hrr Hm. apply (Hb r); congruence.
Qed.

Lemma local_then_moves t P w1 w2 w3 : local t w1 w2 → moves t P w2 w3 → moves t P w1 w3.
Proof.
  intros [[H1 H2] Hv] (H3&o&Ho&H4). split; [intros u Hu; by rewrite H3, H2|]. exists o. split; [done|].
  destruct o.
  - destruct H4 as (H4&H5&H6). split; [intros e; by rewrite H4, H1|]. split; [done|]. by rewrite H6, (proj1 Hv).
  - destruct H4 as [H4 H5]. split; [intros e; by rewrite H4, H1|by eapply same_view_answered].
Qed.

Lemma moves_then_silent t P w1 w2 w3 : moves t P w1 w2 → silent w2 w3 → moves t P w1 w3.
Proof.
  intros (H1&o&Ho&H2) [[H3 H4] (Hd&_&_)]. split; [intros u Hu; by rewrite H4, H1|].
  exists o. split; [done|]. destruct o as [r s k|a].
  - destruct H2 as (H2&H5&H6). split; [intros e; by rewrite H3, H2|]. split; [by rewrite H4|congruence].
  - destruct H2 as (H2&x&Hx&buf&Hb&Hr). split; [intros e; by rewrite H3, H2|]. exists x. split; [done|].
    exists buf. by rewrite Hd.
Qed.

Lemma moves_mono t (P P' : outcome → Prop) w w' : (∀ o, P o → P' o) → moves t P w w' → moves t P' w w'.
Proof. intros HP (H1&o&Ho&H2). split; [done|]. exists o. split; [by apply HP|done]. Qed.

(** ** Composition *)

Lemma does_ret {A} R `{!Reflexive R} (a : A) : does R (mret a).
Proof. by intros w b w' [= _ <-]. Qed.

Lemma does_bind {A B} R `{!Transitive R} (m : M A) (f : A → M B) : does R m → (∀ a, does R (f a)) → does R (m ≫= f).
Proof. intros Hm Hf w b w' (w1&a&E1&E2)%bind_Some_inv. etrans; [by eapply Hm|by eapply Hf]. Qed.

Lemma does_when R `{!Reflexive R} b (m : M ()) : does R m → does R (when b m).
Proof. intros H. destruct b; [done|by apply does_ret]. Qed.

Lemma does_read {A} R `{!Reflexive R} (m : M A) : (∀ w a w', m w = Some (a, w') → w' = w) → does R m.
Proof. intros H w a w' E. by rewrite (H w a w' E). Qed.

Lemma does_weaken {A} (R R' : world → world → Prop) (m : M A) : (∀ w w', R w w' → R' w w') → does R m → does R' m.
Proof. intros HR H w a w' E. by eapply HR, H. Qed.

(** After a silent prefix the conflicts are still known. *)
Lemma silent_from {A B} t k P (m : M A) (f : A → M B) :
  does silent m → (∀ a, does_from t k (moves t P) (f a)) → does_from t k (moves t P) (m ≫= f).
Proof.
  intros Hm Hf w b w' Hk (w1&a&E1&E2)%bind_Some_inv. pose proof (Hm _ _ _ E1) as Hs.
  eapply local_then_moves; [by apply silent_local|]. eapply Hf, E2. by rewrite (silent_retry _ _ _ Hs).
Qed.

Lemma from_mono {A} t k (P P' : outcome → Prop) (m : M A) :
  (∀ o, P o → P' o) → does_from t k (moves t P) m → does_from t k (moves t P') m.
Proof. intros HP Hm w a w' Hk E. eapply moves_mono; [exact HP|by eapply Hm]. Qed.

Lemma from_then_silent {A B} t k P (m : M A) (f : A → M B) :
  does_from t k (moves t P) m → (∀ a, does silent (f a)) → does_from t k (moves t P) (m ≫= f).
Proof.
  intros Hm Hf w b w' Hk (w1&a&E1&E2)%bind_Some_inv. eapply moves_then_silent; [by eapply Hm|by eapply Hf].
Qed.

(** A call that takes [t] over, else does nothing. *)
Definition takes_from (t k : Z) (P : outcome → Prop) (m : M Z) : Prop :=
  ∀ w rc w', retry_of w t = k → m w = Some (rc, w') →
    rc = RET_CODE_OK ∧ moves t P w w' ∨ rc = RET_CODE_ERR ∧ silent w w'.

Lemma takes_ret_err t k P : takes_from t k P (mret RET_CODE_ERR).
Proof. intros w rc w' _ [= <- <-]. by right. Qed.

Lemma takes_silent {A} t k P (m : M A) (f : A → M Z) :
  does silent m → (∀ a, takes_from t k P (f a)) → takes_from t k P (m ≫= f).
Proof.
  intros Hm Hf w rc w' Hk (w1&a&E1&E2)%bind_Some_inv. pose proof (Hm _ _ _ E1) as Hs.
  destruct (Hf a w1 rc w' ltac:(by rewrite (silent_retry _ _ _ Hs)) E2) as [[-> H]|[-> H]].
  - left. split; [done|]. eapply local_then_moves; [by apply silent_local|done].
  - right. split; [done|by etrans].
Qed.

(** [if (rc != OK) { give the object back; return ERR; } return OK;] *)
Lemma takes_put t k P (m : M Z) (f : M ()) :
  takes_from t k P m → does silent f →
  takes_from t k P (rc ← m; if negb (rc =? RET_CODE_OK) then _ ← f; mret RET_CODE_ERR else mret RET_CODE_OK).
Proof.
  intros Hm Hf w rc w' Hk (w1&rc1&E1&E2)%bind_Some_inv. destruct (Hm _ _ _ Hk E1) as [[-> H]|[-> H]]; cbn in E2.
  - injection E2 as <- <-. by left.
  - apply bind_Some_inv in E2 as (w2&[]&E2&[= <- <-]). right. split; [done|]. etrans; [done|by eapply Hf].
Qed.

(** The caller's reaction to a refusal. *)
Lemma takes_otherwise {A} t k (P : outcome → Prop) (m : M Z) (g : Z → M A) (f : M ()) :
  takes_from t k P m → (∀ rc, does silent (g rc)) → does_from t k (moves t P) f →
  does_from t k (moves t P) (rc ← m; _ ← g rc; when (negb (rc =? RET_CODE_OK)) f).
Proof.
  intros Hm Hg Hf w b w' Hk (w1&rc&E1&(w2&a&E2&E3)%bind_Some_inv)%bind_Some_inv.
  pose proof (Hg _ _ _ _ E2) as Hs. destruct (Hm _ _ _ Hk E1) as [[-> Hh]|[-> Hs1]]; cbn in E3.
  - injection E3 as _ <-. by eapply moves_then_silent.
  - assert (silent w w2) as Hs2 by (by etrans).
    eapply local_then_moves; [by apply silent_local|]. eapply Hf, E3. by rewrite (silent_retry _ _ _ Hs2).
Qed.

Lemma takes_otherwise' t k (P : outcome → Prop) (m : M Z) (f : M ()) :
  takes_from t k P m → does_from t k (moves t P) f →
  does_from t k (moves t P) (rc ← m; when (negb (rc =? RET_CODE_OK)) f).
Proof.
  intros Hm Hf w a w' Hk E. apply (takes_otherwise t k P m (λ _, mret tt) f Hm (λ _, does_ret silent tt) Hf w a w' Hk).
  exact E.
Qed.

(** ** Primitives *)

Lemma frame_silent w w' :
  db_queue (w_db w') = db_queue (w_db w) → vdp_queue (w_vdp w') = vdp_queue (w_vdp w) →
  w_txns w' = w_txns w → w_disp w' = w_disp w → w_msgs w' = w_msgs w → silent w w'.
Proof.
  intros Hq Hv Ht Hd Hm. split; split; try done.
  - intros e. unfold waits. by rewrite Hq, Hv.
  - intros t. unfold retry_of. by rewrite Ht.
  - split; [done|]. intros t. unfold facts. by rewrite Ht.
Qed.

Definition framed {A} (m : M A) : Prop := ∀ w a w', m w = Some (a, w') →
  db_queue (w_db w') = db_queue (w_db w) ∧ vdp_queue (w_vdp w') = vdp_queue (w_vdp w) ∧ w_txns w' = w_txns w ∧
  w_disp w' = w_disp w ∧ w_msgs w' = w_msgs w.

Lemma framed_silent {A} (m : M A) : framed m → does silent m.
Proof. intros H w a w' E. destruct (H w a w' E) as (?&?&?&?&?). by apply frame_silent. Qed.

(** Requests and rings may change here. *)
Definition loose {A} (m : M A) : Prop := ∀ w a w', m w = Some (a, w') →
  db_queue (w_db w') = db_queue (w_db w) ∧ vdp_queue (w_vdp w') = vdp_queue (w_vdp w) ∧ w_txns w' = w_txns w.

Lemma loose_calm {A} (m : M A) : loose m → does calm m.
Proof.
  intros H w a w' E. destruct (H w a w' E) as (Hq&Hv&Ht).
  split; [intros e; unfold waits; by rewrite Hq, Hv|intros t; unfold retry_of; by rewrite Ht].
Qed.

Lemma silent_ret {A} (a : A) : does silent (mret a).
Proof. by apply does_ret. Qed.

Lemma silent_bind {A B} (m : M A) (f : A → M B) : does silent m → (∀ a, does silent (f a)) → does silent (m ≫= f).
Proof. apply does_bind, _. Qed.

Lemma silent_when b (m : M ()) : does silent m → does silent (when b m).
Proof. apply does_when, _. Qed.

Lemma silent_gets {A} (f : world → A) : does silent (gets f).
Proof. by apply does_read; [apply _|intros w a w' [= _ <-]]. Qed.

Lemma silent_crash {A} : does silent (crash (A := A)).
Proof. by intros w a w'. Qed.

Lemma silent_deref o : does silent (deref o).
Proof. destruct o; [apply silent_ret|apply silent_crash]. Qed.

Lemma silent_txn_get t : does silent (txn_get t).
Proof. apply does_read; [apply _|]. intros w a w'. unfold txn_get. case_match; [by intros [= _ <-]|done]. Qed.

Definition keeps_facts (f : v_txn → v_txn) : Prop := ∀ x, t_req (f x) = t_req x ∧ t_peer (f x) = t_peer x.

Lemma same_view_txn_upd t f w a w' : keeps_facts f → txn_upd t f w = Some (a, w') → same_view w w'.
Proof.
  intros Hf. unfold txn_upd, heap_get. destruct (hp_mem (w_txns w) !! t) as [x|] eqn:Ex; [|done]. intros [= _ <-].
  split; [done|]. split; [done|]. intros u. unfold facts. cbn. destruct (decide (u = t)) as [->|Hne].
  - rewrite lookup_insert_eq, Ex. cbn. by destruct (Hf x) as [-> ->].
  - by rewrite lookup_insert_ne.
Qed.

Lemma calm_txn_upd t f : (∀ x, t_cas_retry (f x) = t_cas_retry x) → does calm (txn_upd t f).
Proof.
  intros Hf w a w'. unfold txn_upd, heap_get. destruct (hp_mem (w_txns w) !! t) as [x|] eqn:Ex; [|done]. intros [= _ <-].
  split; [done|]. intros u. unfold retry_of. cbn. destruct (decide (u = t)) as [->|Hne].
  - by rewrite lookup_insert_eq, Ex, Hf.
  - by rewrite lookup_insert_ne.
Qed.

Lemma silent_txn_upd t f : (∀ x, t_cas_retry (f x) = t_cas_retry x) → keeps_facts f → does silent (txn_upd t f).
Proof. intros Hf Hk w a w' E. split; [by eapply calm_txn_upd|by eapply same_view_txn_upd]. Qed.

Lemma local_txn_upd t f : keeps_facts f → does (local t) (txn_upd t f).
Proof.
  intros Hk w a w' E. split; [|by eapply same_view_txn_upd]. revert E. unfold txn_upd. case_match; [|done].
  intros [= _ <-]. split; [done|]. intros u Hu. unfold retry_of. cbn. by rewrite lookup_insert_ne.
Qed.

Lemma calm_destroy t : does (calm_but t) (v_port_txn_destroy t).
Proof.
  intros w a w'. unfold v_port_txn_destroy. case_match; intros [= _ <-]; [|done]. split; [done|]. intros u Hu.
  unfold retry_of. cbn. by rewrite lookup_delete_ne.
Qed.

Lemma silent_ctx_alloc : does silent v_port_ctx_alloc.
Proof. apply framed_silent. intros w a w'. unfold v_port_ctx_alloc. repeat case_match; by intros [= _ <-]. Qed.

Lemma silent_ctx_free c : does silent (v_port_ctx_free c).
Proof. apply framed_silent. intros w a w'. unfold v_port_ctx_free. repeat case_match; by intros [= _ <-]. Qed.

Lemma silent_ctx_get c : does silent (ctx_get c).
Proof. apply framed_silent. intros w a w'. unfold ctx_get. case_match; [by intros [= _ <-]|done]. Qed.

Lemma silent_ctx_set c v : does silent (ctx_set c v).
Proof. apply framed_silent. intros w a w'. unfold ctx_set. case_match; [by intros [= _ <-]|done]. Qed.

Lemma silent_msg_get m : does silent (msg_get m).
Proof. apply framed_silent. intros w a w'. unfold msg_get. case_match; [by intros [= _ <-]|done]. Qed.

Lemma calm_msg_free m : does calm (v_port_pfcp_msg_free m).
Proof. apply loose_calm. intros w a w'. unfold v_port_pfcp_msg_free. repeat case_match; by intros [= _ <-]. Qed.

Lemma calm_tx buf peer : does calm (v_dispatch_tx_enqueue buf peer).
Proof. apply loose_calm. intros w a w'. unfold v_dispatch_tx_enqueue. case_match. by intros [= _ <-]. Qed.

(** ** Commands *)

Lemma waits_cmd w c p no : waits (set_db (DbPort (db_connected (w_db w)) p (db_queue (w_db w) ++ [c]) no (db_accept (w_db w))) w) ≡ₚ
  cmd_waits c ++ waits w.
Proof.
  unfold waits. cbn. rewrite bind_app. cbn. rewrite app_nil_r.
  rewrite <- app_assoc, (Permutation_app_comm (cmd_waits c)), app_assoc, Permutation_app_comm. done.
Qed.

(** A command without a transaction behind it. *)
Lemma silent_cmd shard cb argv : cb_conts cb = [] → does silent (v_port_db_cmd_argv shard cb argv).
Proof.
  intros Hc w a w'. unfold v_port_db_cmd_argv. destruct (_ || _); [by intros [= _ <-]|].
  destruct (rte_mempool_get _) as [[p pool]|]; [|by intros [= _ <-]].
  destruct (db_accept _ _); intros [= _ <-]; [|by apply frame_silent]. split; [|done]. split; [|done]. intros e.
  rewrite waits_cmd. unfold cmd_waits. cbn. by rewrite Hc.
Qed.

(** A command that carries [t]. *)
Lemma takes_cmd shard cb argv t r k (P : outcome → Prop) :
  cb_conts cb = [(r, t)] → P (Wait r (stage cb) k) → takes_from t k P (v_port_db_cmd_argv shard cb argv).
Proof.
  intros Hc HP w a w' Hk. unfold v_port_db_cmd_argv. destruct (_ || _); [intros [= <- <-]; by right|].
  destruct (rte_mempool_get _) as [[p pool]|]; [|intros [= <- <-]; by right].
  destruct (db_accept _ _); intros [= <- <-]; [left|right; by split; [|apply frame_silent]]. split; [done|].
  split; [done|]. eexists. split; [exact HP|]. split; [|by split].
  intros e. rewrite waits_cmd. unfold cmd_waits. cbn. rewrite Hc. cbn. by rewrite elem_of_cons.
Qed.

(** A data-plane operation. *)
Lemma takes_vdp op cb t k (P : outcome → Prop) : P (Wait (RVdp cb) 0 k) → takes_from t k P (vdp_dispatch op cb t).
Proof.
  intros HP w a w' Hk. unfold vdp_dispatch. destruct (vdp_accept _ _); intros [= <- <-]; [left|right; by split; [|apply frame_silent]].
  split; [done|]. split; [done|]. eexists. split; [exact HP|]. split; [|by split].
  intros e. unfold waits. cbn. rewrite fmap_app, !elem_of_app. cbn. rewrite list_elem_of_singleton. tauto.
Qed.

End progress.

Create HintDb prog.
#[export] Hint Resolve silent_ret silent_gets silent_crash silent_deref silent_txn_get silent_ctx_alloc silent_ctx_free
  silent_ctx_get silent_ctx_set silent_msg_get calm_msg_free calm_tx : prog.

Ltac prog_step :=
  first
    [ solve [eauto with prog]
    | apply silent_bind; [|intros ?]
    | apply silent_when
    | apply silent_txn_upd; [done|by split]
    | apply silent_cmd; reflexivity
    | apply framed_silent; intros ? ? ? [= _ <-]; done
    | case_match ].
Ltac prog := intros; cbv beta; repeat prog_step.

#[local] Opaque seid_enqueue_block.

Section calls.
Context {DP : Dpdk} {PP : PfcpPort}.

Abbreviation user_call := (evalsha_user → Z → option v_db_reply → M ()).

Lemma silent_store part f seq resp : does silent (v_retrans_store part f seq resp).
Proof. unfold v_retrans_store. prog. Qed.

Lemma silent_tfree part teid : does silent (v_teid_free part teid).
Proof. unfold v_teid_free. prog. Qed.

Lemma silent_part_rr : does silent part_rr.
Proof. apply framed_silent. by intros ? ? ? [= _ <-]. Qed.

Lemma silent_evalsha_put o : does silent (evalsha_put o).
Proof. apply framed_silent. by intros ? ? ? [= _ <-]. Qed.

Lemma silent_load_put o : does silent (load_put o).
Proof. apply framed_silent. by intros ? ? ? [= _ <-]. Qed.

Lemma silent_sess_put o : does silent (sess_pending_put o).
Proof. apply framed_silent. intros w a w'. unfold sess_pending_put. case_match; [by intros [= _ <-]|done]. Qed.

Lemma silent_sess_get : does silent sess_pending_get.
Proof. apply framed_silent. intros w a w'. unfold sess_pending_get. repeat case_match; try done; by intros [= _ <-]. Qed.

Lemma silent_sess_ensure : does silent sess_ensure_pool.
Proof. apply framed_silent. intros w a w'. unfold sess_ensure_pool. repeat case_match; by intros [= _ <-]. Qed.

Lemma silent_retrans_put o : does silent (retrans_pending_put o).
Proof. apply framed_silent. intros w a w'. unfold retrans_pending_put. case_match; [by intros [= _ <-]|done]. Qed.

Lemma silent_retrans_get : does silent retrans_pending_get.
Proof. apply framed_silent. intros w a w'. unfold retrans_pending_get. repeat case_match; try done; by intros [= _ <-]. Qed.

Lemma silent_retrans_ensure : does silent retrans_ensure_pool.
Proof. apply framed_silent. intros w a w'. unfold retrans_ensure_pool. repeat case_match; by intros [= _ <-]. Qed.

Lemma silent_node_put o : does silent (node_pending_put o).
Proof. apply framed_silent. intros w a w'. unfold node_pending_put. case_match; [by intros [= _ <-]|done]. Qed.

Lemma silent_ids f : does silent (ids_modify f).
Proof. apply framed_silent. by intros ? ? ? [= _ <-]. Qed.

Lemma silent_seid_ring p : does silent (seid_ring p).
Proof. apply framed_silent. intros w a w'. unfold seid_ring. case_match; [by intros [= _ <-]|done]. Qed.

Lemma silent_teid_ring p : does silent (teid_ring p).
Proof. apply framed_silent. intros w a w'. unfold teid_ring. case_match; [by intros [= _ <-]|done]. Qed.

End calls.

#[export] Hint Resolve silent_store silent_tfree silent_part_rr silent_evalsha_put silent_load_put silent_sess_put
  silent_sess_get silent_sess_ensure silent_retrans_put silent_retrans_get silent_retrans_ensure silent_node_put
  silent_ids silent_seid_ring silent_teid_ring : prog.

Section refills.
Context {DP : Dpdk} {PP : PfcpPort}.

Lemma silent_teid_reply part st r : does silent (teid_refill_reply_cb part st r).
Proof. unfold teid_refill_reply_cb, clear_teid_inflight. prog. Qed.

Lemma silent_seid_reply part st r : does silent (seid_refill_reply_cb part st r).
Proof. unfold seid_refill_reply_cb, clear_seid_inflight. prog. Qed.

Lemma silent_seid_alloc part : does silent (v_seid_alloc part).
Proof. unfold v_seid_alloc, seid_maybe_refill, clear_seid_inflight. prog. Qed.

Lemma silent_set_state t s : does silent (v_port_txn_set_state t s).
Proof. by apply silent_txn_upd; [|by split]. Qed.

Lemma silent_drop_snapshot t : does silent (drop_snapshot t).
Proof. unfold drop_snapshot. prog. Qed.

End refills.

#[export] Hint Resolve silent_set_state silent_drop_snapshot silent_teid_reply silent_seid_reply silent_seid_alloc : prog.

(** ** Functions that end their transaction *)

Section calming.
Context {DP : Dpdk} {PP : PfcpPort}.

Lemma calm_bind {A B} (m : M A) (f : A → M B) : does calm m → (∀ a, does calm (f a)) → does calm (m ≫= f).
Proof. apply does_bind, _. Qed.

Lemma silent_calmly {A} (m : M A) : does silent m → does calm m.
Proof. apply does_weaken, silent_calm. Qed.

End calming.

Ltac calm_step :=
  first [ apply silent_calmly; solve [prog] | apply calm_msg_free | apply calm_tx | apply calm_txn_upd; done
        | apply calm_bind; [|intros ?] | case_match ].
Ltac calmly := intros; repeat calm_step.

Section answers.
Context {DP : Dpdk} {PP : PfcpPort}.

Lemma calm_then_destroy {A} t (m : M A) (f : A → M ()) :
  does calm m → (∀ a, does (calm_but t) (f a)) → does (calm_but t) (m ≫= f).
Proof. intros Hm Hf. apply does_bind; [apply _| |done]. eapply does_weaken, Hm. intros w w'. apply calm_calm_but. Qed.

Lemma calm_reply x cause : does calm (reply_and_cache x cause).
Proof. unfold reply_and_cache. calmly. Qed.

Lemma calm_finish t cause : does (calm_but t) (finish t cause).
Proof.
  unfold finish. do 6 (apply calm_then_destroy; [first [apply calm_reply|calmly]|intros ?]). apply calm_destroy.
Qed.

Lemma calm_drop t : does (calm_but t) (drop_request t).
Proof. unfold drop_request. do 3 (apply calm_then_destroy; [calmly|intros ?]). apply calm_destroy. Qed.

Lemma calm_reply_cached t resp : does (calm_but t) (reply_cached t resp).
Proof. unfold reply_cached. do 2 (apply calm_then_destroy; [calmly|intros ?]). apply calm_drop. Qed.

(** *** What they send *)

Definition same_disp (w w' : world) : Prop := w_disp w' = w_disp w.

#[export] Instance same_disp_preorder : PreOrder same_disp.
Proof. split; [done|]. intros w1 w2 w3. unfold same_disp. congruence. Qed.

Lemma disp_bind {A B} (m : M A) (f : A → M B) : does same_disp m → (∀ a, does same_disp (f a)) → does same_disp (m ≫= f).
Proof. apply does_bind, _. Qed.

Lemma silent_disp {A} (m : M A) : does silent m → does same_disp m.
Proof. apply does_weaken. by intros w w' [_ [? _]]. Qed.

Lemma disp_txn_upd t f : does same_disp (txn_upd t f).
Proof. intros w a w'. unfold txn_upd. case_match; [by intros [= _ <-]|done]. Qed.

Lemma disp_msg_free m : does same_disp (v_port_pfcp_msg_free m).
Proof. intros w a w'. unfold v_port_pfcp_msg_free. case_match; by intros [= _ <-]. Qed.

Lemma disp_destroy t : does same_disp (v_port_txn_destroy t).
Proof. intros w a w'. unfold v_port_txn_destroy. case_match; by intros [= _ <-]. Qed.

Ltac disp_step :=
  first [ apply silent_disp; solve [prog] | apply disp_txn_upd | apply disp_msg_free | apply disp_destroy
        | apply disp_bind; [|intros ?] | case_match ].

Lemma txn_get_inv t w x w' : txn_get t w = Some (x, w') → w' = w ∧ hp_mem (w_txns w) !! t = Some x.
Proof. unfold txn_get, heap_get. destruct (hp_mem (w_txns w) !! t); [|done]. by intros [= -> <-]. Qed.

Lemma msg_get_inv r w m w' : msg_get r w = Some (m, w') → w' = w ∧ hp_mem (w_msgs w) !! r = Some m.
Proof. unfold msg_get, heap_get. destruct (hp_mem (w_msgs w) !! r); [|done]. by intros [= -> <-]. Qed.

Lemma tx_inv buf peer w rc w' : v_dispatch_tx_enqueue buf peer w = Some (rc, w') →
  w_disp w' = (dispatch_tx_enqueue buf peer (w_disp w)).2.
Proof. unfold v_dispatch_tx_enqueue. destruct (dispatch_tx_enqueue _ _ _) as [rc' d]. by intros [= _ <-]. Qed.

(** The encoding half: nothing but the response is sent, to the peer. *)
Lemma reply_sends x c w w' : reply_and_cache x c w = Some (tt, w') →
  ∃ r m ctx, t_req x = Some r ∧ hp_mem (w_msgs w) !! r = Some m ∧ (c ≠ V_PFCP_CAUSE_REQUEST_ACCEPTED → ctx = None) ∧
    w_disp w' = sent (v_port_pfcp_encode_rsp m ctx c RSP_BUF_BYTES) (t_peer x) (w_disp w).
Proof.
  unfold reply_and_cache. destruct (t_req x) as [r|]; [|done]. cbn [deref].
  intros (w1&r'&[= <- <-]&(w2&m&[-> Hm]%msg_get_inv&(w3&ctx&E3&E4)%bind_Some_inv)%bind_Some_inv)%bind_Some_inv.
  exists r, m, ctx. split; [done|]. split; [done|].
  assert (w3 = w ∧ (c ≠ V_PFCP_CAUSE_REQUEST_ACCEPTED → ctx = None)) as [-> Hctx].
  { destruct (Z.eqb_spec c V_PFCP_CAUSE_REQUEST_ACCEPTED); [|by injection E3 as <- <-].
    destruct (t_ctx x) as [cx|]; [|by injection E3 as <- <-].
    apply bind_Some_inv in E3 as (w4&v&E3&[= <- <-]). unfold ctx_get in E3. destruct (heap_get _ _); [|done]. by injection E3 as _ <-. }
  split; [done|]. destruct (v_port_pfcp_encode_rsp m ctx c RSP_BUF_BYTES) as [buf|]; [|by injection E4 as <-].
  apply bind_Some_inv in E4 as (w4&rc&E4&(w5&rc'&E5&[= <-])%bind_Some_inv). cbn [sent].
  rewrite (tx_inv _ _ _ _ _ E5). assert (same_disp w w4) as -> by (eapply silent_disp, E4; apply silent_store). done.
Qed.

Lemma finish_answers t c w w' : finish t c w = Some (tt, w') → answered t (Cause c) w w'.
Proof.
  unfold finish. intros (w1&x&[-> Hx]%txn_get_inv&(w2&[]&E2&E3)%bind_Some_inv)%bind_Some_inv. exists x. split; [done|].
  assert (w_disp w' = w_disp w2) as ->.
  { revert E3. match goal with |- ?m w2 = _ → _ => assert (does same_disp m) as Hd end; [|apply Hd]. repeat disp_step. }
  destruct (reply_sends x c w w2 E2) as (r&m&ctx&Hr&Hm&Hctx&->). eexists. split; [done|].
  intros r' m' Hr' Hm'. assert (m' = m) as -> by congruence. by exists ctx.
Qed.

Lemma disp_drop t : does same_disp (drop_request t).
Proof. unfold drop_request. repeat disp_step. Qed.

Lemma drop_answers t w w' : drop_request t w = Some (tt, w') → answered t Dropped w w'.
Proof.
  intros E. pose proof (disp_drop t _ _ _ E) as Hd. unfold drop_request in E.
  apply bind_Some_inv in E as (w1&x&[-> Hx]%txn_get_inv&_). exists x. split; [done|]. by exists None.
Qed.

Lemma cached_answers t resp w w' : reply_cached t resp w = Some (tt, w') → answered t (Cached resp) w w'.
Proof.
  unfold reply_cached. intros (w1&x&[-> Hx]%txn_get_inv&(w2&rc&E2&E3)%bind_Some_inv)%bind_Some_inv.
  exists x. split; [done|]. exists (Some resp). split; [|done].
  rewrite (disp_drop t _ _ _ E3). by eapply tx_inv.
Qed.

(** ** Answering *)

(** The functions that end a request. *)
Definition give_answer (t : Z) (a : answer) : M () :=
  match a with Cause c => finish t c | Cached resp => reply_cached t resp | Dropped => drop_request t end.

Lemma answers t k a (P : outcome → Prop) : P (Answered a) → does_from t k (moves t P) (give_answer t a).
Proof.
  intros HP w [] w' Hk E. assert (calm_but t w w') as [H1 H2].
  { destruct a; [by eapply calm_finish|by eapply calm_reply_cached|by eapply calm_drop]. }
  split; [done|]. exists (Answered a). split; [done|]. split; [done|].
  destruct a; [by apply finish_answers|by apply cached_answers|by apply drop_answers].
Qed.

Lemma finishes t k c (P : outcome → Prop) : P (Answered (Cause c)) → does_from t k (moves t P) (finish t c).
Proof. apply (answers t k (Cause c)). Qed.

Lemma replies_cached t k resp (P : outcome → Prop) :
  P (Answered (Cached resp)) → does_from t k (moves t P) (reply_cached t resp).
Proof. apply (answers t k (Cached resp)). Qed.

End answers.
