(* ===== verification/Conform.v ===== *)
(** The session procedures against the protocol of Protocol.v, part two: every
    callback of v_flow.c, resumed with the transaction it waits for, takes one
    step of the protocol. *)
From S2P Require Import Prelude Seid Dpdk Heap Redis World DbScript SessStore RetransCache IdAlloc.
From S2P Require Import DispatchQ NodeState Flow Sweeper Pod Pools Own Protocol Progress.

Lemma cas_reply_result reply v st res ver :
  cas_reply (reply_status reply) reply v = (st, res, ver) →
  cas_result reply = if st =? RET_CODE_OK then Some res else None.
Proof.
  destruct reply as [[| |n| | |]|]; cbn; try by intros [= <- <- <-]. unfold cas_outcome.
  destruct (Z.eqb_spec n 1) as [->|]; [by intros [= <- <- <-]|].
  destruct (Z.eqb_spec n 0) as [->|]; [by intros [= <- <- <-]|].
  destruct (Z.eqb_spec n (-1)) as [->|]; [by intros [= <- <- <-]|].
  intros [= <- <- <-]. cbn. repeat case_match; try done; lia.
Qed.

#[local] Opaque finish reply_cached drop_request.

Section conform.
Context {DP : Dpdk} {PP : PfcpPort}.

Abbreviation user_call := (evalsha_user → Z → option v_db_reply → M ()).

(** A report of [reply], or of a failed round trip, to a procedure. *)
Definition reports (st : Z) (reply c : option v_db_reply) : Prop :=
  st = RET_CODE_ERR ∧ c = None ∨ st = reply_status reply ∧ c = reply.

(** The user callbacks of the transport follow the protocol. *)
Record iu_conforms (iu : user_call) : Prop := {
  iu_silent u st reply : user_conts u = [] → does silent (iu u st reply);
  iu_steps u r t k st reply c : user_conts u = [(r, t)] → r ≠ RBad → 0 <= k < V_CAS_MAX_RETRY → reports st reply c →
    does_from t k (moves t (proc_step r k (CReply c))) (iu u st reply);
}.

Variable iu : user_call.
Hypothesis Hiu : iu_conforms iu.
Variables t k : Z.
Hypothesis Hk : 0 <= k < V_CAS_MAX_RETRY.

(** ** The transport *)

Lemma silent_issue p : user_conts (ep_user p) = [] → does silent (issue_evalsha iu p).
Proof.
  intros Hu. unfold issue_evalsha. apply silent_bind; [by apply silent_cmd|intros rc].
  apply silent_when, silent_bind; [by apply Hiu|intros _; apply silent_evalsha_put].
Qed.

Lemma issue_moves p r (P : outcome → Prop) :
  user_conts (ep_user p) = [(r, t)] → r ≠ RBad → P (Wait r (if ep_retried p then 0 else 2) k) →
  (∀ o, proc_step r k (CReply None) o → P o) → does_from t k (moves t P) (issue_evalsha iu p).
Proof.
  intros Hu Hr HP Hf. apply takes_otherwise'; [by eapply takes_cmd|].
  apply from_then_silent; [|intros _; apply silent_evalsha_put].
  eapply from_mono; [exact Hf|]. by apply (iu_steps iu Hiu); [..|left].
Qed.

(** What a refused or accepted EVALSHA may lead to. *)
Definition issued (r : role) (o : outcome) : Prop := o = Wait r 2 k ∨ proc_step r k (CReply None) o.

Lemma takes_evalsha shard id keys argv u r (P : outcome → Prop) :
  user_conts u = [(r, t)] → r ≠ RBad → (∀ o, issued r o → P o) →
  takes_from t k P (v_db_evalsha iu shard id keys argv u).
Proof.
  intros Hu Hr HP w rc w' Hret. unfold v_db_evalsha. case_match; [by intros [= <- <-]; right|].
  destruct (if _ <=? shard then _ else _) as [sha|]; [|by intros [= <- <-]; right].
  destruct (rte_mempool_get _) as [[obj pool]|]; [|by intros [= <- <-]; right].
  set (w1 := set_script _ w). assert (silent w w1) as H1 by by apply frame_silent.
  destruct (scratch_copy_all _ _).
  - intros (w2&[]&E&[= <- <-])%bind_Some_inv. left. split; [done|].
    eapply local_then_moves; [by apply silent_local|]. eapply issue_moves, E; try done.
    + apply HP. by left.
    + intros o Ho. apply HP. by right.
  - intros (w2&[]&E&[= <- <-])%bind_Some_inv. right. split; [done|]. etrans; [exact H1|]. by eapply silent_evalsha_put.
Qed.

Lemma silent_evalsha shard id keys argv u : user_conts u = [] → does silent (v_db_evalsha iu shard id keys argv u).
Proof.
  intros Hu w rc w'. unfold v_db_evalsha. case_match; [by intros [= <- <-]|].
  destruct (if _ <=? shard then _ else _) as [sha|]; [|by intros [= <- <-]].
  destruct (rte_mempool_get _) as [[obj pool]|]; [|by intros [= <- <-]].
  set (w1 := set_script _ w). assert (silent w w1) as H1 by by apply frame_silent.
  destruct (scratch_copy_all _ _); intros (w2&[]&E&[= <- <-])%bind_Some_inv; (etrans; [exact H1|]).
  - eapply silent_issue, E; exact Hu.
  - by eapply silent_evalsha_put.
Qed.

(** ** The session store *)

Lemma silent_teid_alloc part : does silent (v_teid_alloc iu part).
Proof.
  unfold v_teid_alloc, teid_maybe_refill, clear_teid_inflight.
  apply silent_bind; [|intros; prog; try apply silent_teid_ring; apply silent_ids].
  repeat first [apply silent_evalsha; done | apply silent_teid_ring | apply silent_ids | prog_step | intros ?].
Qed.

Lemma silent_delete_noop part seid ver :
  does silent (v_sess_delete iu part seid ver fp_delete_pending_noop_cb None).
Proof. unfold v_sess_delete, with_pending. repeat first [apply silent_evalsha; done | prog_step | intros ?]. Qed.

Lemma takes_pending (issue : Z → M Z) (P : outcome → Prop) :
  (∀ obj, takes_from t k P (issue obj)) → takes_from t k P (with_pending issue).
Proof.
  intros Hi. apply takes_silent; [apply silent_sess_get|]. intros [obj|]; [|apply takes_ret_err].
  apply takes_put; [apply Hi|apply silent_sess_put].
Qed.

Lemma takes_ensured (P : outcome → Prop) (m : M Z) :
  takes_from t k P m →
  takes_from t k P (rc ← sess_ensure_pool; if negb (rc =? RET_CODE_OK) then mret RET_CODE_ERR else m).
Proof. intros Hm. apply takes_silent; [apply silent_sess_ensure|]. intros rc. case_match; [apply takes_ret_err|done]. Qed.

Lemma takes_read part seid c cb (P : outcome → Prop) :
  P (Wait (RRead cb c) 0 k) → takes_from t k P (v_sess_read part seid c cb (Some t)).
Proof. intros HP. apply takes_ensured, takes_pending. intros obj. by eapply takes_cmd. Qed.

Lemma takes_confirm part seid (P : outcome → Prop) :
  P (Wait RConfirm 0 k) → takes_from t k P (v_sess_confirm part seid fp_confirm_cb (Some t)).
Proof. intros HP. apply takes_ensured, takes_pending. intros obj. by eapply takes_cmd. Qed.

Lemma takes_write part seid ver c state cb (P : outcome → Prop) :
  writes cb = true → (∀ o, issued (RCas cb ver) o → P o) →
  takes_from t k P (v_sess_cas_write iu part seid ver c state cb (Some t)).
Proof.
  intros H HP. apply takes_ensured, takes_silent; [apply silent_ctx_get|]. intros x.
  case_match; [|apply takes_ret_err]. apply takes_pending. intros obj.
  apply (takes_evalsha _ _ _ _ _ (RCas cb ver)); [by destruct cb|done|done].
Qed.

Lemma takes_delete part seid ver (P : outcome → Prop) :
  (∀ o, issued (RCas fp_del_delete_cb ver) o → P o) →
  takes_from t k P (v_sess_delete iu part seid ver fp_del_delete_cb (Some t)).
Proof. intros HP. apply takes_ensured, takes_pending. intros obj. by apply (takes_evalsha _ _ _ _ _ (RCas fp_del_delete_cb ver)). Qed.

End conform.

(** Run what happens before [t] moves; answer; hand over. *)
Ltac run := repeat (apply silent_from; [solve [prog]|intros ?]).
Ltac give := apply finishes.
Ltac pick := first [by left | by right; left | by right; right; left].

Section reading.
Context {DP : Dpdk} {PP : PfcpPort}.
Variables t k : Z.

Lemma start_read_moves start (cb : v_sess_read_cb_t) (P : outcome → Prop) :
  start = mod_start_read ∧ cb = fp_mod_read_cb ∨ start = del_start_read ∧ cb = fp_del_read_cb →
  (∀ c, P (Wait (RRead cb c) 0 k)) → P FAILURE → does_from t k (moves t P) (start t).
Proof.
  intros [[-> ->]|[-> ->]] HP HF; unfold mod_start_read, del_start_read; run;
    (apply takes_otherwise'; [by apply takes_read|by give]).
Qed.

End reading.

#[local] Opaque mod_start_read del_start_read.

(** ** The callbacks of v_flow.c *)

Section callbacks.
Context {DP : Dpdk} {PP : PfcpPort}.
Variable iu : evalsha_user → Z → option v_db_reply → M ().
Hypothesis Hiu : iu_conforms iu.
Variables t k : Z.
Hypothesis Hk : 0 <= k < V_CAS_MAX_RETRY.

#[local] Hint Resolve silent_teid_alloc silent_delete_noop : prog.

Lemma confirm_cb_steps reply :
  does_from t k (moves t (proc_step RConfirm k (CReply reply))) (confirm_cb t (reply_status reply)).
Proof. unfold confirm_cb. destruct reply; cbn; give; constructor. Qed.

Lemma vdp_create_cb_steps res :
  does_from t k (moves t (proc_step (RVdp fp_vdp_create_cb) k (CVdp res))) (vdp_create_cb iu t res).
Proof.
  unfold vdp_create_cb. run. destruct (decide _) as [Hr|Hr].
  - run. give. constructor. by destruct res.
  - apply dec_stable in Hr as ->. run. apply takes_otherwise'; [apply takes_confirm|give].
    all: constructor; pick.
Qed.

Lemma cas_write_cb_steps st res ver v reply :
  cas_result reply = (if st =? RET_CODE_OK then Some res else None) →
  does_from t k (moves t (proc_step (RCas fp_cas_write_cb v) k (CReply reply))) (cas_write_cb iu t st res ver).
Proof.
  intros Hc. unfold cas_write_cb. run. destruct (st =? RET_CODE_OK); cbn.
  2: { run. give. constructor. by rewrite Hc. }
  destruct (bool_decide_reflect (res ≠ V_CAS_OK)) as [Hr|Hr].
  - run. give. constructor. rewrite Hc. by destruct res.
  - apply dec_stable in Hr as ->. run. apply takes_otherwise'; [apply takes_vdp|run; give].
    all: constructor; rewrite Hc; pick.
Qed.

Lemma mod_restore_steps v reply st res ver :
  does_from t k (moves t (proc_step (RCas fp_mod_compensate_write_cb v) k (CReply reply))) (mod_compensate_write_cb t st res ver).
Proof. unfold mod_compensate_write_cb. give. constructor. Qed.

Lemma mod_vdp_cb_steps res :
  does_from t k (moves t (proc_step (RVdp fp_mod_vdp_cb) k (CVdp res))) (mod_vdp_cb iu t res).
Proof.
  unfold mod_vdp_cb, ctx_free_opt. run. destruct (decide _) as [Hr|Hr].
  - run. apply takes_otherwise; [apply takes_write; try done|intros rc; prog|give].
    + intros o [->|Ho]; constructor; destruct res; try done.
      all: try (left; by eexists). all: inversion Ho; subst; by right; left.
    + constructor. destruct res; try done; by right; right.
  - apply dec_stable in Hr as ->. run. give. by constructor.
Qed.

Lemma alloc_then_moves start cb (P : outcome → Prop) :
  start = mod_start_read ∧ cb = fp_mod_read_cb ∨ start = del_start_read ∧ cb = fp_del_read_cb →
  (∀ c, P (Wait (RRead cb c) 0 k)) → P FAILURE → does_from t k (moves t P) (alloc_ctx_then t start).
Proof.
  intros Hs HP HF. unfold alloc_ctx_then. run. case_match; [by eapply start_read_moves|by give].
Qed.

(** The lookup callbacks: a hit answers, a miss starts the procedure. *)
Lemma lookup_steps cb reply :
  let '(st, hit, resp) := lookup_outcome (reply_status reply) reply in
  does_from t k (moves t (proc_step (RLookup cb) k (CReply reply)))
    match cb with
    | fp_retrans_lookup_cb => retrans_lookup_cb iu t st hit resp
    | fp_mod_retrans_lookup_cb => mod_retrans_lookup_cb t st hit resp
    | fp_del_retrans_lookup_cb => del_retrans_lookup_cb t st hit resp
    end.
Proof.
  destruct (lookup_outcome _ _) as [[st hit] resp] eqn:El.
  destruct ((st =? RET_CODE_OK) && hit) eqn:Eh.
  - assert (cached_response reply = Some resp) as Hc.
    { destruct reply as [[| | | | |]|]; cbn in El; injection El as <- <- <-; done. }
    destruct cb; unfold retrans_lookup_cb, mod_retrans_lookup_cb, del_retrans_lookup_cb; rewrite Eh;
      apply replies_cached; by constructor.
  - assert (cached_response reply = None) as Hc.
    { destruct reply as [[| | | | |]|]; cbn in El; injection El as <- <- <-; done. }
    destruct cb; unfold retrans_lookup_cb, mod_retrans_lookup_cb, del_retrans_lookup_cb; rewrite Eh.
    + run. destruct (_ || _); [run; give; constructor; [done|pick]|]. run.
      match goal with |- does_from _ _ _ (match ?c with _ => _ end) => destruct c end.
      2: { run. give. constructor; [done|pick]. }
      run. destruct (v_port_pfcp_build_session _ _ _ _) as [rc v']. run.
      case_match; [run; give; constructor; [done|pick]|]. run.
      apply takes_otherwise'; [apply takes_write; try done|run; give; constructor; [done|pick]].
      intros o [->|Ho]; constructor; try done; [pick|]. inversion Ho; cbn in *; subst. pick.
    + eapply alloc_then_moves; [by left|intros c|]; constructor; eauto.
    + eapply alloc_then_moves; [by right|intros c|]; constructor; eauto.
Qed.

(** What read_reply_cb reports of a reply. *)
Definition found_status (st : Z) (found : v_cas_result_t) : option bool :=
  if st =? RET_CODE_OK then Some (bool_decide (found = V_CAS_OK)) else None.

(** A found session whose data does not deserialize is reported as an error. *)
Definition read_reports (st : Z) (found : v_cas_result_t) (reply : option v_db_reply) : Prop :=
  found_status st found = session_found reply ∨ found_status st found = None ∧ session_found reply = Some true.

Lemma mod_read_steps st found ctx ver c reply :
  read_reports st found reply →
  does_from t k (moves t (proc_step (RRead fp_mod_read_cb c) k (CReply reply))) (mod_read_cb iu t st found ctx ver).
Proof.
  unfold read_reports, found_status, mod_read_cb. intros Hf. destruct (st =? RET_CODE_OK) eqn:Es; cbn.
  2: { give. constructor. destruct Hf as [<-|[_ ->]]; [done|by right]. }
  destruct (decide _) as [Hn|Hn].
  { rewrite bool_decide_eq_false_2 in Hf by done. give. constructor. by destruct Hf as [<-|[? ?]]. }
  rewrite bool_decide_eq_true_2 in Hf by (by apply dec_stable). destruct Hf as [Hf|[? ?]]; [|done].
  assert (proc_step (RRead fp_mod_read_cb c) k (CReply reply) FAILURE) as HF by (constructor; rewrite <- Hf; by right).
  run. match goal with |- does_from _ _ _ (match ?c with _ => _ end) => destruct c end; [|by give].
  run. match goal with |- does_from _ _ _ (match ?c with _ => _ end) => destruct c end; [|run; by give].
  run. destruct (v_port_pfcp_modify_session _ _) as [rc c']. run. case_match; [run; by give|]. run.
  apply takes_otherwise'; [apply takes_write; try done|run; by give].
  intros o [->|Ho]; constructor; rewrite <- Hf; [left; by eexists|]. inversion Ho; cbn in *; subst. by right.
Qed.

Lemma del_read_steps st found ctx ver c reply :
  read_reports st found reply →
  does_from t k (moves t (proc_step (RRead fp_del_read_cb c) k (CReply reply))) (del_read_cb t st found ctx ver).
Proof.
  unfold read_reports, found_status, del_read_cb. intros Hf. destruct (st =? RET_CODE_OK) eqn:Es; cbn.
  2: { give. constructor. destruct Hf as [<-|[_ ->]]; [done|pick]. }
  destruct (decide _) as [Hn|Hn].
  { rewrite bool_decide_eq_false_2 in Hf by done. give. constructor. by destruct Hf as [<-|[? ?]]. }
  rewrite bool_decide_eq_true_2 in Hf by (by apply dec_stable). destruct Hf as [Hf|[? ?]]; [|done].
  run. apply takes_otherwise'; [apply takes_vdp|give]; constructor; rewrite <- Hf; pick.
Qed.

(** A conflict is counted on a machine byte; below the limit it cannot wrap. *)
Lemma counted w w1 a :
  retry_of w t = k → txn_upd t (λ x, txn_set_cas_retry (u8 (t_cas_retry x + 1)) x) w = Some (a, w1) → retry_of w1 t = k + 1.
Proof.
  unfold txn_upd, heap_get, retry_of. destruct (hp_mem (w_txns w) !! t) as [x|]; [|done]. intros Hr [= _ <-].
  cbn. rewrite lookup_insert_eq. cbn. rewrite Hr. unfold u8. rewrite Z.mod_small; [done|].
  unfold V_CAS_MAX_RETRY in *. lia.
Qed.

Lemma count_conflict {A} (f : () → M A) (P : outcome → Prop) :
  (∀ w w' a, retry_of w t = k + 1 → f tt w = Some (a, w') → moves t P w w') →
  does_from t k (moves t P) (_ ← txn_upd t (λ x, txn_set_cas_retry (u8 (t_cas_retry x + 1)) x); f tt).
Proof.
  intros Hf w a w' Hr (w1&[]&E1&E2)%bind_Some_inv. assert (local t w w1) as Hl by (eapply local_txn_upd, E1; by split).
  eapply local_then_moves; [exact Hl|]. by eapply Hf, E2; eapply counted.
Qed.

Lemma txn_get_retry w x w' : txn_get t w = Some (x, w') → w' = w ∧ t_cas_retry x = retry_of w t.
Proof.
  unfold txn_get, heap_get, retry_of. destruct (hp_mem (w_txns w) !! t); [|done]. by intros [= -> <-].
Qed.

Lemma conflict_moves start cb (P : outcome → Prop) :
  start = mod_start_read ∧ cb = fp_mod_read_cb ∨ start = del_start_read ∧ cb = fp_del_read_cb →
  (∀ o, after_conflict cb k o → P o) →
  does_from t k (moves t P)
    (_ ← txn_upd t (λ x, txn_set_cas_retry (u8 (t_cas_retry x + 1)) x);
     x ← txn_get t;
     if V_CAS_MAX_RETRY <=? t_cas_retry x then finish t V_PFCP_CAUSE_SYSTEM_FAILURE
     else c ← deref (t_ctx x); _ ← v_port_ctx_clear c; start t).
Proof.
  intros Hs HP. apply (count_conflict (λ _, x ← txn_get t; _)). intros w w' a Hr (w1&x&E1&E2)%bind_Some_inv.
  apply txn_get_retry in E1 as [-> Hx]. rewrite Hx, Hr in E2. destruct (V_CAS_MAX_RETRY <=? k + 1) eqn:Em.
  - eapply (finishes t (k + 1)); [|exact Hr|exact E2]. apply HP. by right.
  - assert (k + 1 < V_CAS_MAX_RETRY) as Hlt by lia.
    revert E2. eapply (silent_from t (k + 1) P); [prog|intros c|exact Hr].
    apply silent_from; [unfold v_port_ctx_clear; prog|intros ?].
    eapply start_read_moves; [exact Hs|intros c'|]; apply HP; [left|by right]. by split; [|exists c'].
Qed.

Lemma mod_cas_steps st res ver v reply :
  cas_result reply = (if st =? RET_CODE_OK then Some res else None) →
  does_from t k (moves t (proc_step (RCas fp_mod_cas_cb v) k (CReply reply))) (mod_cas_cb t st res ver).
Proof.
  intros Hc. unfold mod_cas_cb. destruct (st =? RET_CODE_OK); cbn.
  2: { run. give. constructor. by rewrite Hc. }
  destruct res.
  - run. apply takes_otherwise'; [apply takes_vdp|run; give]; constructor; rewrite Hc; pick.
  - run. eapply conflict_moves; [by left|]. intros o Ho. constructor. by rewrite Hc.
  - run. give. constructor. by rewrite Hc.
Qed.

Lemma del_vdp_steps res :
  does_from t k (moves t (proc_step (RVdp fp_del_vdp_cb) k (CVdp res))) (del_vdp_cb iu t res).
Proof.
  unfold del_vdp_cb. destruct (decide _) as [Hr|Hr].
  - give. constructor. by destruct res.
  - apply dec_stable in Hr as ->. run. apply takes_otherwise'; [apply takes_delete; try done|give; constructor; by right].
    intros o [->|Ho]; constructor; [left; by eexists|]. inversion Ho; cbn in *; subst. by right.
Qed.

Lemma del_delete_steps st res ver v reply :
  cas_result reply = (if st =? RET_CODE_OK then Some res else None) →
  does_from t k (moves t (proc_step (RCas fp_del_delete_cb v) k (CReply reply))) (del_delete_cb t st res ver).
Proof.
  intros Hc. unfold del_delete_cb. destruct (st =? RET_CODE_OK); cbn.
  2: { give. constructor. by rewrite Hc. }
  destruct res.
  - run. give. constructor. by rewrite Hc.
  - eapply conflict_moves; [by right|]. intros o Ho. constructor. by rewrite Hc.
  - give. constructor. by rewrite Hc.
Qed.

End callbacks.
