(* ===== verification/Procedures.v ===== *)
(** The session procedures against the protocol of Protocol.v, part three: the
    callbacks tied together, every event of the pod, and the theorems. *)
From S2P Require Import Prelude Seid Dpdk Heap Redis World DbScript SessStore RetransCache IdAlloc.
From S2P Require Import DispatchQ NodeState Flow Sweeper Pod Pools Own OwnPod Safety Protocol Progress Conform.

#[local] Opaque finish reply_cached drop_request.

Section procedures.
Context {DP : Dpdk} {PP : PfcpPort}.

(** ** User callbacks of the transport *)

Lemma deref_steps t k P (f : Z → M ()) : does_from t k (moves t P) (f t) → does_from t k (moves t P) (u ← deref (Some t); f u).
Proof. done. Qed.

Lemma call_cas_steps iu t k cb v st res ver reply :
  iu_conforms iu → 0 <= k < V_CAS_MAX_RETRY → cb ≠ fp_delete_pending_noop_cb → cb ≠ fp_delete_pending_cb →
  cas_result reply = (if st =? RET_CODE_OK then Some res else None) →
  does_from t k (moves t (proc_step (RCas cb v) k (CReply reply))) (call_cas iu cb st res ver (Some t)).
Proof.
  intros Hiu Hk H1 H2 Hc. destruct cb; try done; cbn [call_cas]; apply deref_steps.
  - by apply cas_write_cb_steps.
  - by apply mod_cas_steps.
  - apply mod_restore_steps.
  - by apply del_delete_steps.
Qed.

Lemma call_cas_silent iu cb st res ver arg :
  cb = fp_delete_pending_noop_cb ∨ cb = fp_delete_pending_cb → does silent (call_cas iu cb st res ver arg).
Proof. intros [-> | ->]; apply silent_ret. Qed.

Lemma cont_of_inv r' a r t : cont_of r' a = [(r, t)] → r ≠ RBad → a = Some t ∧ r = r'.
Proof. destruct a; cbn; [by intros [= -> ->]|by intros [= <- _]]. Qed.

Lemma cont_of_nonempty r a : cont_of r a ≠ [].
Proof. by destruct a. Qed.

Lemma cas_conts_inv p r t : cas_conts p = [(r, t)] → r ≠ RBad →
  cp_arg p = Some t ∧ r = RCas (cp_cb p) (cp_exp_ver p) ∧ cp_cb p ≠ fp_delete_pending_noop_cb ∧ cp_cb p ≠ fp_delete_pending_cb.
Proof.
  unfold cas_conts, call_conts. intros Hc Hr. destruct (cp_cb p) eqn:E; try done; try by injection Hc as <- _.
  all: apply cont_of_inv in Hc as [-> ->]; repeat split; done.
Qed.

Lemma del_conts_inv p r t : del_conts p = [(r, t)] → r ≠ RBad →
  cp_arg p = Some t ∧ r = RCas (cp_cb p) (cp_exp_ver p) ∧ cp_cb p ≠ fp_delete_pending_noop_cb ∧ cp_cb p ≠ fp_delete_pending_cb.
Proof.
  unfold del_conts, call_conts. intros Hc Hr. destruct (cp_cb p) eqn:E; try done; try by injection Hc as <- _.
  apply cont_of_inv in Hc as [-> ->]; repeat split; done.
Qed.

Lemma reports_cas st reply c v st' res ver :
  reports st reply c → cas_reply st reply v = (st', res, ver) →
  cas_result c = if st' =? RET_CODE_OK then Some res else None.
Proof.
  intros [[-> ->]|[-> ->]]; [|apply cas_reply_result]. rewrite cas_reply_err. by intros [= <- <- <-].
Qed.

Lemma invoke_user_conforms d : iu_conforms (invoke_user d).
Proof.
  induction d as [|d IH]; [split; intros; [apply silent_crash|by intros ? ? ?]|].
  split; intros u.
  - intros st reply Hu. destruct u as [p|p|part]; cbn [invoke_user user_conts] in *.
    + unfold cas_write_reply_cb. destruct (cas_reply _ _ _) as [[st' res] ver].
      apply silent_bind; [|intros; apply silent_sess_put]. apply call_cas_silent.
      unfold cas_conts, call_conts in Hu. destruct (cp_cb p); auto; try done; by apply cont_of_nonempty in Hu.
    + unfold delete_reply_cb. destruct (cas_reply _ _ _) as [[st' res] ver].
      apply silent_bind; [|intros; apply silent_sess_put]. apply call_cas_silent.
      unfold del_conts, call_conts in Hu. destruct (cp_cb p); auto; try done. by apply cont_of_nonempty in Hu.
    + apply silent_teid_reply.
  - intros r t k st reply c Hu Hr Hk Hc. destruct u as [p|p|part]; cbn [invoke_user user_conts] in *; [..|done].
    + apply cas_conts_inv in Hu as (Ha&->&H1&H2); [|done]. unfold cas_write_reply_cb.
      destruct (cas_reply _ _ _) as [[st' res] ver] eqn:E. rewrite Ha.
      apply from_then_silent; [|intros; apply silent_sess_put]. apply call_cas_steps; try done. by eapply reports_cas.
    + apply del_conts_inv in Hu as (Ha&->&H1&H2); [|done]. unfold delete_reply_cb.
      destruct (cas_reply _ _ _) as [[st' res] ver] eqn:E. rewrite Ha.
      apply from_then_silent; [|intros; apply silent_sess_put]. apply call_cas_steps; try done. by eapply reports_cas.
Qed.

Lemma iu_conforming : iu_conforms iu.
Proof. apply invoke_user_conforms. Qed.

(** ** The transport *)

Lemma silent_request_load shard id resume :
  match resume with Some p => user_conts (ep_user p) = [] | None => True end →
  does silent (request_script_load shard id resume).
Proof.
  intros Hp w rc w'. unfold request_script_load. destruct (rte_mempool_get _) as [[o pool]|]; [|by intros [= <- <-]].
  set (w1 := set_script _ w). assert (silent w w1) as H1 by by apply frame_silent. intros E. etrans; [exact H1|].
  revert E. generalize w1. clear -Hp. intros w E. revert w rc w' E.
  apply silent_bind; [|intros rc; prog; apply silent_load_put]. apply silent_cmd. cbn. by destruct resume.
Qed.

Lemma takes_request_load shard id p r t k (P : outcome → Prop) :
  user_conts (ep_user p) = [(r, t)] → P (Wait r (if ep_retried p then 1 else 3) k) →
  takes_from t k P (request_script_load shard id (Some p)).
Proof.
  intros Hu HP w rc w' Hk. unfold request_script_load. destruct (rte_mempool_get _) as [[o pool]|]; [|by intros [= <- <-]; right].
  set (w1 := set_script _ w). assert (silent w w1) as H1 by by apply frame_silent. intros E.
  assert (takes_from t k P (rc ← v_port_db_cmd shard (fp_load_reply_cb (ScriptLoadCtx o shard id (Some p)))
    [$"SCRIPT"; $"LOAD"; g_script_src id];
    if negb (rc =? RET_CODE_OK) then _ ← load_put o; mret RET_CODE_ERR else mret RET_CODE_OK)) as Ht.
  { apply takes_put; [|apply silent_load_put]. by eapply takes_cmd. }
  destruct (Ht w1 rc w' Hk E) as [[-> H]|[-> H]]; [left|right; by split; [|etrans]]. split; [done|].
  eapply local_then_moves; [by apply silent_local|done].
Qed.

Lemma evalsha_reply_silent p st reply : user_conts (ep_user p) = [] → does silent (evalsha_reply_cb iu p st reply).
Proof.
  intros Hu. unfold evalsha_reply_cb. case_match.
  - apply silent_bind; [by apply silent_request_load|intros rc]. apply silent_when, silent_bind; [|intros; apply silent_evalsha_put].
    by apply iu_conforming.
  - apply silent_bind; [|intros; apply silent_evalsha_put]. by apply iu_conforming.
Qed.

Lemma evalsha_reply_steps p t k r reply :
  0 <= k < V_CAS_MAX_RETRY → user_conts (ep_user p) = [(r, t)] → r ≠ RBad →
  does_from t k (moves t (wait_step r (if ep_retried p then 0 else 2) k (CReply reply)))
    (evalsha_reply_cb iu p (reply_status reply) reply).
Proof.
  intros Hk Hu Hr. unfold evalsha_reply_cb.
  assert (∀ st c (P : outcome → Prop), reports st reply c → (∀ o, proc_step r k (CReply c) o → P o) →
    does_from t k (moves t P) (_ ← iu (ep_user p) st reply; evalsha_put (ep_obj p))) as Hrep.
  { intros st c P Hc HP. apply from_then_silent; [|intros; apply silent_evalsha_put].
    eapply from_mono; [exact HP|]. by apply iu_conforming. }
  destruct (is_noscript _ reply) eqn:En; destruct (ep_retried p) eqn:Ep; cbn [andb negb].
  - apply (Hrep _ reply); [by right|]. intros o. apply ws_done.
  - apply takes_otherwise'; [apply (takes_request_load _ _ (set_retried p) r); [done|]|apply (Hrep _ None); [by left|]];
      cbn; [|intros o Ho]; apply ws_noscript; auto.
  - apply (Hrep _ reply); [by right|]. intros o. apply ws_done.
  - apply (Hrep _ reply); [by right|]. intros o. by apply ws_known.
Qed.

Lemma silent_set_sha shard id sha : does silent (set_sha shard id sha).
Proof. apply framed_silent. by intros ? ? ? [= _ <-]. Qed.

(** The reply branch of load_reply_cb. *)
Lemma load_branch reply :
  (if reply_status reply =? RET_CODE_OK then
     match reply with
     | Some (V_DB_REPLY_STRING sha) => if decide (length sha = V_DB_SCRIPT_SHA_LEN) then Some sha else None
     | _ => None
     end
   else None) = None ↔ sha_reply reply = false.
Proof. destruct reply as [[| | |sha| |]|]; cbn; try done. case_decide; [by rewrite bool_decide_eq_true_2|by rewrite bool_decide_eq_false_2]. Qed.

Lemma load_reply_silent lc st reply :
  match lc_resume lc with Some p => user_conts (ep_user p) = [] | None => True end →
  does silent (load_reply_cb iu lc st reply).
Proof.
  intros Hu. unfold load_reply_cb. match goal with |- does _ (match ?x with _ => _ end) => destruct x as [sha|] end.
  - apply silent_bind; [apply silent_set_sha|intros _]. apply silent_bind; [|intros; apply silent_load_put].
    destruct (lc_resume lc) as [p|]; [|apply silent_ret]. by apply silent_issue; [apply iu_conforming|].
  - apply silent_bind; [|intros; apply silent_load_put]. destruct (lc_resume lc) as [p|]; [|apply silent_ret].
    apply silent_bind; [|intros; apply silent_evalsha_put]. by apply iu_conforming.
Qed.

Lemma load_reply_steps lc p t k r reply :
  0 <= k < V_CAS_MAX_RETRY → lc_resume lc = Some p → user_conts (ep_user p) = [(r, t)] → r ≠ RBad →
  does_from t k (moves t (wait_step r (if ep_retried p then 1 else 3) k (CReply reply)))
    (load_reply_cb iu lc (reply_status reply) reply).
Proof.
  intros Hk Hp Hu Hr. unfold load_reply_cb. rewrite Hp. pose proof (load_branch reply) as Hb.
  assert ((if ep_retried p then 1 else 3)%nat ∈ [1%nat; 3%nat]) as Hs by (destruct (ep_retried p); [by left|by right; left]).
  destruct (if reply_status reply =? RET_CODE_OK then _ else None) as [sha|].
  - assert (sha_reply reply = true) as Hy by (apply not_false_iff_true; by intros E%Hb).
    apply silent_from; [apply silent_set_sha|intros _]. apply from_then_silent; [|intros; apply silent_load_put].
    apply (issue_moves iu iu_conforming t k Hk (set_part_sha p sha) r); try done; cbn.
    + apply ws_loaded; try done. left. by destruct (ep_retried p).
    + intros o Ho. apply ws_loaded; auto.
  - apply from_then_silent; [|intros; apply silent_load_put]. apply from_then_silent; [|intros; apply silent_evalsha_put].
    eapply from_mono; [|apply iu_conforming; [exact Hu|done|done|by left]].
    intros o Ho. apply ws_load_failed; try done. by apply Hb.
Qed.

(** ** The callbacks of the ports *)

Lemma call_read_steps cb t k c st found ver reply :
  0 <= k < V_CAS_MAX_RETRY → read_reports st found reply →
  does_from t k (moves t (proc_step (RRead cb c) k (CReply reply))) (call_read cb st found c ver (Some t)).
Proof.
  intros Hk Hf. destruct cb; cbn [call_read]; apply deref_steps.
  - by apply mod_read_steps; [apply iu_conforming|..].
  - by apply del_read_steps.
Qed.

Lemma read_reply_steps p t k reply :
  0 <= k < V_CAS_MAX_RETRY → rp_arg p = Some t →
  does_from t k (moves t (proc_step (RRead (rp_cb p) (rp_ctx p)) k (CReply reply)))
    (read_reply_cb call_read p (reply_status reply) reply).
Proof.
  intros Hk Ha. unfold read_reply_cb. rewrite Ha.
  assert (session_found reply = match read_fields (reply_status reply) reply with
    | None => None | Some (data, ver) => Some (negb (reply_is_nil data || reply_is_nil ver)) end) as Hs by done.
  destruct (read_fields _ _) as [[data ver]|].
  2: { apply from_then_silent; [|intros; apply silent_sess_put]. apply call_read_steps; [done|]. by left. }
  destruct (_ || _).
  - apply from_then_silent; [|intros; apply silent_sess_put]. apply call_read_steps; [done|]. by left.
  - apply silent_from; [apply silent_ctx_get|intros c]. destruct (v_port_pdu_deserialize _ _) as [rc c'].
    apply silent_from; [apply silent_ctx_set|intros _]. apply from_then_silent; [|intros; apply silent_sess_put].
    case_match; (apply call_read_steps; [done|]); [by right|by left].
Qed.

Lemma lookup_reply_steps p t k reply :
  0 <= k < V_CAS_MAX_RETRY → rt_arg p = Some t →
  does_from t k (moves t (proc_step (RLookup (rt_cb p)) k (CReply reply)))
    (lookup_reply_cb call_retrans p (reply_status reply) reply).
Proof.
  intros Hk Ha. unfold lookup_reply_cb. rewrite Ha. pose proof (lookup_steps iu iu_conforming t k Hk (rt_cb p) reply) as Hl.
  destruct (lookup_outcome _ _) as [[st hit] resp]. apply from_then_silent; [|intros; apply silent_retrans_put].
  by destruct (rt_cb p); cbn [call_retrans]; apply deref_steps.
Qed.

(** Any command that carries a transaction. *)
Lemma db_invoke_steps cb r t k reply :
  0 <= k < V_CAS_MAX_RETRY → cb_conts cb = [(r, t)] → r ≠ RBad →
  does_from t k (moves t (wait_step r (stage cb) k (CReply reply))) (db_invoke cb (reply_status reply) reply).
Proof.
  intros Hk Hc Hr.
  assert (∀ m : M (), does_from t k (moves t (proc_step r k (CReply reply))) m →
                      does_from t k (moves t (wait_step r 0 k (CReply reply))) m) as Hd.
  { intros m. apply from_mono. intros o. apply ws_done. }
  destruct cb as [p|lc|p|p|part| | |p| |p|p|p]; cbn [cb_conts db_invoke stage] in *; try done.
  - by apply evalsha_reply_steps.
  - destruct (lc_resume lc) as [p|] eqn:Ep; [|done]. by apply load_reply_steps.
  - apply cont_of_inv in Hc as [Ha ->]; [|done]. by apply Hd, read_reply_steps.
  - unfold confirm_reply_cb. destruct (sp_cb p); [|done]. apply cont_of_inv in Hc as [Ha ->]; [|done]. rewrite Ha.
    apply Hd, from_then_silent; [|intros; apply silent_sess_put]. cbn [call_simple]. apply deref_steps, confirm_cb_steps.
  - apply cont_of_inv in Hc as [Ha ->]; [|done]. by apply Hd, lookup_reply_steps.
Qed.

(** Any other command. *)
Lemma db_invoke_silent cb st reply : cb_conts cb = [] → does silent (db_invoke cb st reply).
Proof.
  intros Hc. destruct cb as [p|lc|p|p|part| | |p| |p|p|p]; cbn [cb_conts db_invoke] in *;
    try by apply cont_of_nonempty in Hc.
  - by apply evalsha_reply_silent.
  - apply load_reply_silent. by destruct (lc_resume lc).
  - unfold confirm_reply_cb. destruct (sp_cb p); [by apply cont_of_nonempty in Hc|].
    apply silent_bind; [apply silent_ret|intros; apply silent_sess_put].
  - apply silent_seid_reply.
  - apply silent_ret.
  - apply silent_ret.
  - apply silent_ret.
  - unfold recovery_reply_cb. apply silent_bind; [apply silent_node_put|intros _]. prog.
  - unfold simple_ack_cb. apply silent_bind; [apply silent_node_put|intros _]. apply silent_ret.
  - unfold assoc_query_reply_cb. apply silent_bind; [apply silent_node_put|intros _]. prog.
Qed.

Lemma call_vdp_steps cb t k res :
  0 <= k < V_CAS_MAX_RETRY → does_from t k (moves t (wait_step (RVdp cb) 0 k (CVdp res))) (call_vdp cb t res).
Proof.
  intros Hk. apply (from_mono _ _ (proc_step (RVdp cb) k (CVdp res))); [intros o; apply ws_done|].
  destruct cb; cbn [call_vdp].
  - apply vdp_create_cb_steps, iu_conforming.
  - by apply mod_vdp_cb_steps; [apply iu_conforming|].
  - by apply del_vdp_steps; [apply iu_conforming|].
Qed.

(** ** A new request *)

(** [t] comes into being: refused at once, or waiting for its lookup. *)
Definition begins (t : Z) (w w' : world) : Prop :=
  (∀ u, u ≠ t → retry_of w' u = retry_of w u) ∧
  (same_waits w w' ∨
   ∃ cb, (∀ e, e ∈ waits w' ↔ e = (t, RLookup cb, 0%nat) ∨ e ∈ waits w) ∧ retry_of w' t = 0).

(** Nothing happens to any transaction, or a new one begins. *)
Definition spawns (w w' : world) : Prop := calm w w' ∨ ∃ t, hp_mem (w_txns w) !! t = None ∧ begins t w w'.

Definition spawning {A} (m : M A) : Prop := ∀ w a w', heap_wf (w_txns w) → m w = Some (a, w') → spawns w w'.

Lemma calm_spawning {A} (m : M A) : does calm m → spawning m.
Proof. intros H w a w' _ E. left. by eapply H. Qed.

Lemma calm_but_then_begins t w1 w2 w3 : calm_but t w1 w2 → begins t w2 w3 → begins t w1 w3.
Proof.
  intros [H1 H2] [H3 H4]. split; [intros u Hu; by rewrite H3, H2|].
  destruct H4 as [H4|(cb&H4&H5)]; [left|right; exists cb; split; [|done]]; intros e; by rewrite H4, H1.
Qed.

Lemma begins_then_calm t w1 w2 w3 : begins t w1 w2 → calm w2 w3 → begins t w1 w3.
Proof.
  intros [H1 H2] [H3 H4]. split; [intros u Hu; by rewrite H4, H1|].
  destruct H2 as [H2|(cb&H2&H5)]; [left; intros e; by rewrite H3, H2|right; exists cb].
  split; [intros e; by rewrite H3, H2|by rewrite H4].
Qed.

(** A prefix that leaves the transactions alone. *)
Lemma spawning_loose {A B} (m : M A) (f : A → M B) : loose m → (∀ a, spawning (f a)) → spawning (m ≫= f).
Proof.
  intros Hm Hf w b w' Hwf (w1&a&E1&E2)%bind_Some_inv. pose proof (loose_calm m Hm _ _ _ E1) as Hc.
  destruct (Hm _ _ _ E1) as (_&_&Ht).
  destruct (Hf a w1 b w' ltac:(by rewrite Ht) E2) as [H|(t&Hn&H)]; [left; by etrans|right].
  exists t. rewrite Ht in Hn. split; [done|]. eapply calm_but_then_begins; [by apply calm_calm_but|done].
Qed.

Lemma spawning_then_calm {A B} (m : M A) (f : A → M B) : spawning m → (∀ a, does calm (f a)) → spawning (m ≫= f).
Proof.
  intros Hm Hf w b w' Hwf (w1&a&E1&E2)%bind_Some_inv. destruct (Hm _ _ _ Hwf E1) as [H|(t&Hn&H)].
  - left. etrans; [done|by eapply Hf].
  - right. exists t. split; [done|]. eapply begins_then_calm; [done|by eapply Hf].
Qed.

Lemma loose_msg_get r : loose (msg_get r).
Proof. intros w a w'. unfold msg_get. case_match; [by intros [= _ <-]|done]. Qed.

Lemma retrans_lookup_takes part smf seq cb t (P : outcome → Prop) :
  P (Wait (RLookup cb) 0 0) → takes_from t 0 P (v_retrans_lookup part smf seq cb (Some t)).
Proof.
  intros HP. unfold v_retrans_lookup. apply takes_silent; [apply silent_retrans_ensure|intros rc].
  case_match; [apply takes_ret_err|]. apply takes_silent; [apply silent_retrans_get|intros [obj|]; [|apply takes_ret_err]].
  apply takes_put; [by eapply takes_cmd|apply silent_retrans_put].
Qed.

Lemma start_spawning req peer init cb : (∀ x, t_cas_retry (init x) = t_cas_retry x) → spawning (start_txn req peer init cb).
Proof.
  intros Hi. unfold start_txn. apply spawning_loose; [apply loose_msg_get|intros m].
  intros w [] w' Hwf (w1&o&E1&E2)%bind_Some_inv. unfold v_port_txn_create in E1.
  destruct (heap_alloc _ _) as [[t h]|] eqn:Ea; injection E1 as <- <-; [|left; by eapply calm_msg_free].
  destruct (live_alloc _ _ _ _ Hwf Ea) as (_&_&Hm&Hn). right. exists t. split; [done|].
  apply bind_Some_inv in E2 as (w2&[]&E2&(w3&rc&E3&E4)%bind_Some_inv).
  assert (calm_but t w w2 ∧ retry_of w2 t = 0) as [Hl Hr].
  { assert (calm (set_txns h w) w2) as Hc by (eapply calm_txn_upd, E2; intros x; cbn; by rewrite Hi). split.
    - transitivity (set_txns h w); [|by apply calm_calm_but]. split; [done|]. intros u Hu.
      unfold retry_of. cbn. by rewrite Hm, lookup_insert_ne.
    - rewrite (proj2 Hc). unfold retry_of. cbn. by rewrite Hm, lookup_insert_eq. }
  eapply calm_but_then_begins; [exact Hl|].
  destruct (retrans_lookup_takes _ _ _ cb t (λ o, o = Wait (RLookup cb) 0 0) eq_refl _ _ _ Hr E3) as [[-> H]|[-> H]]; cbn in E4.
  - injection E4 as <-. destruct H as (H1&o&->&H2&H3&_). split; [done|]. right. by exists cb.
  - pose proof (calm_drop t _ _ _ E4) as [H1 H2]. destruct H as [[H3 H4] _].
    split; [intros u Hu; by rewrite H2, H4|]. left. intros e. by rewrite H1, H3.
Qed.

Lemma handle_spawning msg : spawning (v_flow_handle_msg msg).
Proof.
  assert (∀ req peer, does calm (reply_ctx_not_found req peer)) as Hnf.
  { intros req peer. unfold reply_ctx_not_found. calmly. }
  assert (∀ req peer cb, spawning (handle_existing req peer cb)) as He.
  { intros req peer cb. unfold handle_existing. apply spawning_loose; [apply loose_msg_get|intros m].
    destruct (v_seid_validate _); [by apply start_spawning|apply calm_spawning, Hnf]. }
  unfold v_flow_handle_msg. apply spawning_loose.
  { intros w a w'. unfold pfcp_decode. repeat case_match; by intros [= _ <-]. }
  intros [req|]; [|by apply calm_spawning, does_ret, _]. apply spawning_loose; [apply loose_msg_get|intros m].
  repeat case_match; [by apply start_spawning|apply He|apply He|apply calm_spawning, calm_msg_free].
Qed.

Lemma poll_spawning : spawning (v_dispatch_worker_poll 1 v_flow_handle_msg).
Proof.
  cbn. apply spawning_loose; [intros w a w'; unfold rx_dequeue; case_match; [case_match|]; by intros [= _ <-]|].
  intros [m|]; [|by apply calm_spawning, does_ret, _].
  apply spawning_loose; [intros w a w'; unfold dispatch_msg_get; case_match; [by intros [= _ <-]|done]|intros x].
  apply spawning_then_calm; [apply handle_spawning|intros _].
  apply calm_bind; [apply loose_calm; by intros ? ? ? [= _ <-]|intros; calmly].
Qed.

(** ** Events *)

(** The transaction an event completes. *)
Definition completion_of (e : event) (w : world) : option (Z * completion) :=
  match e with
  | EvReply i reply =>
      match db_queue (w_db w) !! i with
      | Some c => match cb_conts (dc_cb c) with (r, t) :: _ => Some (t, CReply reply) | [] => None end
      | None => None
      end
  | EvVdp i res =>
      match vdp_queue (w_vdp w) !! i with Some v => Some (vc_arg v, CVdp res) | None => None end
  | _ => None
  end.

(** The completed wait is taken off and its transaction moves. *)
Definition completes (t : Z) (c : completion) (w w' : world) : Prop :=
  ∃ r s w1, waits w ≡ₚ (t, r, s) :: waits w1 ∧ (∀ u, retry_of w1 u = retry_of w u) ∧ same_view w w1 ∧
    moves t (wait_step r s (retry_of w t) c) w1 w'.

Lemma waits_conts w : (λ e : wait, (e.1.2, e.1.1)) <$> waits w = conts w.
Proof.
  unfold waits, conts. rewrite fmap_app, <- list_fmap_compose. f_equal.
  induction (db_queue (w_db w)) as [|c q IH]; cbn; [done|]. rewrite fmap_app, IH. f_equal.
  unfold cmd_waits. rewrite <- list_fmap_compose. rewrite <- (list_fmap_id (cb_conts (dc_cb c))) at 2.
  apply list_fmap_ext. by intros ? [].
Qed.

Lemma wait_role w t r s : (t, r, s) ∈ waits w → (r, t) ∈ conts w.
Proof. intros H. rewrite <- waits_conts. apply list_elem_of_fmap. by exists (t, r, s). Qed.

Lemma wait_ok w t r s : Own no_amb None [] [] w → (t, r, s) ∈ waits w →
  r ≠ RBad ∧ 0 <= retry_of w t < V_CAS_MAX_RETRY ∧ is_Some (hp_mem (w_txns w) !! t).
Proof.
  intros HO H%wait_role. destruct (o_role _ _ _ _ _ HO r t H) as (x&Hx&_&Hc&_&_&_&Hk).
  unfold retry_of. rewrite Hx. split; [by intros ->|]. by split; [|eexists].
Qed.

Lemma reply_step i reply w w' : Own no_amb None [] [] w → pod_step (EvReply i reply) w = Some (tt, w') →
  match completion_of (EvReply i reply) w with Some (t, c) => completes t c w w' | None => silent w w' end.
Proof.
  intros HO (w1&o&E1&E2)%bind_Some_inv. unfold take_db_cmd in E1. cbn [completion_of].
  destruct (db_queue (w_db w) !! i) as [c|] eqn:Ei; injection E1 as <- <-.
  2: { by injection E2 as <-. }
  set (w1 := set_db _ w) in *.
  assert (waits w ≡ₚ cmd_waits c ++ waits w1) as Hw.
  { unfold waits. cbn. rewrite (delete_Permutation _ _ _ Ei) at 1. cbn. by rewrite <- app_assoc. }
  apply bind_Some_inv in E2 as (w2&[]&E2&E3). assert (silent w2 w') as Hs2.
  { injection E3 as <-. by apply frame_silent. }
  pose proof (cb_conts_length (dc_cb c)) as Hlen. destruct (cb_conts (dc_cb c)) as [|[r t] [|]] eqn:Ec; [..|cbn in Hlen; lia].
  - unfold cmd_waits in Hw. rewrite Ec in Hw. cbn in Hw.
    transitivity w1; [split; [split; [intros e; by rewrite Hw|done]|done]|]. transitivity w2; [|done]. by eapply db_invoke_silent.
  - unfold cmd_waits in Hw. rewrite Ec in Hw. cbn in Hw. exists r, (stage (dc_cb c)), w1. split; [done|]. split; [done|]. split; [done|].
    destruct (wait_ok w t r (stage (dc_cb c)) HO) as (Hr&Hk&_); [rewrite Hw; by left|].
    eapply moves_then_silent; [|done]. by eapply (db_invoke_steps (dc_cb c) r t (retry_of w t) reply).
Qed.

Lemma vdp_step i res w w' : Own no_amb None [] [] w → pod_step (EvVdp i res) w = Some (tt, w') →
  match completion_of (EvVdp i res) w with Some (t, c) => completes t c w w' | None => silent w w' end.
Proof.
  intros HO (w1&o&E1&E2)%bind_Some_inv. unfold take_vdp_call in E1. cbn [completion_of].
  destruct (vdp_queue (w_vdp w) !! i) as [v|] eqn:Ei; injection E1 as <- <-.
  2: { by injection E2 as <-. }
  set (w1 := set_vdp _ w) in *.
  assert (waits w ≡ₚ vdp_wait v :: waits w1) as Hw.
  { unfold waits. cbn. rewrite (delete_Permutation _ _ _ Ei) at 1. cbn. by rewrite Permutation_middle. }
  exists (RVdp (vc_cb v)), 0%nat, w1. split; [done|]. split; [done|]. split; [done|].
  destruct (wait_ok w (vc_arg v) (RVdp (vc_cb v)) 0 HO) as (_&Hk&_); [rewrite Hw; by left|].
  by eapply (call_vdp_steps (vc_cb v) (vc_arg v) (retry_of w (vc_arg v)) res).
Qed.

Lemma reconnect_silent s : does silent (script_reconnect_cb s).
Proof. unfold script_reconnect_cb. repeat (apply silent_bind; [by apply silent_request_load|intros ?]). apply silent_ret. Qed.

Lemma node_do_silent call user : does silent (node_do call user).
Proof.
  intros w rc w'. destruct (node_do_issue call user w) as (key&argv&cb&->&Hc).
  assert (∀ p, cb_conts (cb p) = []) as Hcb by (by destruct Hc as [[-> _]|[[-> _]|[-> _]]]). clear Hc. revert w rc w'.
  change (does silent (node_issue key argv cb user)). unfold node_issue. apply silent_bind.
  - apply framed_silent. intros w o w'. unfold node_pending_get. repeat case_match; try done; by intros [= _ <-].
  - intros [o|]; [|prog]. apply silent_bind; [by apply silent_cmd|intros rc; prog].
Qed.

(** Every event: a transaction moves exactly when its completion arrives, a
    new one starts only at a poll. *)
Lemma event_step e w w' :
  is_timeout e = false → Own no_amb None [] [] w → pod_step e w = Some (tt, w') →
  match completion_of e w with
  | Some (t, c) => completes t c w w'
  | None => if match e with EvPoll => true | _ => false end then spawns w w' else calm w w'
  end.
Proof.
  intros He HO E. destruct e; try done; try by (eapply loose_calm, E; intros ? ? ? [= _ <-]).
  - apply bind_Some_inv in E as (w1&n&E&[= <-]). by eapply poll_spawning; [apply (o_txns _ _ _ _ _ HO)|].
  - pose proof (reply_step _ _ _ _ HO E) as H. destruct (completion_of _ _) as [[t c]|]; [done|by apply silent_calm].
  - pose proof (vdp_step _ _ _ _ HO E) as H. destruct (completion_of _ _) as [[t c]|]; [done|by apply silent_calm].
  - apply bind_Some_inv in E as (w1&n&E&[= <-]). eapply loose_calm, E.
    intros w2 a w3. unfold v_dispatch_io_drain_tx. case_match; [|done]. case_match. by intros [= _ <-].
  - by eapply silent_calm, reconnect_silent.
  - apply bind_Some_inv in E as (w1&n&[= <- <-]&E). destruct (g_node_pool (w_node w)); [|by injection E as <-].
    apply bind_Some_inv in E as (w1&rc&E&[= <-]). by eapply silent_calm, node_do_silent.
Qed.

End procedures.
