(* ===== verification/Records.v ===== *)
(** The identity and the version of a transaction.  While a request is being
    served its session (partition and SEID) never changes, once it has been
    found or allocated; the version it expects in the database changes only
    when a record is read or written, to the version read or written. *)
From S2P Require Import Prelude Seid Dpdk Heap Redis World DbScript SessStore RetransCache IdAlloc.
From S2P Require Import DispatchQ NodeState Flow Sweeper Pod Pools Own OwnPod Safety Protocol Progress Conform Procedures.

Section records.
Context {DP : Dpdk} {PP : PfcpPort}.

(** The session of a transaction. *)
Definition ident (x : v_txn) : Z * Z := (t_part_id x, t_seid x).

Definition txn_at (w : world) (t : Z) : option v_txn := hp_mem (w_txns w) !! t.

Definition same_txns (w w' : world) : Prop := w_txns w' = w_txns w.

(** Only [T] changes: its version to [V] at most, and its session unless
    [keep]. *)
Definition touches (T : Z) (keep : bool) (V : Z) (w w' : world) : Prop :=
  ∀ u x', txn_at w' u = Some x' → ∃ x, txn_at w u = Some x ∧
    if decide (u = T) then (keep = true → ident x' = ident x) ∧ (t_db_ver x' = t_db_ver x ∨ t_db_ver x' = V)
    else ident x' = ident x ∧ t_db_ver x' = t_db_ver x.

#[export] Instance same_txns_preorder : PreOrder same_txns.
Proof. split; [done|]. intros w1 w2 w3. unfold same_txns. congruence. Qed.

#[export] Instance touches_preorder T keep V : PreOrder (touches T keep V).
Proof.
  split.
  - intros w u x Hx. exists x. split; [done|]. case_decide; auto.
  - intros w1 w2 w3 H12 H23 u x3 H3. destruct (H23 u x3 H3) as (x2&H2&Hx3). destruct (H12 u x2 H2) as (x1&H1&Hx2).
    exists x1. split; [done|]. case_decide.
    + destruct Hx2 as [Hi2 Hv2], Hx3 as [Hi3 Hv3]. split; [intros Hk; rewrite Hi3 by done; by apply Hi2|].
      destruct Hv3 as [->|]; auto.
    + destruct Hx2 as [Hi2 Hv2], Hx3 as [Hi3 Hv3]. split; congruence.
Qed.

Lemma same_touches T keep V w w' : same_txns w w' → touches T keep V w w'.
Proof. intros H u x Hx. exists x. unfold txn_at in *. rewrite <- H. split; [done|]. case_decide; auto. Qed.

End records.

Create HintDb still discriminated.

Ltac still_prim :=
  let w := fresh "w" in let a := fresh "a" in let w' := fresh "w'" in
  intros w a w'; repeat case_match; try done; by intros [= _ <-].

Section stills.
Context {DP : Dpdk} {PP : PfcpPort}.

Lemma still_ret {A} (a : A) : does same_txns (mret a).
Proof. by apply does_ret, _. Qed.
Lemma still_gets {A} (f : world → A) : does same_txns (gets f).
Proof. by intros w a w' [= _ <-]. Qed.
Lemma still_deref o : does same_txns (deref o).
Proof. destruct o; [apply still_ret|by intros w a w']. Qed.
Lemma still_txn_get t : does same_txns (txn_get t).
Proof. unfold txn_get. still_prim. Qed.
Lemma still_ctx_alloc : does same_txns v_port_ctx_alloc.
Proof. unfold v_port_ctx_alloc. still_prim. Qed.
Lemma still_ctx_free c : does same_txns (v_port_ctx_free c).
Proof. unfold v_port_ctx_free. still_prim. Qed.
Lemma still_ctx_get c : does same_txns (ctx_get c).
Proof. unfold ctx_get. still_prim. Qed.
Lemma still_ctx_set c v : does same_txns (ctx_set c v).
Proof. unfold ctx_set. still_prim. Qed.
Lemma still_msg_get m : does same_txns (msg_get m).
Proof. unfold msg_get. still_prim. Qed.
Lemma still_msg_free m : does same_txns (v_port_pfcp_msg_free m).
Proof. unfold v_port_pfcp_msg_free. still_prim. Qed.
Lemma still_tx b p : does same_txns (v_dispatch_tx_enqueue b p).
Proof. unfold v_dispatch_tx_enqueue. still_prim. Qed.
Lemma still_cmd s cb argv : does same_txns (v_port_db_cmd_argv s cb argv).
Proof. unfold v_port_db_cmd_argv. still_prim. Qed.
Lemma still_vdp op cb t : does same_txns (vdp_dispatch op cb t).
Proof. unfold vdp_dispatch. still_prim. Qed.
Lemma still_part_rr : does same_txns part_rr.
Proof. unfold part_rr. still_prim. Qed.
Lemma still_ids f : does same_txns (ids_modify f).
Proof. by intros w a w' [= _ <-]. Qed.
Lemma still_seid_ring p : does same_txns (seid_ring p).
Proof. unfold seid_ring. still_prim. Qed.
Lemma still_teid_ring p : does same_txns (teid_ring p).
Proof. unfold teid_ring. still_prim. Qed.
Lemma still_eput o : does same_txns (evalsha_put o).
Proof. by intros w a w' [= _ <-]. Qed.
Lemma still_lput o : does same_txns (load_put o).
Proof. by intros w a w' [= _ <-]. Qed.
Lemma still_set_sha s id sha : does same_txns (set_sha s id sha).
Proof. by intros w a w' [= _ <-]. Qed.
Lemma still_sensure : does same_txns sess_ensure_pool.
Proof. unfold sess_ensure_pool. still_prim. Qed.
Lemma still_sget : does same_txns sess_pending_get.
Proof. unfold sess_pending_get. still_prim. Qed.
Lemma still_sput o : does same_txns (sess_pending_put o).
Proof. unfold sess_pending_put. still_prim. Qed.
Lemma still_rensure : does same_txns retrans_ensure_pool.
Proof. unfold retrans_ensure_pool. still_prim. Qed.
Lemma still_rget : does same_txns retrans_pending_get.
Proof. unfold retrans_pending_get. still_prim. Qed.
Lemma still_rput o : does same_txns (retrans_pending_put o).
Proof. unfold retrans_pending_put. still_prim. Qed.
Lemma still_nget : does same_txns node_pending_get.
Proof. unfold node_pending_get. still_prim. Qed.
Lemma still_nput o : does same_txns (node_pending_put o).
Proof. unfold node_pending_put. still_prim. Qed.
End stills.

#[export] Hint Resolve still_ret still_gets still_deref still_txn_get still_ctx_alloc still_ctx_free still_ctx_get
  still_ctx_set still_msg_get still_msg_free still_tx still_cmd still_vdp still_part_rr still_ids still_seid_ring
  still_teid_ring still_eput still_lput still_set_sha still_sensure still_sget still_sput still_rensure still_rget
  still_rput still_nget still_nput : still.

(** Through binds and branches, for any relation of the hint database. *)
Ltac runs_step db :=
  first [ solve [eauto with still] | db
        | match goal with |- does _ (_ ≫= _) => apply does_bind; [apply _| |intros ?] end
        | apply does_when; [apply _|] | case_match ].
Ltac no_prim := fail.
Ltac stills := intros; cbv beta; repeat runs_step no_prim.

Section calls.
Context {DP : Dpdk} {PP : PfcpPort}.

Abbreviation user_call := (evalsha_user → Z → option v_db_reply → M ()).

Lemma still_store part f seq resp : does same_txns (v_retrans_store part f seq resp).
Proof. unfold v_retrans_store. stills. Qed.
Lemma still_tfree part teid : does same_txns (v_teid_free part teid).
Proof. unfold v_teid_free, v_port_db_cmd. stills. Qed.
Lemma still_seid_alloc part : does same_txns (v_seid_alloc part).
Proof. unfold v_seid_alloc, seid_maybe_refill, clear_seid_inflight, v_port_db_cmd. stills. Qed.
Lemma still_lookup part f seq cb arg : does same_txns (v_retrans_lookup part f seq cb arg).
Proof. unfold v_retrans_lookup, v_port_db_cmd. stills. Qed.
Lemma still_pending issue : (∀ o, does same_txns (issue o)) → does same_txns (with_pending issue).
Proof. intros H. unfold with_pending. stills; try apply H. Qed.
Lemma still_read part seid c cb arg : does same_txns (v_sess_read part seid c cb arg).
Proof. unfold v_sess_read, v_port_db_cmd. stills; try (apply still_pending; stills). Qed.
Lemma still_confirm part seid cb arg : does same_txns (v_sess_confirm part seid cb arg).
Proof. unfold v_sess_confirm, v_port_db_cmd. stills; try (apply still_pending; stills). Qed.
Lemma still_teid_reply part st r : does same_txns (teid_refill_reply_cb part st r).
Proof. unfold teid_refill_reply_cb, clear_teid_inflight. stills. Qed.
Lemma still_seid_reply part st r : does same_txns (seid_refill_reply_cb part st r).
Proof. unfold seid_refill_reply_cb, clear_seid_inflight. stills. Qed.
Lemma still_request_load s id resume : does same_txns (request_script_load s id resume).
Proof.
  assert (∀ o, does same_txns (rc ← v_port_db_cmd s (fp_load_reply_cb (ScriptLoadCtx o s id resume))
      [$"SCRIPT"; $"LOAD"; g_script_src id];
    if negb (rc =? RET_CODE_OK) then _ ← load_put o; mret RET_CODE_ERR else mret RET_CODE_OK)) as H.
  { intros o. unfold v_port_db_cmd. stills. }
  intros w rc w'. unfold request_script_load. destruct (rte_mempool_get _) as [[o p]|]; [|by intros [= _ <-]].
  intros E. by apply (H o) in E.
Qed.

(** *** Calls that may report a failure at once *)

Section generic.
Context (R : world → world → Prop) `{!PreOrder R}.
Hypothesis still_R : ∀ w w', same_txns w w' → R w w'.

Lemma still_does {A} (m : M A) : does same_txns m → does R m.
Proof. apply does_weaken, still_R. Qed.

Variable iu : user_call.

Lemma issue_does p : does R (iu (ep_user p) RET_CODE_ERR None) → does R (issue_evalsha iu p).
Proof.
  intros Hu. unfold issue_evalsha. apply does_bind; [apply _|apply still_does, still_cmd|intros rc].
  apply does_when; [apply _|]. apply does_bind; [apply _|done|intros _; apply still_does, still_eput].
Qed.

Lemma evalsha_does s id keys argv u :
  does R (iu u RET_CODE_ERR None) → does R (v_db_evalsha iu s id keys argv u).
Proof.
  intros Hu w rc w'. unfold v_db_evalsha. case_match; [by intros [= _ <-]|].
  destruct (if _ <=? s then _ else _) as [sha|]; [|by intros [= _ <-]].
  destruct (rte_mempool_get _) as [[obj pool]|]; [|by intros [= _ <-]]. set (w1 := set_script _ w).
  assert (R w w1) as H1 by by apply still_R.
  destruct (scratch_copy_all _ _); intros (w2&[]&E&[= _ <-])%bind_Some_inv; (etrans; [exact H1|]).
  - by eapply issue_does, E.
  - by eapply (still_does _ (still_eput obj)).
Qed.

Lemma pending_does issue : (∀ o, does R (issue o)) → does R (with_pending issue).
Proof.
  intros Hi. unfold with_pending. apply does_bind; [apply _|apply still_does, still_sget|intros [o|]].
  2: { apply still_does, still_ret. }
  apply does_bind; [apply _|apply Hi|intros rc]. apply still_does. stills.
Qed.

Lemma cas_write_does part seid ver c st cb arg :
  (∀ o, does R (iu (fp_cas_write_reply_cb (CasPending o arg cb ver)) RET_CODE_ERR None)) →
  does R (v_sess_cas_write iu part seid ver c st cb arg).
Proof.
  intros Hu. unfold v_sess_cas_write. apply does_bind; [apply _|apply still_does, still_sensure|intros rc].
  case_match; [apply still_does, still_ret|]. apply does_bind; [apply _|apply still_does, still_ctx_get|intros x].
  case_match; [|apply still_does, still_ret]. apply pending_does. intros o. by apply evalsha_does.
Qed.

Lemma delete_does part seid ver cb arg :
  (∀ o, does R (iu (fp_delete_reply_cb (CasPending o arg cb ver)) RET_CODE_ERR None)) →
  does R (v_sess_delete iu part seid ver cb arg).
Proof.
  intros Hu. unfold v_sess_delete. apply does_bind; [apply _|apply still_does, still_sensure|intros rc].
  case_match; [apply still_does, still_ret|]. apply pending_does. intros o. by apply evalsha_does.
Qed.

End generic.
End calls.

#[export] Hint Resolve still_store still_tfree still_seid_alloc still_lookup still_read still_confirm still_teid_reply
  still_seid_reply still_request_load : still.

(** ** The procedures *)

Definition user_ver (u : evalsha_user) : Z :=
  match u with fp_cas_write_reply_cb p | fp_delete_reply_cb p => cas_new_ver (cp_exp_ver p) | _ => 0 end.

Create HintDb touch discriminated.

Section flow.
Context {DP : Dpdk} {PP : PfcpPort}.

Abbreviation user_call := (evalsha_user → Z → option v_db_reply → M ()).

(** The user callbacks change their own transaction only; a reported failure
    changes no version. *)
Record iu_touches (iu : user_call) : Prop := {
  it_none u st r : user_conts u = [] → does same_txns (iu u st r);
  it_err u c T r keep V : user_conts u = [(c, T)] → c ≠ RBad → does (touches T keep V) (iu u RET_CODE_ERR r);
  it_any u c T keep st r : user_conts u = [(c, T)] → c ≠ RBad → does (touches T keep (user_ver u)) (iu u st r);
}.

Variables (t : Z) (keep : bool) (V : Z).
Abbreviation tt' := (touches t keep V).

Lemma touch_still {A} (m : M A) : does same_txns m → does tt' m.
Proof. apply does_weaken, same_touches. Qed.

Lemma touch_upd f :
  (∀ x, (keep = true → ident (f x) = ident x) ∧ (t_db_ver (f x) = t_db_ver x ∨ t_db_ver (f x) = V)) → does tt' (txn_upd t f).
Proof.
  intros Hf w a w'. unfold txn_upd, heap_get. destruct (hp_mem (w_txns w) !! t) as [x|] eqn:Ex; [|done]. intros [= _ <-] u x'.
  unfold txn_at. cbn. destruct (decide (u = t)) as [->|Hne].
  - rewrite lookup_insert_eq. intros [= <-]. exists x. split; [done|apply Hf].
  - rewrite lookup_insert_ne by done. intros Hx. by exists x'.
Qed.

Lemma touch_destroy : does tt' (v_port_txn_destroy t).
Proof.
  intros w a w'. unfold v_port_txn_destroy. case_match; intros [= _ <-]; [|reflexivity]. intros u x'. unfold txn_at. cbn.
  destruct (decide (u = t)) as [->|Hne]; [by rewrite lookup_delete_eq|]. rewrite lookup_delete_ne by done.
  intros Hx. by exists x'.
Qed.

End flow.

#[export] Hint Resolve touch_destroy : touch.

(** One step of a procedure over [touches]. *)
Ltac touch_prim :=
  first [ apply touch_still; solve [eauto with still] | solve [eauto with touch]
        | apply touch_upd; intros ?; split; [by intros ?|by (left + right)] ].
Ltac touch := intros; cbv beta; repeat runs_step touch_prim.

Section procedures.
Context {DP : Dpdk} {PP : PfcpPort}.
Variable iu : evalsha_user → Z → option v_db_reply → M ().
Hypothesis IU : iu_touches iu.

Lemma touch_write t keep V part seid ver c st cb :
  writes cb = true → does (touches t keep V) (v_sess_cas_write iu part seid ver c st cb (Some t)).
Proof.
  intros H. apply cas_write_does; [apply _|apply same_touches|]. intros o.
  apply (it_err iu IU _ (RCas cb ver)); [|done]. by destruct cb.
Qed.

Lemma touch_delete t keep V part seid ver :
  does (touches t keep V) (v_sess_delete iu part seid ver fp_del_delete_cb (Some t)).
Proof.
  apply delete_does; [apply _|apply same_touches|]. intros o. by apply (it_err iu IU _ (RCas fp_del_delete_cb ver)).
Qed.

Lemma still_delete_noop part seid ver : does same_txns (v_sess_delete iu part seid ver fp_delete_pending_noop_cb None).
Proof. apply delete_does; [apply _|done|]. intros o. by apply it_none. Qed.

Lemma still_teid_alloc part : does same_txns (v_teid_alloc iu part).
Proof.
  unfold v_teid_alloc, teid_maybe_refill, clear_teid_inflight, v_port_db_cmd.
  repeat runs_step ltac:(apply evalsha_does; [apply _|done|by apply it_none]).
Qed.

#[local] Hint Resolve still_delete_noop still_teid_alloc : still.

Lemma status_err : negb (RET_CODE_ERR =? RET_CODE_OK) = true.
Proof. done. Qed.

Section one.
Variables (t : Z) (keep : bool) (V : Z).
Abbreviation touching m := (does (touches t keep V) m).

Lemma touch_state s : touching (v_port_txn_set_state t s).
Proof. unfold v_port_txn_set_state. touch. Qed.
Lemma touch_reply x c : touching (reply_and_cache x c).
Proof. unfold reply_and_cache. touch. Qed.
#[local] Hint Resolve touch_state touch_reply : touch.
Lemma touch_finish c : touching (finish t c).
Proof. unfold finish. touch. Qed.
Lemma touch_drop : touching (drop_request t).
Proof. unfold drop_request. touch. Qed.
#[local] Hint Resolve touch_finish touch_drop : touch.
Lemma touch_cached resp : touching (reply_cached t resp).
Proof. unfold reply_cached. touch. Qed.
Lemma touch_snapshot : touching (drop_snapshot t).
Proof. unfold drop_snapshot. touch. Qed.
#[local] Hint Resolve touch_cached touch_snapshot : touch.
Lemma touch_mod_start : touching (mod_start_read t).
Proof. unfold mod_start_read. touch. Qed.
Lemma touch_del_start : touching (del_start_read t).
Proof. unfold del_start_read. touch. Qed.
#[local] Hint Resolve touch_mod_start touch_del_start : touch.
Lemma touch_confirm st : touching (confirm_cb t st).
Proof. unfold confirm_cb. touch. Qed.
Lemma touch_vdp_create res : touching (vdp_create_cb iu t res).
Proof. unfold vdp_create_cb. touch. Qed.
Lemma touch_vdp_mod res : touching (mod_vdp_cb iu t res).
Proof. unfold mod_vdp_cb, ctx_free_opt. touch; by apply touch_write. Qed.
Lemma touch_vdp_del res : touching (del_vdp_cb iu t res).
Proof. unfold del_vdp_cb. touch. apply touch_delete. Qed.
Lemma touch_compensate st res ver : touching (mod_compensate_write_cb t st res ver).
Proof. unfold mod_compensate_write_cb. touch. Qed.
Lemma touch_del_delete st res ver : touching (del_delete_cb t st res ver).
Proof. unfold del_delete_cb, v_port_ctx_clear. touch. Qed.
Lemma touch_lookup_mod st hit resp : touching (mod_retrans_lookup_cb t st hit resp).
Proof. unfold mod_retrans_lookup_cb, alloc_ctx_then. touch. Qed.
Lemma touch_lookup_del st hit resp : touching (del_retrans_lookup_cb t st hit resp).
Proof. unfold del_retrans_lookup_cb, alloc_ctx_then. touch. Qed.
Lemma touch_cas_write st res ver :
  st = RET_CODE_ERR ∨ res ≠ V_CAS_OK ∨ V = ver → touching (cas_write_cb iu t st res ver).
Proof.
  unfold cas_write_cb, v_port_vdp_session_create. intros [-> |[Hr| <-]]; cbn; [touch| |touch].
  rewrite (bool_decide_eq_true_2 _ Hr), orb_true_r. touch.
Qed.
Lemma touch_mod_cas st res ver :
  st = RET_CODE_ERR ∨ res ≠ V_CAS_OK ∨ V = ver → touching (mod_cas_cb t st res ver).
Proof.
  unfold mod_cas_cb, v_port_vdp_session_modify, v_port_ctx_clear. intros [-> |[Hr| <-]]; cbn; [touch| |touch].
  destruct res; [done|touch|touch].
Qed.
Lemma touch_mod_read st f c ver :
  st = RET_CODE_ERR ∨ f ≠ V_CAS_OK ∨ V = ver → touching (mod_read_cb iu t st f c ver).
Proof.
  unfold mod_read_cb. intros [-> |[Hf| <-]]; [rewrite status_err; touch| |touch; by apply touch_write].
  rewrite (decide_True (P := f ≠ V_CAS_OK)) by done. touch.
Qed.
Lemma touch_del_read st f c ver :
  st = RET_CODE_ERR ∨ f ≠ V_CAS_OK ∨ V = ver → touching (del_read_cb t st f c ver).
Proof.
  unfold del_read_cb, v_port_vdp_session_delete. intros [-> |[Hf| <-]]; [rewrite status_err; touch| |touch].
  rewrite (decide_True (P := f ≠ V_CAS_OK)) by done. touch.
Qed.
End one.

Lemma touch_lookup_est t V st hit resp : does (touches t false V) (retrans_lookup_cb iu t st hit resp).
Proof.
  unfold retrans_lookup_cb. pose proof (touch_cached t false V). pose proof (touch_finish t false V).
  pose proof (touch_state t false V). touch; by apply touch_write.
Qed.

End procedures.

#[export] Hint Resolve touch_state touch_reply touch_finish touch_drop touch_cached touch_snapshot : touch.

Lemma reported_ver st r v st' res ver :
  cas_reply st r v = (st', res, ver) → st' = RET_CODE_ERR ∨ res ≠ V_CAS_OK ∨ v = ver.
Proof.
  unfold cas_reply, cas_outcome. repeat case_match; intros [= <- <- <-]; auto; by right; left.
Qed.

Section pod.
Context {DP : Dpdk} {PP : PfcpPort}.

Lemma call_cas_touch iu t keep V cb st res ver :
  iu_touches iu → st = RET_CODE_ERR ∨ res ≠ V_CAS_OK ∨ V = ver →
  does (touches t keep V) (call_cas iu cb st res ver (Some t)).
Proof.
  intros IU Hv. destruct cb; cbn [call_cas deref]; try (apply touch_still, still_ret).
  - by apply (touch_cas_write iu IU t keep V).
  - by apply touch_mod_cas.
  - apply touch_compensate.
  - apply touch_del_delete.
Qed.

Lemma invoke_user_touches d : iu_touches (invoke_user d).
Proof.
  induction d as [|d IH]; [split; intros; by intros ? ? ?|]. split.
  - intros u st r Hu. destruct u as [p|p|part]; cbn [invoke_user user_conts] in *.
    + unfold cas_write_reply_cb. destruct (cas_reply _ _ _) as [[st' res] ver].
      apply does_bind; [apply _| |intros; apply still_sput]. unfold cas_conts, call_conts in Hu.
      destruct (cp_cb p); try done; try by apply cont_of_nonempty in Hu. all: apply still_ret.
    + unfold delete_reply_cb. destruct (cas_reply _ _ _) as [[st' res] ver].
      apply does_bind; [apply _| |intros; apply still_sput]. unfold del_conts, call_conts in Hu.
      destruct (cp_cb p); try done; try by apply cont_of_nonempty in Hu. all: apply still_ret.
    + apply still_teid_reply.
  - intros u c T r keep V Hu Hc. destruct u as [p|p|part]; cbn [invoke_user user_conts] in *; [..|done].
    + apply cas_conts_inv in Hu as (Ha&->&_); [|done]. unfold cas_write_reply_cb. rewrite cas_reply_err, Ha.
      apply does_bind; [apply _| |intros; apply touch_still, still_sput]. apply call_cas_touch; [done|by left].
    + apply del_conts_inv in Hu as (Ha&->&_); [|done]. unfold delete_reply_cb. rewrite cas_reply_err, Ha.
      apply does_bind; [apply _| |intros; apply touch_still, still_sput]. apply call_cas_touch; [done|by left].
  - intros u c T keep st r Hu Hc. destruct u as [p|p|part]; cbn [invoke_user user_conts] in *; [..|done].
    + apply cas_conts_inv in Hu as (Ha&->&_); [|done]. unfold cas_write_reply_cb.
      destruct (cas_reply _ _ _) as [[st' res] ver] eqn:E. rewrite Ha.
      apply does_bind; [apply _| |intros; apply touch_still, still_sput]. apply call_cas_touch; [done|by eapply reported_ver].
    + unfold del_conts, call_conts in Hu. destruct (cp_cb p) eqn:Ecb; try done; try by injection Hu as <-.
      apply cont_of_inv in Hu as [Ha ->]; [|done]. unfold delete_reply_cb.
      destruct (cas_reply _ _ _) as [[st' res] ver] eqn:E. rewrite Ha, Ecb.
      apply does_bind; [apply _| |intros; apply touch_still, still_sput]. cbn [call_cas deref]. apply touch_del_delete.
Qed.

Lemma iu_touching : iu_touches iu.
Proof. apply invoke_user_touches. Qed.

(** ** Replies *)

(** The version that a reply reports to the transaction that waits for it. *)
Definition reply_ver (r : role) (reply : option v_db_reply) : Z :=
  match r with
  | RRead _ _ => match read_fields RET_CODE_OK reply with Some (_, ver) => parse_buf 24 (reply_str ver) | None => 0 end
  | RCas _ v => cas_new_ver v
  | _ => 0
  end.

(** Only the establishment lookup gives its transaction a session. *)
Definition keeps_ident (r : role) : bool := match r with RLookup fp_retrans_lookup_cb => false | _ => true end.

Lemma reply_ver_cas u r t reply : user_conts u = [(r, t)] → r ≠ RBad → reply_ver r reply = user_ver u.
Proof.
  destruct u as [p|p|part]; cbn [user_conts]; [..|done]; intros Hu Hr.
  - by apply cas_conts_inv in Hu as (_&->&_).
  - by apply del_conts_inv in Hu as (_&->&_).
Qed.

Lemma evalsha_reply_touch p r t st reply :
  user_conts (ep_user p) = [(r, t)] → r ≠ RBad →
  does (touches t (keeps_ident r) (reply_ver r reply)) (evalsha_reply_cb iu p st reply).
Proof.
  intros Hu Hr. rewrite (reply_ver_cas _ _ _ reply Hu Hr). unfold evalsha_reply_cb. case_match.
  - apply does_bind; [apply _|apply touch_still, still_request_load|intros rc]. apply does_when; [apply _|].
    apply does_bind; [apply _| |intros; apply touch_still, still_eput]. by apply (it_err iu iu_touching _ r).
  - apply does_bind; [apply _| |intros; apply touch_still, still_eput]. by apply (it_any iu iu_touching _ r).
Qed.

Lemma load_reply_touch lc p r t st reply :
  lc_resume lc = Some p → user_conts (ep_user p) = [(r, t)] → r ≠ RBad →
  does (touches t (keeps_ident r) (reply_ver r reply)) (load_reply_cb iu lc st reply).
Proof.
  intros Hp Hu Hr. unfold load_reply_cb. rewrite Hp.
  destruct (if st =? RET_CODE_OK then _ else None) as [sha|].
  - apply does_bind; [apply _|apply touch_still, still_set_sha|intros _].
    apply does_bind; [apply _| |intros; apply touch_still, still_lput].
    apply issue_does; [apply _|apply same_touches|]. by apply (it_err iu iu_touching _ r).
  - apply does_bind; [apply _| |intros; apply touch_still, still_lput].
    apply does_bind; [apply _| |intros; apply touch_still, still_eput]. by apply (it_err iu iu_touching _ r).
Qed.

Lemma call_read_touch cb t V st f c ver :
  st = RET_CODE_ERR ∨ f ≠ V_CAS_OK ∨ V = ver → does (touches t true V) (call_read cb st f c ver (Some t)).
Proof.
  intros HV. destruct cb; cbn [call_read deref]; [by apply touch_mod_read, HV; apply iu_touching|by apply touch_del_read].
Qed.

Lemma read_reply_touch p t reply :
  rp_arg p = Some t →
  does (touches t true (reply_ver (RRead (rp_cb p) (rp_ctx p)) reply)) (read_reply_cb call_read p (reply_status reply) reply).
Proof.
  intros Ha. unfold read_reply_cb. rewrite Ha.
  assert (read_fields (reply_status reply) reply = read_fields RET_CODE_OK reply) as -> by by destruct reply.
  cbn [reply_ver]. destruct (read_fields _ _) as [[data ver]|].
  2: { apply does_bind; [apply _| |intros; apply touch_still, still_sput]. apply call_read_touch. by left. }
  case_match.
  { apply does_bind; [apply _| |intros; apply touch_still, still_sput]. apply call_read_touch. by right; left. }
  apply does_bind; [apply _|apply touch_still, still_ctx_get|intros c].
  destruct (v_port_pdu_deserialize _ _) as [rc c'].
  apply does_bind; [apply _|apply touch_still, still_ctx_set|intros _].
  apply does_bind; [apply _| |intros; apply touch_still, still_sput].
  case_match; apply call_read_touch; [by left|by right; right].
Qed.

(** *** What a read leaves behind *)

(** [m] ends in a state where [P] holds. *)
Definition ends {A} (P : world → Prop) (m : M A) : Prop := ∀ w a w', m w = Some (a, w') → P w'.

Lemma ends_last {A B} P (m : M A) (f : A → M B) : (∀ a, ends P (f a)) → ends P (m ≫= f).
Proof. intros Hf w b w' (w1&a&_&E)%bind_Some_inv. by eapply Hf. Qed.

Lemma ends_then {A B} P R (m : M A) (f : A → M B) :
  (∀ w w', P w → R w w' → P w') → ends P m → (∀ a, does R (f a)) → ends P (m ≫= f).
Proof. intros HPR Hm Hf w b w' (w1&a&E1&E2)%bind_Some_inv. eapply HPR; [by eapply Hm|by eapply Hf]. Qed.

(** [t] is dead, or it expects version [V]. *)
Definition expects (t V : Z) (w : world) : Prop := ∀ x, txn_at w t = Some x → t_db_ver x = V.

Lemma expects_touch t V keep w w' : expects t V w → touches t keep V w w' → expects t V w'.
Proof.
  intros Hw Ht x' Hx'. destruct (Ht t x' Hx') as (x&Hx&Hs). rewrite decide_True in Hs by done.
  destruct Hs as [_ [->|]]; [by apply Hw|done].
Qed.

Lemma finish_expects t c V : ends (expects t V) (finish t c).
Proof.
  unfold finish. do 6 (apply ends_last; intros ?). intros w u w'. unfold v_port_txn_destroy, heap_get.
  destruct (hp_mem (w_txns w) !! t) eqn:Et; intros [= _ <-] x; unfold txn_at; cbn; [by rewrite lookup_delete_eq|congruence].
Qed.

(** After the version was stored the rest of the callback keeps it. *)
Lemma stored_expects {A} t V (f : () → M A) :
  does (touches t true V) (f tt) → ends (expects t V) (_ ← txn_upd t (txn_set_db_ver V); f tt).
Proof.
  intros Hf. eapply (ends_then _ (touches t true V)); [by intros; eapply expects_touch| |by intros []].
  intros w a w'. unfold txn_upd, heap_get. destruct (hp_mem (w_txns w) !! t) as [x0|] eqn:E; [|done]. intros [= _ <-] x.
  unfold txn_at. cbn. rewrite lookup_insert_eq. by intros [= <-].
Qed.

Lemma ends_still {A} t V (m : M A) (f : A → M ()) :
  ends (expects t V) m → (∀ a, does same_txns (f a)) → ends (expects t V) (m ≫= f).
Proof. apply ends_then. intros w w' Hw Hs x Hx. apply Hw. unfold txn_at in *. by rewrite <- Hs. Qed.

Lemma mod_read_expects t V st f c ver :
  st = RET_CODE_ERR ∨ f ≠ V_CAS_OK ∨ V = ver → ends (expects t V) (mod_read_cb iu t st f c ver).
Proof.
  unfold mod_read_cb. pose proof iu_touching. pose proof (finish_expects t) as Hf.
  intros [-> |[Hr| <-]]; [rewrite status_err; apply Hf|rewrite (decide_True (P := f ≠ V_CAS_OK)) by done; case_match; apply Hf|].
  do 2 (case_match; [apply Hf|]). apply (stored_expects _ _ (λ _, _)). touch; by apply touch_write.
Qed.

Lemma del_read_expects t V st f c ver :
  st = RET_CODE_ERR ∨ f ≠ V_CAS_OK ∨ V = ver → ends (expects t V) (del_read_cb t st f c ver).
Proof.
  unfold del_read_cb, v_port_vdp_session_delete. pose proof (finish_expects t) as Hf.
  intros [-> |[Hr| <-]]; [rewrite status_err; apply Hf|rewrite (decide_True (P := f ≠ V_CAS_OK)) by done; case_match; apply Hf|].
  do 2 (case_match; [apply Hf|]). apply (stored_expects _ _ (λ _, _)). touch.
Qed.

(** A modification or deletion that found its session expects the version it
    read. *)
Lemma read_reply_expects p t reply :
  rp_arg p = Some t →
  ends (expects t (reply_ver (RRead (rp_cb p) (rp_ctx p)) reply)) (read_reply_cb call_read p (reply_status reply) reply).
Proof.
  intros Ha. unfold read_reply_cb. rewrite Ha.
  assert (∀ st f c ver V, st = RET_CODE_ERR ∨ f ≠ V_CAS_OK ∨ V = ver →
    ends (expects t V) (call_read (rp_cb p) st f c ver (Some t))) as Hc.
  { intros. destruct (rp_cb p); [by apply mod_read_expects|by apply del_read_expects]. }
  assert (read_fields (reply_status reply) reply = read_fields RET_CODE_OK reply) as -> by by destruct reply.
  cbn [reply_ver]. destruct (read_fields _ _) as [[data ver]|].
  2: { apply ends_still; [apply Hc; by left|intros; apply still_sput]. }
  case_match; [apply ends_still; [apply Hc; by right; left|intros; apply still_sput]|].
  apply ends_last; intros c. destruct (v_port_pdu_deserialize _ _) as [rc c']. apply ends_last; intros _.
  apply ends_still; [|intros; apply still_sput]. case_match; apply Hc; [by left|by right; right].
Qed.

(** ** The callbacks of the ports *)

Lemma call_retrans_touch cb st hit resp t V :
  does (touches t (keeps_ident (RLookup cb)) V) (call_retrans cb st hit resp (Some t)).
Proof.
  destruct cb; cbn [call_retrans deref]; [apply touch_lookup_est, iu_touching|apply touch_lookup_mod|apply touch_lookup_del].
Qed.

(** A command that carries a transaction. *)
Lemma db_invoke_touch cb r t reply :
  cb_conts cb = [(r, t)] → r ≠ RBad →
  does (touches t (keeps_ident r) (reply_ver r reply)) (db_invoke cb (reply_status reply) reply).
Proof.
  intros Hc Hr. destruct cb as [p|lc|p|p|part| | |p| |p|p|p]; cbn [cb_conts db_invoke] in *; try done.
  - by apply evalsha_reply_touch.
  - destruct (lc_resume lc) as [p|] eqn:Ep; [|done]. by eapply load_reply_touch.
  - apply cont_of_inv in Hc as [Ha ->]; [|done]. by apply read_reply_touch.
  - unfold confirm_reply_cb. destruct (sp_cb p); [|done]. apply cont_of_inv in Hc as [Ha ->]; [|done]. rewrite Ha.
    apply does_bind; [apply _| |intros; apply touch_still, still_sput]. apply touch_confirm.
  - apply cont_of_inv in Hc as [Ha ->]; [|done]. unfold lookup_reply_cb. rewrite Ha.
    destruct (lookup_outcome _ _) as [[st hit] resp].
    apply does_bind; [apply _|apply call_retrans_touch|intros; apply touch_still, still_rput].
Qed.

(** The reply to a read. *)
Lemma db_invoke_expects cb rcb x t reply :
  cb_conts cb = [(RRead rcb x, t)] →
  ends (expects t (reply_ver (RRead rcb x) reply)) (db_invoke cb (reply_status reply) reply).
Proof.
  intros Hc. destruct cb as [p|lc|p|p|part| | |p| |p|p|p]; cbn [cb_conts db_invoke] in *; try done.
  - destruct (ep_user p) as [q|q|part]; cbn in Hc; [..|done].
    + by apply cas_conts_inv in Hc as (_&?&_).
    + by apply del_conts_inv in Hc as (_&?&_).
  - destruct (lc_resume lc) as [p|]; [|done]. destruct (ep_user p) as [q|q|part]; cbn in Hc; [..|done].
    + by apply cas_conts_inv in Hc as (_&?&_).
    + by apply del_conts_inv in Hc as (_&?&_).
  - apply cont_of_inv in Hc as [Ha [= -> ->]]; [|done]. by apply read_reply_expects.
  - destruct (sp_cb p); [|done]. by destruct (sp_arg p).
  - by destruct (rt_arg p).
Qed.

(** Any other command. *)
Lemma db_invoke_still cb st reply : cb_conts cb = [] → does same_txns (db_invoke cb st reply).
Proof.
  intros Hc. pose proof (it_none iu iu_touching) as Hu.
  destruct cb as [p|lc|p|p|part| | |p| |p|p|p]; cbn [cb_conts db_invoke] in *; try by apply cont_of_nonempty in Hc.
  - unfold evalsha_reply_cb. stills; by apply Hu.
  - unfold load_reply_cb. destruct (lc_resume lc) as [p|]; [|stills].
    assert (does same_txns (issue_evalsha iu (set_part_sha p []))) as _ by (apply issue_does; [apply _|done|by apply Hu]).
    assert (∀ sha, does same_txns (issue_evalsha iu (set_part_sha p sha))) by (intros; apply issue_does; [apply _|done|by apply Hu]).
    stills; by apply Hu.
  - unfold confirm_reply_cb. destruct (sp_cb p); [by apply cont_of_nonempty in Hc|]. cbn [call_simple]. unfold confirm_retry_cb. stills.
  - apply still_seid_reply.
  - apply still_ret.
  - apply still_ret.
  - apply still_ret.
  - unfold recovery_reply_cb, recovery_ts_loaded_cb.
    assert (∀ ts, does same_txns (modify (λ w, set_node (node_set_ts ts (w_node w)) w))) by (by intros ts w a w' [= _ <-]). stills.
  - unfold simple_ack_cb, node_cb_noop. stills.
  - unfold assoc_query_reply_cb, assoc_cb_noop. stills.
Qed.

Lemma call_vdp_touch cb t V res : does (touches t true V) (call_vdp cb t res).
Proof.
  pose proof iu_touching. destruct cb; cbn [call_vdp]; [by apply touch_vdp_create|by apply touch_vdp_mod|by apply touch_vdp_del].
Qed.

End pod.

(** ** Events *)

Section events.
Context {DP : Dpdk} {PP : PfcpPort}.

Ltac read_only E := unfold msg_get, dispatch_msg_get in E; destruct (heap_get _ _) in E; first [done | by injection E as _ <-].

(** A live transaction keeps its session and its version. *)
Definition keeps (w w' : world) : Prop :=
  ∀ u x x', txn_at w u = Some x → txn_at w' u = Some x' → ident x' = ident x ∧ t_db_ver x' = t_db_ver x.

Lemma same_keeps w w' : same_txns w w' → keeps w w'.
Proof. intros H u x x'. unfold txn_at. rewrite H. by intros -> [= ->]. Qed.

Lemma start_keeps req peer init cb w w' :
  (∀ x, t_db_ver (init x) = t_db_ver x) → heap_wf (w_txns w) → start_txn req peer init cb w = Some (tt, w') → keeps w w'.
Proof.
  intros Hi Hwf. unfold start_txn. intros (w1&m&E1&E)%bind_Some_inv.
  assert (w1 = w) as -> by (read_only E1).
  apply bind_Some_inv in E as (w2&o&E2&E3). unfold v_port_txn_create in E2.
  destruct (heap_alloc _ _) as [[t h]|] eqn:Ea; injection E2 as <- <-.
  2: { apply same_keeps. by apply (still_msg_free req) in E3. }
  destruct (live_alloc _ _ _ _ Hwf Ea) as (_&_&Hm&Hn).
  assert (touches t false 0 (set_txns h w) w') as Ht.
  { refine ((_ : does (touches t false 0) _) _ _ _ E3). touch. apply touch_upd. intros x. cbn. rewrite Hi. split; [done|by left]. }
  intros u x x' Hx Hx'. destruct (Ht u x' Hx') as (y&Hy&Hs). unfold txn_at in *. cbn in Hy. rewrite Hm in Hy.
  destruct (decide (u = t)) as [->|Hne]; [congruence|]. rewrite lookup_insert_ne in Hy by done. by simplify_eq.
Qed.

Lemma still_decode buf : does same_txns (pfcp_decode buf).
Proof. intros w a w'. unfold pfcp_decode. repeat case_match; by intros [= _ <-]. Qed.
Lemma still_dequeue : does same_txns rx_dequeue.
Proof. intros w a w'. unfold rx_dequeue. repeat case_match; by intros [= _ <-]. Qed.
Lemma still_dput m : does same_txns (dispatch_msg_put m).
Proof. by intros w a w' [= _ <-]. Qed.

Lemma handle_keeps msg w w' : heap_wf (w_txns w) → v_flow_handle_msg msg w = Some (tt, w') → keeps w w'.
Proof.
  assert (∀ req peer, does same_txns (reply_ctx_not_found req peer)) as Hnf by (intros; unfold reply_ctx_not_found; stills).
  assert (∀ req peer cb w w', heap_wf (w_txns w) → handle_existing req peer cb w = Some (tt, w') → keeps w w') as He.
  { intros req peer cb w1 w2 Hwf. unfold handle_existing. intros (w3&m&E1&E)%bind_Some_inv.
    assert (w3 = w1) as -> by (read_only E1).
    destruct (v_seid_validate _); [eapply start_keeps; [|exact Hwf|exact E]; done|]. apply same_keeps. exact (Hnf _ _ _ _ _ E). }
  unfold v_flow_handle_msg. intros Hwf (w1&o&E1&E)%bind_Some_inv.
  assert (same_txns w w1) as H1 by (revert E1; apply still_decode).
  assert (∀ w', keeps w1 w' → keeps w w') as Hk.
  { intros w2 H u x x'. unfold txn_at. rewrite <- H1. apply H. }
  apply Hk. rewrite <- H1 in Hwf. clear E1 H1 Hk. destruct o as [req|]; [|injection E as <-; by apply same_keeps].
  apply bind_Some_inv in E as (w2&m&E1&E).
  assert (w2 = w1) as -> by (read_only E1).
  repeat case_match; [eapply start_keeps; [|exact Hwf|exact E]; done|by eapply He|by eapply He|].
  apply same_keeps. by apply (still_msg_free req) in E.
Qed.

Lemma still_drain n : does same_txns (v_dispatch_io_drain_tx n).
Proof. intros w a w'. unfold v_dispatch_io_drain_tx. destruct (dispatch_drain _ _) as [[l d]|]; [by intros [= _ <-]|done]. Qed.

Lemma still_reconnect s : does same_txns (script_reconnect_cb s).
Proof. unfold script_reconnect_cb. stills. Qed.

Lemma still_node call user : does same_txns (node_do call user).
Proof.
  intros w rc w' E. destruct (node_do_issue call user w) as (key&argv&cb&Hd&_). rewrite Hd in E. clear Hd. revert w rc w' E.
  change (does same_txns (node_issue key argv cb user)). unfold node_issue, v_port_db_cmd. stills.
Qed.

Lemma poll_keeps w w' : heap_wf (w_txns w) → pod_step EvPoll w = Some (tt, w') → keeps w w'.
Proof.
  intros Hwf. cbn. intros (w1&n&E&[= <-])%bind_Some_inv. apply bind_Some_inv in E as (w2&o&E1&E).
  assert (same_txns w w2) as H1 by (revert E1; apply still_dequeue).
  assert (∀ w', keeps w2 w' → keeps w w') as Hk.
  { intros w3 H u x x'. unfold txn_at. rewrite <- H1. apply H. }
  apply Hk. rewrite <- H1 in Hwf. clear E1 H1 Hk. destruct o as [m|]; [|injection E as _ <-; by apply same_keeps].
  apply bind_Some_inv in E as (w3&x&E1&E).
  assert (w3 = w2) as -> by (read_only E1).
  apply bind_Some_inv in E as (w4&[]&E2&E). apply (handle_keeps _ _ _ Hwf) in E2.
  apply bind_Some_inv in E as (w5&[]&E3&E). apply still_dput in E3. injection E as _ <-.
  intros u y y' Hy Hy'. eapply E2; [exact Hy|]. unfold txn_at in *. by rewrite <- E3.
Qed.

(** What a completion reports to its transaction. *)
Definition completion_ver (r : role) (c : completion) : Z :=
  match c with CReply reply => reply_ver r reply | CVdp _ => 0 end.

(** A completion changes its own transaction only, in the bounds of its role;
    any other event changes no live transaction. *)
Lemma event_touches e w w' :
  is_timeout e = false → Own no_amb None [] [] w → pod_step e w = Some (tt, w') →
  match completion_of e w with
  | Some (t, c) => ∃ r s, (t, r, s) ∈ waits w ∧ touches t (keeps_ident r) (completion_ver r c) w w' ∧
      (∀ cb x reply, r = RRead cb x → c = CReply reply → expects t (reply_ver r reply) w') ∧
      ∀ res V, c = CVdp res → touches t true V w w'
  | None => keeps w w'
  end.
Proof.
  intros He HO E. destruct e; try done; try (apply same_keeps; injection E as <-; done).
  - by eapply poll_keeps; [apply (o_txns _ _ _ _ _ HO)|].
  - apply bind_Some_inv in E as (w1&o&E1&E). unfold take_db_cmd in E1. cbn [completion_of].
    destruct (db_queue (w_db w) !! i) as [c|] eqn:Ei; injection E1 as <- <-; [|injection E as <-; by apply same_keeps].
    set (w1 := set_db _ w) in *. assert (same_txns w w1) as H1 by done.
    apply bind_Some_inv in E as (w2&[]&E2&E3). assert (same_txns w2 w') as H2 by by injection E3 as <-.
    pose proof (cb_conts_length (dc_cb c)) as Hlen.
    destruct (cb_conts (dc_cb c)) as [|[r t] [|]] eqn:Ec; [..|cbn in Hlen; lia].
    + apply same_keeps. apply db_invoke_still in E2; [|done]. transitivity w1; [done|]. by transitivity w2.
    + assert ((t, r, stage (dc_cb c)) ∈ waits w) as Hin.
      { unfold waits. apply elem_of_app. left. apply list_elem_of_bind. exists c. split; [|by eapply list_elem_of_lookup_2].
        unfold cmd_waits. rewrite Ec. by left. }
      destruct (wait_ok w t r (stage (dc_cb c)) HO Hin) as (Hr&_&_).
      exists r, (stage (dc_cb c)). split; [done|]. split; [|split; [|by intros ? ? [=]]].
      * etrans; [by apply same_touches|]. etrans; [by eapply db_invoke_touch|by apply same_touches].
      * intros rcb x reply' -> [= <-] y. unfold txn_at. rewrite H2. apply (db_invoke_expects _ _ _ _ _ Ec _ _ _ E2).
  - cbn [completion_of]. apply bind_Some_inv in E as (w1&o&E1&E). unfold take_vdp_call in E1.
    destruct (vdp_queue (w_vdp w) !! i) as [v|] eqn:Ei; injection E1 as <- <-; [|injection E as <-; by apply same_keeps].
    exists (RVdp (vc_cb v)), 0%nat. split.
    + unfold waits. apply elem_of_app. right. apply list_elem_of_fmap. exists v. split; [done|by eapply list_elem_of_lookup_2].
    + assert (∀ V, touches (vc_arg v) true V w w') as Ht; [|split; [apply Ht|by split]]. intros V.
      set (w1 := set_vdp _ w) in *. transitivity w1; [by apply same_touches|]. by eapply call_vdp_touch.
  - apply same_keeps. apply bind_Some_inv in E as (w1&n&E&[= <-]). revert E. apply still_drain.
  - by eapply same_keeps, still_reconnect.
  - apply same_keeps. apply bind_Some_inv in E as (w1&n&[= <- <-]&E). destruct (g_node_pool (w_node w)); [|by injection E as <-].
    apply bind_Some_inv in E as (w1&rc&E&[= <-]). by eapply still_node.
Qed.

End events.
