(* ===== verification/ProtocolRefine.v ===== *)
(** The pod refines the protocol of Protocol.v: the transactions in flight,
    seen as a map from transactions to protocol states, change one at a time
    and along its steps; hence every request is answered after a bounded
    number of completions. *)
From S2P Require Import Prelude Seid Dpdk Heap Redis World DbScript SessStore RetransCache IdAlloc.
From S2P Require Import DispatchQ NodeState Flow Sweeper Pod Pools Own OwnPrim OwnPod Safety Protocol Progress Conform Procedures.

(** A protocol state: role, transport stage, conflicts met. *)
Abbreviation pstate := (role * nat * Z)%type.

Definition pstate_left (p : pstate) : nat := let '(r, s, k) := p in completions_left (Wait r s k).

(** The work left in all procedures. *)
Definition work (m : gmap Z pstate) : nat := sum_list (pstate_left <$> (map_to_list m).*2).

Lemma work_insert_new m t p : m !! t = None → work (<[t := p]> m) = (pstate_left p + work m)%nat.
Proof. intros Hm. unfold work. by rewrite map_to_list_insert. Qed.

Lemma work_delete m t p : m !! t = Some p → work m = (pstate_left p + work (delete t m))%nat.
Proof. intros Hm. unfold work. by rewrite <- (map_to_list_delete m t p Hm). Qed.

Lemma work_insert m t p p' : m !! t = Some p → (work (<[t := p']> m) + pstate_left p = work m + pstate_left p')%nat.
Proof.
  intros Hm. rewrite <- insert_delete_eq, work_insert_new by apply lookup_delete_eq. rewrite (work_delete m t p Hm). lia.
Qed.

Section refine.
Context {DP : Dpdk} {PP : PfcpPort}.

(** The protocol states of the pod. *)
Definition procs (w : world) : gmap Z pstate :=
  list_to_map ((λ e : wait, (e.1.1, (e.1.2, e.2, retry_of w e.1.1))) <$> waits w).

Lemma waits_nodup w : Own no_amb None [] [] w → NoDup (waits w).*1.*1.
Proof.
  intros HO. assert ((waits w).*1.*1 = (conts w).*2) as ->.
  { rewrite <- waits_conts, <- !list_fmap_compose. by apply list_fmap_ext; intros ? [[? ?] ?]. }
  pose proof (o_cont _ _ _ _ _ HO) as Hc. cbn in Hc. rewrite app_nil_r in Hc. rewrite Hc. apply live_nodup.
Qed.

Lemma procs_lookup w t r s k : Own no_amb None [] [] w →
  procs w !! t = Some (r, s, k) ↔ (t, r, s) ∈ waits w ∧ k = retry_of w t.
Proof.
  intros HO. unfold procs. rewrite <- elem_of_list_to_map.
  - rewrite list_elem_of_fmap. split.
    + intros ([[t' r'] s']&[= -> -> -> ->]&H). done.
    + intros [H ->]. by exists (t, r, s).
  - rewrite <- list_fmap_compose. pose proof (waits_nodup w HO) as Hn. rewrite <- list_fmap_compose in Hn. exact Hn.
Qed.

Lemma procs_eq w m : Own no_amb None [] [] w →
  (∀ t r s k, (t, r, s) ∈ waits w ∧ k = retry_of w t ↔ m !! t = Some (r, s, k)) → procs w = m.
Proof.
  intros HO H. apply map_eq. intros t. apply option_eq. intros [[r s] k]. rewrite <- H. by apply procs_lookup.
Qed.

Lemma calm_procs w w' : Own no_amb None [] [] w → Own no_amb None [] [] w' → calm w w' → procs w' = procs w.
Proof.
  intros HO HO' [Hw Hr]. apply procs_eq; [done|]. intros t r s k. rewrite Hw, Hr. symmetry. by apply procs_lookup.
Qed.

(** The effect of an outcome on the map. *)
Definition proc_put (t : Z) (o : outcome) (m : gmap Z pstate) : gmap Z pstate :=
  match o with Wait r s k => <[t := (r, s, k)]> m | Answered _ => delete t m end.

Lemma put_wait w1 w t r s k w' :
  Own no_amb None [] [] w → Own no_amb None [] [] w' →
  (∀ e, e ∈ waits w1 ↔ e ∈ waits w ∧ e.1.1 ≠ t) → (∀ u, u ≠ t → retry_of w' u = retry_of w u) →
  (∀ e, e ∈ waits w' ↔ e = (t, r, s) ∨ e ∈ waits w1) → retry_of w' t = k → procs w' = <[t := (r, s, k)]> (procs w).
Proof.
  intros HO HO' Hw Hr Hm Hk. apply procs_eq; [done|]. intros u r' s' k'. rewrite Hm, Hw. cbn.
  destruct (decide (u = t)) as [->|Hne].
  - rewrite lookup_insert_eq. split.
    + intros [[[= -> ->]|[_ ?]] ->]; [by rewrite Hk|done].
    + intros [= <- <- <-]. split; [by left|done].
  - rewrite lookup_insert_ne by done. rewrite procs_lookup by done. rewrite Hr by done.
    split; [intros [[[=]|[? _]] ?]; done|intros [? ?]; auto].
Qed.

Lemma put_answer w1 w t w' :
  Own no_amb None [] [] w → Own no_amb None [] [] w' →
  (∀ e, e ∈ waits w1 ↔ e ∈ waits w ∧ e.1.1 ≠ t) → (∀ u, u ≠ t → retry_of w' u = retry_of w u) →
  same_waits w1 w' → procs w' = delete t (procs w).
Proof.
  intros HO HO' Hw Hr Hm. apply procs_eq; [done|]. intros u r' s' k'. rewrite Hm, Hw. cbn.
  destruct (decide (u = t)) as [->|Hne].
  - rewrite lookup_delete_eq. split; [by intros [[_ ?] _]|done].
  - rewrite lookup_delete_ne by done. rewrite procs_lookup by done. rewrite Hr by done.
    split; [intros [[? _] ?]; done|intros [? ?]; auto].
Qed.

Lemma not_waiting w t : Own no_amb None [] [] w → hp_mem (w_txns w) !! t = None →
  procs w !! t = None ∧ ∀ r s, (t, r, s) ∉ waits w.
Proof.
  intros HO Hn. assert (∀ r s, (t, r, s) ∉ waits w) as H.
  { intros r s Hin. destruct (wait_ok w t r s HO Hin) as (_&_&[x Hx]). congruence. }
  split; [|done]. destruct (procs w !! t) as [[[r s] k]|] eqn:E; [|done].
  apply procs_lookup in E as [Hin _]; [|done]. by apply H in Hin.
Qed.

(** The response to [t]'s request leaves in this event: [w] before, [w'] after. *)
Definition replies (t : Z) (a : answer) (w w' : world) : Prop :=
  ∃ x r m buf, hp_mem (w_txns w) !! t = Some x ∧ t_req x = Some r ∧ hp_mem (w_msgs w) !! r = Some m ∧
    response a m buf ∧ w_disp w' = sent buf (t_peer x) (w_disp w).

(** What an event may do to the procedures in flight. *)
Definition follows (e : event) (w w' : world) : Prop :=
  match completion_of e w with
  | Some (t, c) =>
      ∃ r s k o, procs w !! t = Some (r, s, k) ∧ wait_step r s k c o ∧ procs w' = proc_put t o (procs w) ∧
        match o with Answered a => replies t a w w' | Wait _ _ _ => w_disp w' = w_disp w end
  | None =>
      procs w' = procs w ∨
      e = EvPoll ∧ ∃ t cb, procs w !! t = None ∧ procs w' = <[t := (RLookup cb, 0%nat, 0)]> (procs w)
  end.

(** A live request, for the response. *)
Lemma answered_replies t a w w1 w' :
  Own no_amb None [] [] w → same_view w w1 → answered t a w1 w' → replies t a w w'.
Proof.
  intros HO Hv Ha. apply (same_view_answered t a w w1 w' Hv) in Ha as (x&Hx&buf&Hd&Hb).
  assert (t ∈ (conts w).*2) as Ht.
  { pose proof (o_cont _ _ _ _ _ HO) as Hc. cbn in Hc. rewrite app_nil_r in Hc. rewrite Hc. apply live_elem. by eexists. }
  apply list_elem_of_fmap in Ht as ([r t']&->&Hr). destruct (o_role _ _ _ _ _ HO r t' Hr) as (x'&Hx'&[q Hq]&_).
  assert (x' = x) as -> by (cbn in Hx; congruence). cbn in *.
  assert (is_Some (hp_mem (w_msgs w) !! q)) as [m Hm].
  { apply live_elem. rewrite <- (o_req _ _ _ _ _ HO), app_nil_r. cbn [others].
    rewrite (all_refs_delete _ _ _ _ Hx). unfold req_refs at 1. rewrite Hq. by left. }
  exists x, q, m, buf. split; [done|]. split; [done|]. split; [done|]. split; [by eapply Hb|done].
Qed.

Lemma step_follows w e :
  pod_reachable w → is_timeout e = false → ∃ w', pod_step e w = Some (tt, w') ∧ follows e w w'.
Proof.
  intros Hw He. apply pod_reachable_inv in Hw. destruct (pod_step_inv e w He Hw) as (w'&E&Hw').
  exists w'. split; [done|]. unfold follows. destruct Hw as [HO _], Hw' as [HO' _]. pose proof (event_step e w w' He HO E) as H.
  destruct (completion_of e w) as [[t c]|].
  - destruct H as (r&s&w1&Hw&Hr&Hv&Hr'&o&Ho&Hm). exists r, s, (retry_of w t), o.
    assert (∀ e, e ∈ waits w1 ↔ e ∈ waits w ∧ e.1.1 ≠ t) as Hw1.
    { pose proof (waits_nodup w HO) as Hn. rewrite Hw in Hn. cbn in Hn. apply NoDup_cons in Hn as [Hn _].
      intros e'. rewrite Hw, elem_of_cons. split.
      - intros Hin. split; [by right|]. intros Ht. apply Hn. rewrite <- Ht, <- list_fmap_compose.
        by apply (list_elem_of_fmap_2 (fst ∘ fst)).
      - intros [[->|Hin] Hne]; done. }
    assert (∀ u, u ≠ t → retry_of w' u = retry_of w u) as Hr'' by (intros u Hu; by rewrite Hr', Hr).
    split; [apply procs_lookup; [done|split; [rewrite Hw; by left|done]]|]. split; [done|].
    destruct o as [r' s' k'|a]; cbn [proc_put].
    + destruct Hm as (Hm&Hk&Hd). split; [by eapply put_wait|]. rewrite Hd. apply Hv.
    + destruct Hm as [Hm Ha]. split; [by eapply put_answer|by eapply answered_replies].
  - destruct (match e with EvPoll => true | _ => false end) eqn:Ee; [|left; by apply calm_procs].
    destruct H as [H|(t&Hn&Hr&[H|(cb&H&Hk)])]; [left; by apply calm_procs|..];
      destruct (not_waiting w t HO Hn) as [Hp Hin].
    + left. apply procs_eq; [done|]. intros u r s k. rewrite H. rewrite procs_lookup by done.
      split; intros [Hu ->]; (split; [done|]); [|symmetry]; apply Hr; intros ->; by apply Hin in Hu.
    + right. split; [by destruct e|]. exists t, cb. split; [done|]. eapply put_wait; try done.
      intros e'. split; [|by intros [? _]]. intros He'. split; [done|]. intros Ht.
      destruct e' as [[u ?] ?]. cbn in Ht. subst u. by apply Hin in He'.
Qed.

(** C4: the session procedures refine the protocol of Protocol.v, at every
    event of every reachable pod but hard timeouts.  A completion that a
    transaction waits for moves exactly that transaction, by a step that the
    protocol allows for that reply or data-plane result, to its next wait,
    with nothing sent, or to the answer the protocol names: then exactly the
    response to its own request, with that cause (or the cached bytes), goes
    to its own peer.  A poll may start one new transaction at its retransmit
    lookup; nothing else changes any transaction. *)
Theorem procedures_refine_protocol w e :
  pod_reachable w → is_timeout e = false → ∃ w', pod_step e w = Some (tt, w') ∧ follows e w w'.
Proof. apply step_follows. Qed.

(** ** Bounded work *)

(** The longest procedure, a modification: the lookup, three rounds of a read
    and a CAS that needs its script loaded again, the data plane and the
    compensation, again with a script load. *)
Definition MAX_COMPLETIONS : nat := 17.

Lemma start_left cb : (pstate_left (RLookup cb, 0%nat, 0%Z) <= MAX_COMPLETIONS)%nat.
Proof. destruct cb; vm_compute; lia. Qed.

(** The completions of transactions among [es], and the polls. *)
Fixpoint completed (es : list event) (w : world) : nat :=
  match es with
  | [] => 0
  | e :: es' =>
      (match completion_of e w with Some _ => 1 | None => 0 end +
       match pod_step e w with Some (_, w1) => completed es' w1 | None => 0 end)%nat
  end.

Definition is_poll (e : event) : bool := match e with EvPoll => true | _ => false end.

Fixpoint polls (es : list event) : nat :=
  match es with [] => 0 | e :: es' => (if is_poll e then 1 else 0) + polls es' end%nat.

Lemma put_decreases m t r s k c o :
  0 <= k < V_CAS_MAX_RETRY → m !! t = Some (r, s, k) → wait_step r s k c o → (S (work (proc_put t o m)) <= work m)%nat.
Proof.
  intros Hk Hm Hs. destruct (wait_step_decreases r s k c o Hk Hs) as [_ Hlt]. destruct o as [r' s' k'|a]; cbn [proc_put].
  - pose proof (work_insert m t _ (r', s', k') Hm). unfold pstate_left in *. lia.
  - rewrite (work_delete m t _ Hm). unfold pstate_left in *. lia.
Qed.

Lemma reachable_step w e w' : pod_reachable w → is_timeout e = false → pod_step e w = Some (tt, w') → pod_reachable w'.
Proof.
  intros (w0&es&Hs&Hes&Hr) He E. exists w0, (es ++ [e]). split; [done|]. split; [by apply Forall_app; auto|].
  clear Hs. revert w0 Hr. induction es as [|e' es IH]; intros w0 Hr; cbn in *; unfold mbind, SM_bind in *.
  - injection Hr as ->. by rewrite E.
  - apply Forall_cons in Hes as [_ Hes]. destruct (pod_step e' w0) as [[[] w1]|]; [|done]. by apply IH.
Qed.

Lemma reachable_run es : ∀ w w', pod_reachable w → no_timeout es → pod_run es w = Some (tt, w') → pod_reachable w'.
Proof.
  induction es as [|e es IH]; intros w w' Hw Hes Hr; cbn [pod_run] in Hr; [by injection Hr as <-|].
  apply Forall_cons in Hes as [He Hes]. apply bind_Some_inv in Hr as (w1&[]&E&Hr). eapply IH; [|done|done].
  by eapply reachable_step.
Qed.

Lemma procs_dom w : Own no_amb None [] [] w → (∀ t, is_Some (procs w !! t) ↔ is_Some (hp_mem (w_txns w) !! t)).
Proof.
  intros HO t. split.
  - intros [[[r s] k] H]. apply procs_lookup in H as [H _]; [|done]. by apply (wait_ok w t r s HO).
  - intros Ht. pose proof (o_cont _ _ _ _ _ HO) as Hc. cbn in Hc. rewrite app_nil_r in Hc.
    assert (t ∈ (conts w).*2) as Hin by (rewrite Hc; by apply live_elem).
    rewrite <- waits_conts, <- list_fmap_compose in Hin. apply list_elem_of_fmap in Hin as ([[t' r] s]&->&Hin).
    exists (r, s, retry_of w t'). by apply procs_lookup.
Qed.

(** The procedure a command in flight belongs to. *)
Lemma queue_proc w j c r t : Own no_amb None [] [] w → db_queue (w_db w) !! j = Some c → cb_conts (dc_cb c) = [(r, t)] →
  procs w !! t = Some (r, stage (dc_cb c), retry_of w t).
Proof.
  intros HO Hj Hc. apply procs_lookup; [done|]. split; [|done]. unfold waits. apply elem_of_app. left.
  apply list_elem_of_bind. exists c. split; [|by eapply list_elem_of_lookup_2]. unfold cmd_waits. rewrite Hc. by left.
Qed.

(** The completion of a procedure, and the command or operation it came from. *)
Lemma completion_source e w t c : Own no_amb None [] [] w → completion_of e w = Some (t, c) →
  ∃ r s, procs w !! t = Some (r, s, retry_of w t) ∧
    match c with
    | CReply reply => ∃ j cmd, e = EvReply j reply ∧ db_queue (w_db w) !! j = Some cmd ∧
        cb_conts (dc_cb cmd) = [(r, t)] ∧ s = stage (dc_cb cmd)
    | CVdp res => ∃ cb, r = RVdp cb ∧ s = 0%nat
    end.
Proof.
  intros HO. destruct e as [| |j reply|j res| | | | | | |]; try done; cbn [completion_of].
  - destruct (db_queue (w_db w) !! j) as [cmd|] eqn:Ej; [|done].
    pose proof (cb_conts_length (dc_cb cmd)) as Hl. destruct (cb_conts (dc_cb cmd)) as [|[r u] [|]] eqn:Ec; [done| |cbn in Hl; lia].
    intros [= -> <-]. exists r, (stage (dc_cb cmd)). split; [by eapply queue_proc|]. by exists j, cmd.
  - destruct (vdp_queue (w_vdp w) !! j) as [v|] eqn:Ej; [|done]. intros [= <- <-].
    exists (RVdp (vc_cb v)), 0%nat. split; [|by exists (vc_cb v)]. apply procs_lookup; [done|]. split; [|done].
    unfold waits. apply elem_of_app. right. apply list_elem_of_fmap. exists v. split; [done|by eapply list_elem_of_lookup_2].
Qed.

(** ** One request *)

(** The completion an event delivers to [t]. *)
Definition is_completion_of (t : Z) (e : event) (w : world) : option completion :=
  match completion_of e w with Some (u, c) => if decide (u = t) then Some c else None | None => None end.

(** One event, seen from a transaction in flight. *)
Lemma event_of e t p w : pod_reachable w → is_timeout e = false → procs w !! t = Some p →
  ∃ w1, pod_step e w = Some (tt, w1) ∧ pod_reachable w1 ∧
    match is_completion_of t e w with
    | None => procs w1 !! t = Some p
    | Some c => ∃ o, (let '(r, s, k) := p in wait_step r s k c o) ∧
        match o with
        | Wait r s k => procs w1 !! t = Some (r, s, k)
        | Answered a => procs w1 !! t = None ∧ replies t a w w1
        end
    end.
Proof.
  intros Hw He Hp. destruct (step_follows w e Hw He) as (w1&E&Hf). exists w1. split; [done|].
  split; [by eapply reachable_step|]. unfold follows, is_completion_of in *. destruct (completion_of e w) as [[u c]|].
  - destruct Hf as (r&s&k&o&Hu&Hs&Hpr&Ho). destruct (decide (u = t)) as [->|Hne].
    + rewrite Hp in Hu. injection Hu as ->. exists o. split; [done|]. rewrite Hpr. destruct o as [r' s' k'|a]; cbn [proc_put].
      * by rewrite lookup_insert_eq.
      * by rewrite lookup_delete_eq.
    + rewrite Hpr. destruct o as [r' s' k'|a]; cbn [proc_put]; [by rewrite lookup_insert_ne|by rewrite lookup_delete_ne].
  - destruct Hf as [->|(_&u&cb&Hn&->)]; [done|]. rewrite lookup_insert_ne; [done|]. intros ->. congruence.
Qed.

(** The completions [t] receives in a run, until it is answered. *)
Fixpoint delivered (t : Z) (es : list event) (w : world) : nat :=
  match es, procs w !! t with
  | e :: es', Some _ =>
      (match is_completion_of t e w with Some _ => 1 | None => 0 end +
       match pod_step e w with Some (_, w1) => delivered t es' w1 | None => 0 end)%nat
  | _, _ => 0%nat
  end.

(** An event of the run answers [t]: its response leaves, and it waits no more. *)
Definition answered_in (t : Z) (es : list event) (w : world) : Prop :=
  ∃ es1 e es2 w1 w2 a, es = es1 ++ e :: es2 ∧ pod_run es1 w = Some (tt, w1) ∧ is_Some (procs w1 !! t) ∧
    pod_step e w1 = Some (tt, w2) ∧ procs w2 !! t = None ∧ replies t a w1 w2.

Lemma answered_in_later t e es w w1 : pod_step e w = Some (tt, w1) → answered_in t es w1 → answered_in t (e :: es) w.
Proof.
  intros E (es1&e'&es2&w2&w3&a&->&Hr&H). exists (e :: es1), e', es2, w2, w3, a. split; [done|]. split; [|done].
  cbn [pod_run]. unfold mbind, SM_bind. by rewrite E.
Qed.

Lemma proc_retry w t r s k : pod_reachable w → procs w !! t = Some (r, s, k) → 0 <= k < V_CAS_MAX_RETRY.
Proof.
  intros [HO _]%pod_reachable_inv Hp. apply procs_lookup in Hp as [Hin ->]; [|done]. by apply (wait_ok w t r s HO Hin).
Qed.

Lemma proc_left w t p : pod_reachable w → procs w !! t = Some p → (1 <= pstate_left p)%nat.
Proof.
  destruct p as [[r s] k]. intros Hw Hk%(proc_retry _ _ _ _ _ Hw). pose proof (base_left_pos r k ltac:(lia)). cbn. lia.
Qed.

(** The completions a transaction receives come out of the work left in it. *)
Lemma delivered_left es : ∀ w w' t p, pod_reachable w → no_timeout es → pod_run es w = Some (tt, w') → procs w !! t = Some p →
  (∃ p', procs w' !! t = Some p' ∧ (delivered t es w + pstate_left p' <= pstate_left p)%nat) ∨
  answered_in t es w ∧ (delivered t es w <= pstate_left p)%nat.
Proof.
  induction es as [|e es IH]; intros w w' t p Hw Hes Hr Hp; cbn [pod_run delivered] in *.
  { injection Hr as <-. left. exists p. split; [done|lia]. }
  rewrite Hp.
  apply Forall_cons in Hes as [He Hes]. destruct (event_of e t p w Hw He Hp) as (w1&E&Hw1&Hev).
  apply bind_Some_inv in Hr as (w1'&[]&E'&Hr). assert (w1' = w1) as -> by congruence. rewrite E. clear E'.
  (* the rest of the run, once [t] waits in [p1] *)
  assert (∀ p1, procs w1 !! t = Some p1 → ∀ n, (n + pstate_left p1 <= pstate_left p)%nat →
    (∃ p', procs w' !! t = Some p' ∧ (n + delivered t es w1 + pstate_left p' <= pstate_left p)%nat) ∨
    answered_in t (e :: es) w ∧ (n + delivered t es w1 <= pstate_left p)%nat) as Hrest.
  { intros p1 Hp1 n Hn. destruct (IH w1 w' t p1 Hw1 Hes Hr Hp1) as [(p'&Hp'&Hb)|[Ha Hb]].
    - left. exists p'. split; [done|lia].
    - right. split; [by eapply answered_in_later|lia]. }
  destruct (is_completion_of t e w) as [c|]; [|by apply (Hrest p)].
  destruct p as [[r s] k]. destruct Hev as (o&Hs&Ho).
  destruct (wait_step_decreases r s k c o (proc_retry w t r s k Hw Hp) Hs) as [_ Hlt].
  destruct o as [r' s' k'|a]; [apply (Hrest _ Ho); unfold pstate_left; lia|]. destruct Ho as [Hn Hrep]. right. split.
  - exists [], e, es, w, w1, a. split; [done|]. split; [done|]. split; [by eexists|]. done.
  - destruct es; cbn [delivered]; rewrite ?Hn; cbn in *; lia.
Qed.

(** The bound of each procedure: lookup, write with a script load, data plane
    and confirmation; lookup, three rounds, data plane and compensation;
    lookup and three rounds. *)
Definition request_bound (cb : v_retrans_cb_t) : nat :=
  match cb with
  | fp_retrans_lookup_cb => 6
  | fp_mod_retrans_lookup_cb => 17
  | fp_del_retrans_lookup_cb => 16
  end.

Lemma request_left cb : pstate_left (RLookup cb, 0%nat, 0%Z) = request_bound cb.
Proof. by destruct cb. Qed.

(** Whatever is live waits for something in flight. *)
Lemma live_has_completion w t : pod_reachable w → is_Some (hp_mem (w_txns w) !! t) → ∃ e c, completion_of e w = Some (t, c).
Proof.
  intros [HO _]%pod_reachable_inv Ht.
  apply (procs_dom w HO) in Ht as [[[r s] k] Hp]. apply procs_lookup in Hp as [Hin%wait_role _]; [|done].
  unfold conts in Hin. apply elem_of_app in Hin as [Hin|Hin].
  - apply list_elem_of_bind in Hin as (cmd&Hcmd&Hin). apply list_elem_of_lookup in Hin as [i Hi].
    exists (EvReply i None), (CReply None). cbn. rewrite Hi. pose proof (cb_conts_length (dc_cb cmd)).
    destruct (cb_conts (dc_cb cmd)) as [|[r' t'] [|]]; cbn in *; [by apply not_elem_of_nil in Hcmd| |lia].
    apply list_elem_of_singleton in Hcmd as [= -> ->]. done.
  - apply list_elem_of_fmap in Hin as (v&[= -> ->]&Hin). apply list_elem_of_lookup in Hin as [i Hi].
    exists (EvVdp i V_VDP_ACCEPT), (CVdp V_VDP_ACCEPT). cbn. by rewrite Hi.
Qed.

(** No work left, no transaction left. *)
Lemma no_work w : pod_reachable w → work (procs w) = 0%nat → hp_mem (w_txns w) = ∅.
Proof.
  intros Hw Hz. apply map_empty. intros t. destruct (hp_mem (w_txns w) !! t) as [x|] eqn:Ex; [|done].
  destruct (proj2 (procs_dom w (proj1 (pod_reachable_inv w Hw)) t) ltac:(by eexists)) as [p Hp].
  rewrite (work_delete _ t _ Hp) in Hz. pose proof (proc_left w t p Hw Hp). lia.
Qed.

(** The completions of all transactions come out of the work of all. *)
Lemma completed_work es : ∀ w w', pod_reachable w → no_timeout es → pod_run es w = Some (tt, w') →
  (completed es w + work (procs w') <= work (procs w) + MAX_COMPLETIONS * polls es)%nat.
Proof.
  induction es as [|e es IH]; intros w w' Hw Hes Hr; cbn [pod_run completed] in *.
  { injection Hr as <-. cbn. lia. }
  apply Forall_cons in Hes as [He Hes]. destruct (step_follows w e Hw He) as (w1&E&Hcase).
  apply bind_Some_inv in Hr as (w1'&[]&E'&Hr). assert (w1' = w1) as -> by congruence. rewrite E.
  pose proof (IH w1 w' (reachable_step w e w1 Hw He E) Hes Hr) as Hb.
  unfold follows in Hcase. cbn [polls]. destruct (completion_of e w) as [[t c]|].
  - destruct Hcase as (r&s&k&o&Hp&Hs&Hpr&_).
    pose proof (put_decreases _ _ _ _ _ _ _ (proc_retry _ _ _ _ _ Hw Hp) Hp Hs). rewrite <- Hpr in *. destruct (is_poll e); lia.
  - destruct Hcase as [Hpr|(->&t&cb&Hn&Hpr)]; rewrite Hpr in *.
    + destruct (is_poll e); lia.
    + rewrite work_insert_new in Hb by done. pose proof (start_left cb). cbn [is_poll]. lia.
Qed.

(** C8: every request is answered after a bounded number of completions of its
    own.  Follow a transaction from its retransmit lookup through any run,
    whatever completes and whatever other requests do in between: it receives
    at most six completions as an establishment, seventeen as a modification,
    sixteen as a deletion; either it still waits at the end, having received
    fewer than that, or an event of the run answered it.  It is never
    stranded: as long as a transaction is live, a command or data-plane
    operation that completes it is in flight.  And over all transactions the
    completions delivered number at most the work left in the procedures in
    flight at the start plus seventeen for each poll; when no work is left no
    transaction is live. *)
Theorem procedures_terminate es w w' :
  pod_reachable w → no_timeout es → pod_run es w = Some (tt, w') →
  (∀ t cb, procs w !! t = Some (RLookup cb, 0%nat, 0) →
     (delivered t es w <= request_bound cb)%nat ∧
     (is_Some (procs w' !! t) ∧ (delivered t es w < request_bound cb)%nat ∨ answered_in t es w)) ∧
  (∀ t, is_Some (hp_mem (w_txns w') !! t) → ∃ e c, completion_of e w' = Some (t, c)) ∧
  (completed es w + work (procs w') <= work (procs w) + MAX_COMPLETIONS * polls es)%nat ∧
  (work (procs w') = 0%nat → hp_mem (w_txns w') = ∅).
Proof.
  intros Hw Hes Hr. pose proof (reachable_run es w w' Hw Hes Hr) as Hw'. split; [|split; [|split]].
  - intros t cb Hp. rewrite <- request_left.
    destruct (delivered_left es w w' t _ Hw Hes Hr Hp) as [(p'&Hp'&Hb)|[Ha Hb]]; [|by split; [|right]].
    pose proof (proc_left w' t p' Hw' Hp'). split; [lia|]. left. split; [by eexists|lia].
  - intros t. by apply live_has_completion.
  - by apply completed_work.
  - by apply no_work.
Qed.

End refine.
