(* ===== verification/Arrival.v ===== *)
(** What becomes of a received datagram: the first event of every request, as
    a function of its bytes and of the resources the pod has left. *)
From S2P Require Import Prelude Seid Dpdk Heap Redis World DbScript SessStore RetransCache IdAlloc.
From S2P Require Import DispatchQ NodeState Flow Sweeper Pod Pools Own OwnPod Safety SessCas Protocol Progress Procedures ProtocolRefine.

Section arrival.
Context {DP : Dpdk} {PP : PfcpPort}.

(** ** Routing *)

(** A datagram is ignored, refused for its session, or starts a request on a
    session to be created ([None]) or on the partition and SEID it names. *)
Inductive route_t :=
  | Ignore
  | Refuse (q : pfcp_msg)
  | Begin (q : pfcp_msg) (cb : v_retrans_cb_t) (target : option (Z * Z)).

Definition route_existing (q : pfcp_msg) (cb : v_retrans_cb_t) : route_t :=
  let seid := v_port_pfcp_hdr_seid q in
  match v_seid_validate seid with Some part => Begin q cb (Some (part, seid)) | None => Refuse q end.

Definition route (buf : bytes) : route_t :=
  match v_port_pfcp_decode buf with
  | None => Ignore
  | Some q =>
      let type := v_port_pfcp_msg_type q in
      if type =? V_PFCP_MSG_SESSION_EST_REQ then Begin q fp_retrans_lookup_cb None
      else if type =? V_PFCP_MSG_SESSION_MOD_REQ then route_existing q fp_mod_retrans_lookup_cb
      else if type =? V_PFCP_MSG_SESSION_DEL_REQ then route_existing q fp_del_retrans_lookup_cb
      else Ignore
  end.

(** The key under which the response to [q] is remembered. *)
Definition request_key (q : pfcp_msg) : bytes :=
  retrans_key (v_retrans_part (v_port_pfcp_smf_fseid q)) (v_port_pfcp_smf_fseid q) (v_port_pfcp_seq q).

(** ** Resources *)

Definition left_in (p : rte_mempool) : bool := negb (bool_decide (mp_free p = [])).

Definition cmd_room (shard : Z) (w : world) : bool :=
  db_connected (w_db w) shard && left_in (db_pending_pool (w_db w)) && db_accept (w_db w) (db_issue_no (w_db w)).

Definition retrans_room (w : world) : bool :=
  match w_retrans_pool w with
  | Some p => left_in p
  | None => match rte_mempool_create V_RETRANS_PENDING_POOL_CAP with Some _ => true | None => false end
  end.

(** A request object, a transaction, and the retransmit lookup. *)
Definition msg_room (w : world) : bool := left_in (hp_pool (w_msgs w)).
Definition begin_room (q : pfcp_msg) (w : world) : bool :=
  left_in (hp_pool (w_txns w)) && retrans_room w && cmd_room (v_port_db_shard_of (request_key q)) w.

Lemma left_get p : left_in p = true → ∃ o p', rte_mempool_get p = Some (o, p').
Proof.
  intros H. destruct (rte_mempool_get p) as [[o p']|] eqn:E; [by exists o, p'|]. apply mp_get_none in E.
  unfold left_in in H. by rewrite E in H.
Qed.

Lemma none_left p : left_in p = false → rte_mempool_get p = None.
Proof. unfold left_in. intros H%negb_false_iff%bool_decide_eq_true. by apply mp_get_none. Qed.

Lemma cmd_result shard cb argv w rc w' :
  0 <= shard < V_STUB_DB_SHARDS → v_port_db_cmd_argv shard cb argv w = Some (rc, w') →
  rc = (if cmd_room shard w then RET_CODE_OK else RET_CODE_ERR) ∧
  (∃ d, w' = set_db d w) ∧
  if cmd_room shard w then ∃ o, db_queue (w_db w') = db_queue (w_db w) ++ [DbCmd shard argv cb o]
  else db_queue (w_db w') = db_queue (w_db w).
Proof.
  intros Hs. unfold v_port_db_cmd_argv, cmd_room. rewrite (proj2 (Z.leb_gt _ _) (proj2 Hs)). cbn [orb].
  destruct (db_connected (w_db w) shard); cbn [negb andb].
  2: { intros [= <- <-]. split; [done|]. split; [|done]. exists (w_db w). by destruct w. }
  destruct (left_in (db_pending_pool (w_db w))) eqn:El; cbn [andb].
  2: { rewrite none_left by done. intros [= <- <-]. split; [done|]. split; [|done]. exists (w_db w). by destruct w. }
  destruct (left_get _ El) as (o&p&->). destruct (db_accept _ _); intros [= <- <-].
  - split; [done|]. split; [by eexists|by exists o].
  - split; [done|]. by split; [eexists|].
Qed.

(** ** The retransmit lookup *)

(** What the operations of an arrival leave alone. *)
Definition aside (w w' : world) : Prop :=
  w_disp w' = w_disp w ∧ w_txns w' = w_txns w ∧ w_msgs w' = w_msgs w ∧ vdp_queue (w_vdp w') = vdp_queue (w_vdp w).

Lemma retrans_entry w :
  if retrans_room w then
    ∃ o p, (rc ← retrans_ensure_pool; if negb (rc =? RET_CODE_OK) then mret None else retrans_pending_get) w =
      Some (Some o, set_retrans_pool (Some p) w)
  else ∃ w', (rc ← retrans_ensure_pool; if negb (rc =? RET_CODE_OK) then mret None else retrans_pending_get) w = Some (None, w') ∧
    aside w w' ∧ w_db w' = w_db w.
Proof.
  unfold retrans_room, mbind, SM_bind, retrans_ensure_pool. destruct (w_retrans_pool w) as [p|] eqn:Ep; cbn.
  - unfold retrans_pending_get. rewrite Ep. destruct (left_in p) eqn:El.
    + destruct (left_get _ El) as (o&p'&->). by exists o, p'.
    + rewrite none_left by done. by exists w.
  - destruct (rte_mempool_create _) as [p|] eqn:Ec; cbn; [|by exists w]. unfold retrans_pending_get. cbn.
    assert (left_in p = true) as El.
    { apply mp_create_law in Ec as [_ Hn]. unfold left_in. apply negb_true_iff, bool_decide_eq_false. intros Hp. by rewrite Hp in Hn. }
    destruct (left_get _ El) as (o&p'&->). exists o, p'. done.
Qed.

Lemma lookup_result part smf seq cb t w rc w' :
  let key := retrans_key part smf seq in let room := retrans_room w && cmd_room (v_port_db_shard_of key) w in
  v_retrans_lookup part smf seq cb (Some t) w = Some (rc, w') →
  rc = (if room then RET_CODE_OK else RET_CODE_ERR) ∧ aside w w' ∧
  if room then ∃ o p, db_queue (w_db w') = db_queue (w_db w) ++ [DbCmd (v_port_db_shard_of key) [$"GET"; key] (fp_lookup_reply_cb (RetransPending p cb (Some t))) o]
  else db_queue (w_db w') = db_queue (w_db w).
Proof.
  intros key room E. assert (v_retrans_lookup part smf seq cb (Some t) w =
    (o ← (rc ← retrans_ensure_pool; if negb (rc =? RET_CODE_OK) then mret None else retrans_pending_get);
     match o with
     | None => mret RET_CODE_ERR
     | Some obj =>
         rc ← v_port_db_cmd (v_port_db_shard_of key) (fp_lookup_reply_cb (RetransPending obj cb (Some t))) [$"GET"; key];
         if negb (rc =? RET_CODE_OK) then _ ← retrans_pending_put obj; mret RET_CODE_ERR else mret RET_CODE_OK
     end) w) as Heq.
  { unfold v_retrans_lookup, mbind, SM_bind. destruct (retrans_ensure_pool w) as [[rc1 w1]|]; [|done]. by destruct (rc1 =? RET_CODE_OK). }
  rewrite Heq in E. clear Heq. apply bind_Some_inv in E as (w1&o&E1&E2). pose proof (retrans_entry w) as He. unfold room.
  destruct (retrans_room w); cbn [andb].
  - destruct He as (obj&p&He). rewrite He in E1. injection E1 as <- <-. apply bind_Some_inv in E2 as (w2&rc1&E2&E3).
    apply cmd_result in E2 as (->&[d ->]&Hq); [|apply shard_of_range].
    change (cmd_room (v_port_db_shard_of key) (set_retrans_pool (Some p) w)) with (cmd_room (v_port_db_shard_of key) w) in *.
    destruct (cmd_room _ w); cbn in E3.
    + injection E3 as <- <-. split; [done|]. split; [done|]. destruct Hq as [c Hq]. by exists c, obj.
    + injection E3 as <- <-. done.
  - destruct He as (w2&He&Ha&Hd). rewrite He in E1. injection E1 as <- <-. injection E2 as <- <-.
    split; [done|]. split; [done|]. by rewrite Hd.
Qed.

(** ** The common start of the three procedures *)

(** [t] is a transaction for [q] from [peer], and its lookup is in flight. *)
Definition looks_up (t req : Z) (q : pfcp_msg) (cb : v_retrans_cb_t) (target : option (Z * Z)) (peer : sockaddr) (w w' : world) : Prop :=
  (∃ y, hp_mem (w_txns w') !! t = Some y ∧ t_state y = TXN_ST_RECV ∧ t_req y = Some req ∧ t_peer y = peer ∧
    match target with Some (part, seid) => t_part_id y = part ∧ t_seid y = seid | None => True end) ∧
  hp_mem (w_msgs w') !! req = Some q ∧
  ∃ o p, db_queue (w_db w') = db_queue (w_db w) ++ [DbCmd (v_port_db_shard_of (request_key q)) [$"GET"; request_key q]
    (fp_lookup_reply_cb (RetransPending p cb (Some t))) o].

Definition quiet (w w' : world) : Prop :=
  db_queue (w_db w') = db_queue (w_db w) ∧ vdp_queue (w_vdp w') = vdp_queue (w_vdp w).

Lemma drop_quiet t w a w' : drop_request t w = Some (a, w') → quiet w w' ∧ w_disp w' = w_disp w.
Proof.
  intros (w1&x&E1&(w2&[]&E2&(w3&[]&E3&E4)%bind_Some_inv)%bind_Some_inv)%bind_Some_inv.
  unfold txn_get in E1. destruct (heap_get _ _); [|done]. injection E1 as <- <-.
  assert (quiet w w2 ∧ w_disp w2 = w_disp w) as [Hq2 Hd2].
  { destruct (t_req v) as [r|]; [|by injection E2 as <-]. unfold v_port_pfcp_msg_free in E2. by destruct (heap_get _ _); injection E2 as <-. }
  unfold txn_upd in E3. destruct (heap_get _ _); [|done]. injection E3 as <-.
  unfold v_port_txn_destroy in E4. by destruct (heap_get _ _); injection E4 as _ <-.
Qed.

Lemma start_result req peer init cb target q w a w' :
  heap_wf (w_txns w) → hp_mem (w_msgs w) !! req = Some q →
  (∀ x, t_req (init x) = t_req x ∧ t_peer (init x) = t_peer x) →
  (∀ x, match target with Some (part, seid) => t_part_id (init x) = part ∧ t_seid (init x) = seid | None => True end) →
  start_txn req peer init cb w = Some (a, w') →
  w_disp w' = w_disp w ∧ vdp_queue (w_vdp w') = vdp_queue (w_vdp w) ∧
  if begin_room q w then ∃ t, hp_mem (w_txns w) !! t = None ∧ looks_up t req q cb target peer w w'
  else db_queue (w_db w') = db_queue (w_db w).
Proof.
  intros Hwf Hq Hi Ht. unfold start_txn. intros (w1&m&E1&(w2&o&E2&E3)%bind_Some_inv)%bind_Some_inv.
  unfold msg_get, heap_get in E1. rewrite Hq in E1. injection E1 as <- <-. unfold v_port_txn_create in E2. unfold begin_room.
  destruct (heap_alloc txn_zero (w_txns w)) as [[t h]|] eqn:Ea.
  2: { injection E2 as <- <-. unfold heap_alloc in Ea. destruct (left_in _) eqn:El.
       { destruct (left_get _ El) as (?&?&Hg). rewrite Hg in Ea. done. }
       unfold v_port_pfcp_msg_free in E3. by destruct (heap_get _ _); injection E3 as _ <-. }
  assert (left_in (hp_pool (w_txns w)) = true) as ->.
  { destruct (left_in _) eqn:El; [done|]. unfold heap_alloc in Ea. by rewrite none_left in Ea. }
  injection E2 as <- <-. destruct (live_alloc _ _ _ _ Hwf Ea) as (_&_&Hm&Hn).
  apply bind_Some_inv in E3 as (w3&[]&E3&(w4&rc&E4&E5)%bind_Some_inv).
  unfold txn_upd, heap_get in E3. cbn in E3. rewrite Hm, lookup_insert_eq in E3. injection E3 as <-.
  apply lookup_result in E4 as (->&(Hd&Htx&Hms&Hv)&Hcmd). fold (request_key q) in *.
  match type of Hcmd with if retrans_room ?w1 && cmd_room ?s ?w1 then _ else _ =>
    change (retrans_room w1) with (retrans_room w) in *; change (cmd_room s w1) with (cmd_room s w) in * end.
  cbn [andb]. destruct (retrans_room w && cmd_room _ w); cbn in E5.
  - injection E5 as _ <-. split; [done|]. split; [done|]. exists t. split; [done|]. split.
    + eexists. rewrite Htx. cbn. split; [apply lookup_insert_eq|]. cbn. rewrite (proj1 (Hi _)), (proj2 (Hi _)). 
      split; [done|]. split; [done|]. split; [done|]. apply (Ht (txn_set_peer peer (txn_set_req (Some req) txn_zero))).
    + split; [by rewrite Hms|]. destruct Hcmd as (o&p&Hcmd). by exists o, p.
  - apply drop_quiet in E5 as [[H1 H2] H3]. split; [by rewrite H3, Hd|]. split; [by rewrite H2, Hv|]. by rewrite H1, Hcmd.
Qed.

(** ** v_flow_handle_msg *)

(** What handling [x] leaves behind. *)
Definition handled (x : v_dispatch_msg) (w w' : world) : Prop :=
  vdp_queue (w_vdp w') = vdp_queue (w_vdp w) ∧
  match route (m_buf x) with
  | Ignore => w_disp w' = w_disp w ∧ db_queue (w_db w') = db_queue (w_db w)
  | Refuse q =>
      db_queue (w_db w') = db_queue (w_db w) ∧
      w_disp w' = if msg_room w then sent (v_port_pfcp_encode_rsp q None V_PFCP_CAUSE_SESSION_CTX_NOT_FOUND RSP_BUF_BYTES) (m_peer x) (w_disp w)
                  else w_disp w
  | Begin q cb target =>
      w_disp w' = w_disp w ∧
      if msg_room w && begin_room q w then ∃ t req, hp_mem (w_txns w) !! t = None ∧ looks_up t req q cb target (m_peer x) w w'
      else db_queue (w_db w') = db_queue (w_db w)
  end.

Lemma msg_free_quiet r w a w' : v_port_pfcp_msg_free r w = Some (a, w') → quiet w w' ∧ w_disp w' = w_disp w.
Proof. unfold v_port_pfcp_msg_free. by destruct (heap_get _ _); intros [= _ <-]. Qed.

Lemma refuse_result req q peer w a w' :
  hp_mem (w_msgs w) !! req = Some q → reply_ctx_not_found req peer w = Some (a, w') →
  quiet w w' ∧ w_disp w' = sent (v_port_pfcp_encode_rsp q None V_PFCP_CAUSE_SESSION_CTX_NOT_FOUND RSP_BUF_BYTES) peer (w_disp w).
Proof.
  intros Hq (w1&m&E1&(w2&[]&E2&E3)%bind_Some_inv)%bind_Some_inv.
  unfold msg_get, heap_get in E1. rewrite Hq in E1. injection E1 as <- <-. apply msg_free_quiet in E3 as [[H1 H2] H3].
  assert (quiet w w2 ∧ w_disp w2 = sent (v_port_pfcp_encode_rsp q None V_PFCP_CAUSE_SESSION_CTX_NOT_FOUND RSP_BUF_BYTES) peer (w_disp w)) as [[H4 H5] H6].
  { destruct (v_port_pfcp_encode_rsp _ _ _ _) as [buf|]; [|by injection E2 as <-].
    apply bind_Some_inv in E2 as (w3&rc&E2&[= <-]). unfold v_dispatch_tx_enqueue in E2. unfold sent.
    destruct (dispatch_tx_enqueue _ _ _) as [rc' d]. by injection E2 as _ <-. }
  split; [split; congruence|congruence].
Qed.

(** Starting a request once its object is there. *)
Lemma begin_handled req peer init cb target q w0 w w' :
  heap_wf (w_txns w) → hp_mem (w_msgs w) !! req = Some q → w = set_msgs (w_msgs w) w0 →
  (∀ x, t_req (init x) = t_req x ∧ t_peer (init x) = t_peer x) →
  (∀ x, match target with Some (part, seid) => t_part_id (init x) = part ∧ t_seid (init x) = seid | None => True end) →
  start_txn req peer init cb w = Some (tt, w') →
  vdp_queue (w_vdp w') = vdp_queue (w_vdp w0) ∧ w_disp w' = w_disp w0 ∧
  if begin_room q w0 then ∃ t req, hp_mem (w_txns w0) !! t = None ∧ looks_up t req q cb target peer w0 w'
  else db_queue (w_db w') = db_queue (w_db w0).
Proof.
  intros Hwf Hq Hw Hi Ht E. destruct (start_result _ _ _ _ target _ _ _ _ Hwf Hq Hi Ht E) as (Hd&Hv&Hb).
  rewrite Hw in Hd, Hv, Hb. cbn in Hd, Hv. split; [done|]. split; [done|].
  change (begin_room q (set_msgs (w_msgs w) w0)) with (begin_room q w0) in Hb.
  destruct (begin_room q w0); [|done]. destruct Hb as (t&Ht0&Hl). by exists t, req.
Qed.

Lemma handle_result x w w' :
  heap_wf (w_txns w) → heap_wf (w_msgs w) → v_flow_handle_msg x w = Some (tt, w') → handled x w w'.
Proof.
  intros Hwt Hwm (w1&o&E1&E2)%bind_Some_inv. unfold pfcp_decode in E1. unfold handled, route.
  destruct (v_port_pfcp_decode (m_buf x)) as [q|]; [|by injection E1 as <- <-; injection E2 as <-].
  destruct (heap_alloc q (w_msgs w)) as [[req h]|] eqn:Ea.
  2: { assert (msg_room w = false) as Hr.
       { unfold heap_alloc in Ea. unfold msg_room. destruct (left_in _) eqn:El; [|done]. destruct (left_get _ El) as (?&?&Hg). by rewrite Hg in Ea. }
       injection E1 as <- <-. injection E2 as <-. rewrite Hr. unfold route_existing.
       by repeat case_match. }
  assert (msg_room w = true) as Hr.
  { unfold heap_alloc in Ea. unfold msg_room. destruct (left_in _) eqn:El; [done|]. by rewrite none_left in Ea. }
  injection E1 as <- <-. destruct (live_alloc _ _ _ _ Hwm Ea) as (_&_&Hm&_). rewrite Hr. cbn [andb].
  set (w1 := set_msgs h w) in *. assert (hp_mem (w_msgs w1) !! req = Some q) as Hq by (cbn; rewrite Hm; apply lookup_insert_eq).
  apply bind_Some_inv in E2 as (w2&m&E2&E3). unfold msg_get, heap_get in E2. rewrite Hq in E2. injection E2 as <- <-.
  assert (∀ cb, handle_existing req (m_peer x) cb w1 = Some (tt, w') →
    vdp_queue (w_vdp w') = vdp_queue (w_vdp w) ∧
    match route_existing q cb with
    | Ignore => w_disp w' = w_disp w ∧ db_queue (w_db w') = db_queue (w_db w)
    | Refuse q => db_queue (w_db w') = db_queue (w_db w) ∧
        w_disp w' = sent (v_port_pfcp_encode_rsp q None V_PFCP_CAUSE_SESSION_CTX_NOT_FOUND RSP_BUF_BYTES) (m_peer x) (w_disp w)
    | Begin q cb target => w_disp w' = w_disp w ∧
        if begin_room q w then ∃ t req, hp_mem (w_txns w) !! t = None ∧ looks_up t req q cb target (m_peer x) w w'
        else db_queue (w_db w') = db_queue (w_db w)
    end) as He.
  { intros cb (w2&m&E4&E5)%bind_Some_inv. unfold msg_get, heap_get in E4. rewrite Hq in E4. injection E4 as <- <-.
    unfold route_existing. cbn zeta in E5. destruct (v_seid_validate _) as [part|].
    - eapply (begin_handled req (m_peer x) _ cb (Some (part, v_port_pfcp_hdr_seid q)) q w w1), E5; try done.
    - apply (refuse_result _ _ _ _ _ _ Hq) in E5 as [[H1 H2] H3]. split; [exact H2|]. split; [exact H1|exact H3]. }
  cbn zeta in E3. destruct (_ =? V_PFCP_MSG_SESSION_EST_REQ).
  { by eapply (begin_handled req (m_peer x) id _ None q w w1), E3. }
  destruct (_ =? V_PFCP_MSG_SESSION_MOD_REQ); [by apply He|]. destruct (_ =? V_PFCP_MSG_SESSION_DEL_REQ); [by apply He|].
  apply msg_free_quiet in E3 as [[H1 H2] H3]. split; [exact H2|]. split; [exact H3|exact H1].
Qed.

(** ** The poll *)

Definition released (m : Z) (d : dispatch) : dispatch := Dispatch (g_rx_ring d) (g_tx_ring d) (heap_free m (g_msg_pool d)).

(** A poll that finds [x] in buffer [m]: handle it, release the buffer. *)
Lemma poll_result w m r x w' :
  rte_ring_dequeue (g_rx_ring (w_disp w)) = Some (m, r) → heap_get (g_msg_pool (w_disp w)) m = Some x →
  pod_step EvPoll w = Some (tt, w') →
  ∃ w2, v_flow_handle_msg x (set_disp (Dispatch r (g_tx_ring (w_disp w)) (g_msg_pool (w_disp w))) w) = Some (tt, w2) ∧
    w' = set_disp (released m (w_disp w2)) w2.
Proof.
  intros Hr Hx (w1&n&E&[= <-])%bind_Some_inv. cbn [v_dispatch_worker_poll] in E.
  apply bind_Some_inv in E as (w2&o&E1&E2). unfold rx_dequeue in E1. rewrite Hr in E1. injection E1 as <- <-.
  apply bind_Some_inv in E2 as (w3&y&E3&(w4&[]&E4&(w5&[]&E5&(w6&k&[= <- <-]&[= _ <-])%bind_Some_inv)%bind_Some_inv)%bind_Some_inv).
  unfold dispatch_msg_get in E3. cbn in E3. rewrite Hx in E3. injection E3 as <- <-. exists w4. split; [exact E4|].
  by injection E5 as <-.
Qed.

Lemma same_queues_waits w w' : quiet w w' → waits w' = waits w.
Proof. intros [Hq Hv]. unfold waits. by rewrite Hq, Hv. Qed.

(** At a poll, the queues show which procedure began. *)
Lemma poll_procs w w' :
  Own no_amb None [] [] w → Own no_amb None [] [] w' → follows EvPoll w w' →
  (quiet w w' → procs w' = procs w) ∧
  (∀ t cb, hp_mem (w_txns w) !! t = None → (t, RLookup cb, 0%nat) ∈ waits w' →
     procs w !! t = None ∧ procs w' = <[t := (RLookup cb, 0%nat, 0)]> (procs w)).
Proof.
  intros HO HO' Hf. unfold follows in Hf. cbn in Hf. split.
  - intros Hq%same_queues_waits. destruct Hf as [|(_&t&cb&Hn&Hp)]; [done|].
    assert (procs w' !! t = Some (RLookup cb, 0%nat, 0)) as Hin by by rewrite Hp, lookup_insert_eq.
    apply procs_lookup in Hin as [Hin _]; [|done].
    rewrite Hq in Hin. assert (procs w !! t = Some (RLookup cb, 0%nat, retry_of w t)) by by apply procs_lookup. congruence.
  - intros t cb Hn Hin. destruct (not_waiting w t HO Hn) as [Hp _]. split; [done|].
    assert (procs w' !! t = Some (RLookup cb, 0%nat, retry_of w' t)) as Hp' by by apply procs_lookup.
    destruct Hf as [Hf|(_&u&cb'&_&Hf)]; rewrite Hf in Hp'; [congruence|].
    destruct (decide (u = t)) as [->|Hne]; [|rewrite lookup_insert_ne in Hp' by done; congruence].
    rewrite lookup_insert_eq in Hp'. injection Hp' as -> _. exact Hf.
Qed.

Lemma looks_up_waits t req q cb target peer w w' : looks_up t req q cb target peer w w' → (t, RLookup cb, 0%nat) ∈ waits w'.
Proof.
  intros (_&_&o&p&Hq). unfold waits. rewrite Hq, bind_app, !elem_of_app. left. right. cbn. by left.
Qed.

(** What becomes of the datagram [x] in buffer [m], [r] being the ring
    without it. *)
Definition dispatched (m : Z) (r : rte_ring) (x : v_dispatch_msg) (w w' : world) : Prop :=
  let d := Dispatch r (g_tx_ring (w_disp w)) (g_msg_pool (w_disp w)) in
  match route (m_buf x) with
  | Ignore => procs w' = procs w ∧ w_disp w' = released m d
  | Refuse q => procs w' = procs w ∧
      w_disp w' = released m (if msg_room w
        then sent (v_port_pfcp_encode_rsp q None V_PFCP_CAUSE_SESSION_CTX_NOT_FOUND RSP_BUF_BYTES) (m_peer x) d else d)
  | Begin q cb target => w_disp w' = released m d ∧
      if msg_room w && begin_room q w
      then ∃ t req, procs w !! t = None ∧ procs w' = <[t := (RLookup cb, 0%nat, 0)]> (procs w) ∧
        looks_up t req q cb target (m_peer x) w w'
      else procs w' = procs w
  end.

Lemma poll_dispatches w m r x :
  pod_reachable w → rte_ring_dequeue (g_rx_ring (w_disp w)) = Some (m, r) → heap_get (g_msg_pool (w_disp w)) m = Some x →
  ∃ w', pod_step EvPoll w = Some (tt, w') ∧ dispatched m r x w w'.
Proof.
  intros Hw Hr Hx. unfold dispatched. set (d := Dispatch r _ _). cbn zeta. destruct (step_follows w EvPoll Hw eq_refl) as (w'&E&Hf). exists w'. split; [done|].
  pose proof (proj1 (pod_reachable_inv w Hw)) as HO.
  pose proof (proj1 (pod_reachable_inv w' (reachable_step w EvPoll w' Hw eq_refl E))) as HO'.
  destruct (poll_procs w w' HO HO' Hf) as [Hsame Hnew].
  destruct (poll_result w m r x w' Hr Hx E) as (w2&E2&->). fold d in E2.
  destruct (handle_result x (set_disp d w) w2 (o_txns _ _ _ _ _ HO) (o_msgs _ _ _ _ _ HO) E2) as [Hv Hh].
  cbn [w_disp set_disp] in *. destruct (route (m_buf x)) as [|q|q cb target].
  - destruct Hh as [Hd Hq]. split; [by apply Hsame|by rewrite Hd].
  - destruct Hh as [Hq Hd]. split; [by apply Hsame|by rewrite Hd].
  - destruct Hh as [Hd Hq]. split; [by rewrite Hd|].
    change (msg_room (set_disp d w) && begin_room q (set_disp d w)) with (msg_room w && begin_room q w) in Hq.
    destruct (msg_room w && begin_room q w); [|by apply Hsame].
    destruct Hq as (t&req&Ht&Hl). exists t, req.
    destruct (Hnew t cb Ht) as [H1 H2]; [by eapply (looks_up_waits t req q cb target (m_peer x) w)|]. done.
Qed.

(** C10: what a received datagram does.  At a poll that takes the datagram [x],
    the process does not fail, and it depends on the datagram alone what
    happens: one that does not decode, or is no session request, is ignored;
    a modification or deletion whose SEID is malformed is answered "session
    context not found" at once; any other one begins exactly one transaction,
    with its peer, its request and, for a modification or deletion, the
    partition and the SEID it names, and sends the lookup of the response
    remembered under its own key to that key's shard.  A request is dropped,
    without a trace, exactly when one of the resources listed in [msg_room]
    and [begin_room] is exhausted.  The buffer is released in every case. *)
Theorem datagram_dispatch w m r x :
  pod_reachable w → rte_ring_dequeue (g_rx_ring (w_disp w)) = Some (m, r) → heap_get (g_msg_pool (w_disp w)) m = Some x →
  let d := Dispatch r (g_tx_ring (w_disp w)) (g_msg_pool (w_disp w)) in
  ∃ w', pod_step EvPoll w = Some (tt, w') ∧
  match route (m_buf x) with
  | Ignore => procs w' = procs w ∧ w_disp w' = released m d
  | Refuse q => procs w' = procs w ∧
      w_disp w' = released m (if msg_room w
        then sent (v_port_pfcp_encode_rsp q None V_PFCP_CAUSE_SESSION_CTX_NOT_FOUND RSP_BUF_BYTES) (m_peer x) d else d)
  | Begin q cb target => w_disp w' = released m d ∧
      if msg_room w && begin_room q w
      then ∃ t req, procs w !! t = None ∧ procs w' = <[t := (RLookup cb, 0%nat, 0)]> (procs w) ∧
        looks_up t req q cb target (m_peer x) w w'
      else procs w' = procs w
  end.
Proof. by apply poll_dispatches. Qed.

End arrival.
