(* ===== verification/Payload.v ===== *)
(** What a procedure writes.  The blob of the first write of a procedure is
    computed from its request and from the context it has read, and it does
    not change while the transport repeats the command. *)
From S2P Require Import Prelude Seid Dpdk Heap Redis World DbScript SessStore RetransCache IdAlloc.
From S2P Require Import DispatchQ NodeState Flow Sweeper Pod Pools Own OwnPod Safety Protocol Progress Conform Procedures Records.

(** ** Partial correctness *)

Definition post {A} {DP : Dpdk} {PP : PfcpPort} (m : M A) (Q : A → world → Prop) (w : world) : Prop :=
  ∀ a w', m w = Some (a, w') → Q a w'.

Section post.
Context {DP : Dpdk} {PP : PfcpPort}.

Lemma post_ret {A} (a : A) (Q : A → world → Prop) w : Q a w → post (mret a) Q w.
Proof. by intros HQ b w' [= <- <-]. Qed.

Lemma post_bind {A B} (m : M A) (f : A → M B) Q w : post m (λ a w', post (f a) Q w') w → post (m ≫= f) Q w.
Proof. intros Hm b w' (w1&a&E1&E2)%bind_Some_inv. by eapply Hm. Qed.

Lemma post_mono {A} (m : M A) (P Q : A → world → Prop) w : post m P w → (∀ a w', P a w' → Q a w') → post m Q w.
Proof. intros Hm HPQ a w' E. by apply HPQ, Hm. Qed.

Lemma post_ends {A} P (m : M A) w : ends P m → post m (λ _ w', P w') w.
Proof. intros H a w' E. by eapply H. Qed.

End post.

(** ** Requests and payloads *)

Section payload.
Context {DP : Dpdk} {PP : PfcpPort}.

(** The request a transaction serves. *)
Definition req_of (w : world) (t : Z) : option pfcp_msg :=
  x ← txn_at w t; m ← t_req x; hp_mem (w_msgs w) !! m.

Definition dead (t : Z) (w : world) : Prop := txn_at w t = None.

(** Nothing in flight carries [t]. *)
Definition unasked (t : Z) (w : world) : Prop := ∀ e, e ∈ waits w → e.1.1 ≠ t.

(** The EVALSHA a command stands for: itself, or the one it resumes. *)
Definition pending_of (cb : v_db_cb_t) : option v_evalsha_pending :=
  match cb with fp_evalsha_reply_cb p => Some p | fp_load_reply_cb lc => lc_resume lc | _ => None end.

(** A write of transaction [t] carries the blob [B]. *)
Definition bears (t : Z) (B : bytes) (p : v_evalsha_pending) : Prop :=
  ∀ q, ep_user p = fp_cas_write_reply_cb q → cp_arg q = Some t → writes (cp_cb q) = true → ep_argv p !! 5%nat = Some B.

Definition written (t : Z) (B : bytes) (w : world) : Prop :=
  ∀ c p, c ∈ db_queue (w_db w) → pending_of (dc_cb c) = Some p → bears t B p.

(** The outcome of a callback that writes: [t] was answered, or its write is
    in flight. *)
Definition sent_or_dead (t : Z) (B : bytes) (w : world) : Prop := dead t w ∨ written t B w.

Lemma unasked_written t B w : unasked t w → written t B w.
Proof.
  intros Hu c p Hc Hp q Hq Ha Hw. exfalso.
  apply (Hu (t, RCas (cp_cb q) (cp_exp_ver q), stage (dc_cb c))); [|done].
  unfold waits. apply elem_of_app. left. apply list_elem_of_bind. exists c. split; [|done].
  assert (cb_conts (dc_cb c) = [(RCas (cp_cb q) (cp_exp_ver q), t)]) as E.
  { assert (user_conts (ep_user p) = [(RCas (cp_cb q) (cp_exp_ver q), t)]) as E.
    { rewrite Hq. cbn. unfold cas_conts, call_conts. rewrite Ha. by destruct (cp_cb q). }
    destruct (dc_cb c); cbn in Hp |- *; try done; [by injection Hp as ->|by rewrite Hp]. }
  unfold cmd_waits. rewrite E. by left.
Qed.

Lemma unasked_silent t w w' : silent w w' → unasked t w → unasked t w'.
Proof. intros [[Hw _] _] Hu e He. apply Hu. by apply Hw. Qed.

Lemma unasked_same t w w' :
  db_queue (w_db w') = db_queue (w_db w) → vdp_queue (w_vdp w') = vdp_queue (w_vdp w) → unasked t w → unasked t w'.
Proof. intros Hq Hv Hu e. unfold waits. rewrite Hq, Hv. apply Hu. Qed.

Lemma written_same t B w w' : db_queue (w_db w') = db_queue (w_db w) → written t B w → written t B w'.
Proof. intros Hq H c p. rewrite Hq. apply H. Qed.

Lemma sent_same t B w w' :
  w_txns w' = w_txns w → db_queue (w_db w') = db_queue (w_db w) → sent_or_dead t B w → sent_or_dead t B w'.
Proof. intros Ht Hq [H|H]; [left; unfold dead, txn_at; by rewrite Ht|right; by eapply written_same]. Qed.

(** *** Answering kills *)

Lemma destroy_dead t : ends (dead t) (v_port_txn_destroy t).
Proof.
  intros w u w'. unfold v_port_txn_destroy, heap_get.
  destruct (hp_mem (w_txns w) !! t) eqn:Et; intros [= _ <-]; unfold dead, txn_at; cbn; [apply lookup_delete_eq|done].
Qed.

Lemma finish_dead t c : ends (dead t) (finish t c).
Proof. unfold finish. do 6 (apply ends_last; intros ?). apply destroy_dead. Qed.

Lemma drop_dead t : ends (dead t) (drop_request t).
Proof. unfold drop_request. do 3 (apply ends_last; intros ?). apply destroy_dead. Qed.

Lemma dead_still t w w' : same_txns w w' → dead t w → dead t w'.
Proof. unfold dead, txn_at. by intros ->. Qed.

Lemma ends_dead_still {A} t (m : M A) (f : A → M ()) :
  ends (dead t) m → (∀ a, does same_txns (f a)) → ends (dead t) (m ≫= f).
Proof. apply ends_then. intros. by eapply dead_still. Qed.

Lemma user_dead d q t r :
  cp_arg q = Some t → cp_cb q = fp_cas_write_cb ∨ cp_cb q = fp_mod_cas_cb →
  ends (dead t) (invoke_user (S d) (fp_cas_write_reply_cb q) RET_CODE_ERR r).
Proof.
  intros Ha Hc. cbn [invoke_user]. unfold cas_write_reply_cb. rewrite cas_reply_err, Ha.
  apply ends_dead_still; [|intros; apply still_sput]. destruct Hc as [-> | ->].
  - change (ends (dead t) (cas_write_cb (invoke_user d) t RET_CODE_ERR V_CAS_GONE 0)).
    unfold cas_write_cb. apply ends_last; intros ?. cbn. apply ends_last; intros ?. apply finish_dead.
  - change (ends (dead t) (mod_cas_cb t RET_CODE_ERR V_CAS_GONE 0)).
    unfold mod_cas_cb. cbn. apply ends_last; intros ?. apply finish_dead.
Qed.

(** *** Issuing the write *)

Lemma cmd_written t B s cb argv w :
  unasked t w → (∀ p, pending_of cb = Some p → bears t B p) → post (v_port_db_cmd_argv s cb argv) (λ _ w', written t B w') w.
Proof.
  intros Hu Hp rc w'. unfold v_port_db_cmd_argv.
  pose proof (unasked_written t B w Hu) as Hw.
  destruct (_ || _); [by intros [= _ <-]|]. destruct (rte_mempool_get _) as [[o p]|]; [|by intros [= _ <-]].
  destruct (db_accept _ _); intros [= _ <-]; [|exact Hw]. intros c p' Hc Hpc. cbn in Hc. apply elem_of_app in Hc as [Hc| ->%list_elem_of_singleton].
  - by eapply Hw.
  - by apply Hp.
Qed.

Variables (t : Z) (B : bytes).
Abbreviation arrives m w := (post m (λ _ w', sent_or_dead t B w') w).

(** A failed step is answered. *)
Lemma arrives_dead {A} (m : M A) w : ends (dead t) m → arrives m w.
Proof. intros Hm. eapply post_mono; [by apply post_ends|]. intros. by left. Qed.

Lemma issue_arrives p w :
  unasked t w → bears t B p → ends (dead t) (iu (ep_user p) RET_CODE_ERR None) → arrives (issue_evalsha iu p) w.
Proof.
  intros Hu Hp Hd. unfold issue_evalsha. apply post_bind.
  eapply post_mono; [apply (cmd_written t B); [done|by intros ? [= <-]]|]. intros rc w1 Hw1.
  destruct (negb _); cbn; [|apply post_ret; by right]. apply arrives_dead, ends_dead_still; [done|intros; apply still_eput].
Qed.

Lemma load_arrives s id p r w :
  unasked t w → bears t B p → ends (dead t) (iu (ep_user p) RET_CODE_ERR r) →
  arrives (rc ← request_script_load s id (Some p);
           when (negb (rc =? RET_CODE_OK)) (_ ← iu (ep_user p) RET_CODE_ERR r; evalsha_put (ep_obj p))) w.
Proof.
  intros Hu Hp Hd. apply post_bind. unfold post, request_script_load. intros rc w1 E.
  assert (sent_or_dead t B w1) as H1.
  { right. destruct (rte_mempool_get _) as [[o pool]|]; [|injection E as _ <-; by apply unasked_written].
    apply bind_Some_inv in E as (w2&rc2&E2&E3). apply (cmd_written t B) in E2; [|by eapply unasked_same; [..|exact Hu]|by intros ? [= <-]].
    destruct (negb _); [|by injection E3 as _ <-].
    apply bind_Some_inv in E3 as (w3&[]&[= <-]&[= _ <-]). by eapply written_same, E2. }
  destruct (negb _); cbn; [|by apply post_ret]. apply arrives_dead, ends_dead_still; [done|intros; apply still_eput].
Qed.

(** EVALSHA puts the blob of a write at index 5 of its arguments. *)
Lemma evalsha_arrives s id key ver ttl u w :
  unasked t w → ends (dead t) (iu u RET_CODE_ERR None) →
  post (v_db_evalsha iu s id [key] [ver; B; ttl] u) (λ rc w', rc = RET_CODE_OK → sent_or_dead t B w') w.
Proof.
  intros Hu Hd rc w'. unfold v_db_evalsha. cbn [length]. destruct (V_DB_EVALSHA_MAX_PARTS <? _); [by intros [= <- _]|].
  destruct (if _ <=? s then _ else _) as [sha|]; [|by intros [= <- _]].
  destruct (rte_mempool_get _) as [[obj pool]|]; [|by intros [= <- _]].
  destruct (scratch_copy_all _ _); intros (w2&[]&E&[= <- <-])%bind_Some_inv; [|done]. intros _.
  eapply issue_arrives, E; [by eapply unasked_same; [..|exact Hu]| |done]. intros q _ _ _. done.
Qed.

Lemma pending_arrives issue w :
  (∀ o w1, unasked t w1 → post (issue o) (λ rc w', rc = RET_CODE_OK → sent_or_dead t B w') w1) → unasked t w →
  post (with_pending issue) (λ rc w', rc = RET_CODE_OK → sent_or_dead t B w') w.
Proof.
  intros Hi Hu. unfold with_pending. apply post_bind. intros o w1 E1.
  assert (unasked t w1) as Hu1 by by eapply unasked_silent; [eapply (silent_sess_get), E1|].
  destruct o as [o|]; [|by apply post_ret]. apply post_bind. eapply post_mono; [by apply Hi|]. intros rc w2 Hw2.
  destruct (rc =? RET_CODE_OK) eqn:Er; cbn.
  - apply post_ret. intros _. by apply Hw2, Z.eqb_eq.
  - apply post_bind. intros [] w3 _. by apply post_ret.
Qed.

End payload.

(** ** The callbacks that write *)

Section writers.
Context {DP : Dpdk} {PP : PfcpPort}.

Lemma post_txn_get t x w Q : txn_at w t = Some x → Q x w → post (txn_get t) Q w.
Proof. unfold txn_at. intros Hx HQ a w'. unfold txn_get, heap_get. rewrite Hx. by intros [= <- <-]. Qed.

Lemma post_txn_upd t f x w Q : txn_at w t = Some x → Q tt (set_txns (heap_set t (f x) (w_txns w)) w) → post (txn_upd t f) Q w.
Proof. unfold txn_at. intros Hx HQ a w'. unfold txn_upd, heap_get. rewrite Hx. by intros [= <- <-]. Qed.

Lemma post_msg_get m v w Q : hp_mem (w_msgs w) !! m = Some v → Q v w → post (msg_get m) Q w.
Proof. intros Hx HQ a w'. unfold msg_get, heap_get. rewrite Hx. by intros [= <- <-]. Qed.

Lemma post_ctx_get c v w Q : hp_mem (w_ctxs w) !! c = Some v → Q v w → post (ctx_get c) Q w.
Proof. intros Hx HQ a w'. unfold ctx_get, heap_get. rewrite Hx. by intros [= <- <-]. Qed.

Lemma post_ctx_set c v w (Q : () → world → Prop) : Q tt (set_ctxs (heap_set c v (w_ctxs w)) w) → post (ctx_set c v) Q w.
Proof. intros HQ a w'. unfold ctx_set. destruct (heap_get _ _); [|done]. by intros [= <- <-]. Qed.

Lemma post_deref o c w (Q : Z → world → Prop) : o = Some c → Q c w → post (deref o) Q w.
Proof. intros -> HQ a w' [= <- <-]. exact HQ. Qed.

(** A new context is cleared, and is none of the old ones. *)
Lemma post_ctx_alloc w Q :
  heap_wf (w_ctxs w) → Q None w →
  (∀ c h, hp_mem (w_ctxs w) !! c = None → hp_mem h = <[c := ctx_cleared]> (hp_mem (w_ctxs w)) → Q (Some c) (set_ctxs h w)) →
  post v_port_ctx_alloc Q w.
Proof.
  intros Hwf HN HS o w'. unfold v_port_ctx_alloc. destruct (heap_alloc _ _) as [[c h]|] eqn:E; intros [= <- <-]; [|done].
  apply live_alloc in E as (_&_&Hm&Hn); [|done]. by apply HS.
Qed.

Definition blob_of (v : pdu_ses_ctx) : option bytes := v_port_pdu_serialize v V_SESS_BLOB_MAX_BYTES.

(** A write of the context [v] is in flight, or the request is answered. *)
Definition writing (t : Z) (v : pdu_ses_ctx) (w : world) : Prop :=
  dead t w ∨ ∃ B, blob_of v = Some B ∧ written t B w.

Lemma cas_write_arrives t part seid ver c st cb v w :
  cb = fp_cas_write_cb ∨ cb = fp_mod_cas_cb → unasked t w → hp_mem (w_ctxs w) !! c = Some v →
  post (v_sess_cas_write iu part seid ver c st cb (Some t)) (λ rc w', rc = RET_CODE_OK → writing t v w') w.
Proof.
  intros Hcb Hu Hv. unfold v_sess_cas_write. apply post_bind. intros rc w1 E1.
  assert (unasked t w1) as Hu1 by by eapply unasked_silent; [eapply silent_sess_ensure, E1|].
  assert (hp_mem (w_ctxs w1) !! c = Some v) as Hv1.
  { unfold sess_ensure_pool in E1. repeat case_match; by injection E1 as _ <-. }
  destruct (negb _); [by apply post_ret|]. apply post_bind. eapply post_ctx_get; [done|].
  destruct (v_port_pdu_serialize v _) as [B|] eqn:HB; [|by apply post_ret].
  eapply post_mono; [apply (pending_arrives t B); [|done]|intros rc1 w2 H2 Hok; destruct (H2 Hok); [by left|right; by exists B]]. intros o w2 Hu2. apply evalsha_arrives; [done|]. by apply user_dead.
Qed.

(** A failed step is answered. *)
Lemma writing_dead {A} t v (m : M A) w : ends (dead t) m → post m (λ _ w', writing t v w') w.
Proof. intros Hm. eapply post_mono; [by apply post_ends|]. intros. by left. Qed.

(** The caller's reaction to a refusal is an answer. *)
Lemma writing_or t v (m : M Z) (f : M ()) w :
  post m (λ rc w', rc = RET_CODE_OK → writing t v w') w → ends (dead t) f →
  post (rc ← m; when (negb (rc =? RET_CODE_OK)) f) (λ _ w', writing t v w') w.
Proof.
  intros Hm Hf. apply post_bind. eapply post_mono; [done|]. intros rc w1 H1. destruct (rc =? RET_CODE_OK) eqn:Er; cbn.
  - apply post_ret. by apply H1, Z.eqb_eq.
  - by apply writing_dead.
Qed.

(** What a modification writes: the context it has read, modified as its
    request says. *)
Definition modified (req : pfcp_msg) (v : pdu_ses_ctx) : pdu_ses_ctx := (v_port_pfcp_modify_session req v).2.

Lemma mod_read_arrives t c v ver x m req w :
  unasked t w → heap_wf (w_ctxs w) → txn_at w t = Some x → t_req x = Some m → hp_mem (w_msgs w) !! m = Some req →
  hp_mem (w_ctxs w) !! c = Some v →
  post (mod_read_cb iu t RET_CODE_OK V_CAS_OK c ver) (λ _ w', writing t (modified req v) w') w.
Proof.
  intros Hu Hwf Hx Hm Hr Hc. unfold mod_read_cb. cbn [negb Z.eqb]. rewrite decide_False by (by intros []).
  apply post_bind. eapply post_txn_upd; [done|]. apply post_bind. apply post_ctx_alloc; [done|by apply writing_dead, finish_dead|].
  intros prev h Hp Hh. cbn [w_ctxs set_txns] in Hp, Hh. assert (prev ≠ c) as Hne by (intros ->; congruence).
  apply post_bind. eapply (post_ctx_get c v); [cbn; by rewrite Hh, lookup_insert_ne|].
  apply post_bind. eapply (post_ctx_get prev); [cbn; by rewrite Hh, lookup_insert_eq|].
  match goal with |- post (match ?e with Some _ => _ | None => _ end) _ _ => destruct e as [p'|] end.
  2: { apply writing_dead. apply ends_last; intros ?. apply finish_dead. }
  apply post_bind, post_ctx_set. apply post_bind. eapply post_txn_upd; [cbn; apply lookup_insert_eq|].
  apply post_bind. eapply post_txn_get; [cbn; apply lookup_insert_eq|]. apply post_bind. eapply post_deref; [exact Hm|].
  apply post_bind. eapply post_msg_get; [exact Hr|]. unfold modified.
  destruct (v_port_pfcp_modify_session req v) as [rc v'] eqn:Em. cbn [snd].
  apply post_bind, post_ctx_set. destruct (Z.eqb_spec rc RET_CODE_OK) as [->|]; cbn [negb].
  2: { apply writing_dead. do 2 (apply ends_last; intros ?). apply finish_dead. }
  apply post_bind. eapply post_txn_upd; [cbn; apply lookup_insert_eq|]. apply writing_or.
  - apply cas_write_arrives; [by right|by eapply unasked_same; [..|exact Hu]|cbn; apply lookup_insert_eq].
  - do 2 (apply ends_last; intros ?). apply finish_dead.
Qed.

(** What an establishment writes: a new context for its identifiers. *)
Definition built (req : pfcp_msg) (seid teid : Z) : pdu_ses_ctx := (v_port_pfcp_build_session req seid teid ctx_cleared).2.

(** The write of a new session, whose SEID is that of its transaction. *)
Definition building (t : Z) (req : pfcp_msg) (w : world) : Prop :=
  dead t w ∨ ∃ x teid B, txn_at w t = Some x ∧ blob_of (built req (t_seid x) teid) = Some B ∧ written t B w.

Lemma building_dead {A} t req (m : M A) w : ends (dead t) m → post m (λ _ w', building t req w') w.
Proof. intros Hm. eapply post_mono; [by apply post_ends|]. intros. by left. Qed.

(** A step that leaves the transactions and what is in flight alone. *)
Lemma post_still {A} t (m : M A) Q w x :
  does same_txns m → does silent m → txn_at w t = Some x → unasked t w →
  (∀ a w', txn_at w' t = Some x → unasked t w' → Q a w') → post m Q w.
Proof.
  intros H1 H2 Hx Hu HQ a w' E. apply HQ; [unfold txn_at; by rewrite (H1 _ _ _ E)|by eapply unasked_silent; [eapply H2|]].
Qed.

Lemma est_tail_arrives t part seid teid c x req w :
  unasked t w → txn_at w t = Some x → t_seid x = seid → hp_mem (w_ctxs w) !! c = Some (built req seid teid) →
  post (rc ← v_sess_cas_write iu part seid 0 c V_SESS_PENDING fp_cas_write_cb (Some t);
        when (negb (rc =? RET_CODE_OK)) (_ ← v_teid_free part teid; finish t V_PFCP_CAUSE_SYSTEM_FAILURE))
    (λ _ w', building t req w') w.
Proof.
  intros Hu Hx Hs Hc [] w' E. pose proof E as E'.
  assert (ends (dead t) (_ ← v_teid_free part teid; finish t V_PFCP_CAUSE_SYSTEM_FAILURE)) as Hf by (apply ends_last; intros ?; apply finish_dead).
  apply (writing_or t (built req seid teid)) in E as [Hd|(B&HB&Hw)]; [by left| |by apply cas_write_arrives; [left|..]|exact Hf].
  destruct (txn_at w' t) as [x'|] eqn:Hx'; [right|by left]. exists x', teid, B. split; [done|]. split; [|done].
  assert (does (touches t true 0) (rc ← v_sess_cas_write iu part seid 0 c V_SESS_PENDING fp_cas_write_cb (Some t);
    when (negb (rc =? RET_CODE_OK)) (_ ← v_teid_free part teid; finish t V_PFCP_CAUSE_SYSTEM_FAILURE))) as Ht.
  { apply does_bind; [apply _|by apply (touch_write iu iu_touching)|intros rc]. touch. }
  destruct (Ht _ _ _ E' t x' Hx') as (y&Hy&Hi). rewrite decide_True in Hi by done. destruct Hi as [Hi _].
  specialize (Hi eq_refl). unfold ident in Hi. injection Hi as _ ->. assert (y = x) as -> by congruence. by rewrite Hs.
Qed.

Lemma est_arrives t st hit resp x m req w :
  unasked t w → txn_at w t = Some x → t_req x = Some m → hp_mem (w_msgs w) !! m = Some req →
  post (retrans_lookup_cb iu t st hit resp) (λ _ w', building t req w') w.
Proof.
  intros Hu Hx Hm Hr. unfold retrans_lookup_cb. destruct (_ && hit).
  { apply building_dead. unfold reply_cached. do 2 (apply ends_last; intros ?). apply drop_dead. }
  apply post_bind. eapply post_txn_get; [done|]. apply post_bind. eapply post_deref; [done|].
  apply post_bind. eapply post_msg_get; [done|]. apply post_bind.
  eapply (post_still t _ _ _ x); [|..|done|done|].
  { case_match; [case_match|]; auto with still. }
  { case_match; [case_match|]; [apply silent_ret|apply silent_part_rr]. }
  intros part w1 Hx1 Hu1. apply post_bind. eapply post_txn_upd; [done|].
  set (w2 := set_txns _ w1). assert (txn_at w2 t = Some (txn_set_part part x)) as Hx2 by apply lookup_insert_eq.
  assert (unasked t w2) as Hu2 by by eapply unasked_same; [..|exact Hu1]. clearbody w2. clear w1 Hx1 Hu1.
  apply post_bind. eapply (post_still t); [auto with still|apply silent_seid_alloc|done|done|]. intros seid w3 Hx3 Hu3.
  apply post_bind. eapply (post_still t); [apply (still_teid_alloc iu iu_touching)|apply (silent_teid_alloc iu iu_conforming)|done|done|]. intros teid w4 Hx4 Hu4.
  destruct (_ || _); [apply building_dead; apply ends_last; intros ?; apply finish_dead|].
  apply post_bind. eapply post_txn_upd; [done|]. apply post_bind. eapply post_txn_upd; [apply lookup_insert_eq|].
  apply post_bind. intros o w5 E5. unfold v_port_ctx_alloc in E5. destruct (heap_alloc _ _) as [[c h]|] eqn:Ea; injection E5 as <- <-.
  2: { apply building_dead. apply ends_last; intros ?. apply finish_dead. }
  assert (hp_mem h !! c = Some ctx_cleared) as Hc.
  { unfold heap_alloc in Ea. destruct (rte_mempool_get _) as [[??]|]; [|done]. injection Ea as <- <-. apply lookup_insert_eq. }
  apply post_bind. eapply post_txn_upd; [apply lookup_insert_eq|]. apply post_bind. eapply post_ctx_get; [exact Hc|].
  destruct (v_port_pfcp_build_session req seid teid ctx_cleared) as [rc v'] eqn:Eb. apply post_bind, post_ctx_set.
  destruct (negb _); [apply building_dead; apply ends_last; intros ?; apply finish_dead|].
  apply post_bind. eapply post_txn_upd; [apply lookup_insert_eq|].
  eapply est_tail_arrives; [by eapply unasked_same; [..|exact Hu4]|apply lookup_insert_eq|done|].
  cbn. unfold built. rewrite Eb. apply lookup_insert_eq.
Qed.

End writers.
