(* ===== verification/Contents.v ===== *)
(** What the memory of a transaction holds from one event to the next: its
    request, its context while it waits for its record, and the blob of the
    write it has in flight. *)
From S2P Require Import Prelude Seid Dpdk Heap Redis World DbScript SessStore RetransCache IdAlloc.
From S2P Require Import DispatchQ NodeState Flow Sweeper Pod Pools Own OwnPrim OwnPod Safety.
From S2P Require Import Protocol Progress Conform Procedures ProtocolRefine Commands Records Payload.

Section contents.
Context {DP : Dpdk} {PP : PfcpPort}.

(** ** The context before the record is read *)

Definition blank (t : Z) (w : world) : Prop :=
  ∀ x c, txn_at w t = Some x → t_ctx x = Some c → hp_mem (w_ctxs w) !! c = Some ctx_cleared.

Lemma dead_blank t w : dead t w → blank t w.
Proof. intros Hd x c Hx. unfold dead in Hd. congruence. Qed.

Lemma blank_same t w w' : w_txns w' = w_txns w → w_ctxs w' = w_ctxs w → blank t w → blank t w'.
Proof. intros Ht Hc Hb x c. unfold txn_at. rewrite Ht, Hc. apply Hb. Qed.

Lemma ends_blank {A} t (m : M A) w : ends (dead t) m → post m (λ _ w', blank t w') w.
Proof. intros Hm. eapply post_mono; [by apply post_ends|]. intros. by apply dead_blank. Qed.

(** [m] leaves transactions and contexts alone. *)
Definition same_mem (w w' : world) : Prop := w_txns w' = w_txns w ∧ w_ctxs w' = w_ctxs w.

#[local] Instance same_mem_preorder : PreOrder same_mem.
Proof. split; [done|]. intros w1 w2 w3 [??] [??]. split; congruence. Qed.

Lemma mem_cmd s cb argv : does same_mem (v_port_db_cmd_argv s cb argv).
Proof. unfold v_port_db_cmd_argv. still_prim. Qed.
Lemma mem_sput o : does same_mem (sess_pending_put o).
Proof. unfold sess_pending_put. still_prim. Qed.

Lemma mem_read part seid c cb arg : does same_mem (v_sess_read part seid c cb arg).
Proof.
  unfold v_sess_read, with_pending, v_port_db_cmd. apply does_bind; [apply _|unfold sess_ensure_pool; still_prim|intros rc].
  case_match; [apply does_ret, _|]. apply does_bind; [apply _|unfold sess_pending_get; still_prim|intros [o|]; [|apply does_ret, _]].
  apply does_bind; [apply _|apply mem_cmd|intros rc']. case_match; [|apply does_ret, _].
  apply does_bind; [apply _|apply mem_sput|intros; apply does_ret, _].
Qed.

Lemma blank_then {A B} t (m : M A) (f : A → M B) Q w :
  does same_mem m → blank t w → (∀ a w', blank t w' → post (f a) Q w') → post (m ≫= f) Q w.
Proof. intros Hm Hb Hf. apply post_bind. intros a w' [Ht Hc]%Hm. apply Hf. by eapply blank_same. Qed.

(** What comes after leaves it alone. *)
Lemma blank_last {A B} t (m : M A) (f : A → M B) w :
  post m (λ _ w', blank t w') w → (∀ a, does same_mem (f a)) → post (m ≫= f) (λ _ w', blank t w') w.
Proof. intros Hm Hf. apply post_bind. eapply post_mono; [done|]. intros a w1 H1 b w2 [Ht Hc]%Hf. by eapply blank_same. Qed.

Lemma mem_eput o : does same_mem (evalsha_put o).
Proof. unfold evalsha_put. still_prim. Qed.

Lemma mem_txn_get t : does same_mem (txn_get t).
Proof. unfold txn_get. still_prim. Qed.
Lemma mem_deref o : does same_mem (deref o).
Proof. destruct o; [apply does_ret, _|by intros w a w']. Qed.

Lemma mod_start_blank t w : blank t w → post (mod_start_read t) (λ _ w', blank t w') w.
Proof.
  intros Hb. unfold mod_start_read, v_port_txn_set_state. apply post_bind. intros [] w1 E1.
  assert (blank t w1) as Hb1.
  { unfold txn_upd, heap_get in E1. destruct (hp_mem (w_txns w) !! t) as [x|] eqn:Ex; [|done]. injection E1 as <-.
    intros y c. unfold txn_at. cbn. rewrite lookup_insert_eq. intros [= <-]. exact (Hb x c Ex). }
  apply (blank_then t); [apply mem_txn_get|done|intros x w2 Hb2]. apply (blank_then t); [apply mem_deref|done|intros c w3 Hb3].
  apply (blank_then t); [apply mem_read|done|intros rc w4 Hb4]. destruct (negb _); [|by apply post_ret].
  apply ends_blank, finish_dead.
Qed.

Lemma mod_lookup_blank t st hit resp w : post (mod_retrans_lookup_cb t st hit resp) (λ _ w', blank t w') w.
Proof.
  unfold mod_retrans_lookup_cb. destruct (_ && hit).
  { apply ends_blank. unfold reply_cached. do 2 (apply ends_last; intros ?). apply drop_dead. }
  unfold alloc_ctx_then. apply post_bind. intros o w1 E1. apply post_bind. intros [] w2 E2.
  destruct o as [c|]; [|apply ends_blank, finish_dead]. apply mod_start_blank. intros x c'.
  unfold v_port_ctx_alloc, heap_alloc in E1. destruct (rte_mempool_get _) as [[c0 pool]|]; [|done]. injection E1 as -> <-.
  unfold txn_upd, heap_get in E2. cbn in E2. destruct (hp_mem (w_txns w) !! t) as [y|] eqn:Ey; [|done]. injection E2 as <-.
  unfold txn_at. cbn. rewrite lookup_insert_eq. intros [= <-] [= <-]. apply lookup_insert_eq.
Qed.

(** A conflict: the context is cleared for the next read. *)
Lemma mod_retry_blank t ver w : post (mod_cas_cb t RET_CODE_OK V_CAS_CONFLICT ver) (λ _ w', blank t w') w.
Proof.
  unfold mod_cas_cb. cbn [negb Z.eqb]. apply post_bind. intros [] w1 _. apply post_bind. intros [] w2 _.
  apply post_bind. intros x w3 E3. unfold txn_get, heap_get in E3.
  destruct (hp_mem (w_txns w2) !! t) as [y|] eqn:Ey; [|done]. injection E3 as -> <-.
  destruct (V_CAS_MAX_RETRY <=? _); [apply ends_blank, finish_dead|].
  apply post_bind. intros c w4 E4. unfold deref in E4. destruct (t_ctx x) as [c'|] eqn:Ec; [|done]. injection E4 as <- <-.
  apply post_bind. intros [] w5 E5. apply mod_start_blank. unfold v_port_ctx_clear, ctx_set in E5.
  destruct (heap_get _ _); [|done]. injection E5 as <-. intros z d. unfold txn_at. cbn. rewrite Ey. intros [= <-].
  rewrite Ec. intros [= <-]. apply lookup_insert_eq.
Qed.

Lemma conflict_blank p q t w :
  ep_user p = fp_cas_write_reply_cb q → cp_cb q = fp_mod_cas_cb → cp_arg q = Some t →
  post (db_invoke (fp_evalsha_reply_cb p) RET_CODE_OK (Some (V_DB_REPLY_INTEGER 0))) (λ _ w', blank t w') w.
Proof.
  intros Hu Hq Ha. cbn [db_invoke]. unfold evalsha_reply_cb. cbn [is_noscript andb]. rewrite Hu.
  apply blank_last; [|intros; apply mem_eput]. unfold iu, CALLBACK_DEPTH. cbn [invoke_user]. unfold cas_write_reply_cb. cbn [cas_reply].
  apply blank_last; [|intros; apply mem_sput]. rewrite Hq, Ha. apply mod_retry_blank.
Qed.

(** ** Transitions *)

(** What leads to a read of a modification, and to the first write of a
    procedure. *)
Lemma read_from r s k c x s' k' : wait_step r s k c (Wait (RRead fp_mod_read_cb x) s' k') →
  r = RLookup fp_mod_retrans_lookup_cb ∨
  (∃ v, r = RCas fp_mod_cas_cb v ∧ c = CReply (Some (V_DB_REPLY_INTEGER 0)) ∧ (s = 0 ∨ s = 2)%nat) ∨
  r = RRead fp_mod_read_cb x ∧ s ≠ 0%nat.
Proof.
  assert (∀ r c, proc_step r k c (Wait (RRead fp_mod_read_cb x) s' k') → r = RLookup fp_mod_retrans_lookup_cb ∨
    ∃ v, r = RCas fp_mod_cas_cb v ∧ c = CReply (Some (V_DB_REPLY_INTEGER 0))) as Hp.
  { intros r' c' H. remember (Wait (RRead fp_mod_read_cb x) s' k') as o eqn:Eo. destruct H;
      try match goal with H : match cas_result ?r with _ => _ end |- _ => destruct (cas_result r) as [[]|] eqn:? end;
      outcomes; try discriminate; try (by case_match); try (by left). right. exists v. split; [done|].
    unfold cas_result in *. repeat case_match; simplify_eq; done. }
  intros H. remember (Wait (RRead fp_mod_read_cb x) s' k') as o eqn:Eo.
  destruct H as [r k c o H|r k reply o Hn H|r k reply o Hn [->|H]|r s k reply o Hs Hsha [->|H]|r s k reply o Hs Hsha H]; subst.
  - apply Hp in H as [?|(v&->&->)]; [by left|right; left]. exists v. auto.
  - apply Hp in H as [?|(v&->&?)]; [by left|right; left]. exists v. auto.
  - right; right. by injection Eo as <- _ _.
  - apply Hp in H as [?|(v&_&?)]; [by left|done].
  - right; right. injection Eo as <- _ _. split; [done|]. intros ->. by apply elem_of_cons in Hs as [?|Hs%list_elem_of_singleton].
  - apply Hp in H as [?|(v&_&?)]; [by left|done].
  - apply Hp in H as [?|(v&_&?)]; [by left|done].
Qed.

(** The first write of a procedure. *)
Definition first_write (cb : v_sess_cas_cb_t) : Prop := cb = fp_cas_write_cb ∨ cb = fp_mod_cas_cb.

Lemma write_from cb v r s k c s' k' : first_write cb → wait_step r s k c (Wait (RCas cb v) s' k') →
  cb = fp_cas_write_cb ∧ r = RLookup fp_retrans_lookup_cb ∨
  (cb = fp_mod_cas_cb ∧ ∃ x reply, r = RRead fp_mod_read_cb x ∧ c = CReply reply ∧ session_found reply = Some true) ∨
  r = RCas cb v ∧ ∃ reply, c = CReply reply ∧
    (s = 2%nat ∧ is_noscript (reply_status reply) reply = true ∨ s ∈ [1%nat; 3%nat] ∧ sha_reply reply = true).
Proof.
  intros Hcb.
  assert (∀ r c, proc_step r k c (Wait (RCas cb v) s' k') → cb = fp_cas_write_cb ∧ r = RLookup fp_retrans_lookup_cb ∨
    cb = fp_mod_cas_cb ∧ ∃ x reply, r = RRead fp_mod_read_cb x ∧ c = CReply reply ∧ session_found reply = Some true) as Hp.
  { intros r' c' H. remember (Wait (RCas cb v) s' k') as o eqn:Eo. destruct H;
      repeat match goal with
      | H : match cas_result ?r with _ => _ end |- _ => destruct (cas_result r) as [[]|] eqn:?
      | H : match session_found ?r with _ => _ end |- _ => destruct (session_found r) as [[]|] eqn:?
      end; outcomes; try discriminate; try (by case_match); simplify_eq; try (by left);
      try (by destruct Hcb). right. split; [done|]. by eexists _, _. }
  intros H. remember (Wait (RCas cb v) s' k') as o eqn:Eo.
  destruct H as [r k c o H|r k reply o Hn H|r k reply o Hn [->|H]|r s k reply o Hs Hsha [->|H]|r s k reply o Hs Hsha H]; subst;
    try (by (apply Hp in H as [?|(_&?&?&_&[= <-]&Hf)]; [by left|discriminate Hf]));
    try (by (apply Hp in H as [?|?]; [by left|by right; left])).
  - right; right. injection Eo as <- _ _. split; [done|]. exists reply. auto.
  - right; right. injection Eo as <- _ _. split; [done|]. exists reply. auto.
Qed.

(** What leads to the data-plane deletion, and to the delete script. *)
Lemma del_vdp_from r s k c s' k' : wait_step r s k c (Wait (RVdp fp_del_vdp_cb) s' k') →
  r = RVdp fp_del_vdp_cb ∧ s ≠ 0%nat ∨ ∃ x reply, r = RRead fp_del_read_cb x ∧ c = CReply reply ∧ session_found reply = Some true.
Proof.
  assert (∀ r c, proc_step r k c (Wait (RVdp fp_del_vdp_cb) s' k') →
    ∃ x reply, r = RRead fp_del_read_cb x ∧ c = CReply reply ∧ session_found reply = Some true) as Hp.
  { intros r' c' H. remember (Wait (RVdp fp_del_vdp_cb) s' k') as o eqn:Eo. destruct H;
      repeat match goal with
      | H : match cas_result ?r with _ => _ end |- _ => destruct (cas_result r) as [[]|] eqn:?
      | H : match session_found ?r with _ => _ end |- _ => destruct (session_found r) as [[]|] eqn:?
      end; outcomes; try discriminate; try (by case_match); simplify_eq; by eexists _, _. }
  intros H. remember (Wait (RVdp fp_del_vdp_cb) s' k') as o eqn:Eo. destruct H; outcomes; try (by right; eapply Hp).
  all: try by (match goal with H : proc_step _ _ _ _ |- _ => apply Hp in H as (?&?&_&[= <-]&?) end).
  all: left; split; [congruence|done].
Qed.

(** How a transaction comes to wait in state VDP_WAIT, if it does not stay
    where it is. *)
Definition enters_vdp (r : role) (c : completion) : Prop :=
  (∃ v, r = RCas fp_mod_cas_cb v) ∨ (∃ res, r = RVdp fp_mod_vdp_cb ∧ c = CVdp res) ∨
  ∃ x reply, r = RRead fp_del_read_cb x ∧ c = CReply reply ∧ session_found reply = Some true.

Lemma vdp_wait_from r s k c r' s' k' : wait_step r s k c (Wait r' s' k') → role_state r' = TXN_ST_VDP_WAIT →
  r' = r ∨ r' = RVdp fp_vdp_create_cb ∨ enters_vdp r c.
Proof.
  intros H Hst.
  assert (∀ r c, proc_step r k c (Wait r' s' k') → r' = RVdp fp_vdp_create_cb ∨ enters_vdp r c) as Hp.
  { clear H. intros r0 c0 H. remember (Wait r' s' k') as o eqn:Eo. destruct H;
      repeat match goal with
      | H : match cas_result ?r with _ => _ end |- _ => destruct (cas_result r) as [[]|] eqn:?
      | H : match session_found ?r with _ => _ end |- _ => destruct (session_found r) as [[]|] eqn:?
      | H : match ?res with _ => _ end |- _ => destruct res
      end; outcomes; try discriminate; try (by case_match); simplify_eq; try (by left); right; unfold enters_vdp; eauto 8. }
  remember (Wait r' s' k') as o eqn:Eo. destruct H; outcomes; simplify_eq; try (by left); right; try (by eapply Hp).
  all: match goal with H : proc_step _ _ _ _ |- _ => apply Hp in H as [?|[?|[(?&_&?)|(?&?&_&[= <-]&?)]]] end;
    [by left|by right; left|done|done].
Qed.

Lemma del_write_from v r s k c s' k' : wait_step r s k c (Wait (RCas fp_del_delete_cb v) s' k') →
  r = RCas fp_del_delete_cb v ∨ r = RVdp fp_del_vdp_cb ∧ ∃ res, c = CVdp res.
Proof.
  assert (∀ r c, proc_step r k c (Wait (RCas fp_del_delete_cb v) s' k') → r = RVdp fp_del_vdp_cb ∧ ∃ res, c = CVdp res) as Hp.
  { intros r' c' H. remember (Wait (RCas fp_del_delete_cb v) s' k') as o eqn:Eo. destruct H;
      repeat match goal with
      | H : match cas_result ?r with _ => _ end |- _ => destruct (cas_result r) as [[]|] eqn:?
      | H : match session_found ?r with _ => _ end |- _ => destruct (session_found r) as [[]|] eqn:?
      end; outcomes; try discriminate; try (by case_match); simplify_eq; split; try done; by eexists. }
  intros H. remember (Wait (RCas fp_del_delete_cb v) s' k') as o eqn:Eo. destruct H; outcomes; try (by right; eapply Hp).
  all: try (left; congruence). all: try by (match goal with H : proc_step _ _ _ _ |- _ => apply Hp in H as [_ [? [=]]] end).
Qed.

(** ** The commands behind a role *)

Lemma user_conts_write u cb v t : user_conts u = [(RCas cb v, t)] → first_write cb →
  ∃ q, u = fp_cas_write_reply_cb q ∧ cp_cb q = cb ∧ cp_exp_ver q = v ∧ cp_arg q = Some t.
Proof.
  intros Hu Hcb. destruct u as [q|q|part]; cbn in Hu; [..|done].
  - pose proof Hu as (Ha&Hr&_)%cas_conts_inv; [|done]. injection Hr as -> ->. by exists q.
  - pose proof Hu as (_&Hr&_)%del_conts_inv; [|done]. injection Hr as Hc _. unfold del_conts in Hu. rewrite <- Hc in Hu.
    by destruct Hcb as [-> | ->].
Qed.

Lemma conts_write cb0 cb v t : cb_conts cb0 = [(RCas cb v, t)] → first_write cb →
  ∃ p q, pending_of cb0 = Some p ∧ ep_user p = fp_cas_write_reply_cb q ∧ cp_cb q = cb ∧ cp_exp_ver q = v ∧ cp_arg q = Some t.
Proof.
  intros Hc Hcb. assert (∀ p, user_conts (ep_user p) = [(RCas cb v, t)] →
    ∃ q, ep_user p = fp_cas_write_reply_cb q ∧ cp_cb q = cb ∧ cp_exp_ver q = v ∧ cp_arg q = Some t) as Hu.
  { intros p Hp. by apply user_conts_write. }
  destruct cb0 as [p|lc|p|p|part| | |p| |p|p|p]; cbn in Hc |- *; try done.
  - destruct (Hu p Hc) as (q&?). by exists p, q.
  - destruct (lc_resume lc) as [p|]; [|done]. destruct (Hu p Hc) as (q&?). by exists p, q.
  - by destruct (rp_arg p).
  - destruct (sp_cb p); [by destruct (sp_arg p)|done].
  - by destruct (rt_arg p).
Qed.

Lemma conts_lookup cb lcb t : cb_conts cb = [(RLookup lcb, t)] →
  ∃ p, cb = fp_lookup_reply_cb p ∧ rt_cb p = lcb ∧ rt_arg p = Some t.
Proof.
  assert (∀ u, user_conts u ≠ [(RLookup lcb, t)]) as Hu.
  { intros [q|q|part]; cbn; [..|done]; intros Hu; [by apply cas_conts_inv in Hu as (_&?&_)|by apply del_conts_inv in Hu as (_&?&_)]. }
  intros Hc. destruct cb as [p|lc|p|p|part| | |p| |p|p|p]; cbn in Hc; try done.
  - by apply Hu in Hc.
  - destruct (lc_resume lc); [by apply Hu in Hc|done].
  - by destruct (rp_arg p).
  - destruct (sp_cb p); [by destruct (sp_arg p)|done].
  - apply cont_of_inv in Hc as [? [= ->]]; [|done]. by exists p.
Qed.

Lemma conts_read cb rcb x t : cb_conts cb = [(RRead rcb x, t)] →
  ∃ p, cb = fp_read_reply_cb p ∧ rp_cb p = rcb ∧ rp_ctx p = x ∧ rp_arg p = Some t.
Proof.
  assert (∀ u, user_conts u ≠ [(RRead rcb x, t)]) as Hu.
  { intros [q|q|part]; cbn; [..|done]; intros Hu; [by apply cas_conts_inv in Hu as (_&?&_)|by apply del_conts_inv in Hu as (_&?&_)]. }
  intros Hc. destruct cb as [p|lc|p|p|part| | |p| |p|p|p]; cbn in Hc; try done.
  - by apply Hu in Hc.
  - destruct (lc_resume lc); [by apply Hu in Hc|done].
  - apply cont_of_inv in Hc as [? [= -> ->]]; [|done]. by exists p.
  - destruct (sp_cb p); [by destruct (sp_arg p)|done].
  - by destruct (rt_arg p).
Qed.

Lemma cb_conts_no_vdp cb vcb t : cb_conts cb ≠ [(RVdp vcb, t)].
Proof.
  assert (∀ u, user_conts u ≠ [(RVdp vcb, t)]) as Hu.
  { intros [q|q|part]; cbn; [..|done]; intros Hu; [by apply cas_conts_inv in Hu as (_&?&_)|by apply del_conts_inv in Hu as (_&?&_)]. }
  destruct cb as [p|lc|p|p|part| | |p| |p|p|p]; cbn; try done.
  - destruct (lc_resume lc); [apply Hu|done].
  - by destruct (rp_arg p).
  - destruct (sp_cb p); [by destruct (sp_arg p)|done].
  - by destruct (rt_arg p).
Qed.

(** ** The event that completes a command *)

(** Without its command nothing in flight carries a transaction. *)
Lemma lone w j cmd r t : Own no_amb None [] [] w → db_queue (w_db w) !! j = Some cmd → cb_conts (dc_cb cmd) = [(r, t)] →
  unasked t (set_db (db_set_queue (delete j (db_queue (w_db w))) (w_db w)) w).
Proof.
  intros HO Hj Hc. set (w1 := set_db _ w).
  assert (waits w ≡ₚ (t, r, stage (dc_cb cmd)) :: waits w1) as Hw.
  { unfold waits. cbn. rewrite (delete_Permutation _ _ _ Hj) at 1. cbn. unfold cmd_waits. by rewrite Hc. }
  pose proof (waits_nodup w HO) as Hn. rewrite Hw in Hn. cbn in Hn. apply NoDup_cons in Hn as [Hn _].
  intros e He <-. apply Hn. do 2 (apply list_elem_of_fmap_2). done.
Qed.

Lemma elem_of_delete {A} (l : list A) i j x : l !! i = Some x → i ≠ j → x ∈ delete j l.
Proof.
  intros Hi Hne. apply list_elem_of_lookup. destruct (decide (i < j)%nat).
  - exists i. by rewrite list_lookup_delete_lt.
  - exists (pred i). rewrite list_lookup_delete_ge by lia. by replace (S (pred i)) with i by lia.
Qed.

(** The command is taken off the queue, its callback runs, its object is
    released. *)
Lemma reply_shape j reply w w' cmd r t :
  Own no_amb None [] [] w → db_queue (w_db w) !! j = Some cmd → cb_conts (dc_cb cmd) = [(r, t)] →
  pod_step (EvReply j reply) w = Some (tt, w') →
  ∃ w1 w2, db_invoke (dc_cb cmd) (reply_status reply) reply w1 = Some (tt, w2) ∧ unasked t w1 ∧
    w_txns w1 = w_txns w ∧ w_ctxs w1 = w_ctxs w ∧ w_msgs w1 = w_msgs w ∧
    w_txns w' = w_txns w2 ∧ w_ctxs w' = w_ctxs w2 ∧ db_queue (w_db w') = db_queue (w_db w2).
Proof.
  intros HO Hj Hc (w1&o&E1&E2)%bind_Some_inv. unfold take_db_cmd in E1. rewrite Hj in E1. injection E1 as <- <-.
  set (w1 := set_db _ w) in *. apply bind_Some_inv in E2 as (w2&[]&E2&[= <-]). exists w1, w2. split; [exact E2|].
  split; [by eapply lone|done].
Qed.

(** A modification that is about to read has a cleared context. *)
Lemma event_blank e w w' t c r s k x s' k' :
  Own no_amb None [] [] w → pod_step e w = Some (tt, w') → completion_of e w = Some (t, c) →
  procs w !! t = Some (r, s, k) → wait_step r s k c (Wait (RRead fp_mod_read_cb x) s' k') → blank t w'.
Proof.
  intros HO E Hc Hp Hs. destruct (completion_source _ _ _ _ HO Hc) as (r1&s1&Hp1&Hsrc). rewrite Hp in Hp1. injection Hp1 as <- <- _.
  destruct c as [reply|res].
  2: { destruct Hsrc as (cb&->&->). apply read_from in Hs as [?|[(v&?&_)|[? _]]]; done. }
  destruct Hsrc as (j&cmd&->&Hj&Hcb&->). destruct (reply_shape j reply w w' cmd r t HO Hj Hcb E) as (w1&w2&E2&_&_&_&_&Ht&Hx&_).
  apply (blank_same t w2); [done..|]. apply read_from in Hs as [->|[(v&->&[= ->]&Hst)|[-> Hst]]].
  - apply conts_lookup in Hcb as (p&Hpc&Hl&Ha). rewrite Hpc in E2. cbn [db_invoke] in E2. unfold lookup_reply_cb in E2.
    destruct (lookup_outcome _ _) as [[st hit] resp]. rewrite Hl, Ha in E2. apply bind_Some_inv in E2 as (w3&[]&E2&E3).
    apply (mod_lookup_blank t st hit resp w1) in E2. unfold retrans_pending_put in E3. destruct (w_retrans_pool w3); [|done].
    by injection E3 as <-.
  - apply conts_write in Hcb as (p&q&Hpend&Hu&Hq&_&Ha); [|by right].
    destruct (dc_cb cmd) as [p'|lc| | | | | | | | | |] eqn:Ecb; cbn in Hpend; try done.
    + injection Hpend as ->. revert E2. apply (conflict_blank p q t w1 Hu Hq Ha).
    + cbn in Hst. rewrite ?Hpend in Hst. destruct (ep_retried p); destruct Hst; lia.
  - exfalso. apply Hst. apply conts_read in Hcb as (p&->&_). done.
Qed.

(** The write of a modification carries the record that was read, modified. *)
Definition read_data (reply : option v_db_reply) : bytes :=
  match read_fields (reply_status reply) reply with Some (data, _) => reply_str data | None => [] end.

Definition stored_ctx (data : bytes) : pdu_ses_ctx := (v_port_pdu_deserialize data ctx_cleared).2.

Lemma writing_put t v w o w' : sess_pending_put o w = Some (tt, w') → writing t v w → writing t v w'.
Proof.
  intros E. pose proof (mem_sput o _ _ _ E) as [Ht _]. assert (db_queue (w_db w') = db_queue (w_db w)) as Hq.
  { unfold sess_pending_put in E. destruct (w_sess_pool w); [|done]. by injection E as <-. }
  intros [H|(B&HB&H)]; [left; unfold dead, txn_at; by rewrite Ht|right]. exists B. split; [done|]. by eapply written_same.
Qed.

Lemma found_fields reply : session_found reply = Some true → ∃ data ver, read_fields (reply_status reply) reply = Some (data, ver) ∧
  reply_is_nil data || reply_is_nil ver = false.
Proof.
  unfold session_found. destruct (read_fields _ _) as [[data ver]|]; [|done]. intros [= H].
  exists data, ver. split; [done|]. by destruct (_ || _).
Qed.

Lemma event_modifies e w w' t reply x s k req :
  Own no_amb None [] [] w → pod_step e w = Some (tt, w') → completion_of e w = Some (t, CReply reply) →
  procs w !! t = Some (RRead fp_mod_read_cb x, s, k) → session_found reply = Some true →
  blank t w → req_of w t = Some req → writing t (modified req (stored_ctx (read_data reply))) w'.
Proof.
  intros HO E Hc Hp Hf Hb Hreq. destruct (completion_source _ _ _ _ HO Hc) as (r1&s1&Hp1&j&cmd&->&Hj&Hcb&Hst).
  rewrite Hp in Hp1. injection Hp1 as <- _ _.
  destruct (reply_shape j reply w w' cmd _ t HO Hj Hcb E) as (w1&w2&E2&Hu&Ht1&Hx1&Hm1&Ht&Hx&Hq).
  assert (writing t (modified req (stored_ctx (read_data reply))) w2) as H2.
  2: { destruct H2 as [H|(B&HB&H)]; [left; unfold dead, txn_at; by rewrite Ht|right]. exists B. split; [done|]. by eapply written_same. }
  apply procs_lookup in Hp as [Hin%wait_role _]; [|done]. destruct (o_role _ _ _ _ _ HO _ _ Hin) as (y&Hy&(_&[Hctx _]&_)).
  unfold req_of, txn_at in Hreq. rewrite Hy in Hreq. cbn in Hreq. destruct (t_req y) as [m|] eqn:Em; [|done]. cbn in Hreq.
  specialize (Hb y x Hy Hctx). destruct (found_fields reply Hf) as (data&ver&Hrf&Hnil).
  apply conts_read in Hcb as (p&Hpc&Hrcb&Hpx&Ha). rewrite Hpc in E2. cbn [db_invoke] in E2.
  unfold read_reply_cb in E2. unfold read_data. rewrite Hrf in E2 |- *. rewrite Hnil, Hpx, Hrcb, Ha in E2.
  apply bind_Some_inv in E2 as (w3&c&E3&E4). unfold ctx_get, heap_get in E3. rewrite Hx1, Hb in E3. injection E3 as <- <-.
  unfold stored_ctx. destruct (v_port_pdu_deserialize (reply_str data) ctx_cleared) as [rc c'] eqn:Ed.
  apply bind_Some_inv in E4 as (w4&[]&E4&E5). unfold ctx_set, heap_get in E4. rewrite Hx1, Hb in E4. injection E4 as <-.
  apply bind_Some_inv in E5 as (w5&[]&E5&E6). eapply writing_put; [exact E6|]. destruct (negb (rc =? RET_CODE_OK)).
  - by eapply (writing_dead t), E5; apply (finish_dead t V_PFCP_CAUSE_SYSTEM_FAILURE).
  - eapply (mod_read_arrives t x c' _ y m req); [..|exact E5].
    + by eapply unasked_same; [..|exact Hu].
    + change (heap_wf (heap_set x c' (w_ctxs w))). by eapply heap_set_spec, Hb; apply (o_ctxs _ _ _ _ _ HO).
    + unfold txn_at. cbn. by rewrite Ht1.
    + done.
    + cbn. by rewrite Hm1.
    + cbn. apply lookup_insert_eq.
Qed.

(** The first write of an establishment carries the new session. *)
Lemma event_builds e w w' t reply s k req :
  Own no_amb None [] [] w → pod_step e w = Some (tt, w') → completion_of e w = Some (t, CReply reply) →
  procs w !! t = Some (RLookup fp_retrans_lookup_cb, s, k) → req_of w t = Some req → building t req w'.
Proof.
  intros HO E Hc Hp Hreq. destruct (completion_source _ _ _ _ HO Hc) as (r1&s1&Hp1&j&cmd&->&Hj&Hcb&Hst).
  rewrite Hp in Hp1. injection Hp1 as <- _ _.
  destruct (reply_shape j reply w w' cmd _ t HO Hj Hcb E) as (w1&w2&E2&Hu&Ht1&Hx1&Hm1&Ht&Hx&Hq).
  assert (building t req w2) as H2.
  2: { destruct H2 as [H|(y&teid&B&Hy&HB&H)]; [left; unfold dead, txn_at; by rewrite Ht|right]. exists y, teid, B.
       split; [unfold txn_at; by rewrite Ht|]. split; [done|]. by eapply written_same. }
  unfold req_of in Hreq. destruct (txn_at w t) as [y|] eqn:Hy; [|done]. cbn in Hreq. destruct (t_req y) as [m|] eqn:Em; [|done].
  apply conts_lookup in Hcb as (p&Hpc&Hl&Ha). rewrite Hpc in E2. cbn [db_invoke] in E2. unfold lookup_reply_cb in E2.
  destruct (lookup_outcome _ _) as [[st hit] resp]. rewrite Hl, Ha in E2. apply bind_Some_inv in E2 as (w3&[]&E2&E3).
  assert (building t req w3) as H3.
  { eapply (est_arrives t st hit resp y m req w1); [done|unfold txn_at; by rewrite Ht1|done|by rewrite Hm1|exact E2]. }
  assert (w_txns w2 = w_txns w3 ∧ db_queue (w_db w2) = db_queue (w_db w3)) as [H4 H5].
  { unfold retrans_pending_put in E3. destruct (w_retrans_pool w3); [|done]. by injection E3 as <-. }
  destruct H3 as [H|(z&teid&B&Hz&HB&H)]; [left; unfold dead, txn_at; by rewrite H4|right]. exists z, teid, B.
  split; [unfold txn_at; by rewrite H4|]. split; [done|]. by eapply written_same.
Qed.

(** The transport repeats a command with the arguments it had. *)
Lemma event_carries e w w' t c cb v s k s' k' B :
  Own no_amb None [] [] w → pod_step e w = Some (tt, w') → completion_of e w = Some (t, c) → first_write cb →
  procs w !! t = Some (RCas cb v, s, k) → wait_step (RCas cb v) s k c (Wait (RCas cb v) s' k') →
  written t B w → sent_or_dead t B w'.
Proof.
  intros HO E Hc Hcb Hp Hs Hw. destruct (write_from _ _ _ _ _ _ _ _ Hcb Hs) as [[? [=]]|[(_&?&?&[=]&_)|(_&reply&->&Hcase)]].
  destruct (completion_source _ _ _ _ HO Hc) as (r1&s1&Hp1&j&cmd&->&Hj&Hconts&Hst).
  rewrite Hp in Hp1. injection Hp1 as <- <- _.
  destruct (reply_shape j reply w w' cmd _ t HO Hj Hconts E) as (w1&w2&E2&Hu&Ht1&Hx1&Hm1&Ht&Hx&Hq).
  assert (sent_or_dead t B w2) as H2; [|by eapply sent_same].
  destruct (conts_write _ _ _ _ Hconts Hcb) as (p&q&Hpend&Hus&Hqc&_&Ha).
  assert (bears t B p) as Hbears by (eapply Hw, Hpend; by eapply list_elem_of_lookup_2).
  assert (∀ r, ends (dead t) (iu (ep_user p) RET_CODE_ERR r)) as Hd.
  { intros r. rewrite Hus. apply user_dead; [done|]. rewrite Hqc. exact Hcb. }
  destruct (dc_cb cmd) as [p'|lc| | | | | | | | | |] eqn:Ecb; cbn in Hpend; try done; cbn [db_invoke] in E2.
  - injection Hpend as ->. cbn [stage] in Hst. destruct Hcase as [[-> Hn]|[Hin _]].
    2: { apply elem_of_cons in Hin as [Hin|Hin%list_elem_of_singleton]; destruct (ep_retried p); lia. }
    unfold evalsha_reply_cb in E2. rewrite Hn in E2. destruct (ep_retried p); [done|]. cbn [negb andb] in E2.
    eapply (load_arrives t B _ _ (set_retried p)), E2; done.
  - cbn [stage] in Hst. rewrite Hpend in Hst. destruct Hcase as [[-> _]|[_ Hsha]]; [destruct (ep_retried p); lia|].
    unfold load_reply_cb in E2. unfold sha_reply in Hsha. destruct reply as [[| | |sha| |]|]; try done. apply bool_decide_eq_true in Hsha.
    cbn [reply_status] in E2. rewrite Z.eqb_refl, decide_True in E2 by done. rewrite Hpend in E2.
    apply bind_Some_inv in E2 as (w3&[]&E3&E2). apply bind_Some_inv in E2 as (w4&[]&E4&E5).
    assert (sent_or_dead t B w4) as H4.
    { eapply (issue_arrives t B (set_part_sha p sha)); [|..|exact E4].
      - eapply unasked_same; [..|exact Hu]; by injection E3 as <-.
      - intros q' Hq' Ha' Hw'. cbn. rewrite list_lookup_insert_ne by done. by apply (Hbears q').
      - apply Hd. }
    injection E5 as <-. exact H4.
Qed.

(** ** Events that leave the transaction alone *)

Lemma resumed_completes e w r t : (r, t) ∈ resumed e w → ∃ c, completion_of e w = Some (t, c).
Proof.
  destruct e as [| |j reply|j res| | | | | | |]; cbn; try by intros ?%not_elem_of_nil.
  - destruct (db_queue (w_db w) !! j) as [cmd|]; [|by intros ?%not_elem_of_nil]. pose proof (cb_conts_length (dc_cb cmd)) as Hl.
    destruct (cb_conts (dc_cb cmd)) as [|[r' t'] [|]]; [by intros ?%not_elem_of_nil| |cbn in Hl; lia].
    intros [= -> ->]%list_elem_of_singleton. by eexists.
  - destruct (vdp_queue (w_vdp w) !! j) as [v|]; [|by intros ?%not_elem_of_nil]. intros [= -> ->]%list_elem_of_singleton. by eexists.
Qed.

Lemma step_apart e w w' t :
  pod_reachable w → is_timeout e = false → pod_step e w = Some (tt, w') → is_Some (txn_at w t) →
  (∀ c, completion_of e w ≠ Some (t, c)) → undisturbed t w w'.
Proof.
  intros Hw He E [x Hx] Hc. destruct (pod_reachable_inv w Hw) as [HO HJ]. eapply step_undisturbed; try done.
  intros r (c&Hr)%resumed_completes. by eapply Hc.
Qed.

Lemma apart_blank t w w' : undisturbed t w w' → blank t w → blank t w'.
Proof.
  intros [Ht Hu] Hb x c. unfold txn_at. rewrite Ht. intros Hx Hc. destruct (Hu x Hx) as [Hm _]. rewrite Hm; [by eapply Hb|].
  unfold ctx_refs. rewrite Hc. by left.
Qed.

Lemma apart_req t w w' : undisturbed t w w' → req_of w' t = req_of w t.
Proof.
  intros [Ht Hu]. unfold req_of, txn_at. rewrite Ht. destruct (hp_mem (w_txns w) !! t) as [x|]; [|done]. cbn.
  destruct (Hu x eq_refl) as [_ Hm]. unfold req_refs in Hm. destruct (t_req x) as [m|]; [|done]. cbn. apply Hm. by left.
Qed.

(** A transaction keeps its request as long as it lives. *)
Lemma req_owner w m : Own no_amb None [] [] w → is_Some (hp_mem (w_msgs w) !! m) → ∃ t x, txn_at w t = Some x ∧ t_req x = Some m.
Proof.
  intros HO Hm%live_elem. rewrite <- (o_req _ _ _ _ _ HO), app_nil_r in Hm. apply list_elem_of_bind in Hm as ([t x]&Hr&Hx%elem_of_map_to_list).
  exists t, x. split; [done|]. unfold req_refs in Hr. cbn in Hr. destruct (t_req x) as [m'|]; [|by apply not_elem_of_nil in Hr].
  by apply list_elem_of_singleton in Hr as ->.
Qed.

Lemma req_owner_unique w t u x y m :
  Own no_amb None [] [] w → txn_at w t = Some x → txn_at w u = Some y → t_req x = Some m → t_req y = Some m → t = u.
Proof.
  intros HO Hx Hy Hmx Hmy. destruct (decide (t = u)) as [|Hne]; [done|]. exfalso. unfold txn_at in *.
  assert (NoDup (live (w_msgs w))) as Hn by apply NoDup_fst_map_to_list. rewrite <- (o_req _ _ _ _ _ HO) in Hn. cbn in Hn.
  rewrite (all_refs_delete _ _ _ _ Hx), (all_refs_delete _ (delete t _) u y) in Hn by by rewrite lookup_delete_ne.
  unfold req_refs at 1 2 in Hn. rewrite Hmx, Hmy in Hn. cbn in Hn. apply NoDup_cons in Hn as [Hn _]. apply Hn. by left.
Qed.

Lemma req_live w t x : Own no_amb None [] [] w → txn_at w t = Some x → ∃ m, t_req x = Some m ∧ is_Some (hp_mem (w_msgs w) !! m).
Proof.
  intros HO Hx. destruct (proj2 (procs_dom w HO t)) as [[[r s] k] Hp]; [by eexists|]. apply procs_lookup in Hp as [Hin%wait_role _]; [|done].
  destruct (o_role _ _ _ _ _ HO _ _ Hin) as (y&Hy&[m Hm]&_). assert (y = x) as -> by (unfold txn_at in Hx; congruence).
  exists m. split; [done|]. apply live_elem. rewrite <- (o_req _ _ _ _ _ HO), app_nil_r. apply list_elem_of_bind. exists (t, x).
  split; [|by apply elem_of_map_to_list]. unfold req_refs. cbn. rewrite Hm. by left.
Qed.

Lemma step_request e w w' t :
  pod_reachable w → is_timeout e = false → pod_step e w = Some (tt, w') → is_Some (txn_at w t) → is_Some (txn_at w' t) →
  req_of w' t = req_of w t.
Proof.
  intros Hw He E Ht [x' Hx']. destruct (completion_of e w) as [[u c]|] eqn:Ec.
  2: { apply apart_req. eapply step_apart; try done. congruence. }
  destruct (decide (u = t)) as [->|Hne].
  2: { apply apart_req. eapply step_apart; try done. congruence. }
  destruct (pod_reachable_inv w Hw) as [HO HJ]. pose proof (proj1 (pod_reachable_inv _ (reachable_step w e w' Hw He E))) as HO'.
  assert (hp_mem (w_msgs w') ⊆ hp_mem (w_msgs w)) as Hm by (eapply step_requests; try done; by intros ->).
  destruct (req_live w' t x' HO' Hx') as (m&Hmx&[v Hv]). pose proof (lookup_weaken _ _ _ _ Hv Hm) as Hv0.
  unfold req_of. rewrite Hx'. cbn. rewrite Hmx. cbn. rewrite Hv.
  destruct (req_owner w m HO) as (u&y&Hy&Hmy); [by eexists|]. destruct (decide (u = t)) as [->|Hu].
  - rewrite Hy. cbn. rewrite Hmy. cbn. by rewrite Hv0.
  - exfalso. apply Hu. assert (undisturbed u w w') as [Htx _].
    { eapply step_apart; try done. congruence. }
    eapply (req_owner_unique w' u t y x' m); try done. unfold txn_at in *. by rewrite Htx.
Qed.

(** Its write stays what it is while other transactions complete. *)
Lemma apart_written e w w' t B r s k :
  Own no_amb None [] [] w → Own no_amb None [] [] w' → remaining e (db_queue (w_db w)) `prefix_of` db_queue (w_db w') →
  procs w !! t = Some (r, s, k) → (∀ cb, r ≠ RVdp cb) → (∀ c, completion_of e w ≠ Some (t, c)) →
  written t B w → written t B w'.
Proof.
  intros HO HO' Hpre Hp Hr Hc Hw. apply procs_lookup in Hp as [Hin _]; [|done]. unfold waits in Hin.
  apply elem_of_app in Hin as [Hin|(v&[= _ -> _]&_)%list_elem_of_fmap]; [|by edestruct Hr].
  apply list_elem_of_bind in Hin as (c0&Hc0&Hin). unfold cmd_waits in Hc0. apply list_elem_of_fmap in Hc0 as ([r0 t0]&Heq&Hc0).
  cbn in Heq. injection Heq as <- <- ->.
  assert (cb_conts (dc_cb c0) = [(r, t)]) as Hconts.
  { pose proof (cb_conts_length (dc_cb c0)) as Hl. destruct (cb_conts (dc_cb c0)) as [|p [|]]; [by apply not_elem_of_nil in Hc0| |cbn in Hl; lia].
    by apply list_elem_of_singleton in Hc0 as ->. }
  assert (c0 ∈ remaining e (db_queue (w_db w))) as Hrem.
  { destruct e as [| |j reply|j res| | | | | | |]; try done. cbn [remaining]. apply list_elem_of_lookup in Hin as [i Hi].
    destruct (decide (i = j)) as [->|Hne]; [exfalso; eapply Hc; cbn; by rewrite Hi, Hconts|].
    by eapply elem_of_delete. }
  destruct Hpre as [new Hq]. assert (c0 ∈ db_queue (w_db w')) as Hin' by (rewrite Hq; apply elem_of_app; by left).
  apply list_elem_of_lookup in Hin' as [j Hj]. pose proof (lone w' j c0 r t HO' Hj Hconts) as Hu.
  intros c p Hcq Hpc. apply list_elem_of_lookup in Hcq as [i Hi]. destruct (decide (i = j)) as [->|Hne].
  - assert (c = c0) as -> by congruence. by eapply Hw.
  - refine (unasked_written t B _ Hu c p _ Hpc). by eapply elem_of_delete.
Qed.

End contents.
