(* ===== verification/Cluster.v ===== *)
(** The cluster: any number of pods that start, work, crash and are replaced,
    the shards they share, and the commands between them.  A pod's command is
    served by its shard at some moment after it was sent, its reply is
    delivered at some later moment, or the connection breaks first; a command
    whose pod is gone may still be served.  Keys with a lease expire, script
    caches are flushed.  Everything interleaves freely. *)
From S2P Require Import Prelude Seid Dpdk Heap Redis Scripts World DbScript SessStore RetransCache IdAlloc.
From S2P Require Import DispatchQ NodeState Flow Sweeper Pod Server Preserve Pools SessCas SessHistory Own OwnPod Boot Safety.
From S2P Require Import Protocol Progress Procedures ProtocolRefine Commands Registers Records.

Section cluster.
Context {DP : Dpdk} {PP : PfcpPort} {R : Redis} {L : Lua} {SS : ScriptSha}.

(** A pod: its process, the replies that are on their way to it (one entry for
    each command in flight, [None] while the command is not served), and
    whether its identifier allocator has been initialised. *)
Record node := Node { nd_world : world; nd_slots : list (option v_db_reply); nd_running : bool }.

(** The pods by the order of their start, [None] for one that has crashed. *)
Record cluster := Cluster { cl_nodes : list (option node); cl_shards : Z → shard; cl_orphans : list db_cmd }.

Inductive cl_label :=
  | ClStart (db_accept vdp_accept : nat → bool) (addr pid now : Z) (* a new pod *)
  | ClInit (i : nat)                   (* v_id_alloc_init of pod [i] *)
  | ClPod (i : nat) (e : event)        (* an event of pod [i] other than a reply *)
  | ClServe (i j : nat)                (* a shard serves the [j]-th command of pod [i] *)
  | ClDeliver (i j : nat)              (* the reply to that command arrives *)
  | ClBreak (i j : nat)                (* its connection breaks: a NULL reply *)
  | ClOrphan (k : nat)                 (* a command of a broken connection is served *)
  | ClLose (k : nat)                   (* or lost *)
  | ClExpire (s : Z) (key : bytes)     (* a lease runs out *)
  | ClFlush (s : Z)                    (* the script cache of a shard is flushed *)
  | ClCrash (i : nat).

Definition queue_of (nd : node) : list db_cmd := db_queue (w_db (nd_world nd)).

(** The slots after an event that left [w']. *)
Definition nd_after (e : event) (w' : world) (nd : node) : node :=
  let slots := match e with EvReply j _ => delete j (nd_slots nd) | _ => nd_slots nd end in
  Node w' (slots ++ replicate (length (db_queue (w_db w')) - length slots) None) (nd_running nd).

Definition nd_step (e : event) (nd : node) : option node :=
  match pod_step e (nd_world nd) with Some (_, w') => Some (nd_after e w' nd) | None => None end.

(** Events of the process itself: replies come from the shards, and hard
    timeouts are left out.  Before the start-up is over there is no traffic. *)
Definition own_event (nd : node) (e : event) : bool :=
  match e with EvReply _ _ | EvTimeout _ => false | _ => nd_running nd || is_boot e end.

Definition get_node (cl : cluster) (i : nat) : option node := mjoin (cl_nodes cl !! i).

Definition put_node (i : nat) (o : option node) (cl : cluster) : cluster :=
  Cluster (<[i := o]> (cl_nodes cl)) (cl_shards cl) (cl_orphans cl).

Definition put_shard (s : Z) (sh : shard) (cl : cluster) : cluster :=
  Cluster (cl_nodes cl) (λ s', if s' =? s then sh else cl_shards cl s') (cl_orphans cl).

Definition put_orphans (cs : list db_cmd) (cl : cluster) : cluster := Cluster (cl_nodes cl) (cl_shards cl) cs.

(** The commands of a pod that no shard has served yet. *)
Definition unserved (nd : node) : list db_cmd :=
  fst <$> filter (λ e, e.2 = None) (zip (queue_of nd) (nd_slots nd)).

(** Pod [i] takes the event [e]. *)
Definition cl_event (i : nat) (e : event) (nd : node) (cl : cluster) : option cluster :=
  nd' ← nd_step e nd; Some (put_node i (Some nd') cl).

(** One step; [None] is undefined behaviour, a step that is not possible
    changes nothing. *)
Definition cl_do (l : cl_label) (cl : cluster) : option cluster :=
  match l with
  | ClStart da va addr pid now =>
      match pod_boot da va addr pid now with
      | Some w => Some (Cluster (cl_nodes cl ++ [Some (Node w [] false)]) (cl_shards cl) (cl_orphans cl))
      | None => Some cl
      end
  | ClInit i =>
      match get_node cl i with
      | Some nd =>
          if nd_running nd then Some cl
          else match v_id_alloc_init iu (nd_world nd) with
               | Some (rc, w') =>
                   if rc =? RET_CODE_OK
                   then Some (put_node i (Some (Node w'
                          (nd_slots nd ++ replicate (length (db_queue (w_db w')) - length (nd_slots nd)) None) true)) cl)
                   else Some (put_orphans (cl_orphans cl ++ unserved nd) (put_node i None cl))
               | None => None
               end
      | None => Some cl
      end
  | ClPod i e =>
      match get_node cl i with Some nd => if own_event nd e then cl_event i e nd cl else Some cl | None => Some cl end
  | ClServe i j =>
      match get_node cl i with
      | Some nd =>
          match queue_of nd !! j, nd_slots nd !! j with
          | Some c, Some None =>
              let '(reply, sh) := serve (dc_argv c) (cl_shards cl (dc_shard c)) in
              Some (put_shard (dc_shard c) sh
                     (put_node i (Some (Node (nd_world nd) (<[j := Some reply]> (nd_slots nd)) (nd_running nd))) cl))
          | _, _ => Some cl
          end
      | None => Some cl
      end
  | ClDeliver i j =>
      match get_node cl i with
      | Some nd =>
          match nd_slots nd !! j with Some (Some reply) => cl_event i (EvReply j (Some reply)) nd cl | _ => Some cl end
      | None => Some cl
      end
  | ClBreak i j =>
      match get_node cl i with
      | Some nd =>
          match queue_of nd !! j, nd_slots nd !! j with
          | Some c, Some slot =>
              cl_event i (EvReply j None) nd
                (match slot with Some _ => cl | None => put_orphans (cl_orphans cl ++ [c]) cl end)
          | _, _ => Some cl
          end
      | None => Some cl
      end
  | ClOrphan k =>
      match cl_orphans cl !! k with
      | Some c => Some (put_shard (dc_shard c) (serve (dc_argv c) (cl_shards cl (dc_shard c))).2
                         (put_orphans (delete k (cl_orphans cl)) cl))
      | None => Some cl
      end
  | ClLose k => Some (put_orphans (delete k (cl_orphans cl)) cl)
  | ClExpire s key =>
      let sh := cl_shards cl s in
      match rview (sh_store sh) !! key with
      | Some (_, Some _) => Some (put_shard s (Shard (exec [$"DEL"; key] (sh_store sh)).2 (sh_loaded sh)) cl)
      | _ => Some cl
      end
  | ClFlush s => Some (put_shard s (Shard (sh_store (cl_shards cl s)) (λ _, false)) cl)
  | ClCrash i =>
      match get_node cl i with
      | Some nd => Some (put_orphans (cl_orphans cl ++ unserved nd) (put_node i None cl))
      | None => Some cl
      end
  end.

Fixpoint cl_run (ls : list cl_label) (cl : cluster) : option cluster :=
  match ls with [] => Some cl | l :: ls' => cl1 ← cl_do l cl; cl_run ls' cl1 end.

Lemma cl_run_app ls ls' cl : cl_run (ls ++ ls') cl = (cl1 ← cl_run ls cl; cl_run ls' cl1).
Proof.
  revert cl. induction ls as [|l ls IH]; intros cl; cbn [cl_run app]; [done|].
  destruct (cl_do l cl) as [cl1|]; cbn; [apply IH|done].
Qed.

Lemma cl_run_snoc ls l cl cl1 : cl_run ls cl = Some cl1 → cl_run (ls ++ [l]) cl = cl_do l cl1.
Proof. intros E. rewrite cl_run_app, E. cbn. by destruct (cl_do l cl1). Qed.

(** No pod yet, and no session. *)
Definition cl_initial (cl : cluster) : Prop :=
  cl_nodes cl = [] ∧ cl_orphans cl = [] ∧
  ∀ s part seid, rview (sh_store (cl_shards cl s)) !! make_key part seid = None.

End cluster.
