(* ===== verification/ClusterInv.v ===== *)
(** The invariant of a cluster: every pod runs as its own theorems require,
    every command in flight anywhere has its form, every reply on its way is
    what a shard answered, and every session key of every shard holds a
    versioned record or nothing.  No step of a cluster is undefined. *)
From S2P Require Import Prelude Seid Dpdk Heap Redis Scripts World DbScript SessStore RetransCache IdAlloc.
From S2P Require Import DispatchQ NodeState Flow Sweeper Pod Server Preserve Pools SessCas SessHistory Own OwnPod Boot Safety.
From S2P Require Import Protocol Progress Procedures ProtocolRefine Commands Registers Records Payload Contents Cluster.

(** ** Lists of slots *)

(** Entries stay with their commands when commands are taken and appended. *)
Lemma Forall2_padded {A B} (P : A → option B → Prop) l l' k :
  (∀ x, P x None) → Forall2 P l k → l `prefix_of` l' → Forall2 P l' (k ++ replicate (length l' - length k) None).
Proof.
  intros HN H [r ->]. pose proof (Forall2_length _ _ _ H) as Hl. rewrite length_app, <- Hl.
  replace (length l + length r - length l)%nat with (length r) by lia. apply Forall2_app; [done|].
  apply Forall2_same_length_lookup_2; [by rewrite length_replicate|]. intros i x y _ Hy.
  by apply lookup_replicate in Hy as [-> _].
Qed.

(** ** One pod *)

Section pod.
Context {DP : Dpdk} {PP : PfcpPort} {SS : ScriptSha}.

(** The type of the reply to a command on a session or to a SCRIPT LOAD: what
    the callback of the command parses. *)
Definition reply_type (c : db_cmd) (rep : v_db_reply) : Prop :=
  match dc_cb c with
  | fp_read_reply_cb _ =>
      rep = V_DB_REPLY_ARRAY [V_DB_REPLY_NIL; V_DB_REPLY_NIL] ∨
      ∃ data v, rep = V_DB_REPLY_ARRAY [V_DB_REPLY_STRING data; V_DB_REPLY_STRING (dec v)] ∧ 1 <= v < 2 ^ 53
  | fp_confirm_reply_cb _ => ∃ n, rep = V_DB_REPLY_INTEGER n ∧ (n = 0 ∨ n = 1)
  | fp_load_reply_cb lc => rep = V_DB_REPLY_STRING (script_sha (lc_script_id lc))
  | fp_evalsha_reply_cb p =>
      match ep_user p with fp_teid_refill_reply_cb _ => True | _ => cas_reply_type rep end
  | _ => True
  end.

Lemma truthful_load c rep : reply_type c rep → load_honest c (Some rep).
Proof. unfold reply_type. intros H lc sha Hcb [= ->]. rewrite Hcb in H. by injection H. Qed.

Lemma truthful_read c rep p : reply_type c rep → dc_cb c = fp_read_reply_cb p → session_found (Some rep) = Some true →
  1 <= reply_ver (RRead (rp_cb p) (rp_ctx p)) (Some rep) < 2 ^ 53.
Proof.
  unfold reply_type. intros H Hcb Hf. rewrite Hcb in H. destruct H as [->|(data&v&->&Hv)]; [done|].
  cbn. rewrite parse_buf_dec; [done|u_lia|lia].
Qed.

Definition answered_ok (c : db_cmd) (slot : option v_db_reply) : Prop := ∀ rep, slot = Some rep → reply_type c rep.

(** A pod before v_id_alloc_init. *)
Definition pod_booted (w : world) : Prop :=
  ∃ da va addr pid now w0 es, pod_boot da va addr pid now = Some w0 ∧ Forall (λ e, is_boot e = true) es ∧
    pod_run es w0 = Some (tt, w).

(** A modification that is writing has read a record. *)
Definition mod_versions (w : world) : Prop :=
  ∀ t v s k, procs w !! t = Some (RCas fp_mod_cas_cb v, s, k) → 1 <= v < 2 ^ 53.

(** A transaction that waits for the data plane, or for the compensation that
    follows it, expects a version that a record can have. *)
Definition vdp_versions (w : world) : Prop :=
  ∀ t r s k x, procs w !! t = Some (r, s, k) → role_state r = TXN_ST_VDP_WAIT → hp_mem (w_txns w) !! t = Some x → 1 <= t_db_ver x.

Record node_ok (nd : node) : Prop := {
  nk_slots : Forall2 answered_ok (queue_of nd) (nd_slots nd);
  nk_cmds : cmds_ok (queue_of nd) (nd_world nd);
  nk_phase : if nd_running nd then pod_reachable (nd_world nd) else pod_booted (nd_world nd);
  nk_vers : nd_running nd = true → mod_versions (nd_world nd);
  nk_vdp : nd_running nd = true → vdp_versions (nd_world nd);
}.

(** The reply an event delivers is one that a shard gave. *)
Definition true_reply (e : event) (w : world) : Prop :=
  match e with EvReply j (Some rep) => ∀ c, db_queue (w_db w) !! j = Some c → reply_type c rep | _ => True end.

Lemma true_honest e w : true_reply e w → honest e w.
Proof.
  destruct e as [| |j [rep|]| | | | | | | |]; try done; cbn.
  - intros H c Hc. by apply truthful_load, H.
Qed.

(** *** A step of a pod *)

(** The reply that a reading transaction is completed with reports a version. *)
Lemma read_version e w t cb x s k reply :
  Own no_amb None [] [] w → true_reply e w → completion_of e w = Some (t, CReply reply) →
  procs w !! t = Some (RRead cb x, s, k) → session_found reply = Some true → 1 <= reply_ver (RRead cb x) reply < 2 ^ 53.
Proof.
  intros HO Ht Ec Hr Hf. destruct (completion_source e w t _ HO Ec) as (r2&s2&H2&j&cmd&->&Hj&Hc&_).
  assert (r2 = RRead cb x) as -> by congruence.
  destruct reply as [rep|]; [|done]. specialize (Ht cmd Hj). destruct (dc_cb cmd) as [p|lc|p|p|part| | |p| |p|p|p] eqn:Ecb; cbn in Hc; try done.
  - destruct (ep_user p) as [q|q|part]; [by apply cas_conts_inv in Hc as (_&?&_)|by apply del_conts_inv in Hc as (_&?&_)|done].
  - destruct (lc_resume lc) as [p|]; [|done].
    destruct (ep_user p) as [q|q|part]; [by apply cas_conts_inv in Hc as (_&?&_)|by apply del_conts_inv in Hc as (_&?&_)|done].
  - apply cont_of_inv in Hc as [_ [= -> ->]]; [|done]. by apply (truthful_read cmd rep p Ht Ecb).
  - destruct (sp_cb p); [|done]. by destruct (sp_arg p).
  - by destruct (rt_arg p).
Qed.

Lemma step_versions e w w' :
  pod_reachable w → is_timeout e = false → true_reply e w → mod_versions w → pod_step e w = Some (tt, w') → mod_versions w'.
Proof.
  intros Hw He Ht Hv E. pose proof (reachable_step w e w' Hw He E) as Hw'.
  destruct (step_follows w e Hw He) as (w''&E'&Hf). assert (w'' = w') as -> by congruence. clear E'.
  pose proof (proj1 (pod_reachable_inv w Hw)) as HO. pose proof (proj1 (pod_reachable_inv w' Hw')) as HO'.
  pose proof (event_touches e w w' He HO E) as Htouch.
  intros u v s k Hu. unfold follows in Hf. destruct (completion_of e w) as [[t c]|] eqn:Ec.
  2: { destruct Hf as [Hp|(_&t&cb&_&Hp)]; rewrite Hp in Hu; [by eapply Hv|].
       apply lookup_insert_Some in Hu as [[_ [=]]|[_ Hu]]. by eapply Hv. }
  destruct Hf as (r&s0&k0&o&Hr&Hs&Hp&_). rewrite Hp in Hu.
  destruct o as [r' s' k'|a]; cbn [proc_put] in Hu; [|apply lookup_delete_Some in Hu as [_ Hu]; by eapply Hv].
  apply lookup_insert_Some in Hu as [[<- [= -> -> ->]]|[_ Hu]]; [|by eapply Hv].
  destruct (write_from _ _ _ _ _ _ _ _ ltac:(by right) Hs) as [[[=] _]|[(_&x&reply&->&->&Hf)|(->&_)]]; [|by eapply Hv].
  destruct Htouch as (r1&s1&Hin&_&Hexp&_). assert (r1 = RRead fp_mod_read_cb x) as ->.
  { assert (procs w !! t = Some (r1, s1, retry_of w t)) as H1 by by apply procs_lookup. congruence. }
  specialize (Hexp _ x reply eq_refl eq_refl).
  assert ((RCas fp_mod_cas_cb v, t) ∈ conts w') as Hin'.
  { eapply wait_role, procs_lookup; [done|]. rewrite Hp. cbn [proc_put]. by rewrite lookup_insert_eq. }
  destruct (o_role _ _ _ _ _ HO' _ _ Hin') as (y&Hy&(_&_&Hver&_)). cbn in Hver. rewrite Hver, (Hexp y Hy).
  exact (read_version e w t _ _ _ _ _ HO Ht Ec Hr Hf).
Qed.

Lemma role_of w t r s k x : Own no_amb None [] [] w → procs w !! t = Some (r, s, k) → hp_mem (w_txns w) !! t = Some x → txn_ok r x.
Proof.
  intros HO [Hin%wait_role _]%procs_lookup Hx; [|done]. destruct (o_role _ _ _ _ _ HO _ _ Hin) as (x'&Hx'&H).
  by assert (x' = x) as <- by (cbn in Hx'; congruence).
Qed.

Lemma step_vdp_versions e w w' :
  pod_reachable w → is_timeout e = false → true_reply e w → mod_versions w → vdp_versions w → pod_step e w = Some (tt, w') →
  vdp_versions w'.
Proof.
  intros Hw He Ht Hm Hv E. pose proof (reachable_step w e w' Hw He E) as Hw'.
  destruct (step_follows w e Hw He) as (w''&E'&Hf). assert (w'' = w') as -> by congruence. clear E'.
  pose proof (proj1 (pod_reachable_inv w Hw)) as HO. pose proof (proj1 (pod_reachable_inv w' Hw')) as HO'.
  pose proof (event_touches e w w' He HO E) as Htouch.
  intros u r' s' k' x' Hu Hst Hx'. pose proof (role_of w' u r' s' k' x' HO' Hu Hx') as (_&_&Hver'&_).
  unfold follows in Hf. destruct (completion_of e w) as [[t c]|] eqn:Ec.
  2: { assert (procs w !! u = Some (r', s', k')) as Hu0.
       { destruct Hf as [Hp|(_&t&cb&_&Hp)]; rewrite Hp in Hu; [done|]. by apply lookup_insert_Some in Hu as [[_ [= <-]]|[_ Hu]]. }
       assert (is_Some (hp_mem (w_txns w) !! u)) as [x Hx] by (apply (procs_dom w HO); by eexists).
       destruct (Htouch u x x' Hx Hx') as [_ ->]. by eapply Hv. }
  destruct Hf as (r&s0&k0&o&Hr&Hs&Hp&_). destruct Htouch as (r1&s1&Hin&Htouch&Hexp&Hvdp).
  assert (r1 = r) as ->.
  { assert (procs w !! t = Some (r1, s1, retry_of w t)) as H1 by by apply procs_lookup. congruence. }
  destruct (Htouch u x' Hx') as (x&Hx&Hsame). destruct (decide (u = t)) as [->|Hne].
  2: { destruct Hsame as [_ ->]. eapply Hv; [|exact Hst|exact Hx].
       rewrite Hp in Hu. destruct o; cbn [proc_put] in Hu; [by rewrite lookup_insert_ne in Hu|by rewrite lookup_delete_ne in Hu]. }
  rewrite Hp in Hu. destruct o as [r2 s2 k2|a]; cbn [proc_put] in Hu; [|by rewrite lookup_delete_eq in Hu].
  rewrite lookup_insert_eq in Hu. injection Hu as -> -> ->.
  pose proof (role_of w t r s0 k0 x HO Hr Hx) as (_&_&Hver&_).
  destruct (vdp_wait_from _ _ _ _ _ _ _ Hs Hst) as [->|[->|[[v ->]|[(res&->&->)|(y&reply&->&->&Hfound)]]]].
  - (* the same role: a stage of the transport *)
    destruct c as [reply|res].
    + destruct r as [|cb ?|cb v| |cb|]; try done.
      * destruct cb; try done. cbn in Hver, Hver'. rewrite <- Hver', Hver. by eapply Hv.
      * exfalso. destruct (completion_source e w t _ HO Ec) as (r2&s2'&H2&j&cmd&_&_&Hc&_).
        assert (r2 = RVdp cb) as -> by congruence. by apply (cb_conts_no_vdp _ _ _ Hc).
    + destruct (Hvdp res (t_db_ver x) eq_refl t x' Hx') as (x0&Hx0&Hsm). rewrite decide_True in Hsm by done.
      assert (x0 = x) as -> by congruence. destruct Hsm as [_ Hdb].
      assert (t_db_ver x' = t_db_ver x) as -> by by destruct Hdb. by eapply Hv.
  - cbn in Hver'. by rewrite Hver'.
  - pose proof (Hm t v s0 k0 Hr) as Hb. cbn in Hver. destruct Hsame as [_ Hdb]. destruct c as [reply|res]; cbn [completion_ver reply_ver] in Hdb.
    + destruct Hdb as [->| ->]; [lia|]. unfold cas_new_ver. case_match; [lia|]. unfold u64. rewrite Z.mod_small; lia.
    + destruct (completion_source e w t _ HO Ec) as (r2&s2'&H2&cb&->&_). congruence.
  - destruct (Hvdp res (t_db_ver x) eq_refl t x' Hx') as (x0&Hx0&Hsm). rewrite decide_True in Hsm by done.
    assert (x0 = x) as -> by congruence. destruct Hsm as [_ Hdb].
    assert (t_db_ver x' = t_db_ver x) as -> by by destruct Hdb. by eapply Hv.
  - rewrite (Hexp _ y reply eq_refl eq_refl x' Hx'). destruct (read_version e w t _ _ _ _ _ HO Ht Ec Hr Hfound); lia.
Qed.

Lemma cmds_weaken q w : cmds_ok q w → cmds_ok (db_queue (w_db w)) w.
Proof. intros [_ H1 H2 H3]. by split. Qed.

Lemma booted_snoc e w w' : pod_booted w → is_boot e = true → pod_step e w = Some (tt, w') → pod_booted w'.
Proof.
  intros (da&va&addr&pid&now&w0&es&Hb&Hes&Hr) He E. exists da, va, addr, pid, now, w0, (es ++ [e]).
  split; [done|]. split; [by apply Forall_app; auto|]. erewrite pod_run_split by exact Hr. cbn. unfold mbind, SM_bind. by rewrite E.
Qed.

Lemma booted_step e w : pod_booted w → is_boot e = true → ∃ w', pod_step e w = Some (tt, w').
Proof.
  intros (da&va&addr&pid&now&w0&es&Hb&Hes&Hr) He. destruct (pod_boot_clean _ _ _ _ _ _ Hb) as [Hc HJ].
  destruct (boot_run_clean es w0 Hes Hc HJ) as (w1&Hr1&Hc1&_). rewrite Hr in Hr1. injection Hr1 as <-.
  destruct (wp_total _ _ _ (boot_step_clean e w He Hc1)) as ([]&w'&E&_). by exists w'.
Qed.

(** The slots after an event keep any property of answered commands. *)
Lemma slots_after (P : db_cmd → option v_db_reply → Prop) e nd w' :
  (∀ c, P c None) → Forall2 P (queue_of nd) (nd_slots nd) → cmds_ok (remaining e (queue_of nd)) w' →
  Forall2 P (queue_of (nd_after e w' nd)) (nd_slots (nd_after e w' nd)).
Proof.
  intros HN H Hq. unfold nd_after, queue_of. cbn. apply (Forall2_padded P (remaining e (queue_of nd))); [done| |apply Hq].
  destruct e; cbn [remaining]; try done. by apply Forall2_delete.
Qed.

Lemma nd_step_ok e nd :
  node_ok nd → is_timeout e = false → (nd_running nd || is_boot e) = true → true_reply e (nd_world nd) →
  ∃ w', pod_step e (nd_world nd) = Some (tt, w') ∧ nd_step e nd = Some (nd_after e w' nd) ∧ node_ok (nd_after e w' nd) ∧
    cmds_ok (remaining e (queue_of nd)) w'.
Proof.
  intros [H1 H2 H3 H4 H5] He Hr Ht.
  assert (∃ w', pod_step e (nd_world nd) = Some (tt, w')) as [w' E].
  { destruct (nd_running nd); cbn in Hr; [|by apply booted_step].
    destruct (step_follows _ e H3 He) as (w'&E&_). by exists w'. }
  pose proof (step_cmds e _ w' (true_honest _ _ Ht) H2 E) as Hq.
  exists w'. split; [done|]. split; [unfold nd_step; by rewrite E|]. split; [|done].
  split; [by apply slots_after| |unfold nd_after; cbn..].
  - by eapply cmds_weaken.
  - destruct (nd_running nd); [by eapply reachable_step|by eapply booted_snoc].
  - intros Hrun. rewrite Hrun in *. by eapply step_versions; [..|apply H4|].
  - intros Hrun. rewrite Hrun in *. by eapply step_vdp_versions; [..|apply H4|apply H5|].
Qed.

(** *** The start of a pod *)

Lemma booted_cmds da va addr pid now w : pod_boot da va addr pid now = Some w → cmds_ok [] w ∧ db_queue (w_db w) = [].
Proof.
  unfold pod_boot. intros (ctxs&Hc&(txns&Ht&(script&Hs&(db&Hd&(disp&Hp&(msgs&Hm&Hb)%bind_Some)%bind_Some)%bind_Some)%bind_Some)%bind_Some)%bind_Some.
  unfold v_port_db_init in Hd. destruct (rte_mempool_create V_STUB_DB_PENDING_CAP) as [dp|]; [|done]. injection Hd as <-.
  unfold v_db_script_init in Hs. cbn in Hs. destruct (rte_mempool_create V_DB_EVALSHA_POOL_CAP) as [ep|]; [|done].
  destruct (rte_mempool_create V_DB_SCRIPT_LOAD_POOL_CAP) as [lp|]; [|done]. injection Hs as <-.
  unfold mbind, SM_bind, v_flow_init, v_node_state_init in Hb.
  destruct (rte_mempool_create V_NODE_STATE_PENDING_POOL_CAP) as [np|] eqn:Enp; cbn in Hb; rewrite ?Enp in Hb; [|done].
  injection Hb as <-. split; [|done]. split; cbn; [done|intros s id sha; cbn; by rewrite lookup_empty|by constructor|by exists g_node_id].
Qed.

Lemma start_ok da va addr pid now w : pod_boot da va addr pid now = Some w → node_ok (Node w [] false).
Proof.
  intros Hb. destruct (booted_cmds _ _ _ _ _ _ Hb) as [Hc Hq]. split; unfold queue_of; cbn.
  - rewrite Hq. constructor.
  - by rewrite Hq.
  - by exists da, va, addr, pid, now, w, [].
  - done.
  - done.
Qed.

Lemma init_keeps w rc w' : v_id_alloc_init iu w = Some (rc, w') → rc = RET_CODE_OK →
  same_txns w w' ∧ ∀ q, cmds_ok q w → cmds_ok q w'.
Proof.
  unfold v_id_alloc_init. destruct (g_initialized _); [by intros [= <- _]|]. cbn zeta. destruct (negb id_tables); [by intros [= <- _]|].
  destruct (create_rings _ _) as [[] a]; [|by intros [= <- _]]. intros (w1&[]&E&[= _ <-])%bind_Some_inv _.
  revert E. set (b := ids_set_initialized true a). generalize (seqZ 0 V_NUM_PARTS). intros ps E. split.
  - assert (does same_txns (initial_refills iu ps)) as Hd; [|transitivity (set_ids b w); [done|by eapply Hd]].
    clear. induction ps as [|p ps IH]; cbn [initial_refills]; [apply still_ret|].
    assert (does same_txns (seid_maybe_refill p)) by (unfold seid_maybe_refill, clear_seid_inflight, v_port_db_cmd; stills).
    apply does_bind; [apply _|done|intros _]. apply does_bind; [apply _| |done].
    unfold teid_maybe_refill, clear_teid_inflight, v_port_db_cmd.
    repeat runs_step ltac:(apply evalsha_does; [apply _|done|by apply (it_none iu iu_touching)]).
  - intros q Hq. assert (preserves (cmds_ok q) (initial_refills iu ps)) as Hp; [|eapply Hp, E; by eapply ck_frame].
    clear. induction ps as [|p ps IH]; cbn [initial_refills]; [apply preserves_ret|].
    apply preserves_bind; [apply ck_seid_refill|intros _]. apply preserves_bind; [apply ck_teid_refill, iu_cmds|done].
Qed.

Lemma init_ok nd : node_ok nd → nd_running nd = false → ∃ rc w', v_id_alloc_init iu (nd_world nd) = Some (rc, w') ∧
  (rc = RET_CODE_OK → cmds_ok (queue_of nd) w' ∧
   node_ok (Node w' (nd_slots nd ++ replicate (length (db_queue (w_db w')) - length (nd_slots nd)) None) true)).
Proof.
  intros [H1 H2 H3 _ _] Hrun. rewrite Hrun in H3. destruct H3 as (da&va&addr&pid&now&w0&es&Hb&Hes&Hr).
  destruct (pod_boot_clean _ _ _ _ _ _ Hb) as [Hc HJ]. destruct (boot_run_clean es w0 Hes Hc HJ) as (w1&Hr1&Hc1&HJ1).
  rewrite Hr in Hr1. injection Hr1 as <-. destruct (id_init_inv _ Hc1 HJ1) as (rc&w'&Hi&_). exists rc, w'. split; [done|].
  intros ->. destruct (init_keeps _ _ _ Hi eq_refl) as [Hs Hk]. specialize (Hk _ H2). split; [done|].
  assert (pod_reachable w') as Hw'.
  { exists w', []. split; [|by split; [constructor|]]. by exists da, va, addr, pid, now, w0, es, (nd_world nd). }
  assert (∀ t p, procs w' !! t = Some p → False) as Hidle.
  { intros t p Hp. pose proof (proj1 (pod_reachable_inv w' Hw')) as HO'.
    assert (is_Some (hp_mem (w_txns w') !! t)) as [x Hx] by (apply (procs_dom w' HO'); by eexists).
    rewrite Hs in Hx. destruct Hc1 as [Ht _]. by rewrite Ht, lookup_empty in Hx. }
  split; unfold queue_of; cbn.
  - by apply (Forall2_padded _ (queue_of nd)); [|done|apply Hk].
  - by eapply cmds_weaken.
  - done.
  - intros _ t v s k Hp. by apply Hidle in Hp.
  - intros _ t r s k x Hp. by apply Hidle in Hp.
Qed.

End pod.

(** ** The cluster *)

Section inv.
Context {DP : Dpdk} {PP : PfcpPort} {R : Redis} {L : Lua} {SS : ScriptSha}.

Record cl_inv (n : Z) (cl : cluster) : Prop := {
  ci_nodes i nd : get_node cl i = Some nd → node_ok nd;
  ci_shards s : sessions n (cl_shards cl s);
  ci_orphans : Forall well_formed (cl_orphans cl);
}.

Lemma get_put_node i o cl nd k : get_node cl i = Some nd →
  get_node (put_node i o cl) k = if decide (k = i) then o else get_node cl k.
Proof.
  unfold get_node, put_node. cbn. intros Hi. case_decide as Hk.
  - subst k. rewrite list_lookup_insert_eq; [done|]. apply lookup_lt_is_Some. destruct (cl_nodes cl !! i); [by eexists|done].
  - by rewrite list_lookup_insert_ne.
Qed.

(** What a shard answers has its type. *)
Lemma serve_truthful n c sh rep sh' :
  well_formed c → n < 2 ^ 53 - 1 → sessions n sh → serve (dc_argv c) sh = (rep, sh') → reply_type c rep.
Proof.
  intros Hf Hn Hs E. unfold reply_type. unfold well_formed in Hf.
  destruct (dc_cb c) as [p|lc|p|p|part| | |p| |p|p|p]; cbn [cmd_form] in Hf; try done.
  - destruct Hf as (_&Ha&Hp). rewrite Ha in E. unfold script_form in Hp. destruct (ep_user p) as [q|q|part]; [..|done].
    + destruct Hp as (_&part&seid&blob&st&_&Hav). rewrite Hav in E. destruct (Hs part seid) as (cur&Hc&Hv).
      by destruct (serve_cas_any sh _ _ cur _ _ _ _ _ Hc ltac:(lia) (or_introl eq_refl) E) as (_&?&_).
    + destruct Hp as (_&part&seid&_&Hav). rewrite Hav in E. destruct (Hs part seid) as (cur&Hc&Hv).
      by destruct (serve_delete_any sh _ _ cur _ _ _ Hc (or_introl eq_refl) E) as (_&?&_).
  - destruct Hf as (_&Ha&_). rewrite Ha in E. destruct (serve_load sh (lc_script_id lc)) as (sh1&E1&_). rewrite E1 in E. by injection E.
  - destruct Hf as (part&seid&_&Ha). destruct (Hs part seid) as (cur&Hc&Hv). rewrite Ha in E.
    change [_; _; _; _] with (op_argv (make_key part seid) OpRead) in E. rewrite (serve_read sh _ cur Hc) in E. injection E as <- _.
    destruct cur as [r|]; [right|by left]. destruct Hc as (Hpos&_). cbn in Hv. exists (sr_data r), (sr_ver r). split; [done|lia].
  - destruct Hf as (part&seid&_&Ha). destruct (Hs part seid) as (cur&Hc&Hv). rewrite Ha in E.
    change [_; _] with (op_argv (make_key part seid) OpConfirm) in E. destruct (serve_confirm sh _ cur Hc) as (s'&E1&_).
    rewrite E1 in E. injection E as <- _. eexists. split; [done|]. destruct (cur ≫= sr_ttl); auto.
Qed.

Lemma sessions_up n n' sh : n <= n' → sessions n sh → sessions n' sh.
Proof. intros Hn H part seid. destruct (H part seid) as (cur&?&?). exists cur. split; [done|lia]. Qed.

Lemma inv_up n n' cl : n <= n' → cl_inv n cl → cl_inv n' cl.
Proof. intros Hn [H1 H2 H3]. split; [done| |done]. intros s. by eapply sessions_up. Qed.

Lemma put_node_inv n cl i nd o :
  cl_inv n cl → get_node cl i = Some nd → (∀ nd', o = Some nd' → node_ok nd') → cl_inv n (put_node i o cl).
Proof.
  intros [H1 H2 H3] Hi Ho. split; [|done|done]. intros k nd'. rewrite (get_put_node i o cl nd k Hi).
  case_decide; [by apply Ho|by apply H1].
Qed.

Lemma put_shard_inv n cl s sh : cl_inv n cl → sessions n sh → cl_inv n (put_shard s sh cl).
Proof. intros [H1 H2 H3] Hs. split; [done| |done]. intros s'. cbn. by case_match. Qed.

Lemma put_orphans_inv n cl cs : cl_inv n cl → Forall well_formed cs → cl_inv n (put_orphans cs cl).
Proof. intros [H1 H2 H3] Hc. by split. Qed.

Lemma unserved_ok nd : node_ok nd → Forall well_formed (unserved nd).
Proof.
  intros Hn. pose proof (co_forms _ _ (nk_cmds _ Hn)) as Hf. unfold unserved. apply Forall_forall.
  intros c ([c' o]&->&[_ Hin%elem_of_zip_l]%list_elem_of_filter)%list_elem_of_fmap. by eapply Forall_forall in Hf.
Qed.

Lemma event_inv n cl i nd e cl1 :
  cl_inv n cl → get_node cl i = Some nd → is_timeout e = false → (nd_running nd || is_boot e) = true →
  true_reply e (nd_world nd) → cl_inv n cl1 → cl_nodes cl1 = cl_nodes cl →
  ∃ cl', cl_event i e nd cl1 = Some cl' ∧ cl_inv n cl'.
Proof.
  intros Hcl Hi He Hr Ht Hcl1 Hn. destruct (nd_step_ok e nd (ci_nodes _ _ Hcl i nd Hi) He Hr Ht) as (w'&_&E&Hok&_).
  unfold cl_event. rewrite E. cbn. eexists. split; [done|]. eapply put_node_inv; [done| |by intros ? [= <-]].
  unfold get_node in *. by rewrite Hn.
Qed.

Lemma slot_true nd j rep : node_ok nd → nd_slots nd !! j = Some (Some rep) → true_reply (EvReply j (Some rep)) (nd_world nd).
Proof. intros Hn Hj c Hc. by eapply (Forall2_lookup_lr _ _ _ _ _ _ (nk_slots _ Hn) Hc Hj). Qed.

Lemma nd_form nd j c : node_ok nd → queue_of nd !! j = Some c → well_formed c.
Proof. intros Hn Hj. pose proof (co_forms _ _ (nk_cmds _ Hn)) as Hf. by eapply Forall_lookup in Hf. Qed.

(** Replies come to running pods and to booting ones. *)
Lemma reply_phase nd j r : (nd_running nd || is_boot (EvReply j r)) = true.
Proof. apply orb_true_r. Qed.

(** Every step is defined and keeps the invariant. *)
Lemma cl_step n l cl : 0 <= n < 2 ^ 53 - 1 → cl_inv n cl → ∃ cl', cl_do l cl = Some cl' ∧ cl_inv (n + 1) cl'.
Proof.
  intros Hn Hcl. pose proof Hcl as [H1 H2 H3]. pose proof (inv_up n (n + 1) cl ltac:(lia) Hcl) as Hup.
  assert (∃ cl', Some cl = Some cl' ∧ cl_inv (n + 1) cl') as Hid by by exists cl.
  destruct l as [da va addr pid now|i|i e|i j|i j|i j|k|k|s key|s|i]; cbn [cl_do].
  - destruct (pod_boot da va addr pid now) as [w|] eqn:Eb; [|done]. eexists. split; [done|]. destruct Hup as [_ Hs Ho]. split; [|done|done].
    intros i nd. unfold get_node. cbn. destruct (decide (i < length (cl_nodes cl))%nat).
    + rewrite lookup_app_l by done. apply H1.
    + rewrite lookup_app_r by lia. destruct (i - _)%nat as [|k]; cbn; [|done]. intros [= <-]. by eapply start_ok.
  - destruct (get_node cl i) as [nd|] eqn:Ei; [|done]. destruct (nd_running nd) eqn:Hr; [done|].
    destruct (init_ok nd (H1 i nd Ei) Hr) as (rc&w'&->&Hok). destruct (Z.eqb_spec rc RET_CODE_OK) as [->|].
    + eexists. split; [done|]. eapply put_node_inv; [done|done|]. intros nd' [= <-]. by apply Hok.
    + eexists. split; [done|]. apply put_orphans_inv; [by eapply put_node_inv|]. apply Forall_app. split; [done|by apply unserved_ok, (H1 i)].
  - destruct (get_node cl i) as [nd|] eqn:Ei; [|done]. destruct (own_event nd e) eqn:Ho; [|done].
    destruct (event_inv (n + 1) cl i nd e cl Hup Ei) as (cl'&?&?); [by destruct e..|done|done|by exists cl'].
  - destruct (get_node cl i) as [nd|] eqn:Ei; [|done]. destruct (queue_of nd !! j) as [c|] eqn:Ej; [|done].
    destruct (nd_slots nd !! j) as [[rep|]|] eqn:Es; [done| |done].
    pose proof (nd_form nd j c (H1 i nd Ei) Ej) as Hf. pose proof (serve_sessions c _ n Hf Hn (H2 (dc_shard c))) as Hs.
    destruct (serve (dc_argv c) _) as [rep sh] eqn:Es'. eexists. split; [done|]. apply put_shard_inv; [|exact Hs].
    eapply put_node_inv; [done|done|]. intros nd' [= <-]. destruct (H1 i nd Ei) as [K1 K2 K3 K4 K5]. split; try done. unfold queue_of in *. cbn.
    rewrite <- (list_insert_id _ _ _ Ej). apply Forall2_insert; [done|]. intros ? [= <-]. eapply (serve_truthful n); [done|lia|exact (H2 (dc_shard c))|exact Es'].
  - destruct (get_node cl i) as [nd|] eqn:Ei; [|done]. destruct (nd_slots nd !! j) as [[rep|]|] eqn:Es; [|done|done].
    eapply event_inv; try done; [apply reply_phase|]. by eapply slot_true; [apply (H1 i)|].
  - destruct (get_node cl i) as [nd|] eqn:Ei; [|done]. destruct (queue_of nd !! j) as [c|] eqn:Ej; [|done].
    destruct (nd_slots nd !! j) as [slot|] eqn:Es; [|done].
    eapply (event_inv (n + 1) cl); try done; [apply reply_phase|..]; destruct slot; try done.
    apply put_orphans_inv; [done|]. apply Forall_app. split; [done|]. constructor; [|done]. by eapply nd_form; [apply (H1 i)|].
  - destruct (cl_orphans cl !! k) as [c|] eqn:Ek; [|done]. eexists. split; [done|].
    assert (well_formed c) by by eapply Forall_lookup in H3.
    apply put_shard_inv; [|by apply serve_sessions]. apply put_orphans_inv; [done|]. by apply Forall_delete.
  - eexists. split; [done|]. apply put_orphans_inv; [done|]. by apply Forall_delete.
  - destruct (rview (sh_store (cl_shards cl s)) !! key) as [[v [ttl|]]|] eqn:Ek; [|done|done]. eexists. split; [done|].
    apply put_shard_inv; [done|]. destruct (del_law (sh_store (cl_shards cl s)) key) as (m&s'&Hd&Hv). rewrite Hd. cbn [snd].
    intros part seid. destruct (H2 s part seid) as (cur&Hc&Hcv). destruct (decide (make_key part seid = key)) as [->|Hne].
    + exists None. cbn. split; [by rewrite Hv, lookup_delete_eq|lia].
    + exists cur. split; [|lia]. eapply rec_at_ext; [|done]. cbn. by rewrite Hv, lookup_delete_ne.
  - eexists. split; [done|]. apply put_shard_inv; [done|]. exact (ci_shards _ _ Hup s).
  - destruct (get_node cl i) as [nd|] eqn:Ei; [|done]. eexists. split; [done|].
    apply put_orphans_inv; [by eapply put_node_inv|]. apply Forall_app. split; [done|by apply unserved_ok, (H1 i)].
Qed.

Lemma initial_inv cl : cl_initial cl → cl_inv 0 cl.
Proof.
  intros (Hn&Ho&Hs). split.
  - intros i nd. unfold get_node. by rewrite Hn, lookup_nil.
  - intros s part seid. exists None. split; [apply Hs|done].
  - rewrite Ho. constructor.
Qed.

(** The number of steps bounds every version. *)
Definition MAX_STEPS : Z := 2 ^ 53 - 1.

Lemma run_inv ls : ∀ n cl, cl_inv n cl → 0 <= n → n + Z.of_nat (length ls) <= MAX_STEPS →
  ∃ cl', cl_run ls cl = Some cl' ∧ cl_inv (n + Z.of_nat (length ls)) cl'.
Proof.
  induction ls as [|l ls IH]; intros n cl Hcl Hn Hl; cbn [cl_run length] in *.
  { exists cl. by rewrite Z.add_0_r. }
  destruct (cl_step n l cl ltac:(unfold MAX_STEPS in Hl; lia) Hcl) as (cl1&->&Hcl1).
  destruct (IH (n + 1) cl1 Hcl1) as (cl'&E&Hcl'); [lia..|]. exists cl'. split; [done|].
  by replace (n + Z.of_nat (S (length ls))) with (n + 1 + Z.of_nat (length ls)) by lia.
Qed.

(** C14: the database protocol is well typed.  In any run of a cluster, with
    pods starting, crashing and being replaced, lost connections, late and
    lost commands, expiring leases and flushed script caches, no step is
    undefined; every command in flight, of a live pod or left behind by a dead
    one, has the form that belongs to its callback (shard, key and arguments,
    for a script the SHA-1 of the right text); every reply on its way to a
    session callback has the type that callback parses; and on every shard
    every session key holds a record with data and a version, or nothing. *)
Theorem cluster_well_typed cl ls :
  cl_initial cl → Z.of_nat (length ls) <= MAX_STEPS →
  ∃ cl', cl_run ls cl = Some cl' ∧
    (∀ i nd, get_node cl' i = Some nd → Forall well_formed (queue_of nd) ∧
       Forall2 (λ c slot, ∀ rep, slot = Some rep → reply_type c rep) (queue_of nd) (nd_slots nd)) ∧
    Forall well_formed (cl_orphans cl') ∧
    ∀ s part seid, ∃ cur, rec_at (sh_store (cl_shards cl' s)) (make_key part seid) cur ∧ ver_of cur <= Z.of_nat (length ls).
Proof.
  intros Hi Hl. destruct (run_inv ls 0 cl (initial_inv cl Hi)) as (cl'&E&[H1 H2 H3]); [lia|lia|].
  exists cl'. split; [done|]. split; [|split; [done|exact H2]]. intros i nd Hnd.
  destruct (H1 i nd Hnd) as [K1 K2 _ _ _]. split; [apply (co_forms _ _ K2)|exact K1].
Qed.

(** C32: in VDP_WAIT the sweeper deletes nothing.  Its branch "establishment:
    delete the pending record" runs when db_ver is 0, but the CAS callback that
    puts an establishment into VDP_WAIT has stored version 1, and a
    modification or deletion in VDP_WAIT holds the version of a record that
    some script wrote, at least 1.  So in any run of a cluster, whenever a hard
    timeout first strikes a transaction of a running pod in VDP_WAIT, the
    recovery action changes nothing at all, and an establishment's pending
    record waits for its TTL.  (The branch would be reached by a deletion
    whose session record carried version 0, which no script of the repository
    writes.) *)
Theorem vdp_timeout_deletes_nothing cl ls :
  cl_initial cl → Z.of_nat (length ls) <= MAX_STEPS →
  ∃ cl', cl_run ls cl = Some cl' ∧
    ∀ i nd t x, get_node cl' i = Some nd → nd_running nd = true →
      hp_mem (w_txns (nd_world nd)) !! t = Some x → t_state x = TXN_ST_VDP_WAIT →
      1 <= t_db_ver x ∧ timeout_action iu x (nd_world nd) = Some (tt, nd_world nd).
Proof.
  intros Hi Hl. destruct (run_inv ls 0 cl (initial_inv cl Hi)) as (cl'&E&[H1 _ _]); [lia|lia|].
  exists cl'. split; [done|]. intros i nd t x Hnd Hrun Hx Hst. pose proof (H1 i nd Hnd) as Hok.
  pose proof (nk_phase _ Hok) as Hw. rewrite Hrun in Hw. pose proof (proj1 (pod_reachable_inv _ Hw)) as HO.
  destruct (proj2 (procs_dom _ HO t) ltac:(by eexists)) as [[[r s] k] Hp].
  pose proof (role_of _ t r s k x HO Hp Hx) as (_&_&_&Hrs&_).
  assert (1 <= t_db_ver x) as Hv by (eapply (nk_vdp _ Hok Hrun); [exact Hp|congruence|exact Hx]).
  split; [done|]. unfold timeout_action. rewrite Hst. by case_match; [lia|].
Qed.

End inv.
