(* ===== verification/Versions.v ===== *)
(** The session records over a run of the cluster.  Whatever the pods do and
    whatever fails, a record is only created at version 1, replaced under the
    next version, kept, or removed; so a version that is seen twice without a
    removal in between is one and the same record. *)
From S2P Require Import Prelude Seid Dpdk Heap Redis Scripts World DbScript SessStore RetransCache IdAlloc.
From S2P Require Import DispatchQ NodeState Flow Sweeper Pod Server Pools SessCas SessHistory Own OwnPod Boot Safety.
From S2P Require Import Protocol Progress Procedures ProtocolRefine Commands Registers Records Cluster ClusterInv.

Section versions.
Context {DP : Dpdk} {PP : PfcpPort} {R : Redis} {L : Lua} {SS : ScriptSha}.

Variables (part seid : Z).
Abbreviation key := (make_key part seid).

(** The record of the session on shard [s]. *)
Definition record_of (s : Z) (cl : cluster) (cur : option sess_rec) : Prop := rec_at (sh_store (cl_shards cl s)) key cur.

Lemma cl_event_shards i e nd cl cl' : cl_event i e nd cl = Some cl' → cl_shards cl' = cl_shards cl.
Proof. unfold cl_event. destruct (nd_step e nd); [|done]. by intros [= <-]. Qed.

(** The shard of a command is the one that changes. *)
Lemma served_step n s cl c cl1 cur :
  cl_inv n cl → n < 2 ^ 53 - 1 → well_formed c → record_of s cl cur → cl_shards cl1 = cl_shards cl →
  ∃ cur', record_of s (put_shard (dc_shard c) (serve (dc_argv c) (cl_shards cl (dc_shard c))).2 cl1) cur' ∧ evolves cur cur'.
Proof.
  intros Hcl Hn Hf Hc H1. unfold record_of, put_shard. cbn. destruct (Z.eqb_spec s (dc_shard c)) as [->|Hne].
  - by eapply serve_evolves; [| |apply (ci_shards _ _ Hcl)|].
  - rewrite H1. exists cur. split; [done|apply evolves_refl].
Qed.

(** One step of the cluster. *)
Lemma step_evolves n l cl cl' s cur :
  cl_inv n cl → n < 2 ^ 53 - 1 → cl_do l cl = Some cl' → record_of s cl cur → ∃ cur', record_of s cl' cur' ∧ evolves cur cur'.
Proof.
  intros Hcl Hn Hdo Hc. assert (∀ cl1, cl_shards cl1 = cl_shards cl → Some cl1 = Some cl' → ∃ cur', record_of s cl' cur' ∧ evolves cur cur') as Hsame.
  { intros cl1 H1 [= <-]. exists cur. unfold record_of. rewrite H1. split; [done|apply evolves_refl]. }
  assert (∀ i e nd cl1, cl_shards cl1 = cl_shards cl → cl_event i e nd cl1 = Some cl' → ∃ cur', record_of s cl' cur' ∧ evolves cur cur') as Hev.
  { intros i e nd cl1 H1 E. apply (Hsame cl'); [|done]. by rewrite (cl_event_shards _ _ _ _ _ E). }
  destruct l as [da va addr pid now|k|k e|k j|k j|k j|k|k|s' k|s'|k]; cbn [cl_do] in Hdo;
    repeat match type of Hdo with context [get_node cl k] => destruct (get_node cl k) as [nd|] eqn:Ek end;
    try (by eapply Hsame, Hdo).
  - destruct (pod_boot _ _ _ _ _); by eapply Hsame, Hdo.
  - destruct (nd_running nd); [by eapply Hsame, Hdo|]. destruct (v_id_alloc_init iu _) as [[rc w']|]; [|done].
    destruct (rc =? RET_CODE_OK); by eapply Hsame, Hdo.
  - destruct (own_event nd e); [|by eapply Hsame, Hdo]. by eapply Hev, Hdo.
  - destruct (queue_of nd !! j) as [c|] eqn:Ej; [|by eapply Hsame, Hdo].
    destruct (nd_slots nd !! j) as [[rep|]|]; [by eapply Hsame, Hdo| |by eapply Hsame, Hdo].
    pose proof (nd_form nd j c (ci_nodes _ _ Hcl k nd Ek) Ej) as Hf.
    pose proof (λ cl1, served_step n s cl c cl1 cur Hcl Hn Hf Hc) as Hs.
    destruct (serve (dc_argv c) _) as [rep sh]. injection Hdo as <-. by apply Hs.
  - destruct (nd_slots nd !! j) as [[rep|]|]; [|by eapply Hsame, Hdo..]. by eapply Hev, Hdo.
  - destruct (queue_of nd !! j) as [c|]; [|by eapply Hsame, Hdo]. destruct (nd_slots nd !! j) as [slot|]; [|by eapply Hsame, Hdo].
    destruct slot; by eapply Hev, Hdo.
  - destruct (cl_orphans cl !! k) as [c|] eqn:Eo; [|by eapply Hsame, Hdo]. injection Hdo as <-.
    apply (served_step n); try done. by eapply Forall_lookup, Eo; apply Hcl.
  - destruct (rview (sh_store (cl_shards cl s')) !! k) as [[v [ttl|]]|] eqn:Ev; try (by eapply Hsame, Hdo). injection Hdo as <-.
    unfold record_of, put_shard. cbn [cl_shards]. destruct (Z.eqb_spec s s') as [->|Hne]; [|exists cur; split; [done|apply evolves_refl]].
    destruct (del_law (sh_store (cl_shards cl s')) k) as (m&st&Hd&Hv). cbn in Hd. rewrite Hd. cbn [snd sh_store].
    destruct (decide (key = k)) as [Hk|Hne].
    + exists None. split; [|constructor]. cbn [rec_at]. rewrite Hv, Hk. apply lookup_delete_eq.
    + exists cur. split; [|apply evolves_refl]. eapply rec_at_ext; [|exact Hc]. by rewrite Hv, lookup_delete_ne.
  - injection Hdo as <-. unfold record_of, put_shard. cbn. exists cur. split; [|apply evolves_refl].
    by destruct (Z.eqb_spec s s') as [->|].
Qed.

(** The record is gone at some point of the run. *)
Definition gone_within (s : Z) (ls : list cl_label) (cl : cluster) : Prop :=
  ∃ pre post clm, ls = pre ++ post ∧ cl_run pre cl = Some clm ∧ record_of s clm None.

Lemma gone_later s l ls cl cl1 : cl_do l cl = Some cl1 → gone_within s ls cl1 → gone_within s (l :: ls) cl.
Proof. intros E (pre&post&clm&->&Hr&Hg). exists (l :: pre), post, clm. cbn. by rewrite E. Qed.

(** Without that its version only grows, and says which record it is. *)
Lemma run_versions s ls : ∀ n cl cl' r,
  cl_inv n cl → 0 <= n → n + Z.of_nat (length ls) < 2 ^ 53 - 1 → cl_run ls cl = Some cl' → record_of s cl (Some r) →
  gone_within s ls cl ∨
  ∃ r', record_of s cl' (Some r') ∧ sr_ver r <= sr_ver r' ∧ (sr_ver r' = sr_ver r → sr_data r' = sr_data r).
Proof.
  induction ls as [|l ls IH]; intros n cl cl' r Hcl Hn Hl Hrun Hr; cbn [cl_run length] in *.
  { injection Hrun as <-. right. by exists r. }
  destruct (cl_do l cl) as [cl1|] eqn:E; [|done]. cbn in Hrun.
  destruct (cl_step n l cl ltac:(lia) Hcl) as (cl1'&E'&Hcl1). assert (cl1' = cl1) as -> by congruence.
  destruct (step_evolves n l cl cl1 s (Some r) Hcl ltac:(lia) E Hr) as (cur&Hc&He).
  remember (Some r) as cur0 eqn:E0. destruct He as [cur0|data ttl|v data ttl data' ttl'|v data ttl ttl']; [|done|..].
  - left. exists [l], ls, cl1. split; [done|]. cbn. by rewrite E.
  - injection E0 as <-. destruct (IH (n + 1) cl1 cl' _ Hcl1 ltac:(lia) ltac:(lia) Hrun Hc) as [Hg|(r'&Hr'&Hv&_)]; [by left; eapply gone_later|].
    right. exists r'. cbn in *. split; [done|]. split; [lia|]. intros. lia.
  - injection E0 as <-. destruct (IH (n + 1) cl1 cl' _ Hcl1 ltac:(lia) ltac:(lia) Hrun Hc) as [Hg|(r'&Hr'&Hv&Hd)]; [by left; eapply gone_later|].
    right. exists r'. by cbn in *.
Qed.

End versions.
