(* ===== verification/Effects.v ===== *)
(** Acceptance means effect: when a pod of a cluster accepts a request, then
    since the request began its session's record was created, replaced or
    removed in the database, whatever other pods, crashes, lost connections
    and expiries did meanwhile. *)
From S2P Require Import Prelude Seid Dpdk Heap Redis Scripts World DbScript SessStore RetransCache IdAlloc.
From S2P Require Import DispatchQ NodeState Flow Sweeper Pod Server Preserve Pools SessCas SessHistory Own OwnPod Boot Safety.
From S2P Require Import Protocol Progress Procedures ProtocolRefine Commands Registers Records Cluster ClusterInv.

Section effects.
Context {DP : Dpdk} {PP : PfcpPort} {R : Redis} {L : Lua} {SS : ScriptSha}.

(** ** Effects *)

(** What the procedures do to their record, by their first callback: an
    establishment creates it, pending; a modification replaces its data and
    counts its version up; a deletion removes it. *)
Definition effect (cb : v_retrans_cb_t) (key : bytes) (sh sh' : shard) : Prop :=
  match cb with
  | fp_retrans_lookup_cb => rec_at (sh_store sh) key None ∧
      ∃ data, rec_at (sh_store sh') key (Some (SessRec 1 data (Some V_SESS_PENDING_TTL)))
  | fp_mod_retrans_lookup_cb => ∃ r data, rec_at (sh_store sh) key (Some r) ∧
      rec_at (sh_store sh') key (Some (SessRec (sr_ver r + 1) data (sr_ttl r)))
  | fp_del_retrans_lookup_cb => ∃ r, rec_at (sh_store sh) key (Some r) ∧ rec_at (sh_store sh') key None
  end.

(** Among the steps [ls] from [cl] a shard serves a command of pod [i] that
    has the effect. *)
Definition took (i : nat) (cb : v_retrans_cb_t) (key : bytes) (cl : cluster) (ls : list cl_label) : Prop :=
  ∃ pre j post cla clb, ls = pre ++ ClServe i j :: post ∧ cl_run pre cl = Some cla ∧
    cl_do (ClServe i j) cla = Some clb ∧
    let s := v_port_db_shard_of key in effect cb key (cl_shards cla s) (cl_shards clb s).

Lemma took_more i cb key cl ls ls' : took i cb key cl ls → took i cb key cl (ls ++ ls').
Proof.
  intros (pre&j&post&cla&clb&->&H). exists pre, j, (post ++ ls'), cla, clb. split; [by rewrite <- app_assoc|done].
Qed.

(** The first callback of the procedure of a role. *)
Definition procedure (r : role) : v_retrans_cb_t :=
  match r with
  | RLookup cb => cb
  | RCas fp_cas_write_cb _ | RVdp fp_vdp_create_cb | RConfirm => fp_retrans_lookup_cb
  | RRead fp_mod_read_cb _ | RCas fp_mod_cas_cb _ | RVdp fp_mod_vdp_cb | RCas fp_mod_compensate_write_cb _ => fp_mod_retrans_lookup_cb
  | _ => fp_del_retrans_lookup_cb
  end.

(** The CAS of a procedure. *)
Definition main_cas (r : role) : bool :=
  match r with RCas (fp_cas_write_cb | fp_mod_cas_cb | fp_del_delete_cb) _ => true | _ => false end.

(** The roles that come after the CAS. *)
Definition past_cas (r : role) : bool :=
  match r with RVdp (fp_vdp_create_cb | fp_mod_vdp_cb) | RConfirm => true | _ => false end.

Lemma step_procedure r k c r' s' k' : proc_step r k c (Wait r' s' k') →
  procedure r' = procedure r ∧
  (past_cas r' = true → past_cas r = true ∨ main_cas r = true ∧ ∃ reply, c = CReply reply ∧ cas_result reply = Some V_CAS_OK).
Proof.
  intros H. remember (Wait r' s' k') as o eqn:Eo. destruct H;
    repeat match goal with H : match cas_result ?r with _ => _ end |- _ => destruct (cas_result r) as [[]|] eqn:? end;
    outcomes; try discriminate; try case_match; try discriminate; simplify_eq; (split; [done|]); try done.
  all: intros _; first [by left | right; split; [done|]; by eexists].
Qed.

(** What acceptance takes. *)
Lemma step_accepted r k c : proc_step r k c ACCEPTED →
  past_cas r = true ∨ main_cas r = true ∧ ∃ reply, c = CReply reply ∧ cas_result reply = Some V_CAS_OK.
Proof.
  intros H. remember ACCEPTED as o eqn:Eo. destruct H;
    repeat match goal with H : match cas_result ?r with _ => _ end |- _ => destruct (cas_result r) as [[]|] eqn:? end;
    outcomes; try discriminate; try by left. right. split; [done|]. by eexists.
Qed.

(** The same through the transport: the CAS is answered at a stage where an
    EVALSHA is in flight. *)
Lemma wait_procedure r s k c r' s' k' : wait_step r s k c (Wait r' s' k') →
  procedure r' = procedure r ∧
  (past_cas r' = true → past_cas r = true ∨
     main_cas r = true ∧ (s = 0 ∨ s = 2)%nat ∧ ∃ reply, c = CReply reply ∧ cas_result reply = Some V_CAS_OK).
Proof.
  assert (∀ c, proc_step r k (CReply None) (Wait r' s' k') → procedure r' = procedure r ∧
    (past_cas r' = true → past_cas r = true ∨ main_cas r = true ∧ (s = 0 ∨ s = 2)%nat ∧ ∃ reply, c = CReply reply ∧ cas_result reply = Some V_CAS_OK)) as Hnone.
  { intros c' [Hp Hc]%step_procedure. split; [done|]. intros [?|(_&reply&[= <-]&?)]%Hc; [by left|done]. }
  intros H. remember (Wait r' s' k') as o eqn:Eo.
  destruct H as [r k c o H|r k reply o Hn H|r k reply o Hn [->|H]|r s k reply o Hs Hsha [->|H]|r s k reply o Hs Hsha H]; subst; try (by eapply Hnone).
  - apply step_procedure in H as [Hp Hc]. split; [done|]. intros [?|[? ?]]%Hc; [by left|]. right. split; [done|]. by split; [left|].
  - apply step_procedure in H as [Hp Hc]. split; [done|]. intros [?|[? ?]]%Hc; [by left|]. right. split; [done|]. by split; [right|].
  - injection Eo as <- <- <-. auto.
  - injection Eo as <- <- <-. auto.
Qed.

Lemma wait_accepted r s k c : wait_step r s k c ACCEPTED →
  past_cas r = true ∨ main_cas r = true ∧ (s = 0 ∨ s = 2)%nat ∧ ∃ reply, c = CReply reply ∧ cas_result reply = Some V_CAS_OK.
Proof.
  assert (∀ c, proc_step r k (CReply None) ACCEPTED → past_cas r = true ∨
    main_cas r = true ∧ (s = 0 ∨ s = 2)%nat ∧ ∃ reply, c = CReply reply ∧ cas_result reply = Some V_CAS_OK) as Hnone.
  { intros c' [?|(_&reply&[= <-]&?)]%step_accepted; [by left|done]. }
  intros H. remember ACCEPTED as o eqn:Eo.
  destruct H as [r k c o H|r k reply o Hn H|r k reply o Hn [->|H]|r s k reply o Hs Hsha [->|H]|r s k reply o Hs Hsha H]; subst;
    try (by eapply Hnone); try discriminate.
  - apply step_accepted in H as [?|[? ?]]; [by left|]. right. split; [done|]. by split; [left|].
  - apply step_accepted in H as [?|[? ?]]; [by left|]. right. split; [done|]. by split; [right|].
Qed.

(** ** The CAS of a procedure on its shard *)

Lemma main_user u r t : user_conts u = [(r, t)] → main_cas r = true →
  (∃ q, u = fp_cas_write_reply_cb q ∧ r = RCas (cp_cb q) (cp_exp_ver q) ∧ (cp_cb q = fp_cas_write_cb ∨ cp_cb q = fp_mod_cas_cb)) ∨
  (∃ q, u = fp_delete_reply_cb q ∧ r = RCas fp_del_delete_cb (cp_exp_ver q)).
Proof.
  intros Hu Hr. assert (r ≠ RBad) as Hb by by intros ->. destruct u as [q|q|part]; [..|done].
  - left. exists q. split; [done|]. pose proof Hu as (_&->&_)%cas_conts_inv; [|done]. split; [done|].
    cbn [user_conts] in Hu. unfold cas_conts in Hu. destruct (cp_cb q); try done; [by left|by right].
  - right. exists q. split; [done|]. cbn [user_conts] in Hu. pose proof Hu as (_&->&_)%del_conts_inv; [|done].
    unfold del_conts in Hu. destruct (cp_cb q); try done; by injection Hu.
Qed.

(** A CAS in flight at such a stage is an EVALSHA. *)
Lemma main_evalsha cb r t : cb_conts cb = [(r, t)] → main_cas r = true → (stage cb = 0 ∨ stage cb = 2)%nat →
  ∃ p, cb = fp_evalsha_reply_cb p ∧ user_conts (ep_user p) = [(r, t)].
Proof.
  destruct cb as [p|lc|p|p|part| | |p| |p|p|p]; cbn [cb_conts stage]; try done.
  - by exists p.
  - destruct (lc_resume lc) as [p|]; [|done]. destruct (ep_retried p); intros _ _ [|]; lia.
  - by destruct (rp_arg p); intros [= <- _].
  - destruct (sp_cb p); [|done]. by destruct (sp_arg p); intros [= <- _].
  - by destruct (rt_arg p); intros [= <- _].
Qed.

(** It names the session of its transaction. *)
Lemma main_key w j c p r t x : Own no_amb None [] [] w → db_queue (w_db w) !! j = Some c →
  dc_cb c = fp_evalsha_reply_cb p → user_conts (ep_user p) = [(r, t)] → main_cas r = true → txn_at w t = Some x →
  dc_argv c = ep_argv p ∧ dc_shard c = ep_shard p ∧ script_call x p ∧ dc_argv c !! 3%nat = Some (session_key x).
Proof.
  intros HO Hj Hcb Hu Hr Hx. destruct (o_cmds _ _ _ _ _ HO c) as [_ Ha]; [by eapply list_elem_of_lookup_2|].
  specialize (Ha r t x). rewrite Hcb in Ha. cbn [cb_conts asks] in Ha. destruct Ha as (Hs&Hav&Hcall); [rewrite Hu; by left|done|].
  split; [done|]. split; [done|]. split; [done|]. rewrite Hav. unfold script_call in Hcall.
  destruct (main_user _ _ _ Hu Hr) as [(q&Eq&_)|(q&Eq&_)]; rewrite Eq in Hcall.
  - destruct Hcall as (_&_&sha&blob&->). done.
  - destruct Hcall as (_&_&sha&->). done.
Qed.

Lemma nth_part (l l' : list bytes) i y y' : l = l' → l !! i = Some y → l' !! i = Some y' → y = y'.
Proof. intros <-. congruence. Qed.

Lemma ttl_inj st st' : snprintf 8 (dec (state_ttl st)) = snprintf 8 (dec (state_ttl st')) → st = st'.
Proof. by destruct st, st'. Qed.

Lemma dec_zero_iff v : 0 <= v < 2 ^ 64 → snprintf 24 (dec v) = $"0" → v = 0.
Proof. intros Hv. rewrite ver_str_full by u_lia. rewrite <- dec_zero. intros H. apply dec_inj in H; u_lia. Qed.

(** What the success of a CAS with arguments [argv] does to the record. *)
Definition cas_effect (r : role) (argv : list bytes) (key : bytes) (sh sh' : shard) : Prop :=
  match r with
  | RCas fp_cas_write_cb _ => rec_at (sh_store sh) key None ∧
      ∃ data, argv !! 5%nat = Some data ∧ rec_at (sh_store sh') key (Some (SessRec 1 data (Some V_SESS_PENDING_TTL)))
  | RCas fp_mod_cas_cb v => ∃ r data, argv !! 5%nat = Some data ∧ rec_at (sh_store sh) key (Some r) ∧
      snprintf 24 (dec v) = dec (sr_ver r) ∧ rec_at (sh_store sh') key (Some (SessRec (sr_ver r + 1) data (sr_ttl r)))
  | RCas fp_del_delete_cb v => ∃ r, rec_at (sh_store sh) key (Some r) ∧ snprintf 24 (dec v) = dec (sr_ver r) ∧
      rec_at (sh_store sh') key None
  | _ => False
  end.

Lemma cas_effect_of r argv key sh sh' : cas_effect r argv key sh sh' → effect (procedure r) key sh sh'.
Proof.
  destruct r as [| |[]| | |]; cbn [cas_effect effect procedure]; try done.
  - intros (?&data&_&?). split; [done|]. by exists data.
  - intros (r&data&_&?&_&?). by exists r, data.
  - intros (r&?&_&?). by exists r.
Qed.

(** Serving it successfully has that effect. *)
Lemma serve_effect n w j c p r t x sh reply sh' :
  Own no_amb None [] [] w → mod_versions w → db_queue (w_db w) !! j = Some c → well_formed c →
  dc_cb c = fp_evalsha_reply_cb p → user_conts (ep_user p) = [(r, t)] → main_cas r = true → txn_at w t = Some x →
  n < 2 ^ 53 - 1 → sessions n sh → serve (dc_argv c) sh = (reply, sh') → cas_result (Some reply) = Some V_CAS_OK →
  dc_shard c = v_port_db_shard_of (session_key x) ∧ cas_effect r (dc_argv c) (session_key x) sh sh'.
Proof.
  intros HO Hv Hj Hf Hcb Hu Hr Hx Hn Hs E Hok.
  destruct (main_key w j c p r t x HO Hj Hcb Hu Hr Hx) as (Ha&Hsh&Hcall&_).
  assert (reply = V_DB_REPLY_INTEGER 1) as -> by by (destruct reply as [| |[|[]|]| | |]; cbn in Hok; repeat case_match).
  assert (∃ s k, procs w !! t = Some (r, s, k)) as (s&k&Hp).
  { eexists _, _. eapply queue_proc; [done|done|]. rewrite Hcb. exact Hu. }
  assert (role_ver r x) as Hver.
  { apply procs_lookup in Hp as [Hin%wait_role _]; [|done]. destruct (o_role _ _ _ _ _ HO _ _ Hin) as (y&Hy&(_&_&Hy'&_)).
    unfold txn_at in Hx. by simplify_eq. }
  unfold well_formed in Hf. rewrite Hcb in Hf. destruct Hf as (_&_&Hf). unfold script_form in Hf. unfold script_call in Hcall.
  rewrite Ha in E |- *. rewrite Hsh. destruct (Hs (t_part_id x) (t_seid x)) as (cur&Hc&Hcv). fold (session_key x) in Hc.
  destruct (main_user _ _ _ Hu Hr) as [(q&Eq&->&Hq)|(q&Eq&->)]; rewrite Eq in Hf, Hcall.
  - destruct Hcall as (->&_&sha&blob&Hav). destruct Hf as (_&part&seid&blob'&st&_&Hav'). split; [done|].
    assert (ep_argv p = evalsha_of V_SCRIPT_SESS_CAS_WRITE [session_key x]
      [snprintf 24 (dec (cp_exp_ver q)); blob; snprintf 8 (dec (state_ttl (write_state (cp_cb q))))]) as Hcmd.
    { rewrite Hav' in Hav |- *. pose proof (λ i y y', nth_part _ _ i y y' Hav) as Hn'.
      pose proof (Hn' 3%nat _ _ eq_refl eq_refl) as Hkey. pose proof (Hn' 5%nat _ _ eq_refl eq_refl) as Hblob.
      pose proof (Hn' 6%nat _ _ eq_refl eq_refl) as Httl. apply (ttl_inj st (write_state (cp_cb q))) in Httl.
      by rewrite Hkey, Hblob, Httl. }
    rewrite Hcmd in E |- *. destruct (serve_cas_any sh (session_key x) (session_key x) cur _ _ _ _ _ Hc ltac:(lia) (or_introl eq_refl) E) as (_&_&Hw).
    destruct (Hw eq_refl eq_refl) as (cur'&Hc'&Hw'). clear Hw. destruct Hq as [Hq|Hq]; rewrite Hq in *; cbn in Hver; cbn [cas_effect].
    + rewrite Hver in Hw'. destruct Hw' as [(_&->&->)|(r&->&He&_)]; [split; [done|by exists blob]|].
      destruct Hc as (Hpos&_). rewrite dec_zero in He. change (snprintf 24 $"0") with $"0" in He. rewrite <- dec_zero in He.
      apply dec_inj in He; u_lia.
    + specialize (Hv t _ _ _ Hp). destruct Hw' as [(He&_)|(r&->&He&->)].
      * apply dec_zero_iff in He; lia.
      * by exists r, blob.
  - destruct Hcall as (->&_&sha&Hav). destruct Hf as (_&part&seid&_&Hav'). split; [done|].
    assert (ep_argv p = evalsha_of V_SCRIPT_SESS_DELETE [session_key x] [snprintf 24 (dec (cp_exp_ver q))]) as Hcmd.
    { rewrite Hav' in Hav |- *. by rewrite (nth_part _ _ 3%nat _ _ Hav eq_refl eq_refl). }
    rewrite Hcmd in E. destruct (serve_delete_any sh (session_key x) (session_key x) cur _ _ _ Hc (or_introl eq_refl) E) as (_&_&Hw).
    destruct (Hw eq_refl eq_refl) as (Hc'&r&->&He). by exists r.
Qed.

(** ** The life of one transaction *)

Section life.
Variables (t : Z) (cb : v_retrans_cb_t) (sid : Z * Z).

(** What the success of the CAS of a procedure on a key shows; once shown, it
    stays so. *)
Variable claim : list cl_label → v_retrans_cb_t → bytes → Prop.
Hypothesis claim_more : ∀ ls ls' cb key, claim ls cb key → claim (ls ++ ls') cb key.

(** A successful reply on its way to the CAS of [t] was earned. *)
Definition paid (ls : list cl_label) (c : db_cmd) (slot : option v_db_reply) : Prop :=
  ∀ p r key rep, slot = Some rep → dc_cb c = fp_evalsha_reply_cb p → user_conts (ep_user p) = [(r, t)] →
    main_cas r = true → dc_argv c !! 3%nat = Some key → cas_result (Some rep) = Some V_CAS_OK →
    claim ls (procedure r) key.

(** And so was the progress past the CAS. *)
Record credit (ls : list cl_label) (nd : node) : Prop := {
  cr_slots : Forall2 (paid ls) (queue_of nd) (nd_slots nd);
  cr_past r s k x : procs (nd_world nd) !! t = Some (r, s, k) → past_cas r = true → txn_at (nd_world nd) t = Some x →
    claim ls (procedure r) (session_key x);
  cr_proc r s k : procs (nd_world nd) !! t = Some (r, s, k) → procedure r = cb;
  cr_sess x : txn_at (nd_world nd) t = Some x → cb ≠ fp_retrans_lookup_cb → ident x = sid;
}.

Lemma credit_more ls ls' nd : credit ls nd → credit (ls ++ ls') nd.
Proof.
  intros [H1 H2 H3 H4]. split; [|intros; by eapply claim_more, H2|done..]. eapply Forall2_impl; [exact H1|].
  intros c slot Hp p r key rep ? ? ? ? ? ?. by eapply claim_more, Hp.
Qed.

(** The delivered reply is the one in the slot. *)
Definition delivers (e : event) (nd : node) : Prop := ∀ j rep, e = EvReply j (Some rep) → nd_slots nd !! j = Some (Some rep).

(** A successful CAS that completes was earned. *)
Lemma completed_took ls e nd r s k x reply :
  node_ok nd → nd_running nd = true → delivers e nd → credit ls nd →
  completion_of e (nd_world nd) = Some (t, CReply reply) → procs (nd_world nd) !! t = Some (r, s, k) →
  main_cas r = true → (s = 0 ∨ s = 2)%nat → cas_result reply = Some V_CAS_OK → txn_at (nd_world nd) t = Some x →
  claim ls (procedure r) (session_key x).
Proof.
  intros Hn Hrun Hd [H1 _ _ _] Hc Hp Hr Hs Hok Hx. pose proof (nk_phase _ Hn) as Hw. rewrite Hrun in Hw.
  pose proof (proj1 (pod_reachable_inv _ Hw)) as HO.
  destruct (completion_source _ _ _ _ HO Hc) as (r'&s'&Hp'&j&cmd&->&Hj&Hcmd&->).
  rewrite Hp in Hp'. injection Hp' as <- -> _. destruct reply as [rep|]; [|done]. specialize (Hd j rep eq_refl).
  destruct (main_evalsha _ _ _ Hcmd Hr Hs) as (p&Hcb&Hu).
  destruct (main_key _ j cmd p r t x HO Hj Hcb Hu Hr Hx) as (_&_&_&Hkey).
  by eapply (Forall2_lookup_lr _ _ _ _ _ _ H1 Hj Hd).
Qed.

Lemma credit_event ls e nd w' p :
  node_ok nd → nd_running nd = true → is_timeout e = false → delivers e nd →
  pod_step e (nd_world nd) = Some (tt, w') → cmds_ok (remaining e (queue_of nd)) w' →
  procs (nd_world nd) !! t = Some p → credit ls nd → credit ls (nd_after e w' nd).
Proof.
  intros Hn Hrun He Hd E Hq Hp Hcr. change (nd_world (nd_after e w' nd)) with w'.
  set (w := nd_world nd) in *. pose proof (nk_phase _ Hn) as Hw. rewrite Hrun in Hw. fold w in Hw.
  pose proof (proj1 (pod_reachable_inv _ Hw)) as HO. pose proof (proj1 (pod_reachable_inv _ (reachable_step w e w' Hw He E))) as HO'.
  assert (∀ r' s' k' x', procs w' !! t = Some (r', s', k') → txn_at w' t = Some x' → procedure r' = cb ∧
    (past_cas r' = true → claim ls (procedure r') (session_key x')) ∧ (cb ≠ fp_retrans_lookup_cb → ident x' = sid)) as H.
  2: { assert (∀ r' s' k', procs w' !! t = Some (r', s', k') → is_Some (txn_at w' t)) as Hx by (intros; apply (procs_dom w' HO'); by eexists).
       split; [apply slots_after; [by intros c ? ? ? ? [=]|apply Hcr|done]|..].
       - intros r' s' k' x' Hp' Hpast Hx'. by eapply (H r' s' k').
       - intros r' s' k' Hp'. destruct (Hx _ _ _ Hp') as [x' Hx']. by eapply (H r' s' k').
       - intros x' Hx' Hcb. destruct (proj2 (procs_dom w' HO' t) ltac:(by eexists)) as [[[r' s'] k'] Hp']. by eapply (H r' s' k'). }
  intros r' s' k' x' Hr' Hx'. destruct (step_follows w e Hw He) as (w1&E1&Hf). assert (w1 = w') as -> by congruence.
  pose proof (event_touches e w w' He HO E) as Ht.
  assert (is_Some (txn_at w t)) as [x Hx] by (apply (procs_dom w HO); by eexists). destruct p as [[r s] k].
  (* [t] is left alone *)
  assert (procs w' !! t = procs w !! t → ident x' = ident x → procedure r' = cb ∧
    (past_cas r' = true → claim ls (procedure r') (session_key x')) ∧ (cb ≠ fp_retrans_lookup_cb → ident x' = sid)) as Hsame.
  { intros Hpp Hid. rewrite Hpp in Hr'. split; [by eapply (cr_proc _ _ Hcr)|]. split; [|intros; rewrite Hid; by eapply (cr_sess _ _ Hcr)].
    intros Hpast. unfold session_key. injection Hid as -> ->. by eapply (cr_past _ _ Hcr). }
  unfold follows in Hf. destruct (completion_of e w) as [[u c]|] eqn:Ec.
  - destruct Hf as (r0&s0&k0&o&Hu&Hs&Hpr&_). destruct Ht as (r1&s1&Hin&Ht&_).
    destruct (Ht t x' Hx') as (y&Hy&Hxy). assert (y = x) as -> by congruence. destruct (decide (t = u)) as [<-|Hne].
    + assert (procs w !! t = Some (r1, s1, retry_of w t)) as H1 by by apply procs_lookup.
      rewrite Hp in Hu, H1. simplify_eq. destruct Hxy as [Hid _].
      destruct o as [r2 s2 k2|a]; cbn [proc_put] in Hpr; rewrite Hpr in Hr'; [|by rewrite lookup_delete_eq in Hr'].
      rewrite lookup_insert_eq in Hr'. simplify_eq. apply wait_procedure in Hs as [-> Hc].
      pose proof (cr_proc _ _ Hcr _ _ _ Hp) as Hpc. split; [done|]. split.
      * intros Hpast. assert (ident x' = ident x) as [= Hi1 Hi2].
        { apply Hid. destruct (Hc Hpast) as [Hr|(Hr&_)]; by destruct r0 as [[]| | | | |]. }
        unfold session_key. rewrite Hi1, Hi2. fold (session_key x).
        destruct (Hc Hpast) as [Hr|(Hr&Hs&reply&->&Hok)]; [by eapply (cr_past _ _ Hcr)|by eapply completed_took].
      * intros Hcb. rewrite Hid; [by eapply (cr_sess _ _ Hcr)|]. rewrite <- Hpc in Hcb. by destruct r0 as [[]| | | | |].
    + apply Hsame; [|apply Hxy]. rewrite Hpr. destruct o; cbn [proc_put]; [by rewrite lookup_insert_ne|by rewrite lookup_delete_ne].
  - destruct (Ht t x x' Hx Hx') as [Hid _]. apply Hsame; [|done].
    destruct Hf as [->|(_&u&cb'&Hn'&->)]; [done|]. rewrite lookup_insert_ne; [done|]. intros ->. congruence.
Qed.

(** A command is served: if it is the CAS, its success has to be earned. *)
Lemma credit_serve ls l nd j c rep p :
  node_ok nd → nd_running nd = true → credit ls nd → procs (nd_world nd) !! t = Some p → queue_of nd !! j = Some c →
  (∀ q r x, dc_cb c = fp_evalsha_reply_cb q → user_conts (ep_user q) = [(r, t)] → main_cas r = true →
     txn_at (nd_world nd) t = Some x → cas_result (Some rep) = Some V_CAS_OK → claim (ls ++ [l]) (procedure r) (session_key x)) →
  credit (ls ++ [l]) (Node (nd_world nd) (<[j := Some rep]> (nd_slots nd)) true).
Proof.
  intros Hn Hr Hcr Hp Hj Hclaim. pose proof (nk_phase _ Hn) as Hw. rewrite Hr in Hw. pose proof (proj1 (pod_reachable_inv _ Hw)) as HO.
  destruct (credit_more ls [l] nd Hcr) as [H1 H2 H3 H4]. split; [|done..]. unfold queue_of in *. cbn.
  rewrite <- (list_insert_id _ _ _ Hj). apply Forall2_insert; [done|].
  intros q r key rep' [= <-] Hcb Hu Hm Hkey Hok.
  assert (is_Some (txn_at (nd_world nd) t)) as [x Hx] by (apply (procs_dom _ HO); by eexists).
  destruct (main_key _ j c q r t x HO Hj Hcb Hu Hm Hx) as (_&_&_&Hkey'). rewrite Hkey in Hkey'. injection Hkey' as ->.
  by eapply Hclaim.
Qed.

End life.

(** ** One step of the cluster, seen from one pod *)

(** An event of pod [i] that left [nd']. *)
Definition by_event (nd nd' : node) : Prop :=
  ∃ e w', is_timeout e = false ∧ delivers e nd ∧ pod_step e (nd_world nd) = Some (tt, w') ∧
    cmds_ok (remaining e (queue_of nd)) w' ∧ nd' = nd_after e w' nd.

(** The service of one of its commands. *)
Definition by_serve (i : nat) (l : cl_label) (cl cl' : cluster) (nd nd' : node) : Prop :=
  ∃ j c rep sh', l = ClServe i j ∧ queue_of nd !! j = Some c ∧
    serve (dc_argv c) (cl_shards cl (dc_shard c)) = (rep, sh') ∧
    nd' = Node (nd_world nd) (<[j := Some rep]> (nd_slots nd)) true ∧ cl_shards cl' (dc_shard c) = sh'.

(** An event of the pod itself or the loss of a connection. *)
Lemma own_true nd e :
  match e with EvReply _ (Some _) => False | _ => True end → delivers e nd ∧ true_reply e (nd_world nd).
Proof. intros He. split; [by intros j rep ->|]. by destruct e as [| |j [rep|]| | | | | | | |]. Qed.

Lemma event_node n cl i nd k e ndk cl1 cl' nd' :
  cl_inv n cl → get_node cl i = Some nd → nd_running nd = true → get_node cl k = Some ndk → cl_nodes cl1 = cl_nodes cl →
  is_timeout e = false → (k = i → delivers e nd ∧ true_reply e (nd_world nd)) →
  cl_event k e ndk cl1 = Some cl' → get_node cl' i = Some nd' → nd' = nd ∨ by_event nd nd'.
Proof.
  intros Hcl Hi Hrun Hk Hc He Ht E Hi'. unfold cl_event in E. destruct (nd_step e ndk) as [ndk'|] eqn:Es; [|done]. injection E as <-.
  rewrite (get_put_node k _ cl1 ndk i) in Hi' by (unfold get_node in *; by rewrite Hc).
  case_decide as Hki; [|left; unfold get_node in *; rewrite Hc in Hi'; congruence]. subst k. right. destruct (Ht eq_refl) as [Hd Htr].
  assert (ndk = nd) as -> by congruence.
  destruct (nd_step_ok e nd (ci_nodes _ _ Hcl i nd Hi) He) as (w'&E&Es'&_&Hq); [by rewrite Hrun|done|].
  exists e, w'. split; [done|]. split; [done|]. split; [done|]. split; [done|]. congruence.
Qed.

(** A running pod is left alone, takes an event, or has a command served. *)
Lemma node_step n cl i nd l cl' nd' :
  cl_inv n cl → get_node cl i = Some nd → nd_running nd = true → cl_do l cl = Some cl' → get_node cl' i = Some nd' →
  nd' = nd ∨ by_event nd nd' ∨ by_serve i l cl cl' nd nd'.
Proof.
  intros Hcl Hi Hrun Hdo Hi'.
  assert (∀ cl1, Some cl1 = Some cl' → get_node cl1 i = get_node cl i → nd' = nd ∨ by_event nd nd' ∨ by_serve i l cl cl' nd nd') as Hsame.
  { intros cl1 [= ->]. left. congruence. }
  pose proof (λ k e ndk cl1 Hk Hc He Ht E, event_node n cl i nd k e ndk cl1 cl' nd' Hcl Hi Hrun Hk Hc He Ht E Hi') as Hev.
  destruct l as [da va addr pid now|k|k e|k j|k j|k j|k|k|s key|s|k]; cbn [cl_do] in Hdo;
    repeat match type of Hdo with context [get_node cl k] => destruct (get_node cl k) as [ndk|] eqn:Ek end;
    try (by apply (Hsame _ Hdo)).
  - destruct (pod_boot _ _ _ _ _) as [w|]; apply (Hsame _ Hdo); [|done].
    unfold get_node in *. cbn. destruct (cl_nodes cl !! i) as [o|] eqn:Eo; [|done]. by rewrite (lookup_app_l_Some _ _ _ _ Eo).
  - destruct (nd_running ndk) eqn:Hr; [by apply (Hsame _ Hdo)|]. assert (i ≠ k) as Hne by congruence.
    destruct (v_id_alloc_init iu _) as [[rc w']|]; [|done].
    destruct (rc =? RET_CODE_OK); apply (Hsame _ Hdo);
      change (get_node (put_orphans ?cs ?d) ?x) with (get_node d x); by rewrite (get_put_node k _ cl ndk i Ek), decide_False.
  - destruct (own_event ndk e) eqn:Ho; [|by apply (Hsame _ Hdo)].
    destruct (Hev k e ndk cl Ek eq_refl) as [?|?]; [by destruct e| |done|by left|by right; left].
    intros _. apply own_true. by destruct e as [| |j [rep|]| | | | | | | |].
  - destruct (queue_of ndk !! j) as [c|] eqn:Ej; [|by apply (Hsame _ Hdo)].
    destruct (nd_slots ndk !! j) as [[rep|]|] eqn:Es; [by apply (Hsame _ Hdo)| |by apply (Hsame _ Hdo)].
    destruct (serve (dc_argv c) _) as [rep sh] eqn:Esv. injection Hdo as <-.
    change (get_node (put_shard ?s ?h ?d) ?x) with (get_node d x) in Hi'. rewrite (get_put_node k _ cl ndk i Ek) in Hi'.
    case_decide as Hki; [|left; congruence]. subst k. right; right. assert (ndk = nd) as -> by congruence. injection Hi' as <-.
    exists j, c, rep, sh. rewrite Hrun. split; [done|]. split; [done|]. split; [done|]. split; [done|]. cbn. by rewrite Z.eqb_refl.
  - destruct (nd_slots ndk !! j) as [[rep|]|] eqn:Es; [|by apply (Hsame _ Hdo)..].
    destruct (Hev k (EvReply j (Some rep)) ndk cl Ek eq_refl eq_refl) as [?|?]; [|done|by left|by right; left].
    intros ->. assert (ndk = nd) as -> by congruence.
    split; [by intros j' rep' [= <- <-]|by apply slot_true; [apply (ci_nodes _ _ Hcl i)|]].
  - destruct (queue_of ndk !! j) as [c|] eqn:Ej; [|by apply (Hsame _ Hdo)].
    destruct (nd_slots ndk !! j) as [slot|] eqn:Es; [|by apply (Hsame _ Hdo)].
    destruct slot; (destruct (λ H, Hev k (EvReply j None) ndk _ Ek H eq_refl (λ _, own_true nd (EvReply j None) I) Hdo) as [?|?];
      [done|by left|by right; left]).
  - destruct (cl_orphans cl !! k); by apply (Hsame _ Hdo).
  - destruct (rview _ !! key) as [[v [ttl|]]|]; by apply (Hsame _ Hdo).
  - injection Hdo as <-. change (get_node (put_orphans ?cs ?d) ?x) with (get_node d x) in Hi'.
    rewrite (get_put_node k _ cl ndk i Ek) in Hi'. case_decide; [done|]. left. congruence.
Qed.

(** ** Whole runs *)

(** A running pod. *)
Definition running (cl : cluster) (i : nat) (nd : node) : Prop := get_node cl i = Some nd ∧ nd_running nd = true.

(** Pod [i] works on the request [t] all along the steps [ls] from [cl]. *)
Fixpoint in_progress (i : nat) (t : Z) (ls : list cl_label) (cl : cluster) : Prop :=
  (∃ nd, running cl i nd ∧ is_Some (procs (nd_world nd) !! t)) ∧
  match ls with [] => True | l :: ls' => match cl_do l cl with Some cl1 => in_progress i t ls' cl1 | None => False end end.

(** A claim on the request, the run so far, the cluster and the pod, which
    every step keeps while the request is in progress. *)
Section follow.
Variables (i : nat) (t : Z) (cl0 : cluster) (n0 : Z).
Variable story : list cl_label → cluster → node → Prop.
Hypothesis story_step : ∀ ls l cl nd p cl' nd' p',
  cl_inv (n0 + Z.of_nat (length ls)) cl → 0 <= n0 + Z.of_nat (length ls) < 2 ^ 53 - 1 → cl_run ls cl0 = Some cl → running cl i nd → story ls cl nd →
  procs (nd_world nd) !! t = Some p → cl_do l cl = Some cl' → running cl' i nd' → procs (nd_world nd') !! t = Some p' →
  story (ls ++ [l]) cl' nd'.

Lemma run_follow ls2 : ∀ ls1 n cl nd, n = n0 + Z.of_nat (length ls1) → cl_inv n cl → 0 <= n → n + Z.of_nat (length ls2) < 2 ^ 53 - 1 → cl_run ls1 cl0 = Some cl → get_node cl i = Some nd →
  story ls1 cl nd → in_progress i t ls2 cl →
  ∃ cl' nd', cl_run ls2 cl = Some cl' ∧ running cl' i nd' ∧ is_Some (procs (nd_world nd') !! t) ∧
    cl_inv (n + Z.of_nat (length ls2)) cl' ∧ story (ls1 ++ ls2) cl' nd'.
Proof.
  induction ls2 as [|l ls2 IH]; intros ls1 n cl nd Hn0 Hcl Hn Hl Hr Hi Hcr [(nd'&Hrun&Hp) Hrest]; cbn [cl_run length] in *.
  - exists cl, nd'. rewrite app_nil_r, Z.add_0_r. split; [done|]. split; [done|]. split; [done|]. split; [done|].
    destruct Hrun as [Hi' _]. by simplify_eq.
  - destruct (cl_do l cl) as [cl1|] eqn:E; [|done]. destruct Hp as [p Hp]. assert (nd' = nd) as -> by (destruct Hrun; congruence).
    destruct (cl_step n l cl ltac:(lia) Hcl) as (cl1'&E'&Hcl1). assert (cl1' = cl1) as -> by congruence.
    assert (∃ nd1, running cl1 i nd1 ∧ is_Some (procs (nd_world nd1) !! t)) as (nd1&Hrun1&[p1 Hp1]).
    { destruct ls2; by destruct Hrest as [(nd1&?&?) _]; exists nd1. }
    destruct (IH (ls1 ++ [l]) (n + 1) cl1 nd1) as (cl'&nd'&Hr'&H1&H2&H3&H4); try lia; try done.
    + rewrite length_app. cbn. lia.
    + by rewrite (cl_run_snoc _ _ _ _ Hr).
    + by destruct Hrun1.
    + eapply story_step; [rewrite <- Hn0; exact Hcl|lia|..]; done.
    + exists cl', nd'. rewrite <- app_assoc in H4. split; [done|]. split; [done|]. split; [done|]. split; [|done].
      by replace (n + Z.of_nat (S (length ls2))) with (n + 1 + Z.of_nat (length ls2)) by lia.
Qed.

End follow.

(** The CAS of the followed request is served. *)
Definition cas_served (i : nat) (t : Z) (l : cl_label) (cl cl' : cluster) (nd : node) (r : role) (x : v_txn) : Prop :=
  ∃ j c q rep sh', l = ClServe i j ∧ queue_of nd !! j = Some c ∧ dc_cb c = fp_evalsha_reply_cb q ∧
    user_conts (ep_user q) = [(r, t)] ∧ main_cas r = true ∧ txn_at (nd_world nd) t = Some x ∧
    serve (dc_argv c) (cl_shards cl (dc_shard c)) = (rep, sh') ∧ cl_shards cl' (dc_shard c) = sh' ∧
    cas_result (Some rep) = Some V_CAS_OK.

Lemma step_credit i t cb sid claim n ls l cl nd p cl' nd' :
  (∀ ls ls' cb key, claim ls cb key → claim (ls ++ ls') cb key) →
  cl_inv n cl → running cl i nd → credit t cb sid claim ls nd →
  procs (nd_world nd) !! t = Some p → cl_do l cl = Some cl' → get_node cl' i = Some nd' →
  (∀ r x, cas_served i t l cl cl' nd r x → claim (ls ++ [l]) (procedure r) (session_key x)) →
  credit t cb sid claim (ls ++ [l]) nd'.
Proof.
  intros Hmore Hcl [Hi Hrun] Hcr Hp Hdo Hi' Hserved. pose proof (ci_nodes _ _ Hcl i nd Hi) as Hnd.
  destruct (node_step n cl i nd l cl' nd' Hcl Hi Hrun Hdo Hi') as [->|[(e&w'&He&Hd&E&Hq&->)|(j&c&rep&sh'&->&Hj&Hs&->&Hsh)]].
  - by apply credit_more.
  - eapply credit_event; try done. by apply credit_more.
  - eapply credit_serve; try done. intros q r x Hcb Hu Hm Hx Hok. apply Hserved. by exists j, c, q, rep, sh'.
Qed.

(** What the service of a CAS does to the record. *)
Lemma served_cas i t n l cl cl' nd r x :
  cl_inv n cl → n < 2 ^ 53 - 1 → running cl i nd → cas_served i t l cl cl' nd r x →
  ∃ c q, c ∈ queue_of nd ∧ dc_cb c = fp_evalsha_reply_cb q ∧ user_conts (ep_user q) = [(r, t)] ∧ dc_argv c = ep_argv q ∧
    let s := v_port_db_shard_of (session_key x) in cas_effect r (dc_argv c) (session_key x) (cl_shards cl s) (cl_shards cl' s).
Proof.
  intros Hcl Hn [Hi Hrun] (j&c&q&rep&sh'&->&Hj&Hcb&Hu&Hm&Hx&Hs&Hsh&Hok). pose proof (ci_nodes _ _ Hcl i nd Hi) as Hnd.
  pose proof (nk_phase _ Hnd) as Hw. rewrite Hrun in Hw. pose proof (proj1 (pod_reachable_inv _ Hw)) as HO.
  destruct (serve_effect n _ j c q r t x _ rep sh' HO (nk_vers _ Hnd Hrun) Hj (nd_form nd j c Hnd Hj) Hcb Hu Hm Hx Hn
    (ci_shards _ _ Hcl (dc_shard c)) Hs Hok) as [Hshard Heff].
  destruct (main_key _ j c q r t x HO Hj Hcb Hu Hm Hx) as (Ha&_).
  exists c, q. split; [by eapply list_elem_of_lookup_2|]. split; [done|]. split; [done|]. split; [done|].
  cbv zeta. by rewrite <- Hshard, Hsh.
Qed.

Lemma served_effect i t n l cl cl' nd r x :
  cl_inv n cl → n < 2 ^ 53 - 1 → running cl i nd → cas_served i t l cl cl' nd r x →
  let s := v_port_db_shard_of (session_key x) in effect (procedure r) (session_key x) (cl_shards cl s) (cl_shards cl' s).
Proof. intros Hcl Hn Hrun Hserved. destruct (served_cas _ _ _ _ _ _ _ _ _ Hcl Hn Hrun Hserved) as (c&q&_&_&_&_&He). by eapply cas_effect_of. Qed.

Lemma served_took i t cl0 n ls l cl cl' nd r x :
  cl_inv n cl → n < 2 ^ 53 - 1 → running cl i nd → cl_run ls cl0 = Some cl → cl_do l cl = Some cl' →
  cas_served i t l cl cl' nd r x → took i (procedure r) (session_key x) cl0 (ls ++ [l]).
Proof.
  intros Hcl Hn Hrun Hr Hdo Hserved. pose proof (served_effect _ _ _ _ _ _ _ _ _ Hcl Hn Hrun Hserved) as Heff.
  destruct Hserved as (j&_&_&_&_&->&_). by exists ls, j, [], cl, cl'.
Qed.

(** A request that waits for its lookup has no credit to show. *)
Lemma lookup_credit i t cb k claim cl0 n nd x :
  cl_inv n cl0 → running cl0 i nd → procs (nd_world nd) !! t = Some (RLookup cb, 0%nat, k) → txn_at (nd_world nd) t = Some x →
  credit t cb (ident x) claim [] nd.
Proof.
  intros Hcl [Hi Hrun] Hp Hx. pose proof (ci_nodes _ _ Hcl i nd Hi) as Hn. pose proof (nk_phase _ Hn) as Hw. rewrite Hrun in Hw.
  pose proof (proj1 (pod_reachable_inv _ Hw)) as HO. split.
  - apply Forall2_same_length_lookup_2; [by eapply Forall2_length, (nk_slots _ Hn)|]. intros j c slot Hj _ p r key rep _ Hcb Hu Hr _ _.
    assert (procs (nd_world nd) !! t = Some (r, stage (dc_cb c), retry_of (nd_world nd) t)) as Hp'.
    { eapply queue_proc; [done|done|]. rewrite Hcb. exact Hu. }
    rewrite Hp in Hp'. by simplify_eq.
  - intros r s k' y Hp' Hpast. rewrite Hp in Hp'. by simplify_eq.
  - intros r s k' Hp'. rewrite Hp in Hp'. by simplify_eq.
  - intros y Hy _. congruence.
Qed.

(** The answering event: what it answers, and what had happened by then. *)
Lemma answer_took i t cb sid claim n ls l cl nd p cl' nd' :
  cl_inv n cl → running cl i nd → credit t cb sid claim ls nd →
  procs (nd_world nd) !! t = Some p → cl_do l cl = Some cl' → get_node cl' i = Some nd' → procs (nd_world nd') !! t = None →
  ∃ x a, txn_at (nd_world nd) t = Some x ∧ replies t a (nd_world nd) (nd_world nd') ∧
    (cb ≠ fp_retrans_lookup_cb → ident x = sid) ∧
    (a = Cause V_PFCP_CAUSE_REQUEST_ACCEPTED → claim ls cb (session_key x)).
Proof.
  intros Hcl [Hi Hrun] Hcr Hp Hdo Hi' Hp'. pose proof (ci_nodes _ _ Hcl i nd Hi) as Hnd.
  pose proof (nk_phase _ Hnd) as Hw. rewrite Hrun in Hw. pose proof (proj1 (pod_reachable_inv _ Hw)) as HO.
  destruct (node_step n cl i nd l cl' nd' Hcl Hi Hrun Hdo Hi') as [->|[(e&w'&He&Hd&E&Hq&->)|(j&c&rep&sh'&->&Hj&Hs&->&Hsh)]].
  1, 3: cbn in Hp'; congruence.
  change (nd_world (nd_after e w' nd)) with w' in *. set (w := nd_world nd) in *.
  assert (is_Some (txn_at w t)) as [x Hx] by (apply (procs_dom w HO); by eexists). exists x.
  destruct (step_follows w e Hw He) as (w1&E1&Hf). assert (w1 = w') as -> by congruence. unfold follows in Hf.
  destruct (completion_of e w) as [[u c]|] eqn:Ec.
  2: { destruct Hf as [Hf|(_&u&cb'&_&Hf)]; rewrite Hf in Hp'; [congruence|]. apply lookup_insert_None in Hp' as [? _]. congruence. }
  destruct Hf as (r&s&k&o&Hu&Hs&Hpr&Ho). rewrite Hpr in Hp'.
  destruct o as [r' s' k'|a]; cbn [proc_put] in Hp'; [apply lookup_insert_None in Hp' as [? _]; congruence|].
  apply lookup_delete_None in Hp' as [->|?]; [|congruence]. exists a. split; [done|]. split; [done|].
  split; [by eapply (cr_sess _ _ _ _ _ _ Hcr)|]. intros ->. rewrite <- (cr_proc _ _ _ _ _ _ Hcr _ _ _ Hu).
  destruct (wait_accepted _ _ _ _ Hs) as [Hpast|(Hm&Hst&reply&->&Hok)]; [by eapply (cr_past _ _ _ _ _ _ Hcr)|].
  by eapply completed_took.
Qed.

(** Acceptance means effect, in the whole cluster.  A pod has begun a
    request and works on it until it answers it, while any number of pods
    start, work on any requests, crash and reconnect, shards answer commands
    in any order and late, connections break and leave commands behind, leases
    expire and script caches are flushed.  If the answer is that the request
    is accepted, then since the request began a shard has served a command of
    this pod that created the session's record, pending, at version 1
    (establishment), replaced its data and counted its version up
    (modification), or removed it (deletion); and the session of a
    modification or deletion is the one its request named. *)
Theorem accepted_took_effect cl ls0 cl0 ls1 cl1 l cl2 i t cb nd0 x0 nd1 nd2 :
  cl_initial cl → Z.of_nat (length ls0) + Z.of_nat (length ls1) < 2 ^ 53 - 1 →
  cl_run ls0 cl = Some cl0 → running cl0 i nd0 → procs (nd_world nd0) !! t = Some (RLookup cb, 0%nat, 0) →
  txn_at (nd_world nd0) t = Some x0 →
  cl_run ls1 cl0 = Some cl1 → in_progress i t ls1 cl0 → get_node cl1 i = Some nd1 →
  cl_do l cl1 = Some cl2 → get_node cl2 i = Some nd2 → procs (nd_world nd2) !! t = None →
  ∃ x a, txn_at (nd_world nd1) t = Some x ∧ replies t a (nd_world nd1) (nd_world nd2) ∧
    (cb ≠ fp_retrans_lookup_cb → ident x = ident x0) ∧
    (a = Cause V_PFCP_CAUSE_REQUEST_ACCEPTED → took i cb (session_key x) cl0 ls1).
Proof.
  intros Hinit Hlen Hr0 Hrun Hp Hx Hr1 Hin Hi1 Hdo Hi2 Hend.
  destruct (run_inv ls0 0 cl (initial_inv cl Hinit)) as (cl0'&Hr0'&Hcl0); [lia|unfold MAX_STEPS; lia|].
  assert (cl0' = cl0) as -> by congruence. rewrite Z.add_0_l in Hcl0.
  set (claim := λ ls cb key, took i cb key cl0 ls).
  assert (∀ ls ls' cb key, claim ls cb key → claim (ls ++ ls') cb key) as Hmore by (intros; by apply took_more).
  pose proof (lookup_credit i t cb 0 claim cl0 _ nd0 x0 Hcl0 Hrun Hp Hx) as Hcr.
  destruct (run_follow i t cl0 (Z.of_nat (length ls0)) (λ ls _ nd, credit t cb (ident x0) claim ls nd)) with (ls2 := ls1)
    (ls1 := @nil cl_label) (n := Z.of_nat (length ls0)) (cl := cl0) (nd := nd0) as (cl1'&nd1'&Hr1'&Hrun1&[p Hp1]&Hcl1&Hcr1);
    cbn [length]; try done; try lia; [|apply Hrun|].
  { intros ls l' cl' nd p cl'' nd' p' Hinv Hn Hrun' Hnd Hst Hp' Hdo' [Hi' _] _. eapply step_credit; try done.
    intros r y Hserved. eapply served_took; try done. lia. }
  assert (cl1' = cl1) as -> by congruence. assert (nd1' = nd1) as -> by (destruct Hrun1; congruence).
  by eapply (answer_took i t cb (ident x0) claim).
Qed.

End effects.
