(* ===== verification/Atomic.v ===== *)
(** Acceptance is atomic: an accepted modification is one read-modify-write of
    its session's record, an accepted deletion removes the record it read, and
    an accepted establishment stores the session its request describes,
    whatever other pods, crashes, lost connections and expiries do meanwhile. *)
From S2P Require Import Prelude Seid Dpdk Heap Redis Scripts World DbScript SessStore RetransCache IdAlloc.
From S2P Require Import DispatchQ NodeState Flow Sweeper Pod Server Preserve Pools SessCas SessHistory Own OwnPod Boot Safety.
From S2P Require Import Protocol Progress Procedures ProtocolRefine Commands Registers Records Payload Contents.
From S2P Require Import Cluster ClusterInv Versions Effects.

Section atomic.
Context {DP : Dpdk} {PP : PfcpPort} {R : Redis} {L : Lua} {SS : ScriptSha}.

(** ** What a request knows *)

Section diary.
Variables (i : nat) (t : Z) (cl0 : cluster) (req : pfcp_msg) (part seid : Z).
Abbreviation key := (make_key part seid).
Abbreviation home := (v_port_db_shard_of key).

(** At [cla] a shard serves a read of the session by pod [i] and finds [r0]. *)
Definition reads_at (j : nat) (cla : cluster) (r0 : sess_rec) : Prop :=
  (∃ nd c, running cla i nd ∧ queue_of nd !! j = Some c ∧ dc_argv c = op_argv key OpRead) ∧
  record_of part seid home cla (Some r0).

(** This happened among the steps [ls]. *)
Definition fetched (ls : list cl_label) (r0 : sess_rec) : Prop :=
  ∃ pre j post cla, ls = pre ++ ClServe i j :: post ∧ cl_run pre cl0 = Some cla ∧ reads_at j cla r0.

Lemma fetched_more ls ls' r0 : fetched ls r0 → fetched (ls ++ ls') r0.
Proof. intros (pre&j&post&cla&->&H). exists pre, j, (post ++ ls'), cla. split; [by rewrite <- app_assoc|done]. Qed.

(** A record on its way to the request was fetched. *)
Definition answered (ls : list cl_label) (c : db_cmd) (slot : option v_db_reply) : Prop :=
  ∀ rcb x rep, slot = Some rep → cb_conts (dc_cb c) = [(RRead rcb x, t)] → session_found (Some rep) = Some true →
    ∃ r0, fetched ls r0 ∧ read_data (Some rep) = sr_data r0 ∧ reply_ver (RRead rcb x) (Some rep) = sr_ver r0.

(** What the memory of the request holds at each stage. *)
Definition stage_fact (ls : list cl_label) (w : world) (r : role) (x : v_txn) : Prop :=
  match r with
  | RRead fp_mod_read_cb _ => blank t w
  | RCas fp_cas_write_cb _ => building t req w
  | RCas fp_mod_cas_cb v => ∃ r0, fetched ls r0 ∧ sr_ver r0 = v ∧ writing t (modified req (stored_ctx (sr_data r0))) w
  | RCas fp_del_delete_cb v => ∃ r0, fetched ls r0 ∧ sr_ver r0 = v
  | RVdp fp_del_vdp_cb => ∃ r0, fetched ls r0 ∧ sr_ver r0 = t_db_ver x
  | _ => True
  end.

Record diary (ls : list cl_label) (nd : node) : Prop := {
  dy_req : req_of (nd_world nd) t = Some req;
  dy_slots : Forall2 (answered ls) (queue_of nd) (nd_slots nd);
  dy_role r s k x : procs (nd_world nd) !! t = Some (r, s, k) → txn_at (nd_world nd) t = Some x → stage_fact ls (nd_world nd) r x;
}.

Lemma fact_more ls ls' w r x : stage_fact ls w r x → stage_fact (ls ++ ls') w r x.
Proof.
  pose proof (λ r0, fetched_more ls ls' r0) as Hm.
  destruct r as [|[]|[]| |[]|]; cbn [stage_fact]; try done; intros (r0&?&?); exists r0; auto.
Qed.

Lemma diary_more ls ls' nd : diary ls nd → diary (ls ++ ls') nd.
Proof.
  intros [H1 H2 H3]. split; [done| |intros; by eapply fact_more, H3]. eapply Forall2_impl; [exact H2|].
  intros c slot Ha rcb x rep Hs Hc Hf. destruct (Ha rcb x rep Hs Hc Hf) as (r0&?&?). exists r0. split; [by apply fetched_more|done].
Qed.

(** *** The step that moves the request on *)

(** The transaction lives, so its write is in flight. *)
Lemma live_writing v w x : txn_at w t = Some x → writing t v w → ∃ B, blob_of v = Some B ∧ written t B w.
Proof. intros Hx [Hd|H]; [unfold dead in Hd; congruence|done]. Qed.

Lemma live_sent B w x : txn_at w t = Some x → sent_or_dead t B w → written t B w.
Proof. intros Hx [Hd|H]; [unfold dead in Hd; congruence|done]. Qed.

Lemma live_building w x : txn_at w t = Some x → building t req w →
  ∃ teid B, blob_of (built req (t_seid x) teid) = Some B ∧ written t B w.
Proof.
  intros Hx [Hd|(y&teid&B&Hy&H)]; [unfold dead in Hd; congruence|]. assert (y = x) as -> by congruence. by exists teid, B.
Qed.

(** A completed read that found its session was fetched. *)
Lemma completed_read ls e nd rcb x s k reply :
  node_ok nd → nd_running nd = true → delivers e nd → diary ls nd →
  completion_of e (nd_world nd) = Some (t, CReply reply) → procs (nd_world nd) !! t = Some (RRead rcb x, s, k) →
  session_found reply = Some true →
  ∃ r0, fetched ls r0 ∧ read_data reply = sr_data r0 ∧ reply_ver (RRead rcb x) reply = sr_ver r0.
Proof.
  intros Hn Hrun Hd Hdy Hc Hp Hf. pose proof (nk_phase _ Hn) as Hw. rewrite Hrun in Hw. pose proof (proj1 (pod_reachable_inv _ Hw)) as HO.
  destruct (completion_source _ _ _ _ HO Hc) as (r'&s'&Hp'&j&cmd&->&Hj&Hcmd&_). rewrite Hp in Hp'. injection Hp' as <- _ _.
  destruct reply as [rep|]; [|done]. specialize (Hd j rep eq_refl).
  by eapply (Forall2_lookup_lr _ _ _ _ _ _ (dy_slots _ _ Hdy) Hj Hd).
Qed.

(** The version a suspended procedure carries is that of its transaction. *)
Lemma role_version w r s k x : Own no_amb None [] [] w → procs w !! t = Some (r, s, k) → txn_at w t = Some x → role_ver r x.
Proof.
  intros HO Hp Hx. apply procs_lookup in Hp as [Hin%wait_role _]; [|done]. destruct (o_role _ _ _ _ _ HO _ _ Hin) as (y&Hy&(_&_&Hv&_)).
  unfold txn_at in Hx. by simplify_eq.
Qed.

Section own_step.
Variables (ls : list cl_label) (e : event) (nd : node) (w' : world) (c : completion) (r : role) (s : nat) (k : Z) (x x' : v_txn).
Abbreviation w := (nd_world nd).
Hypothesis Hn : node_ok nd.
Hypothesis Hrun : nd_running nd = true.
Hypothesis He : is_timeout e = false.
Hypothesis Hd : delivers e nd.
Hypothesis E : pod_step e w = Some (tt, w').
Hypothesis Hdy : diary ls nd.
Hypothesis Hc : completion_of e w = Some (t, c).
Hypothesis Hp : procs w !! t = Some (r, s, k).
Hypothesis Hx : txn_at w t = Some x.
Hypothesis Hx' : txn_at w' t = Some x'.
Variables (r' : role) (s' : nat) (k' : Z).
Hypothesis Hs : wait_step r s k c (Wait r' s' k').
Hypothesis Hp' : procs w' !! t = Some (r', s', k').

Lemma own_pod : pod_reachable w.
Proof using Hn Hrun. pose proof (nk_phase _ Hn) as Hw. by rewrite Hrun in Hw. Qed.

Lemma own_before : Own no_amb None [] [] w.
Proof using Hn Hrun. by apply pod_reachable_inv, own_pod. Qed.

Lemma own_after : Own no_amb None [] [] w'.
Proof using Hn Hrun He E. by eapply pod_reachable_inv, reachable_step; [apply own_pod|..]. Qed.

(** What the event does to the transaction's session and version. *)
Lemma own_touch : (keeps_ident r = true → ident x' = ident x) ∧
  (∀ cb y reply, r = RRead cb y → c = CReply reply → t_db_ver x' = reply_ver r reply) ∧
  (∀ res, c = CVdp res → t_db_ver x' = t_db_ver x).
Proof using Hn Hrun He E Hc Hp Hx Hx'.
  pose proof (event_touches e w w' He own_before E) as Ht. rewrite Hc in Ht. destruct Ht as (r1&s1&Hin&Ht&Hexp&Hvdp).
  assert (procs w !! t = Some (r1, s1, retry_of w t)) as H1 by by apply procs_lookup; [apply own_before|].
  rewrite Hp in H1. injection H1 as <- _ _.
  assert (∀ keep V, touches t keep V w w' →
    (keep = true → ident x' = ident x) ∧ (t_db_ver x' = t_db_ver x ∨ t_db_ver x' = V)) as Hsame.
  { intros keep V H. destruct (H t x' Hx') as (y&Hy&Hs1). rewrite decide_True in Hs1 by done. by assert (y = x) as -> by congruence. }
  split; [by intros Hk; destruct (Hsame _ _ Ht) as [Hi _]; apply Hi|]. split.
  - intros cb y reply Hr1 Hc1. by apply (Hexp cb y reply).
  - intros res Hc1. by destruct (Hsame true (t_db_ver x) (Hvdp res _ Hc1)) as [_ [?|?]].
Qed.

(** *** The step of each role *)

Lemma step_establish v : r' = RCas fp_cas_write_cb v → building t req w'.
Proof using All.
  pose proof own_before as HO. pose proof own_touch as (Hi&Hexp&Hvdp). intros ->.
  destruct (write_from _ _ _ _ _ _ _ _ ltac:(by left) Hs) as [[_ ->]|[([=]&_)|(->&reply&->&_)]].
  - destruct (completion_source _ _ _ _ HO Hc) as (r1&s1&Hp1&Hsrc). rewrite Hp in Hp1. injection Hp1 as <- _ _.
    destruct c as [reply|res]; [|by destruct Hsrc as (?&?&_)]. eapply event_builds; try done. apply Hdy.
  - destruct (live_building w x Hx (dy_role _ _ Hdy _ _ _ _ Hp Hx)) as (teid&B&HB&Hw).
    right. exists x', teid, B. split; [done|]. specialize (Hi eq_refl). injection Hi as _ ->.
    split; [done|]. eapply (live_sent B w' x'); [done|]. by eapply event_carries; [..|exact Hs|]; try done; left.
Qed.

Lemma step_modify v : r' = RCas fp_mod_cas_cb v →
  ∃ r0, fetched ls r0 ∧ sr_ver r0 = v ∧ writing t (modified req (stored_ctx (sr_data r0))) w'.
Proof using All.
  pose proof own_before as HO. pose proof own_touch as (Hi&Hexp&Hvdp).
  pose proof (role_version w' _ _ _ _ own_after Hp' Hx') as Hv. intros ->. cbn in Hv.
  destruct (write_from _ _ _ _ _ _ _ _ ltac:(by right) Hs) as [[[=] _]|[(_&y&reply&->&->&Hf)|(->&reply&->&_)]].
  - destruct (completed_read ls e nd _ _ _ _ _ Hn Hrun Hd Hdy Hc Hp Hf) as (r0&Hr0&Hdata&Hver).
    exists r0. split; [done|]. split; [by rewrite <- Hver, Hv; symmetry; eapply Hexp|].
    rewrite <- Hdata. eapply event_modifies; try done; [exact (dy_role _ _ Hdy _ _ _ _ Hp Hx)|apply Hdy].
  - destruct (dy_role _ _ Hdy _ _ _ _ Hp Hx) as (r0&Hr0&Hver&Hw). exists r0. split; [done|]. split; [done|].
    destruct (live_writing _ w x Hx Hw) as (B&HB&HwB). right. exists B. split; [done|]. eapply (live_sent B w' x'); [done|].
    by eapply event_carries; [..|exact Hs|]; try done; right.
Qed.

Lemma step_del_vdp : r' = RVdp fp_del_vdp_cb → ∃ r0, fetched ls r0 ∧ sr_ver r0 = t_db_ver x'.
Proof using All.
  pose proof own_before as HO. pose proof own_touch as (Hi&Hexp&Hvdp). intros ->. destruct (del_vdp_from _ _ _ _ _ _ Hs) as [[-> Hns]|(y&reply&->&->&Hf)].
  - exfalso. destruct (completion_source _ _ _ _ HO Hc) as (r1&s1&Hp1&Hsrc). rewrite Hp in Hp1. injection Hp1 as <- <- _.
    destruct c as [reply|res]; [|by destruct Hsrc as (?&_&?)]. destruct Hsrc as (j&cmd&_&_&Hcmd&_).
    apply (cb_conts_no_vdp _ _ _ Hcmd).
  - destruct (completed_read ls e nd _ _ _ _ _ Hn Hrun Hd Hdy Hc Hp Hf) as (r0&Hr0&_&Hver). exists r0. split; [done|].
    rewrite <- Hver. symmetry. by eapply Hexp.
Qed.

Lemma step_del_delete v : r' = RCas fp_del_delete_cb v → ∃ r0, fetched ls r0 ∧ sr_ver r0 = v.
Proof using All.
  pose proof own_touch as (Hi&Hexp&Hvdp). pose proof (role_version w' _ _ _ _ own_after Hp' Hx') as Hv. intros ->. cbn in Hv.
  destruct (del_write_from _ _ _ _ _ _ _ Hs) as [->|[-> [res ->]]]; [exact (dy_role _ _ Hdy _ _ _ _ Hp Hx)|].
  destruct (dy_role _ _ Hdy _ _ _ _ Hp Hx) as (r0&Hr0&Hver). exists r0. split; [done|]. rewrite Hver, Hv. symmetry. by eapply Hvdp.
Qed.

Lemma own_fact : stage_fact ls w' r' x'.
Proof using All.
  pose proof step_establish as H1. pose proof step_modify as H2. pose proof step_del_vdp as H3. pose proof step_del_delete as H4.
  destruct r' as [|[]|[]| |[]|]; cbn [stage_fact]; try done; [|by eapply H1|by eapply H2|by eapply H4|by apply H3].
  eapply event_blank; try done. apply own_before.
Qed.

End own_step.

(** *** The other steps *)

(** An event of the pod. *)
Lemma diary_event ls e nd w' p p' :
  node_ok nd → nd_running nd = true → is_timeout e = false → delivers e nd →
  pod_step e (nd_world nd) = Some (tt, w') → cmds_ok (remaining e (queue_of nd)) w' →
  procs (nd_world nd) !! t = Some p → procs w' !! t = Some p' → diary ls nd → diary ls (nd_after e w' nd).
Proof.
  intros Hn Hrun He Hd E Hq Hp Hp' Hdy. pose proof (own_pod nd Hn Hrun) as Hw. pose proof (own_before nd Hn Hrun) as HO.
  pose proof (own_after e nd w' Hn Hrun He E) as HO'.
  assert (is_Some (txn_at (nd_world nd) t)) as [x Hx] by (apply (procs_dom _ HO); by eexists).
  assert (is_Some (txn_at w' t)) as Hx' by (apply (procs_dom _ HO'); by eexists). split.
  - cbn. rewrite <- (dy_req _ _ Hdy). eapply step_request; done.
  - apply slots_after; [by intros c ? ? ? [=]|apply Hdy|done].
  - cbn. clear p' Hp' Hx'. intros r' s' k' x' Hp' Hx'. destruct (step_follows _ e Hw He) as (w1&E1&Hf). assert (w1 = w') as -> by congruence.
    unfold follows in Hf. destruct p as [[r s] k].
    assert ((∀ c, completion_of e (nd_world nd) ≠ Some (t, c)) → procs w' !! t = procs (nd_world nd) !! t →
      stage_fact ls w' r' x') as Hapart.
    { intros Hne Hpp. rewrite Hpp, Hp in Hp'. injection Hp' as <- <- <-.
      pose proof (step_apart e _ w' t Hw He E ltac:(by eexists) Hne) as Hu. pose proof (dy_role _ _ Hdy _ _ _ _ Hp Hx) as Hfact.
      assert (x' = x) as -> by (destruct Hu as [Hu _]; unfold txn_at in *; congruence).
      assert (∀ B, (∀ cb, r ≠ RVdp cb) → written t B (nd_world nd) → written t B w') as Hwr.
      { intros B Hr. by eapply apart_written; [exact HO|exact HO'|apply Hq|..]. }
      destruct r as [|[]|[]| |[]|]; cbn [stage_fact] in *; try done.
      - by eapply apart_blank.
      - destruct (live_building _ x Hx Hfact) as (teid&B&HB&Hw0). right. exists x, teid, B. split; [done|]. split; [done|]. by apply Hwr.
      - destruct Hfact as (r0&Hr0&Hv&Hw0). exists r0. split; [done|]. split; [done|].
        destruct (live_writing _ _ x Hx Hw0) as (B&HB&HwB). right. exists B. split; [done|]. by apply Hwr. }
    destruct (completion_of e (nd_world nd)) as [[u c]|] eqn:Ec.
    + destruct Hf as (r0&s0&k0&o&Hu&Hs&Hpr&_). destruct (decide (u = t)) as [->|Hne].
      * rewrite Hp in Hu. injection Hu as <- <- <-. destruct o as [r2 s2 k2|a]; cbn [proc_put] in Hpr; rewrite Hpr in Hp'; [|by rewrite lookup_delete_eq in Hp'].
        rewrite lookup_insert_eq in Hp'. injection Hp' as -> -> ->.
        eapply (own_fact ls e nd w' c r s k x x'); try done. rewrite Hpr. apply lookup_insert_eq.
      * apply Hapart; [congruence|]. rewrite Hpr. destruct o; cbn [proc_put]; [by rewrite lookup_insert_ne|by rewrite lookup_delete_ne].
    + apply Hapart; [done|]. destruct Hf as [->|(_&u&cb'&Hn'&->)]; [done|]. rewrite lookup_insert_ne; [done|]. intros ->.
      unfold txn_at in Hx. congruence.
Qed.

(** The service of a command: if it is the read of the request, it fetches the
    record. *)
Lemma diary_serve ls n cl nd j c rep sh' p :
  cl_inv n cl → running cl i nd → cl_run ls cl0 = Some cl → diary ls nd → procs (nd_world nd) !! t = Some p →
  (∀ r s k x, procs (nd_world nd) !! t = Some (r, s, k) → txn_at (nd_world nd) t = Some x →
     procedure r ≠ fp_retrans_lookup_cb → ident x = (part, seid)) →
  queue_of nd !! j = Some c → serve (dc_argv c) (cl_shards cl (dc_shard c)) = (rep, sh') →
  diary (ls ++ [ClServe i j]) (Node (nd_world nd) (<[j := Some rep]> (nd_slots nd)) true).
Proof.
  intros Hcl Hrun Hr Hdy Hp Hid Hj Hs. pose proof Hrun as [Hi Hr1]. pose proof (ci_nodes _ _ Hcl i nd Hi) as Hn.
  pose proof (own_before nd Hn Hr1) as HO. destruct (diary_more ls [ClServe i j] nd Hdy) as [H1 H2 H3]. split; [done| |done].
  unfold queue_of in *. cbn. rewrite <- (list_insert_id _ _ _ Hj). apply Forall2_insert; [done|].
  intros rcb y rep' [= <-] Hc Hf. pose proof (queue_proc _ _ _ _ _ HO Hj Hc) as Hq.
  assert (is_Some (txn_at (nd_world nd) t)) as [x Hx] by (apply (procs_dom _ HO); by eexists).
  assert (ident x = (part, seid)) as Hk by (eapply Hid; [done..|by destruct rcb]). injection Hk as Hk1 Hk2.
  destruct (o_cmds _ _ _ _ _ HO c) as [_ Ha]; [by eapply list_elem_of_lookup_2|].
  specialize (Ha (RRead rcb y) t x). destruct (conts_read _ _ _ _ Hc) as (q&Hcb&_). rewrite Hcb in Ha, Hc. cbn [asks] in Ha.
  destruct Ha as [Hsh Hargv]; [rewrite Hc; by left|done|]. unfold session_key in *. rewrite Hk1, Hk2 in Hsh, Hargv.
  destruct (ci_shards _ _ Hcl home part seid) as (cur&Hcur&_). rewrite Hsh, Hargv in Hs.
  change [_; _; _; _] with (op_argv key OpRead) in Hs, Hargv. rewrite (serve_read _ _ cur Hcur) in Hs. injection Hs as <- _.
  destruct cur as [r0|]; [|done]. exists r0. split; [|split; [done|]].
  - exists ls, j, [], cl. split; [done|]. split; [done|]. split; [by exists nd, c|done].
  - destruct Hcur as [Hpos _]. cbn. apply parse_buf_dec; [u_lia|lia].
Qed.

Lemma diary_step ls n l cl nd p cl' nd' p' :
  cl_inv n cl → running cl i nd → cl_run ls cl0 = Some cl → diary ls nd → procs (nd_world nd) !! t = Some p →
  (∀ r s k x, procs (nd_world nd) !! t = Some (r, s, k) → txn_at (nd_world nd) t = Some x →
     procedure r ≠ fp_retrans_lookup_cb → ident x = (part, seid)) →
  cl_do l cl = Some cl' → get_node cl' i = Some nd' → procs (nd_world nd') !! t = Some p' → diary (ls ++ [l]) nd'.
Proof.
  intros Hcl Hrun Hr Hdy Hp Hid Hdo Hi' Hp'. pose proof Hrun as [Hi Hr1]. pose proof (ci_nodes _ _ Hcl i nd Hi) as Hn.
  destruct (node_step n cl i nd l cl' nd' Hcl Hi Hr1 Hdo Hi') as [->|[(e&w'&He&Hd&E&Hq&->)|(j&c&rep&sh'&->&Hj&Hs&->&Hsh)]].
  - by apply diary_more.
  - apply diary_more. by eapply diary_event.
  - by eapply diary_serve.
Qed.

(** A request that waits for its lookup knows nothing but itself. *)
Lemma lookup_diary n nd cb k :
  cl_inv n cl0 → running cl0 i nd → procs (nd_world nd) !! t = Some (RLookup cb, 0%nat, k) → req_of (nd_world nd) t = Some req →
  diary [] nd.
Proof.
  intros Hcl [Hi Hrun] Hp Hreq. pose proof (ci_nodes _ _ Hcl i nd Hi) as Hn. pose proof (own_before nd Hn Hrun) as HO.
  split; [done| |].
  - apply Forall2_same_length_lookup_2; [by eapply Forall2_length, (nk_slots _ Hn)|]. intros j c slot Hj _ rcb x rep _ Hc _.
    pose proof (queue_proc _ _ _ _ _ HO Hj Hc) as Hq. rewrite Hp in Hq. by simplify_eq.
  - intros r s k' x Hp' _. rewrite Hp in Hp'. by simplify_eq.
Qed.

End diary.

(** ** Atomicity *)

(** The request read [r0], and [r] has its version: unless the session was
    removed since, it is the record that was read. *)
Definition was_read (i : nat) (part seid : Z) (cl0 : cluster) (ls : list cl_label) (r0 r : sess_rec) : Prop :=
  let s := v_port_db_shard_of (make_key part seid) in
  ∃ pre j rest cla, ls = pre ++ ClServe i j :: rest ∧ cl_run pre cl0 = Some cla ∧ reads_at i part seid j cla r0 ∧
    sr_ver r0 = sr_ver r ∧ (sr_data r0 = sr_data r ∨ gone_within part seid s (ClServe i j :: rest) cla).

(** Among the steps [ls] from [cl0], in one step of the shard, the session of
    the request [req] is created as the request describes it, replaced by what
    the request makes of the record it read, or removed as it was read. *)
Definition atomically (i : nat) (cb : v_retrans_cb_t) (req : pfcp_msg) (part seid : Z) (cl0 : cluster) (ls : list cl_label) : Prop :=
  let s := v_port_db_shard_of (make_key part seid) in
  ∃ pre j post clm cln, ls = pre ++ ClServe i j :: post ∧ cl_run pre cl0 = Some clm ∧ cl_do (ClServe i j) clm = Some cln ∧
    match cb with
    | fp_retrans_lookup_cb => record_of part seid s clm None ∧ ∃ teid data, blob_of (built req seid teid) = Some data ∧
        record_of part seid s cln (Some (SessRec 1 data (Some V_SESS_PENDING_TTL)))
    | fp_mod_retrans_lookup_cb => ∃ r0 r data, was_read i part seid cl0 pre r0 r ∧ record_of part seid s clm (Some r) ∧
        blob_of (modified req (stored_ctx (sr_data r0))) = Some data ∧
        record_of part seid s cln (Some (SessRec (sr_ver r + 1) data (sr_ttl r)))
    | fp_del_retrans_lookup_cb => ∃ r0 r, was_read i part seid cl0 pre r0 r ∧ record_of part seid s clm (Some r) ∧
        record_of part seid s cln None
    end.

Lemma atomically_more i cb req part seid cl0 ls ls' :
  atomically i cb req part seid cl0 ls → atomically i cb req part seid cl0 (ls ++ ls').
Proof.
  intros (pre&j&post&clm&cln&->&H). exists pre, j, (post ++ ls'), clm, cln. split; [by rewrite <- app_assoc|done].
Qed.

(** The version that is compared names the record that was read. *)
Lemma fetched_was_read i part seid cl0 m ls cl v r0 r :
  cl_inv m cl0 → 0 <= m → m + Z.of_nat (length ls) < 2 ^ 53 - 1 → cl_run ls cl0 = Some cl →
  fetched i cl0 part seid ls r0 → sr_ver r0 = v → record_of part seid (v_port_db_shard_of (make_key part seid)) cl (Some r) →
  snprintf 24 (dec v) = dec (sr_ver r) → was_read i part seid cl0 ls r0 r.
Proof.
  intros Hcl Hm Hlen Hrun (pre&j&rest&cla&->&Hpre&Hread) <- Hr Hv. exists pre, j, rest, cla. split; [done|]. split; [done|]. split; [done|].
  rewrite length_app in Hlen. cbn [length] in Hlen.
  destruct (run_inv pre m cl0 Hcl Hm) as (cla'&E&Hcla); [unfold MAX_STEPS; lia|]. assert (cla' = cla) as -> by congruence.
  pose proof Hread as [_ Hr0]. rewrite cl_run_app, Hpre in Hrun. cbn [mbind option_bind] in Hrun.
  assert (sr_ver r0 = sr_ver r) as Heq.
  { destruct Hr as [Hb _], Hr0 as [Hb0 _]. rewrite ver_str_full in Hv by u_lia. apply dec_inj in Hv; u_lia. }
  split; [done|].
  destruct (run_versions part seid (v_port_db_shard_of (make_key part seid)) (ClServe i j :: rest) _ cla cl r0 Hcla) as [Hg|(r'&Hr'&_&Hd)];
    try done; [lia|cbn [length]; lia|by right|left].
  pose proof (rec_at_det _ _ _ _ Hr Hr') as [= ->]. symmetry. by apply Hd.
Qed.

(** The blob of a write in flight is the one that was prepared. *)
Lemma served_blob t B w c q r : c ∈ db_queue (w_db w) → dc_cb c = fp_evalsha_reply_cb q → user_conts (ep_user q) = [(r, t)] →
  main_cas r = true → (∀ v, r ≠ RCas fp_del_delete_cb v) → written t B w → ep_argv q !! 5%nat = Some B.
Proof.
  intros Hc Hcb Hu Hr Hd Hw. destruct (main_user _ _ _ Hu Hr) as [(p&Hp&->&Hcase)|(p&_&->)]; [|by edestruct Hd].
  assert (cp_arg p = Some t) as Ha.
  { rewrite Hp in Hu. cbn [user_conts] in Hu. by apply cas_conts_inv in Hu as (?&_). }
  eapply (Hw c q Hc); [by rewrite Hcb|exact Hp|done|]. by destruct Hcase as [-> | ->].
Qed.

Lemma served_proc i t n l cl cl' nd r x : cl_inv n cl → running cl i nd → cas_served i t l cl cl' nd r x →
  ∃ s k, procs (nd_world nd) !! t = Some (r, s, k).
Proof.
  intros Hcl [Hi Hr1] (j&c&q&_&_&_&Hj&Hcb&Hu&_). pose proof (own_before nd (ci_nodes _ _ Hcl i nd Hi) Hr1) as HO.
  eexists _, _. eapply (queue_proc _ j); [done|done|]. rewrite Hcb. exact Hu.
Qed.

(** The success of the CAS is the atomic step. *)
Lemma served_atomic i t cl0 req part seid m ls l cl cl' nd r x :
  cl_inv m cl0 → 0 <= m → m + Z.of_nat (length ls) < 2 ^ 53 - 1 → cl_inv (m + Z.of_nat (length ls)) cl →
  running cl i nd → cl_run ls cl0 = Some cl → cl_do l cl = Some cl' →
  diary i t cl0 req part seid ls nd → (procedure r ≠ fp_retrans_lookup_cb → ident x = (part, seid)) →
  cas_served i t l cl cl' nd r x →
  ∃ part' seid', session_key x = make_key part' seid' ∧ (procedure r ≠ fp_retrans_lookup_cb → (part', seid') = (part, seid)) ∧
    atomically i (procedure r) req part' seid' cl0 (ls ++ [l]).
Proof.
  intros Hm Hm0 Hlen Hcl Hrun Hr Hdo Hdy Hid Hserved.
  destruct (served_cas i t _ l cl cl' nd r x Hcl Hlen Hrun Hserved) as (c&q&Hc&Hcb&Hu&Hargv&Heff).
  destruct (served_proc i t _ l cl cl' nd r x Hcl Hrun Hserved) as (s&k&Hp).
  destruct Hserved as (j&c'&q'&rep&sh'&->&_&_&_&Hmain&Hx&_).
  exists (t_part_id x), (t_seid x). split; [done|]. split; [exact Hid|]. exists ls, j, [], cl, cl'. split; [done|]. split; [done|]. split; [done|].
  pose proof (dy_role _ _ _ _ _ _ _ _ Hdy _ _ _ _ Hp Hx) as Hfact.
  pose proof (λ B, served_blob t B (nd_world nd) c q r Hc Hcb Hu Hmain) as Hblob. rewrite Hargv in Heff.
  destruct r as [| |[]| | |]; cbn [main_cas] in Hmain; try done; cbn [procedure cas_effect stage_fact] in *.
  - destruct Heff as (Hnone&data&Hd&Hnew). split; [done|].
    destruct (live_building _ _ _ x Hx Hfact) as (teid&B&HB&Hw). exists teid, data. split; [|done].
    rewrite (Hblob B ltac:(done) Hw) in Hd. by injection Hd as <-.
  - destruct Heff as (r1&data&Hd&Hold&Hv&Hnew). destruct Hfact as (r0&Hf&Hv0&Hw). injection (Hid ltac:(done)) as Hk1 Hk2.
    destruct (live_writing _ _ _ x Hx Hw) as (B&HB&HwB). exists r0, r1, data. unfold session_key in *. rewrite Hk1, Hk2 in *.
    split; [by eapply fetched_was_read|]. split; [done|]. split; [|done].
    rewrite (Hblob B ltac:(done) HwB) in Hd. by injection Hd as <-.
  - destruct Heff as (r1&Hold&Hv&Hnew). destruct Hfact as (r0&Hf&Hv0). injection (Hid ltac:(done)) as Hk1 Hk2.
    exists r0, r1. unfold session_key in *. rewrite Hk1, Hk2 in *. split; [by eapply fetched_was_read|done].
Qed.

(** C6: an accepted request is one atomic step on its session.  A pod has begun
    a request and works on it until it answers it, while any number of pods
    start, work on any requests, crash and reconnect, shards answer commands
    in any order and late, connections break, scripts are loaded again, leases
    expire and script caches are flushed.  If the answer is that the request
    is accepted, then since the request began one step of a shard, the service
    of a command of this pod, has carried it out.  An establishment found no
    session and stored the session that its request describes, pending, at
    version 1.  A modification replaced a record by what its request makes of
    the record that the pod had read before, counting the version up; the
    replaced record has the version that was read, and the data that was read
    unless the session was removed in between.  A deletion removed a record
    that stands in the same relation to the one the pod had read. *)
Theorem accepted_is_atomic cl ls0 cl0 ls1 cl1 l cl2 i t cb nd0 x0 req nd1 nd2 :
  cl_initial cl → Z.of_nat (length ls0) + Z.of_nat (length ls1) < 2 ^ 53 - 1 →
  cl_run ls0 cl = Some cl0 → running cl0 i nd0 → procs (nd_world nd0) !! t = Some (RLookup cb, 0%nat, 0) →
  txn_at (nd_world nd0) t = Some x0 → req_of (nd_world nd0) t = Some req →
  cl_run ls1 cl0 = Some cl1 → in_progress i t ls1 cl0 → get_node cl1 i = Some nd1 →
  cl_do l cl1 = Some cl2 → get_node cl2 i = Some nd2 → procs (nd_world nd2) !! t = None →
  ∃ x a, txn_at (nd_world nd1) t = Some x ∧ replies t a (nd_world nd1) (nd_world nd2) ∧
    (a = Cause V_PFCP_CAUSE_REQUEST_ACCEPTED → ∃ part seid, session_key x = make_key part seid ∧
       (cb ≠ fp_retrans_lookup_cb → (part, seid) = ident x0) ∧ atomically i cb req part seid cl0 ls1).
Proof.
  intros Hinit Hlen Hr0 Hrun Hp Hx Hreq Hr1 Hin Hi1 Hdo Hi2 Hend. set (m := Z.of_nat (length ls0)) in *.
  destruct (run_inv ls0 0 cl (initial_inv cl Hinit)) as (cl0'&Hr0'&Hcl0); [lia|unfold MAX_STEPS; lia|].
  assert (cl0' = cl0) as -> by congruence. rewrite Z.add_0_l in Hcl0. fold m in Hcl0.
  set (claim := λ ls cb key, ∃ part seid, key = make_key part seid ∧
    (cb ≠ fp_retrans_lookup_cb → (part, seid) = ident x0) ∧ atomically i cb req part seid cl0 ls).
  assert (∀ ls ls' cb key, claim ls cb key → claim (ls ++ ls') cb key) as Hmore.
  { intros ls ls' cb' key (part&seid&?&?&?). exists part, seid. split; [done|]. split; [done|]. by apply atomically_more. }
  assert (∀ ls nd, credit t cb (ident x0) claim ls nd → ∀ r s k x, procs (nd_world nd) !! t = Some (r, s, k) →
    txn_at (nd_world nd) t = Some x → procedure r ≠ fp_retrans_lookup_cb → ident x = ident x0) as Hid.
  { intros ls nd Hcr r s k x Hp' Hx' Hne. eapply (cr_sess _ _ _ _ _ _ Hcr); [done|]. by rewrite <- (cr_proc _ _ _ _ _ _ Hcr _ _ _ Hp'). }
  destruct (run_follow i t cl0 m (λ ls _ nd, credit t cb (ident x0) claim ls nd ∧ diary i t cl0 req (t_part_id x0) (t_seid x0) ls nd))
    with (ls2 := ls1) (ls1 := @nil cl_label) (n := m) (cl := cl0) (nd := nd0) as (cl1'&nd1'&Hr1'&Hrun1&[p Hp1]&Hcl1&[Hcr1 _]);
    cbn [length]; try done; try lia; [|apply Hrun|split; [by eapply lookup_credit|by eapply lookup_diary]|].
  { intros ls l' cl' nd p cl'' nd' p' Hinv Hn Hrl Hnd [Hcr Hdy] Hp' Hdo' [Hi' _] Hp''. split.
    - eapply step_credit; try done. intros r y Hserved.
      assert (∃ s k, procs (nd_world nd) !! t = Some (r, s, k)) as (s&k&Hpr) by by eapply served_proc.
      eapply served_atomic; try done; [lia..|]. intros Hne. eapply (Hid ls nd Hcr); try done. by destruct Hserved as (?&?&?&?&?&_&_&_&_&_&?&_).
    - eapply diary_step; try done. by eapply Hid. }
  assert (cl1' = cl1) as -> by congruence. assert (nd1' = nd1) as -> by (destruct Hrun1; congruence).
  destruct (answer_took i t cb (ident x0) claim _ ls1 l cl1 nd1 p cl2 nd2 Hcl1 Hrun1 Hcr1) as (x&a&?&?&_&?); try done. by exists x, a.
Qed.

End atomic.
