(* ===== verification/Answers.v ===== *)
(** The life of one request: the completions its transaction receives in a run
    of the pod form a run of the protocol, it is answered at most once, and an
    accepting answer means that the session's record and the data plane were
    updated. *)
From S2P Require Import Prelude Seid Dpdk Heap Redis World DbScript SessStore RetransCache IdAlloc.
From S2P Require Import DispatchQ NodeState Flow Sweeper Pod Preserve Pools Own OwnPod Safety Protocol Progress Procedures ProtocolRefine.

Section answers.
Context {DP : Dpdk} {PP : PfcpPort}.

(** The completions of [t] along a run. *)
Fixpoint history (t : Z) (es : list event) (w : world) : list completion :=
  match es with
  | [] => []
  | e :: es' =>
      option_list (is_completion_of t e w) ++
      match pod_step e w with Some (_, w1) => history t es' w1 | None => [] end
  end.

Definition wait_of (p : pstate) : outcome := let '(r, s, k) := p in Wait r s k.

(** [t] is answered [a] at the end of [es1], after exactly the completions [cs]. *)
Definition answered_at (t : Z) (w : world) (es1 : list event) (cs : list completion) (a : answer) : Prop :=
  ∃ es0 e w1 w2, es1 = es0 ++ [e] ∧ pod_run es0 w = Some (tt, w1) ∧ is_Some (procs w1 !! t) ∧
    pod_step e w1 = Some (tt, w2) ∧ procs w2 !! t = None ∧ replies t a w1 w2 ∧ cs = history t es1 w.

(** The same answer, seen from one event earlier. *)
Lemma answered_later t e w w1 es cs a :
  pod_step e w = Some (tt, w1) → answered_at t w1 es cs a →
  answered_at t w (e :: es) (option_list (is_completion_of t e w) ++ cs) a.
Proof.
  intros E (es0&e'&w2&w3&->&Hr0&Hl&He'&Hn&Hrep&->). exists (e :: es0), e', w2, w3.
  split; [done|]. split; [cbn [pod_run]; unfold mbind, SM_bind; by rewrite E|]. split; [done|]. split; [done|].
  split; [done|]. split; [done|]. cbn [history app]. by rewrite E.
Qed.

Lemma life es : ∀ w w' t p, pod_reachable w → no_timeout es → pod_run es w = Some (tt, w') → procs w !! t = Some p →
  (∃ p', procs w' !! t = Some p' ∧ proto_run (wait_of p) (history t es w) (wait_of p')) ∨
  ∃ es1 es2 cs a, es = es1 ++ es2 ∧ answered_at t w es1 cs a ∧ proto_run (wait_of p) cs (Answered a).
Proof.
  induction es as [|e es IH]; intros w w' t p Hw Hes Hr Hp; cbn [pod_run history] in *.
  { injection Hr as <-. left. exists p. split; [done|constructor]. }
  apply Forall_cons in Hes as [He Hes]. destruct (event_of e t p w Hw He Hp) as (w1&E&Hw1&Hev).
  apply bind_Some_inv in Hr as (w1'&[]&E'&Hr). assert (w1' = w1) as -> by congruence. rewrite E. clear E'.
  (* the rest of the life, once [t] waits in [p1] *)
  assert (∀ p1 pre, procs w1 !! t = Some p1 → pre = option_list (is_completion_of t e w) →
    (∀ cs o, proto_run (wait_of p1) cs o → proto_run (wait_of p) (pre ++ cs) o) →
    (∃ p', procs w' !! t = Some p' ∧ proto_run (wait_of p) (pre ++ history t es w1) (wait_of p')) ∨
    ∃ es1 es2 cs a, e :: es = es1 ++ es2 ∧ answered_at t w es1 cs a ∧ proto_run (wait_of p) cs (Answered a)) as Hrest.
  { intros p1 pre Hp1 Hpre Hrun. destruct (IH w1 w' t p1 Hw1 Hes Hr Hp1) as [(p'&Hp'&Hh)|(es1&es2&cs&a&->&Ha&Hcs)].
    - left. exists p'. split; [done|by apply Hrun].
    - right. exists (e :: es1), es2, (pre ++ cs), a. split; [done|]. split; [|by apply Hrun].
      rewrite Hpre. by eapply answered_later. }
  destruct (is_completion_of t e w) as [c|] eqn:Ec; cbn [option_list] in *.
  - destruct p as [[r s] k]. destruct Hev as ([r' s' k'|a]&Hs&Ho).
    + apply (Hrest (r', s', k') [c]); try done. intros cs o Hcs. cbn. by eapply run_step.
    + destruct Ho as [Hn Hrep]. right. exists [e], es, [c], a. split; [done|].
      split; [|eapply run_step; [exact Hs|constructor]]. exists [], e, w, w1. cbn [history app]. rewrite Ec, E.
      split; [done|]. split; [done|]. split; [by eexists|]. done.
  - by apply (Hrest p []).
Qed.

(** C5: the life of a request.  Follow a transaction from its retransmit
    lookup through any run.  Either it still waits at the end, having gone
    through a run of the protocol and sent nothing, or at one event of the run
    it was answered: the completions it had received by then form a complete
    run of the protocol, and exactly that event sent the response for that
    answer to its peer.  An accepted establishment was written to the database
    as a new record, then installed by the data plane, then confirmed, in this
    order; an accepted modification was written over the version it had read
    and then accepted by the data plane; an accepted deletion was accepted by
    the data plane and then removed the version it had read. *)
Theorem request_served es w w' t cb :
  pod_reachable w → no_timeout es → pod_run es w = Some (tt, w') → procs w !! t = Some (RLookup cb, 0%nat, 0) →
  (∃ p, procs w' !! t = Some p ∧ proto_run (Wait (RLookup cb) 0 0) (history t es w) (wait_of p)) ∨
  ∃ es1 es2 cs a, es = es1 ++ es2 ∧ answered_at t w es1 cs a ∧ proto_run (Wait (RLookup cb) 0 0) cs (Answered a) ∧
    (a = Cause V_PFCP_CAUSE_REQUEST_ACCEPTED → accepted_after cb cs).
Proof.
  intros Hw Hes Hr Hp. destruct (life es w w' t _ Hw Hes Hr Hp) as [?|(es1&es2&cs&a&->&Ha&Hcs)]; [by left|right].
  exists es1, es2, cs, a. split; [done|]. split; [done|]. split; [done|]. intros ->. by apply run_accepted in Hcs.
Qed.

End answers.
