(* ===== verification/Drain.v ===== *)
(** The pod comes to rest: with no new datagrams, whichever commands and
    data-plane operations complete in whatever order, every request is answered
    and nothing is in flight after a number of completions that is known in
    advance. *)
From S2P Require Import Prelude Seid Dpdk Heap Redis World DbScript SessStore RetransCache IdAlloc.
From S2P Require Import DispatchQ NodeState Flow Sweeper Pod Pools Own OwnPod Safety Protocol Progress Conform Procedures.
From S2P Require Import ProtocolRefine Answers.

(** ** The background commands *)

(** The completions a command without a transaction takes: one more for each
    stage of the transport still to go. *)
Definition bg_weight (c : db_cmd) : nat := match cb_conts (dc_cb c) with [] => S (stage (dc_cb c)) | _ => 0 end.

Section costs.
Context {DP : Dpdk} {PP : PfcpPort}.

Definition backlog (w : world) : nat := sum_list_with bg_weight (db_queue (w_db w)).

(** [m] adds at most [n] to the backlog. *)
Definition costs {A} (n : nat) (m : M A) : Prop := ∀ w a w', m w = Some (a, w') → (backlog w' <= backlog w + n)%nat.

Lemma costs_mono {A} n n' (m : M A) : costs n m → (n <= n')%nat → costs n' m.
Proof. intros Hm Hn w a w' E. specialize (Hm w a w' E). lia. Qed.

Lemma costs_bind {A B} c n (m : M A) (f : A → M B) :
  costs c m → (∀ a, costs (n - c) (f a)) → (c <= n)%nat → costs n (m ≫= f).
Proof.
  intros Hm Hf Hn w b w' (w1&a&E1&E2)%bind_Some_inv. specialize (Hm _ _ _ E1). specialize (Hf a _ _ _ E2). lia.
Qed.

Lemma costs_when n b m : costs n m → costs n (when b m).
Proof. intros H. destruct b; [done|]. intros w a w' [= _ <-]. lia. Qed.

(** An effect that leaves the queue alone. *)
Lemma costs_free {A} (m : M A) : (∀ w a w', m w = Some (a, w') → db_queue (w_db w') = db_queue (w_db w)) → costs 0 m.
Proof. intros H w a w' E. unfold backlog. rewrite (H _ _ _ E). lia. Qed.

Definition cb_weight (cb : v_db_cb_t) : nat := match cb_conts cb with [] => S (stage cb) | _ => 0 end.

Lemma costs_cmd s cb argv : costs (cb_weight cb) (v_port_db_cmd_argv s cb argv).
Proof.
  intros w rc w'. unfold v_port_db_cmd_argv. destruct (_ || _); [intros [= _ <-]; lia|].
  destruct (rte_mempool_get _) as [[o p]|]; [|intros [= _ <-]; lia].
  destruct (db_accept _ _); intros [= _ <-]; unfold backlog; cbn; [|lia].
  rewrite sum_list_with_app. cbn. unfold bg_weight at 2, cb_weight. cbn. lia.
Qed.
End costs.

Create HintDb costs discriminated.

(** A primitive that issues nothing. *)
Ltac free_prim :=
  let w := fresh "w" in let a := fresh "a" in let w' := fresh "w'" in
  apply costs_free; intros w a w'; cbv beta zeta delta [mret SM_ret gets modify deref crash txn_get txn_upd v_port_txn_set_state
    v_port_txn_create v_port_txn_destroy v_port_ctx_alloc v_port_ctx_free v_port_ctx_clear ctx_get ctx_set msg_get v_port_pfcp_msg_free
    v_dispatch_tx_enqueue vdp_dispatch v_port_vdp_session_create v_port_vdp_session_modify v_port_vdp_session_delete
    part_rr ids_modify seid_ring teid_ring evalsha_put load_put set_sha sess_ensure_pool sess_pending_get sess_pending_put
    retrans_ensure_pool retrans_pending_get retrans_pending_put node_pending_put clear_seid_inflight clear_teid_inflight];
  repeat (case_match; try done); by intros [= _ <-].

(** One step through a callback with a budget. *)
Ltac pay_cmd :=
  match goal with |- costs _ (v_port_db_cmd_argv ?s ?cb ?argv) =>
    let n := eval cbn in (cb_weight cb) in exact (costs_cmd s cb argv : costs n _) end.
Ltac pay_known := first [pay_cmd | solve [eauto with costs] | solve [free_prim]].
Ltac pay := intros; cbv beta zeta; repeat pay_step
with pay_step :=
  first [ solve [eapply costs_mono; [pay_known|cbn; lia]]
        | match goal with |- costs _ (_ ≫= _) =>
            first [eapply costs_bind; [pay_known|intros ?; cbn [Nat.sub]|cbn; lia]
                  |apply (costs_bind 0); [solve [pay]|intros ?; cbn [Nat.sub]|cbn; lia]
                  |apply (costs_bind 1); [solve [pay]|intros ?; cbn [Nat.sub]|cbn; lia]] end
        | apply costs_when
        | match goal with |- costs _ (if _ then _ else _) => case_match
                        | |- costs _ (match _ with _ => _ end) => case_match end ].

Section flow.
Context {DP : Dpdk} {PP : PfcpPort}.

Abbreviation user_call := (evalsha_user → Z → option v_db_reply → M ()).

Lemma costs_store part f seq resp : costs 1 (v_retrans_store part f seq resp).
Proof. unfold v_retrans_store. apply costs_cmd. Qed.
Lemma costs_tfree part teid : costs 1 (v_teid_free part teid).
Proof.
  unfold v_teid_free, v_port_db_cmd.
  eapply costs_bind; [apply costs_cmd|intros; cbn; free_prim|done].
Qed.
#[local] Hint Resolve costs_store costs_tfree : costs.
Lemma costs_reply x c : costs 1 (reply_and_cache x c).
Proof. unfold reply_and_cache. pay. Qed.
#[local] Hint Resolve costs_reply : costs.
Lemma costs_finish t c : costs 1 (finish t c).
Proof. unfold finish. pay. Qed.
Lemma costs_cached t resp : costs 0 (reply_cached t resp).
Proof. unfold reply_cached, drop_request. pay. Qed.
Lemma costs_snapshot t : costs 0 (drop_snapshot t).
Proof. unfold drop_snapshot. pay. Qed.
Lemma costs_seid part : costs 1 (v_seid_alloc part).
Proof. unfold v_seid_alloc, seid_maybe_refill, v_port_db_cmd. pay. Qed.

(** A command that carries a transaction is not part of the backlog. *)
Lemma costs_own s cb argv : cb_conts cb ≠ [] → costs 0 (v_port_db_cmd_argv s cb argv).
Proof. intros H. pose proof (costs_cmd s cb argv) as Hc. unfold cb_weight in Hc. by destruct (cb_conts cb). Qed.

Lemma costs_lookup part f seq cb t : costs 0 (v_retrans_lookup part f seq cb (Some t)).
Proof. unfold v_retrans_lookup, v_port_db_cmd. pay. Qed.

Lemma costs_pending n issue : (∀ o, costs n (issue o)) → costs n (with_pending issue).
Proof.
  intros Hi. unfold with_pending. apply (costs_bind 0); [free_prim|intros [o|]|lia]; [|eapply costs_mono; [free_prim|lia]].
  rewrite Nat.sub_0_r. apply (costs_bind n); [done|intros rc|lia]. rewrite Nat.sub_diag. pay.
Qed.

Lemma costs_ensured n (m : M Z) : costs n m → costs n (rc ← sess_ensure_pool; if negb (rc =? RET_CODE_OK) then mret RET_CODE_ERR else m).
Proof.
  intros Hm. apply (costs_bind 0); [free_prim|intros rc|lia]. rewrite Nat.sub_0_r.
  case_match; [eapply costs_mono; [free_prim|lia]|done].
Qed.

Lemma costs_read part seid c cb t : costs 0 (v_sess_read part seid c cb (Some t)).
Proof. apply costs_ensured, costs_pending. intros o. by apply costs_own. Qed.
Lemma costs_confirm part seid t : costs 0 (v_sess_confirm part seid fp_confirm_cb (Some t)).
Proof. apply costs_ensured, costs_pending. intros o. by apply costs_own. Qed.

Lemma costs_request_load s id resume :
  costs (match resume with Some p => cb_weight (fp_load_reply_cb (ScriptLoadCtx 0 s id (Some p))) | None => 1 end)
    (request_script_load s id resume).
Proof.
  intros w rc w'. unfold request_script_load. destruct (rte_mempool_get _) as [[o p]|]; [|intros [= _ <-]; lia].
  intros (w1&rc1&E1&E2)%bind_Some_inv. apply costs_cmd in E1.
  assert (backlog w' <= backlog w1 + 0)%nat as H2.
  { revert E2. generalize w1 rc w'. fold (costs 0 (if negb (rc1 =? RET_CODE_OK) then _ ← load_put o; mret RET_CODE_ERR else mret RET_CODE_OK)). pay. }
  replace (backlog (set_script _ w)) with (backlog w) in E1 by done. unfold cb_weight in *. destruct resume; cbn in *; lia.
Qed.

(** ** Synchronous failures *)

(** A callback told of a failure adds two commands at most, any callback nine. *)
Record iu_costs (iu : user_call) : Prop := {
  ic_none u st r : user_conts u = [] → costs 0 (iu u st r);
  ic_err u c T r : user_conts u = [(c, T)] → c ≠ RBad → costs 2 (iu u RET_CODE_ERR r);
  ic_any u c T st r : user_conts u = [(c, T)] → c ≠ RBad → costs 9 (iu u st r);
}.

Variable iu : user_call.
Hypothesis IU : iu_costs iu.

(** The price of an EVALSHA for [u] at a stage. *)
Definition call_price (u : evalsha_user) (stage : nat) : nat := match user_conts u with [] => S stage | _ => 2 end.

Definition sound_user (u : evalsha_user) : Prop := ∀ t, user_conts u ≠ [(RBad, t)].

Lemma costs_iu_err u r : sound_user u → costs (match user_conts u with [] => 0 | _ => 2 end) (iu u RET_CODE_ERR r).
Proof.
  intros Hb. pose proof (cb_conts_length (fp_evalsha_reply_cb (EvalshaPending 0 0 V_SCRIPT_SESS_DELETE u false []))) as Hl. cbn in Hl.
  destruct (user_conts u) as [|[c T] [|]] eqn:Eu; [by apply (ic_none iu IU)| |cbn in Hl; lia].
  apply (ic_err iu IU _ c T); [done|]. intros ->. by apply (Hb T).
Qed.

Lemma costs_issue p : sound_user (ep_user p) →
  costs (call_price (ep_user p) (if ep_retried p then 0 else 2)) (issue_evalsha iu p).
Proof.
  intros Hb w [] w' (w1&rc&E1&E2)%bind_Some_inv. unfold call_price. pose proof (costs_iu_err (ep_user p) None Hb) as Hu.
  assert (rc = RET_CODE_OK ∨ backlog w1 = backlog w) as [->|Hw].
  { revert E1. unfold v_port_db_cmd_argv. destruct (_ || _); [intros [= _ <-]; by right|].
    destruct (rte_mempool_get _) as [[o q]|]; [|intros [= _ <-]; by right].
    destruct (db_accept _ _); intros [= <- <-]; [by left|by right]. }
  - injection E2 as <-. apply costs_cmd in E1. unfold cb_weight in E1. cbn [cb_conts stage] in E1. destruct (user_conts _); lia.
  - rewrite <- Hw. revert E2. unfold when. destruct (negb _); [|intros [= <-]; lia]. intros (w2&[]&E2&[= <-])%bind_Some_inv.
    change (backlog (set_script _ w2)) with (backlog w2). apply Hu in E2. destruct (user_conts _); lia.
Qed.

Lemma costs_evalsha s id keys argv u : sound_user u → costs (call_price u 2) (v_db_evalsha iu s id keys argv u).
Proof.
  intros Hb w rc w'. unfold v_db_evalsha. case_match; [intros [= _ <-]; lia|].
  destruct (if _ <=? s then _ else _) as [sha|]; [|intros [= _ <-]; lia].
  destruct (rte_mempool_get _) as [[obj pool]|]; [|intros [= _ <-]; lia].
  destruct (scratch_copy_all _ _); intros (w2&[]&E&[= _ <-])%bind_Some_inv.
  - by apply costs_issue in E.
  - injection E as <-. unfold backlog. cbn. lia.
Qed.

Lemma costs_write part seid ver c st cb t : writes cb = true →
  costs 2 (v_sess_cas_write iu part seid ver c st cb (Some t)).
Proof.
  intros Hcb. apply costs_ensured. pay. apply costs_pending. intros o.
  eapply costs_mono; [apply costs_evalsha; intros T; by destruct cb|]. unfold call_price. destruct cb; cbn in *; (done || lia).
Qed.
Lemma costs_delete part seid ver t : costs 2 (v_sess_delete iu part seid ver fp_del_delete_cb (Some t)).
Proof. apply costs_ensured, costs_pending. intros o. eapply costs_mono; [apply costs_evalsha; by intros T|done]. Qed.
Lemma costs_delete_noop part seid ver : costs 3 (v_sess_delete iu part seid ver fp_delete_pending_noop_cb None).
Proof. apply costs_ensured, costs_pending. intros o. eapply costs_mono; [apply costs_evalsha; by intros T|done]. Qed.
Lemma costs_teid part : costs 4 (v_teid_alloc iu part).
Proof.
  unfold v_teid_alloc, teid_maybe_refill, v_port_db_cmd.
  pose proof (λ s id keys argv, costs_evalsha s id keys argv (fp_teid_refill_reply_cb part) ltac:(by intros T)) as He.
  cbn in He. eapply (costs_bind 4); [pay|intros; pay|lia].
Qed.

#[local] Hint Resolve costs_finish costs_cached costs_snapshot costs_seid costs_lookup costs_read costs_confirm costs_delete
  costs_delete_noop costs_teid : costs.
#[local] Hint Extern 1 (costs _ (v_sess_cas_write _ _ _ _ _ _ _ _)) => (by apply costs_write) : costs.

(** ** The callbacks *)

Section one.
Variable t : Z.
Lemma costs_cas_write st res ver : costs 5 (cas_write_cb iu t st res ver).
Proof. unfold cas_write_cb. pay. Qed.
Lemma costs_vdp_create res : costs 5 (vdp_create_cb iu t res).
Proof. unfold vdp_create_cb. pay. Qed.
Lemma costs_mod_vdp res : costs 3 (mod_vdp_cb iu t res).
Proof. unfold mod_vdp_cb, ctx_free_opt. pay. Qed.
Lemma costs_del_vdp res : costs 3 (del_vdp_cb iu t res).
Proof. unfold del_vdp_cb. pay. Qed.
Lemma costs_mod_cas st res ver : costs 1 (mod_cas_cb t st res ver).
Proof. unfold mod_cas_cb, mod_start_read. pay. Qed.
Lemma costs_del_delete st res ver : costs 2 (del_delete_cb t st res ver).
Proof. unfold del_delete_cb, del_start_read. pay. Qed.
Lemma costs_mod_read st f c ver : costs 3 (mod_read_cb iu t st f c ver).
Proof. unfold mod_read_cb. pay. Qed.
Lemma costs_del_read st f c ver : costs 1 (del_read_cb t st f c ver).
Proof. unfold del_read_cb. pay. Qed.
Lemma costs_est_lookup st hit resp : costs 9 (retrans_lookup_cb iu t st hit resp).
Proof. unfold retrans_lookup_cb. pay. Qed.
Lemma costs_mod_lookup st hit resp : costs 1 (mod_retrans_lookup_cb t st hit resp).
Proof. unfold mod_retrans_lookup_cb, alloc_ctx_then, mod_start_read. pay. Qed.
Lemma costs_del_lookup st hit resp : costs 1 (del_retrans_lookup_cb t st hit resp).
Proof. unfold del_retrans_lookup_cb, alloc_ctx_then, del_start_read. pay. Qed.
End one.
End flow.

Section pod.
Context {DP : Dpdk} {PP : PfcpPort}.

#[local] Hint Resolve costs_finish costs_tfree costs_snapshot costs_cas_write costs_vdp_create costs_mod_vdp costs_del_vdp costs_mod_cas
  costs_del_delete costs_mod_read costs_del_read costs_est_lookup costs_mod_lookup costs_del_lookup : costs.

Lemma costs_call_cas iu cb st res ver t : iu_costs iu → costs 9 (call_cas iu cb st res ver (Some t)).
Proof.
  intros IU. destruct cb; cbn [call_cas]; unfold mod_compensate_write_cb, delete_pending_noop_cb, delete_pending_cb; pay.
Qed.

(** The failure branches. *)
Lemma costs_call_err iu cb t : costs 2 (call_cas iu cb RET_CODE_ERR V_CAS_GONE 0 (Some t)).
Proof.
  destruct cb; cbn [call_cas].
  - unfold cas_write_cb. cbn [negb Z.eqb RET_CODE_ERR RET_CODE_OK orb]. pay.
  - unfold mod_cas_cb. cbn [negb Z.eqb RET_CODE_ERR RET_CODE_OK]. pay.
  - unfold mod_compensate_write_cb. pay.
  - unfold del_delete_cb. cbn [negb Z.eqb RET_CODE_ERR RET_CODE_OK]. pay.
  - unfold delete_pending_noop_cb. pay.
  - unfold delete_pending_cb. pay.
Qed.

Lemma costs_teid_reply part st r : costs 0 (teid_refill_reply_cb part st r).
Proof. unfold teid_refill_reply_cb. pay. Qed.

Lemma invoke_user_costs d : iu_costs (invoke_user d).
Proof.
  induction d as [|d IH]; [split; intros; by intros ? ? ?|]. split.
  - intros u st r Hu. destruct u as [p|p|part]; cbn [invoke_user user_conts] in *.
    + unfold cas_write_reply_cb. destruct (cas_reply _ _ _) as [[st' res] ver]. unfold cas_conts, call_conts in Hu.
      destruct (cp_cb p); try done; try (by apply cont_of_nonempty in Hu); cbn [call_cas]; unfold delete_pending_noop_cb, delete_pending_cb; pay.
    + unfold delete_reply_cb. destruct (cas_reply _ _ _) as [[st' res] ver]. unfold del_conts, call_conts in Hu.
      destruct (cp_cb p); try done; try (by apply cont_of_nonempty in Hu); cbn [call_cas]; unfold delete_pending_noop_cb, delete_pending_cb; pay.
    + apply costs_teid_reply.
  - intros u c T r Hu Hc. destruct u as [p|p|part]; cbn [invoke_user user_conts] in *; [..|done].
    + apply cas_conts_inv in Hu as (Ha&->&_); [|done]. unfold cas_write_reply_cb. rewrite cas_reply_err, Ha.
      eapply (costs_bind 2); [apply costs_call_err|intros; cbn; free_prim|done].
    + apply del_conts_inv in Hu as (Ha&->&_); [|done]. unfold delete_reply_cb. rewrite cas_reply_err, Ha.
      eapply (costs_bind 2); [apply costs_call_err|intros; cbn; free_prim|done].
  - intros u c T st r Hu Hc. destruct u as [p|p|part]; cbn [invoke_user user_conts] in *; [..|done].
    + apply cas_conts_inv in Hu as (Ha&->&_); [|done]. unfold cas_write_reply_cb. destruct (cas_reply _ _ _) as [[st' res] ver]. rewrite Ha.
      eapply (costs_bind 9); [by apply costs_call_cas|intros; cbn; free_prim|done].
    + apply del_conts_inv in Hu as (Ha&->&_); [|done]. unfold delete_reply_cb. destruct (cas_reply _ _ _) as [[st' res] ver]. rewrite Ha.
      eapply (costs_bind 9); [by apply costs_call_cas|intros; cbn; free_prim|done].
Qed.

Lemma iu_costing : iu_costs iu.
Proof. apply invoke_user_costs. Qed.

#[local] Hint Resolve iu_costing : costs.

(** ** Completions *)

#[local] Opaque seid_enqueue_block enqueue_range enqueue_list.

Lemma retry_sound p r t : user_conts (ep_user p) = [(r, t)] → r ≠ RBad → sound_user (ep_user p).
Proof. intros Hu Hr t' Ht. rewrite Hu in Ht. congruence. Qed.

Lemma bg_sound u : user_conts u = [] → sound_user u.
Proof. intros Hu t. by rewrite Hu. Qed.

(** A background command that completes leaves less work than it was. *)
Lemma bg_costs cb st reply : cb_conts cb = [] → costs (stage cb) (db_invoke cb st reply).
Proof.
  intros Hc. pose proof (ic_none iu iu_costing) as Hu.
  destruct cb as [p|lc|p|p|part| | |p| |p|p|p]; cbn [cb_conts db_invoke stage] in *; try by apply cont_of_nonempty in Hc.
  - unfold evalsha_reply_cb. destruct (ep_retried p); [rewrite andb_false_r; pay|].
    destruct (is_noscript st reply); cbn [andb negb]; [|pay].
    eapply (costs_bind 2); [eapply costs_mono; [apply costs_request_load|unfold cb_weight; cbn; by rewrite Hc]|intros rc; cbn [Nat.sub]; pay|lia].
  - unfold load_reply_cb. destruct (lc_resume lc) as [p|]; [|pay].
    assert (∀ sha, costs (if ep_retried p then 1 else 3) (issue_evalsha iu (set_part_sha p sha))) as Hi.
    { intros sha. eapply costs_mono; [apply costs_issue; [apply iu_costing|by apply bg_sound]|].
      unfold call_price. cbn. rewrite Hc. by destruct (ep_retried p). }
    destruct (if st =? RET_CODE_OK then _ else None) as [sha|]; [|destruct (ep_retried p); pay].
    destruct (ep_retried p); pay.
  - unfold confirm_reply_cb. destruct (sp_cb p); [by apply cont_of_nonempty in Hc|]. cbn [call_simple]. unfold confirm_retry_cb. pay.
  - unfold seid_refill_reply_cb. pay.
  - unfold seed_reply_cb. pay.
  - unfold teid_free_reply_cb. pay.
  - unfold store_ack_cb. pay.
  - unfold recovery_reply_cb, recovery_ts_loaded_cb. pay.
  - unfold simple_ack_cb, node_cb_noop. pay.
  - unfold assoc_query_reply_cb, assoc_cb_noop. pay.
Qed.

(** A completion of a transaction adds nine commands at most. *)
Lemma txn_costs cb r t st reply : cb_conts cb = [(r, t)] → r ≠ RBad → costs 9 (db_invoke cb st reply).
Proof.
  intros Hc Hr. destruct cb as [p|lc|p|p|part| | |p| |p|p|p]; cbn [cb_conts db_invoke] in *; try done.
  - unfold evalsha_reply_cb. pose proof (ic_any iu iu_costing _ _ _ st reply Hc Hr). pose proof (ic_err iu iu_costing _ _ _ reply Hc Hr).
    case_match; [|pay]. eapply (costs_bind 0); [eapply costs_mono; [apply costs_request_load|unfold cb_weight; cbn; by rewrite Hc]|intros rc; cbn [Nat.sub]; pay|lia].
  - destruct (lc_resume lc) as [p|] eqn:Ep; [|done]. unfold load_reply_cb. rewrite Ep.
    pose proof (ic_err iu iu_costing _ _ _ reply Hc Hr).
    assert (∀ sha, costs 2 (issue_evalsha iu (set_part_sha p sha))) as Hi.
    { intros sha. eapply costs_mono; [apply costs_issue; [apply iu_costing|by eapply retry_sound]|].
      unfold call_price. cbn. by rewrite Hc. }
    destruct (if st =? RET_CODE_OK then _ else None) as [sha|].
    + eapply (costs_bind 0); [free_prim|intros _; cbn [Nat.sub]|lia]. eapply (costs_bind 2); [apply Hi|intros _; cbn [Nat.sub]; pay|lia].
    + eapply (costs_bind 2); [pay|intros _; cbn [Nat.sub]; pay|lia].
  - apply cont_of_inv in Hc as [Ha ->]; [|done]. unfold read_reply_cb. rewrite Ha.
    assert (∀ st f c ver, costs 9 (call_read (rp_cb p) st f c ver (Some t))) as Hread.
    { intros. destruct (rp_cb p); cbn [call_read]; pay. }
    destruct (read_fields _ _) as [[data ver]|]; [|eapply (costs_bind 9); [apply Hread|intros; cbn; free_prim|lia]].
    case_match; [eapply (costs_bind 9); [apply Hread|intros; cbn; free_prim|lia]|].
    eapply (costs_bind 0); [free_prim|intros c; cbn [Nat.sub]|lia]. destruct (v_port_pdu_deserialize _ _) as [rc c'].
    eapply (costs_bind 0); [free_prim|intros _; cbn [Nat.sub]|lia].
    eapply (costs_bind 9); [case_match; apply Hread|intros; cbn; free_prim|lia].
  - unfold confirm_reply_cb. destruct (sp_cb p); [|done]. apply cont_of_inv in Hc as [Ha ->]; [|done]. rewrite Ha.
    cbn [call_simple]. unfold confirm_cb. pay.
  - apply cont_of_inv in Hc as [Ha ->]; [|done]. unfold lookup_reply_cb. rewrite Ha. destruct (lookup_outcome _ _) as [[st' hit] resp].
    eapply (costs_bind 9); [|intros; cbn; free_prim|lia]. destruct (rt_cb p); cbn [call_retrans]; pay.
Qed.

Lemma vdp_costs cb t res : costs 9 (call_vdp cb t res).
Proof.
  destruct cb; cbn [call_vdp]; pay.
Qed.

End pod.

(** ** Coming to rest *)

Section rest.
Context {DP : Dpdk} {PP : PfcpPort}.

(** The work left: ten units for each completion that a procedure may still
    take, one for each of a background command. *)
Definition load (w : world) : nat := (10 * work (procs w) + backlog w)%nat.

Definition quiescent (w : world) : bool :=
  bool_decide (db_queue (w_db w) = []) && bool_decide (vdp_queue (w_vdp w) = []).

(** The event completes something that is in flight. *)
Definition completes_something (e : event) (w : world) : Prop :=
  match e with
  | EvReply i _ => is_Some (db_queue (w_db w) !! i)
  | EvVdp i _ => is_Some (vdp_queue (w_vdp w) !! i)
  | _ => False
  end.

(** A step of a procedure takes ten units. *)
Lemma follows_work e w w' t c :
  pod_reachable w → completion_of e w = Some (t, c) → follows e w w' → (S (work (procs w')) <= work (procs w))%nat.
Proof.
  intros Hw Hc Hf. unfold follows in Hf. rewrite Hc in Hf. destruct Hf as (r&s&k&o&Hp&Hs&->&_).
  apply pod_reachable_inv in Hw as [HO _]. eapply put_decreases; [|done|done].
  apply procs_lookup in Hp as [Hin ->]; [|done]. by apply (wait_ok w t r s HO).
Qed.

Lemma completion_load w e w' :
  pod_reachable w → completes_something e w → pod_step e w = Some (tt, w') → (load w' < load w)%nat.
Proof.
  intros Hw He E. pose proof (proj1 (pod_reachable_inv w Hw)) as HO.
  assert (is_timeout e = false) as Ht by by destruct e.
  destruct (step_follows w e Hw Ht) as (w1&E1&Hf). assert (w1 = w') as -> by congruence. clear E1.
  pose proof (λ t c Hc, follows_work e w w' t c Hw Hc Hf) as Hwork. unfold load.
  destruct e as [| |i reply|i res| | | | | | |]; try done; destruct He as [c Hi].
  - apply bind_Some_inv in E as (w1&o&E1&E2). unfold take_db_cmd in E1. rewrite Hi in E1. injection E1 as <- <-.
    apply bind_Some_inv in E2 as (w2&[]&E2&[= <-]). change (backlog (set_db _ w2)) with (backlog w2).
    set (w1 := set_db _ w) in *. assert (backlog w = bg_weight c + backlog w1)%nat as Hb.
    { unfold backlog. cbn. by rewrite (delete_Permutation _ _ _ Hi) at 1. }
    pose proof (cb_conts_length (dc_cb c)) as Hlen. unfold bg_weight in Hb.
    destruct (cb_conts (dc_cb c)) as [|[r t] [|]] eqn:Ec; [..|cbn in Hlen; lia].
    + apply bg_costs in E2; [|done]. unfold follows in Hf. cbn [completion_of] in Hf. rewrite Hi, Ec in Hf.
      destruct Hf as [->|[[=] _]]. lia.
    + assert ((t, r, stage (dc_cb c)) ∈ waits w) as Hin.
      { unfold waits. apply elem_of_app. left. apply list_elem_of_bind. exists c. split; [|by eapply list_elem_of_lookup_2].
        unfold cmd_waits. rewrite Ec. by left. }
      destruct (wait_ok w t r _ HO Hin) as (Hr&_&_). apply (txn_costs _ _ _ _ _ Ec Hr) in E2.
      specialize (Hwork t (CReply reply)). cbn [completion_of] in Hwork. rewrite Hi, Ec in Hwork. specialize (Hwork eq_refl). lia.
  - apply bind_Some_inv in E as (w1&o&E1&E2). unfold take_vdp_call in E1. rewrite Hi in E1. injection E1 as <- <-.
    apply vdp_costs in E2. change (backlog (set_vdp _ w)) with (backlog w) in E2.
    specialize (Hwork (vc_arg c) (CVdp res)). cbn [completion_of] in Hwork. rewrite Hi in Hwork. specialize (Hwork eq_refl). lia.
Qed.

(** As long as something is in flight there is work left. *)
Lemma load_zero w : pod_reachable w → load w = 0%nat → quiescent w = true.
Proof.
  intros Hw Hz. pose proof (proj1 (pod_reachable_inv w Hw)) as HO. unfold load in Hz.
  assert (hp_mem (w_txns w) = ∅) as Ht by (apply no_work; [done|lia]).
  assert (∀ r t, (r, t) ∉ conts w) as Hc.
  { intros r t Hin. destruct (o_role _ _ _ _ _ HO r t Hin) as (x&Hx&_). by rewrite Ht, lookup_empty in Hx. }
  unfold quiescent. apply andb_true_iff. rewrite !bool_decide_eq_true. unfold conts in Hc. split.
  - destruct (db_queue (w_db w)) as [|c q] eqn:Eq; [done|]. exfalso. unfold backlog in Hz. rewrite Eq in Hz. cbn in Hz.
    unfold bg_weight in Hz. destruct (cb_conts (dc_cb c)) as [|[r t] l] eqn:Ec; [lia|]. apply (Hc r t).
    apply elem_of_app. left. cbn. rewrite Ec. by left.
  - destruct (vdp_queue (w_vdp w)) as [|v q] eqn:Eq; [done|]. exfalso. apply (Hc (RVdp (vc_cb v)) (vc_arg v)).
    apply elem_of_app. right. by left.
Qed.

(** Let the schedule choose what completes until nothing is left. *)
Fixpoint drive (n : nat) (sched : nat → world → event) (w : world) : option (list event * world) :=
  match n with
  | O => Some ([], w)
  | S n' =>
      if quiescent w then Some ([], w)
      else match pod_step (sched n w) w with
           | Some (_, w1) => match drive n' sched w1 with Some (es, w') => Some (sched n w :: es, w') | None => None end
           | None => None
           end
  end.

Lemma drive_rests sched n : ∀ w,
  (∀ k w1, pod_reachable w1 → quiescent w1 = false → completes_something (sched k w1) w1) →
  pod_reachable w → (load w <= n)%nat →
  ∃ es w', drive n sched w = Some (es, w') ∧ no_timeout es ∧ (length es <= n)%nat ∧ pod_run es w = Some (tt, w') ∧
    pod_reachable w' ∧ quiescent w' = true.
Proof.
  induction n as [|n IH]; intros w Hs Hw Hl; cbn [drive].
  { exists [], w. split_and!; try done; [constructor|]. apply load_zero; [done|lia]. }
  destruct (quiescent w) eqn:Hq.
  { exists [], w. split_and!; try done; [constructor|cbn; lia]. }
  pose proof (Hs (S n) w Hw Hq) as He. set (e := sched (S n) w) in *. assert (is_timeout e = false) as Ht by by destruct e.
  destruct (step_follows w e Hw Ht) as (w1&E&_). pose proof (reachable_step w e w1 Hw Ht E) as Hw1.
  pose proof (completion_load w e w1 Hw He E) as Hlt. rewrite E.
  destruct (IH w1 Hs Hw1 ltac:(lia)) as (es&w'&->&Hes&Hlen&Hr&Hw'&Hq'). exists (e :: es), w'.
  split_and!; try done; [by constructor|cbn; lia|]. cbn [pod_run]. unfold mbind, SM_bind. by rewrite E.
Qed.

(** C9: the pod comes to rest.  Take any reachable pod and let any schedule
    choose, again and again, a command or data-plane operation in flight that
    completes next, with any reply or result or a broken connection.  After
    [load] completions at most (ten for each round trip that a procedure in
    flight may still need, one for each round trip of a background command)
    nothing is in flight; by then every request that was being served has been
    answered, along a run of the protocol, and every transaction, session
    context and decoded request has been released. *)
Theorem pod_comes_to_rest w sched :
  pod_reachable w →
  (∀ k w1, pod_reachable w1 → quiescent w1 = false → completes_something (sched k w1) w1) →
  ∃ es w', drive (load w) sched w = Some (es, w') ∧ (length es <= load w)%nat ∧ pod_run es w = Some (tt, w') ∧
    quiescent w' = true ∧ heap_live (w_txns w') = ∅ ∧ heap_live (w_ctxs w') = ∅ ∧ heap_live (w_msgs w') = ∅ ∧
    ∀ t p, procs w !! t = Some p →
      ∃ es1 es2 cs a, es = es1 ++ es2 ∧ answered_at t w es1 cs a ∧ proto_run (wait_of p) cs (Answered a).
Proof.
  intros Hw Hs. destruct (drive_rests sched (load w) w Hs Hw ltac:(lia)) as (es&w'&Hd&Hes&Hlen&Hr&Hw'&Hq).
  exists es, w'. pose proof Hq as Hq'. unfold quiescent in Hq'. apply andb_true_iff in Hq' as [H1%bool_decide_eq_true H2%bool_decide_eq_true].
  destruct (pod_inv_quiescent w' (pod_reachable_inv w' Hw') H1 H2) as (Ht&Hc&Hm&_).
  split; [done|]. split; [done|]. split; [done|]. split; [done|]. unfold heap_live. rewrite Ht, Hc, Hm, !dom_empty_L.
  split; [done|]. split; [done|]. split; [done|]. intros t p Hp.
  destruct (life es w w' t p Hw Hes Hr Hp) as [(p'&Hp'&_)|H]; [|done]. exfalso.
  pose proof (proj1 (pod_reachable_inv w' Hw')) as HO'.
  assert (is_Some (hp_mem (w_txns w') !! t)) as [x Hx] by (apply (procs_dom w' HO'); by eexists). by rewrite Ht, lookup_empty in Hx.
Qed.

End rest.
