(* ===== verification/Supplies.v ===== *)
(** A pod with supplies: connected to its shards, with scripts loaded and
    objects left in its pools.  There no operation of a procedure is refused,
    so a transaction goes on waiting wherever the protocol lets it. *)
From S2P Require Import Prelude Seid Dpdk Heap Redis World DbScript SessStore RetransCache IdAlloc.
From S2P Require Import DispatchQ NodeState Flow Sweeper Pod Pools Own SessCas Protocol Progress Conform Procedures.

(** Room for a session's data in the scratch buffer of EVALSHA, beside its
    key, its version and its lease. *)
Definition BLOB_ROOM : nat := 900.

Section supplies.
Context {DP : Dpdk} {PP : PfcpPort}.

Abbreviation user_call := (evalsha_user → Z → option v_db_reply → M ()).

(** At least [n] objects are left in every pool, and the next [n] operations
    are not refused by their ports. *)
Record supplied (n : nat) (w : world) : Prop := {
  sup_conn s : 0 <= s < V_STUB_DB_SHARDS → db_connected (w_db w) s = true;
  sup_accept i : (db_issue_no (w_db w) <= i < db_issue_no (w_db w) + n)%nat → db_accept (w_db w) i = true;
  sup_vdp i : (vdp_issue_no (w_vdp w) <= i < vdp_issue_no (w_vdp w) + n)%nat → vdp_accept (w_vdp w) i = true;
  sup_sha s id : 0 <= s < V_STUB_DB_SHARDS → sha_cached (w_script w) s id ≠ None;
  sup_pending : (n <= length (mp_free (db_pending_pool (w_db w))))%nat;
  sup_evalsha : (n <= length (mp_free (g_evalsha_pool (w_script w))))%nat;
  sup_load : (n <= length (mp_free (g_load_pool (w_script w))))%nat;
  sup_sess : match w_sess_pool w with
    | Some p => (n <= length (mp_free p))%nat
    | None => ∃ p, rte_mempool_create V_SESS_PENDING_POOL_CAP = Some p ∧ (n <= length (mp_free p))%nat
    end;
  sup_ctx : (n <= length (mp_free (hp_pool (w_ctxs w))))%nat;
}.

(** The partition the establishment [t] will allocate from, and that it has
    identifiers. *)
Definition est_part (t : Z) (w : world) : option Z :=
  x ← heap_get (w_txns w) t; r ← t_req x; m ← heap_get (w_msgs w) r;
  match v_port_pfcp_ue_ip m with Some (v4, v6) => Some (hash_ue_ip v4 v6) | None => fst <$> part_rr w end.

Definition seids_left (part : Z) (w : world) : Prop :=
  ∃ r x l, g_seid_ring (w_ids w) !! part = Some r ∧ ring_items r = x :: l ∧ x ≠ 0.

Definition teids_left (part : Z) (w : world) : Prop :=
  ∃ r x l, g_teid_ring (w_ids w) !! part = Some r ∧ ring_items r = x :: l ∧ u32 x ≠ 0.

Definition stocked (t : Z) (w : world) : Prop :=
  ∃ part, est_part t w = Some part ∧ seids_left part w ∧ teids_left part w.

(** What the procedures need of the codec: no request is refused, sessions
    fit, and what was read once can be copied. *)
Record codec_fits : Prop := {
  cf_build m seid teid c : (v_port_pfcp_build_session m seid teid c).1 = RET_CODE_OK;
  cf_modify m c : (v_port_pfcp_modify_session m c).1 = RET_CODE_OK;
  cf_serialize c : ∃ blob, v_port_pdu_serialize c V_SESS_BLOB_MAX_BYTES = Some blob ∧ (length blob <= BLOB_ROOM)%nat;
  cf_copy data c c' blob p : v_port_pdu_deserialize data c = (RET_CODE_OK, c') →
    v_port_pdu_serialize c' V_SESS_BLOB_MAX_BYTES = Some blob → (v_port_pdu_deserialize blob p).1 = RET_CODE_OK;
}.

(** The transaction waits for something. *)
Definition continues (t : Z) (w : world) : Prop := ∃ r s, (t, r, s) ∈ waits w.

(** [m] uses at most [j] objects of each pool and returns a [φ]. *)
Definition spends {A} (j : nat) (φ : A → Prop) (m : M A) : Prop :=
  ∀ n w a w', supplied (j + n) w → m w = Some (a, w') → φ a ∧ supplied n w'.

(** With [n] objects left, [m] hands [t] over; a call also returns success. *)
Definition goes_on {A} (t : Z) (n : nat) (m : M A) : Prop :=
  ∀ w a w', supplied n w → m w = Some (a, w') → continues t w'.

Definition hands_over (t : Z) (n : nat) (m : M Z) : Prop :=
  ∀ w rc w', supplied n w → m w = Some (rc, w') → rc = RET_CODE_OK ∧ continues t w'.

Lemma supplied_le n n' w : (n' <= n)%nat → supplied n w → supplied n' w.
Proof.
  intros Hn [H1 H2 H3 H4 H5 H6 H7 H8 H9]. split; try done; try lia; try (intros i Hi; apply H2 || apply H3; lia).
  destruct (w_sess_pool w); [lia|]. destruct H8 as (p&Hp&?). exists p. split; [done|lia].
Qed.

(** ** Composition *)

Lemma spends_ret {A} (a : A) φ : φ a → spends 0 φ (mret a).
Proof. intros H n w b w' Hs [= <- <-]. by split. Qed.

Lemma spends_bind {A B} i j φ ψ (m : M A) (f : A → M B) :
  spends i φ m → (∀ a, φ a → spends j ψ (f a)) → spends (i + j) ψ (m ≫= f).
Proof.
  intros Hm Hf n w b w' Hs (w1&a&E1&E2)%bind_Some_inv.
  destruct (Hm (j + n)%nat w a w1) as [Ha Hs1]; [by rewrite Nat.add_assoc|done|]. by eapply Hf.
Qed.

Lemma spends_more {A} i j φ (m : M A) : (i <= j)%nat → spends i φ m → spends j φ m.
Proof. intros Hi Hm n w a w' Hs E. eapply (Hm n); [|done]. eapply supplied_le, Hs. lia. Qed.

Lemma goes_bind {A B} t j n φ (m : M A) (f : A → M B) :
  spends j φ m → (∀ a, φ a → goes_on t n (f a)) → goes_on t (j + n) (m ≫= f).
Proof.
  intros Hm Hf w b w' Hs (w1&a&E1&E2)%bind_Some_inv. destruct (Hm _ _ _ _ Hs E1) as [Ha Hs1]. by eapply Hf.
Qed.

Lemma silent_continues t w w' : silent w w' → continues t w → continues t w'.
Proof. intros [[Hw _] _] (r&s&H). exists r, s. by apply Hw. Qed.

(** [rc = call(); if (rc != OK) ...]: the refusal does not happen. *)
Lemma goes_call t n (m : M Z) (f : M ()) :
  hands_over t n m → goes_on t n (rc ← m; when (negb (rc =? RET_CODE_OK)) f).
Proof. intros Hm w a w' Hs (w1&rc&E1&E2)%bind_Some_inv. destruct (Hm _ _ _ Hs E1) as [-> Hc]. by injection E2 as _ <-. Qed.

Lemma hands_bind {A} t j n φ (m : M A) (f : A → M Z) :
  spends j φ m → (∀ a, φ a → hands_over t n (f a)) → hands_over t (j + n) (m ≫= f).
Proof.
  intros Hm Hf w b w' Hs (w1&a&E1&E2)%bind_Some_inv. destruct (Hm _ _ _ _ Hs E1) as [Ha Hs1]. by eapply Hf.
Qed.

(** Operations that touch no supply. *)
Definition supplies (w : world) :=
  (db_connected (w_db w), db_accept (w_db w), db_issue_no (w_db w), db_pending_pool (w_db w), vdp_accept (w_vdp w),
   vdp_issue_no (w_vdp w), w_script w, w_sess_pool w, hp_pool (w_ctxs w)).

Lemma same_supplies n w w' : supplies w' = supplies w → supplied n w → supplied n w'.
Proof. intros [= H1 H2 H3 H4 H5 H6 H7 H8 H9] []. by split; rewrite ?H1, ?H2, ?H3, ?H4, ?H5, ?H6, ?H7, ?H8, ?H9. Qed.

Lemma spends_inert {A} (m : M A) φ :
  (∀ w a w', m w = Some (a, w') → φ a ∧ supplies w' = supplies w) → spends 0 φ m.
Proof. intros H n w a w' Hs E. destruct (H w a w' E) as [Ha Hw]. split; [done|by eapply same_supplies]. Qed.

(** ** Primitives *)

Lemma spends_txn_get t : spends 0 (λ _, True) (txn_get t).
Proof. apply spends_inert. intros w a w'. unfold txn_get. case_match; [by intros [= _ <-]|done]. Qed.

Lemma spends_txn_upd t f : spends 0 (λ _, True) (txn_upd t f).
Proof. apply spends_inert. intros w a w'. unfold txn_upd. case_match; [by intros [= _ <-]|done]. Qed.

Lemma spends_deref o : spends 0 (λ a, o = Some a) (deref o).
Proof. apply spends_inert. destruct o; [by intros w a w' [= <- <-]|done]. Qed.

Lemma spends_msg_get r : spends 0 (λ _, True) (msg_get r).
Proof. apply spends_inert. intros w a w'. unfold msg_get. case_match; [by intros [= _ <-]|done]. Qed.

Lemma spends_ctx_get c : spends 0 (λ _, True) (ctx_get c).
Proof. apply spends_inert. intros w a w'. unfold ctx_get. case_match; [by intros [= _ <-]|done]. Qed.

Lemma spends_ctx_set c v : spends 0 (λ _, True) (ctx_set c v).
Proof. apply spends_inert. intros w a w'. unfold ctx_set. case_match; [by intros [= _ <-]|done]. Qed.

Lemma spends_part_rr : spends 0 (λ _, True) part_rr.
Proof. apply spends_inert. by intros w a w' [= _ <-]. Qed.

(** What a pool still gives. *)
Lemma pool_get n p : (S n <= length (mp_free p))%nat →
  ∃ o p', rte_mempool_get p = Some (o, p') ∧ (n <= length (mp_free p'))%nat.
Proof.
  intros Hn. destruct (rte_mempool_get p) as [[o p']|] eqn:E.
  - exists o, p'. split; [done|]. apply mp_get_law in E. rewrite E in Hn. cbn in Hn. lia.
  - apply mp_get_none in E. rewrite E in Hn. cbn in Hn. lia.
Qed.

Lemma pool_put n p o : (n <= length (mp_free p))%nat → (n <= length (mp_free (rte_mempool_put p o)))%nat.
Proof. rewrite mp_put_law. cbn. lia. Qed.

Lemma spends_ctx_alloc : spends 1 (λ o, o ≠ None) v_port_ctx_alloc.
Proof.
  intros n w a w' Hs. unfold v_port_ctx_alloc, heap_alloc. pose proof Hs as [].
  destruct (pool_get n (hp_pool (w_ctxs w)) ltac:(lia)) as (o&p&->&Hp). intros [= <- <-]. split; [done|].
  apply (supplied_le _ n) in Hs; [|lia]. by destruct Hs; split.
Qed.

Lemma spends_ctx_free c : spends 0 (λ _, True) (v_port_ctx_free c).
Proof.
  intros n w a w' Hs. unfold v_port_ctx_free. case_match; intros [= _ <-]; (split; [done|]); [|done].
  destruct Hs; split; try done. by apply pool_put.
Qed.

Lemma spends_sess_ensure : spends 0 (λ rc, rc = RET_CODE_OK) sess_ensure_pool.
Proof.
  intros n w a w' Hs. unfold sess_ensure_pool. destruct Hs. destruct (w_sess_pool w) as [p|] eqn:Ep.
  - intros [= <- <-]. split; [done|]. split; try done. by rewrite Ep.
  - destruct sup_sess0 as (p&->&Hp). intros [= <- <-]. by split.
Qed.

Lemma spends_sess_get : spends 1 (λ o, o ≠ None) sess_pending_get.
Proof.
  intros n w a w' Hs. unfold sess_pending_get. pose proof (sup_sess _ _ Hs) as H. destruct (w_sess_pool w) as [p|] eqn:Ep; [|done].
  destruct (pool_get n p ltac:(lia)) as (o&p'&->&Hp). intros [= <- <-]. split; [done|].
  apply (supplied_le _ n) in Hs; [|lia]. by destruct Hs; split.
Qed.

(** ** Commands and data-plane operations *)

Lemma cmd_accepted shard cb argv n w rc w' :
  0 <= shard < V_STUB_DB_SHARDS → (∀ s, 0 <= s < V_STUB_DB_SHARDS → db_connected (w_db w) s = true) →
  db_accept (w_db w) (db_issue_no (w_db w)) = true → (S n <= length (mp_free (db_pending_pool (w_db w))))%nat →
  v_port_db_cmd_argv shard cb argv w = Some (rc, w') →
  rc = RET_CODE_OK ∧ ∃ p pool, (n <= length (mp_free pool))%nat ∧
    w' = set_db (DbPort (db_connected (w_db w)) pool (db_queue (w_db w) ++ [DbCmd shard argv cb p]) (S (db_issue_no (w_db w)))
      (db_accept (w_db w))) w.
Proof.
  intros Hsh Hc Ha Hp. unfold v_port_db_cmd_argv. rewrite Hc, (proj2 (Z.leb_gt _ _)) by lia.
  destruct (pool_get n _ Hp) as (o&p&->&Hn). rewrite Ha. intros [= <- <-]. split; [done|]. by exists o, p.
Qed.

(** The supplies after one more command in flight. *)
Lemma supplied_queued n w pool q :
  supplied (S n) w → (n <= length (mp_free pool))%nat →
  supplied n (set_db (DbPort (db_connected (w_db w)) pool q (S (db_issue_no (w_db w))) (db_accept (w_db w))) w).
Proof.
  intros Hs Hp. pose proof (supplied_le (S n) n w ltac:(lia) Hs) as []. split; try done.
  intros i Hi. cbn in *. apply (sup_accept _ _ Hs). lia.
Qed.

Lemma spends_cmd shard cb argv : 0 <= shard < V_STUB_DB_SHARDS → spends 1 (λ rc, rc = RET_CODE_OK) (v_port_db_cmd_argv shard cb argv).
Proof.
  intros Hsh n w rc w' Hs E. apply (cmd_accepted _ _ _ n) in E as (->&o&p&Hp&->); try (apply (sup_accept _ _ Hs); lia); try apply Hs; [|done].
  split; [done|]. by eapply supplied_queued.
Qed.

Lemma queued_continues t r w d c : db_queue d = db_queue (w_db w) ++ [c] → cb_conts (dc_cb c) = [(r, t)] → continues t (set_db d w).
Proof.
  intros Hd Hc. exists r, (stage (dc_cb c)). unfold waits. cbn. rewrite Hd, bind_app. cbn. unfold cmd_waits at 2. rewrite Hc. cbn.
  rewrite !elem_of_app. left. right. by left.
Qed.

Lemma hands_cmd t r shard cb argv :
  0 <= shard < V_STUB_DB_SHARDS → cb_conts cb = [(r, t)] → hands_over t 1 (v_port_db_cmd_argv shard cb argv).
Proof.
  intros Hsh Hc w rc w' Hs E. apply (cmd_accepted _ _ _ 0) in E as (->&o&p&Hp&->); try (apply (sup_accept _ _ Hs); cbn; lia); try apply Hs; [|done].
  split; [done|]. by eapply queued_continues.
Qed.

Lemma hands_vdp t op cb : hands_over t 1 (vdp_dispatch op cb t).
Proof.
  intros w rc w' Hs. unfold vdp_dispatch. rewrite (sup_vdp _ _ Hs) by lia. intros [= <- <-]. split; [done|].
  exists (RVdp cb), 0%nat. unfold waits. cbn. rewrite fmap_app, !elem_of_app. right. right. by left.
Qed.

(** ** The transport *)

(** A script call fits in its buffers. *)
Definition call_fits (keys argv : list bytes) : Prop :=
  3 + Z.of_nat (length keys) + Z.of_nat (length argv) <= V_DB_EVALSHA_MAX_PARTS ∧
  scratch_copy_all 0 (snprintf 8 (dec (Z.of_nat (length keys))) :: keys ++ argv) ≠ None.

Lemma snprintf_length cap s : (length (snprintf cap s) <= cap - 1)%nat.
Proof. unfold snprintf. rewrite length_take. lia. Qed.

Lemma fits_short parts : total_length parts <= V_DB_EVALSHA_SCRATCH_BYTES → scratch_copy_all 0 parts ≠ None.
Proof. intros H. rewrite scratch_copy_all_spec by done. rewrite (proj2 (Z.leb_le _ _)) by done. done. Qed.

Variable iu : user_call.

Lemma issue_queues n p w a w' :
  0 <= ep_shard p < V_STUB_DB_SHARDS → (∀ s, 0 <= s < V_STUB_DB_SHARDS → db_connected (w_db w) s = true) →
  db_accept (w_db w) (db_issue_no (w_db w)) = true → (S n <= length (mp_free (db_pending_pool (w_db w))))%nat →
  issue_evalsha iu p w = Some (a, w') →
  ∃ o pool, (n <= length (mp_free pool))%nat ∧
    w' = set_db (DbPort (db_connected (w_db w)) pool
      (db_queue (w_db w) ++ [DbCmd (ep_shard p) (ep_argv p) (fp_evalsha_reply_cb p) o]) (S (db_issue_no (w_db w)))
      (db_accept (w_db w))) w.
Proof.
  intros Hsh Hc Ha Hp (w1&rc&E1&E2)%bind_Some_inv. apply (cmd_accepted _ _ _ n) in E1 as (->&H); try done.
  injection E2 as _ <-. exact H.
Qed.

(** v_db_evalsha queues the call. *)
Lemma evalsha_queues n shard id keys argv u w rc w' :
  0 <= shard < V_STUB_DB_SHARDS → call_fits keys argv → supplied (S n) w →
  v_db_evalsha iu shard id keys argv u w = Some (rc, w') →
  rc = RET_CODE_OK ∧ supplied n w' ∧ w_ids w' = w_ids w ∧ ∀ r t, user_conts u = [(r, t)] → continues t w'.
Proof.
  intros Hsh [Hparts Hfit] Hs. unfold v_db_evalsha. rewrite (proj2 (Z.ltb_ge _ _) Hparts), (proj2 (Z.leb_gt _ _) (proj2 Hsh)).
  destruct (sha_cached _ _ _) as [sha|] eqn:Esha; [|by apply (sup_sha _ _ Hs) in Esha].
  destruct (pool_get n (g_evalsha_pool (w_script w)) (sup_evalsha _ _ Hs)) as (o&pool&->&Hpool).
  destruct (scratch_copy_all _ _); [|done]. intros (w1&[]&E&[= <- <-])%bind_Some_inv.
  apply (issue_queues n) in E as (o'&pool'&Hn&->); try done; try (apply (sup_accept _ _ Hs); cbn; lia); try apply Hs. split; [done|]. split.
  - pose proof (supplied_le (S n) n w ltac:(lia) Hs) as []. split; try done.
    intros i Hi. cbn in *. apply (sup_accept _ _ Hs). lia.
  - split; [done|]. intros r t Hu. by eapply (queued_continues t r).
Qed.

Lemma hands_evalsha t r shard id keys argv u :
  0 <= shard < V_STUB_DB_SHARDS → call_fits keys argv → user_conts u = [(r, t)] →
  hands_over t 1 (v_db_evalsha iu shard id keys argv u).
Proof. intros Hsh Hf Hu w rc w' Hs E. eapply (evalsha_queues 0) in E as (->&_&_&H); try done. split; [done|by eapply H]. Qed.

(** ** The session store *)

Lemma hands_pending t n (issue : Z → M Z) : (∀ o, hands_over t n (issue o)) → hands_over t (1 + n) (with_pending issue).
Proof.
  intros Hi. eapply hands_bind; [apply spends_sess_get|]. intros [o|] Ho w rc w' Hs; [|done].
  intros (w1&rc1&E1&E2)%bind_Some_inv. destruct (Hi _ _ _ _ Hs E1) as [-> Hc]. by injection E2 as <- <-.
Qed.

Lemma hands_ensured t n (m : M Z) :
  hands_over t n m → hands_over t n (rc ← sess_ensure_pool; if negb (rc =? RET_CODE_OK) then mret RET_CODE_ERR else m).
Proof. intros Hm. apply (hands_bind t 0 n _ _ _ spends_sess_ensure). by intros rc ->. Qed.

Lemma hands_read t part seid c cb : hands_over t 2 (v_sess_read part seid c cb (Some t)).
Proof. apply hands_ensured, (hands_pending t 1). intros o. by eapply hands_cmd; [apply shard_of_range|]. Qed.

Lemma hands_confirm t part seid : hands_over t 2 (v_sess_confirm part seid fp_confirm_cb (Some t)).
Proof. apply hands_ensured, (hands_pending t 1). intros o. by eapply hands_cmd; [apply shard_of_range|]. Qed.

(** Three texts of bounded length and a blob. *)
Lemma fits_write key ver blob ttl : (length blob <= BLOB_ROOM)%nat →
  call_fits [snprintf 64 key] [snprintf 24 ver; blob; snprintf 8 ttl].
Proof.
  intros Hb. split; [by vm_compute|]. apply fits_short. unfold total_length, V_DB_EVALSHA_SCRATCH_BYTES, BLOB_ROOM in *.
  cbn [concat app]. rewrite !length_app. cbn [length].
  pose proof (snprintf_length 64 key). pose proof (snprintf_length 24 ver). pose proof (snprintf_length 8 ttl).
  pose proof (snprintf_length 8 (dec 1)). change (Z.of_nat 1) with 1. lia.
Qed.

Lemma fits_delete key ver : call_fits [snprintf 64 key] [snprintf 24 ver].
Proof.
  split; [by vm_compute|]. apply fits_short. unfold total_length, V_DB_EVALSHA_SCRATCH_BYTES.
  cbn [concat app]. rewrite !length_app. cbn [length].
  pose proof (snprintf_length 64 key). pose proof (snprintf_length 24 ver).
  pose proof (snprintf_length 8 (dec 1)). change (Z.of_nat 1) with 1. lia.
Qed.

Lemma hands_write t part seid ver c st cb :
  codec_fits → writes cb = true → hands_over t 2 (v_sess_cas_write iu part seid ver c st cb (Some t)).
Proof.
  intros Hcf Hw. apply hands_ensured, (hands_bind t 0 2 _ _ _ (spends_ctx_get c)). intros v _.
  destruct (cf_serialize Hcf v) as (blob&->&Hb). apply (hands_pending t 1). intros o.
  apply (hands_evalsha t (RCas cb ver)); [apply shard_of_range|by apply fits_write|by destruct cb].
Qed.

Lemma hands_delete t part seid ver : hands_over t 2 (v_sess_delete iu part seid ver fp_del_delete_cb (Some t)).
Proof.
  apply hands_ensured, (hands_pending t 1). intros o.
  apply (hands_evalsha t (RCas fp_del_delete_cb ver)); [apply shard_of_range|apply fits_delete|done].
Qed.

(** ** Identifiers *)

Definition rings (w : world) := (g_seid_ring (w_ids w), g_teid_ring (w_ids w)).

Lemma supplied_ids n w a : supplied n w → supplied n (set_ids a w).
Proof. intros []. by split. Qed.

Lemma shard_for_range part : 0 <= shard_for_part part < V_STUB_DB_SHARDS.
Proof. apply shard_of_range. Qed.

(** A command queued on the way, with any bookkeeping of the allocator. *)
Lemma cmd_on_way n shard cb argv w rc w' :
  0 <= shard < V_STUB_DB_SHARDS → supplied (S n) w → v_port_db_cmd shard cb argv w = Some (rc, w') →
  rc = RET_CODE_OK ∧ supplied n w' ∧ w_ids w' = w_ids w.
Proof.
  intros Hsh Hs E. pose proof (spends_cmd shard cb argv Hsh n w rc w' Hs E) as [-> Hs'].
  apply (cmd_accepted _ _ _ n) in E as (_&o&pool&_&->); try (apply (sup_accept _ _ Hs); cbn; lia); try apply Hs; done.
Qed.

Lemma seid_refill_on_way n part w a w' :
  supplied (S n) w → seid_maybe_refill part w = Some (a, w') → supplied n w' ∧ rings w' = rings w.
Proof.
  intros Hs (w1&r&E1&(w2&b&[= <- <-]&E2)%bind_Some_inv)%bind_Some_inv. unfold seid_ring in E1.
  destruct (g_seid_ring _ !! _); [|done]. injection E1 as <- <-. pose proof (supplied_le (S n) n w ltac:(lia) Hs) as Hs'.
  revert E2. case_match; [by intros [= _ <-]|]. case_match; [by intros [= _ <-]|].
  intros (w3&[]&[= <-]&(w4&rc&E4&E5)%bind_Some_inv)%bind_Some_inv.
  apply (cmd_on_way n) in E4 as (->&H4&Hi); [|apply shard_for_range|by apply supplied_ids].
  injection E5 as _ <-. split; [done|]. unfold rings. by rewrite Hi.
Qed.

Lemma fits_refill part : call_fits [teid_free_key part; teid_next_key part] [snprintf 8 (dec V_ID_BLK_SIZE); snprintf 8 (dec V_TEID_FREE_FLOOR)].
Proof.
  split; [by vm_compute|]. apply fits_short. unfold total_length, V_DB_EVALSHA_SCRATCH_BYTES, teid_free_key, teid_next_key.
  cbn [concat app]. rewrite !length_app. cbn [length].
  pose proof (snprintf_length 32 ($"vpe:teid:" ++ dec part ++ $":free")). pose proof (snprintf_length 32 ($"vpe:teid:" ++ dec part ++ $":next")).
  pose proof (snprintf_length 8 (dec V_ID_BLK_SIZE)). pose proof (snprintf_length 8 (dec V_TEID_FREE_FLOOR)).
  pose proof (snprintf_length 8 (dec (Z.of_nat 2))). lia.
Qed.

Lemma teid_refill_on_way n part w a w' :
  supplied (S (S n)) w → teid_maybe_refill iu part w = Some (a, w') → supplied n w' ∧ rings w' = rings w.
Proof.
  intros Hs (w1&r&E1&(w2&b&[= <- <-]&E2)%bind_Some_inv)%bind_Some_inv. unfold teid_ring in E1.
  destruct (g_teid_ring _ !! _); [|done]. injection E1 as <- <-. pose proof (supplied_le (S (S n)) n w ltac:(lia) Hs) as Hs'.
  revert E2. case_match; [by intros [= _ <-]|]. case_match; [by intros [= _ <-]|].
  intros (w3&[]&[= <-]&(w4&rc1&E4&(w5&rc&E5&E6)%bind_Some_inv)%bind_Some_inv)%bind_Some_inv.
  assert (supplied (S n) w4 ∧ rings w4 = rings w) as [H4 Hr4].
  { revert E4. set (w3 := set_ids _ w). assert (supplied (S (S n)) w3) as H3 by (by apply supplied_ids).
    case_match; [intros [= _ <-]; split; [by apply (supplied_le (S (S n)) (S n)); [lia|]|done]|].
    intros (w6&[]&[= <-]&E)%bind_Some_inv.
    apply (cmd_on_way (S n)) in E as (_&Hs6&Hi); [|apply shard_for_range|by apply supplied_ids]. split; [done|].
    unfold rings. by rewrite Hi. }
  apply (evalsha_queues n) in E5 as (->&H5&Hi&_); [|apply shard_for_range|apply fits_refill|done].
  injection E6 as _ <-. split; [done|]. unfold rings in *. by rewrite Hi.
Qed.

Lemma seid_gives n part w a w' :
  supplied (S n) w → seids_left part w → v_seid_alloc part w = Some (a, w') →
  a ≠ 0 ∧ supplied n w' ∧ g_teid_ring (w_ids w') = g_teid_ring (w_ids w).
Proof.
  intros Hs (r&x&l&Hr&Hl&Hx) (w1&[]&E1&(w2&r2&E2&E3)%bind_Some_inv)%bind_Some_inv.
  destruct (seid_refill_on_way n _ _ _ _ Hs E1) as [H1 [= Hr1 Hr2]]. unfold seid_ring in E2. rewrite Hr1, Hr in E2.
  injection E2 as <- <-. destruct (ring_dequeue_cons r x l Hl) as (r'&Hd&_). rewrite Hd in E3.
  apply bind_Some_inv in E3 as (w3&[]&[= <-]&[= <- <-]). split; [done|]. by split; [apply supplied_ids|].
Qed.

Lemma teid_gives n part w a w' :
  supplied (S (S n)) w → teids_left part w → v_teid_alloc iu part w = Some (a, w') → a ≠ 0 ∧ supplied n w'.
Proof.
  intros Hs (r&x&l&Hr&Hl&Hx) (w1&[]&E1&(w2&r2&E2&E3)%bind_Some_inv)%bind_Some_inv.
  destruct (teid_refill_on_way n _ _ _ _ Hs E1) as [H1 [= Hr1 Hr2]]. unfold teid_ring in E2. rewrite Hr2, Hr in E2.
  injection E2 as <- <-. destruct (ring_dequeue_cons r x l Hl) as (r'&Hd&_). rewrite Hd in E3.
  apply bind_Some_inv in E3 as (w3&[]&[= <-]&[= <- <-]). split; [done|by apply supplied_ids].
Qed.

End supplies.
