(* ===== verification/Onward.v ===== *)
(** The callbacks of v_flow.c in a pod with supplies: each of them hands its
    transaction over to the next completion wherever the protocol lets it. *)
From S2P Require Import Prelude Seid Dpdk Heap Redis World DbScript SessStore RetransCache IdAlloc.
From S2P Require Import DispatchQ NodeState Flow Sweeper Pod Pools Own SessCas Protocol Progress Conform Procedures Supplies.

Ltac free :=
  eapply (goes_bind _ 0);
  [first [apply spends_txn_get | apply spends_txn_upd | apply spends_deref | apply spends_msg_get | apply spends_ctx_get
         | apply spends_ctx_set | apply spends_part_rr | apply spends_ctx_free]
  |intros ? ?].

Section onward.
Context {DP : Dpdk} {PP : PfcpPort}.
Hypothesis Hcf : codec_fits.

Variable iu : evalsha_user → Z → option v_db_reply → M ().
Variable t : Z.

(** [rc = call(); g(); if (rc != OK) ...]. *)
Lemma goes_call_then {A} n (m : M Z) (g : Z → M A) (f : M ()) :
  hands_over t n m → (∀ rc, does silent (g rc)) → goes_on t n (rc ← m; _ ← g rc; when (negb (rc =? RET_CODE_OK)) f).
Proof.
  intros Hm Hg w a w' Hs (w1&rc&E1&(w2&b&E2&E3)%bind_Some_inv)%bind_Some_inv. destruct (Hm _ _ _ Hs E1) as [-> Hc].
  injection E3 as _ <-. eapply silent_continues; [by eapply Hg|done].
Qed.

Lemma mod_start_goes : goes_on t 2 (mod_start_read t).
Proof. unfold mod_start_read, v_port_txn_set_state. do 3 free. apply goes_call, hands_read. Qed.

Lemma del_start_goes : goes_on t 2 (del_start_read t).
Proof. unfold del_start_read, v_port_txn_set_state. do 3 free. apply goes_call, hands_read. Qed.

Lemma alloc_goes start : goes_on t 2 (start t) → goes_on t 3 (alloc_ctx_then t start).
Proof.
  intros Hst. apply (goes_bind t 1 2 _ _ _ spends_ctx_alloc). intros o Ho. free. by destruct o.
Qed.

Lemma cas_write_goes ver : goes_on t 1 (cas_write_cb iu t RET_CODE_OK V_CAS_OK ver).
Proof. unfold cas_write_cb, v_port_txn_set_state. cbn. do 4 free. apply goes_call, hands_vdp. Qed.

Lemma vdp_create_goes : goes_on t 2 (vdp_create_cb iu t V_VDP_ACCEPT).
Proof. unfold vdp_create_cb, v_port_txn_set_state. cbn. do 2 free. apply goes_call, hands_confirm. Qed.

Lemma mod_vdp_goes res : res ≠ V_VDP_ACCEPT → goes_on t 2 (mod_vdp_cb iu t res).
Proof.
  intros Hr. unfold mod_vdp_cb. do 2 free. rewrite decide_True by done. free.
  apply goes_call_then; [by apply hands_write|]. intros rc. prog.
Qed.

Lemma del_read_goes c ver : goes_on t 1 (del_read_cb t RET_CODE_OK V_CAS_OK c ver).
Proof. unfold del_read_cb, v_port_txn_set_state. cbn. do 3 free. apply goes_call, hands_vdp. Qed.

Lemma del_vdp_goes : goes_on t 2 (del_vdp_cb iu t V_VDP_ACCEPT).
Proof. unfold del_vdp_cb, v_port_txn_set_state. cbn. do 2 free. apply goes_call, hands_delete. Qed.

Lemma mod_cas_goes ver : goes_on t 1 (mod_cas_cb t RET_CODE_OK V_CAS_OK ver).
Proof. unfold mod_cas_cb, v_port_txn_set_state. cbn. do 4 free. apply goes_call, hands_vdp. Qed.

(** A conflict below the limit is retried. *)
Lemma conflict_goes k start w a w' :
  0 <= k → k + 1 < V_CAS_MAX_RETRY → goes_on t 2 (start t) → retry_of w t = k → supplied 2 w →
  (_ ← txn_upd t (λ x, txn_set_cas_retry (u8 (t_cas_retry x + 1)) x);
   x ← txn_get t;
   if V_CAS_MAX_RETRY <=? t_cas_retry x then finish t V_PFCP_CAUSE_SYSTEM_FAILURE
   else c ← deref (t_ctx x); _ ← v_port_ctx_clear c; start t) w = Some (a, w') → continues t w'.
Proof.
  intros Hk Hlt Hst Hr Hs (w1&[]&E1&(w2&x&E2&E3)%bind_Some_inv)%bind_Some_inv.
  destruct (spends_txn_upd t _ 2%nat _ _ _ Hs E1) as [_ Hs1]. apply txn_get_retry in E2 as [-> Hx].
  assert (retry_of w1 t = k + 1) as Hr1 by (eapply counted; [|exact Hr|exact E1]; lia).
  rewrite Hx, Hr1, (proj2 (Z.leb_gt _ _)) in E3 by done.
  assert (goes_on t 2 (c ← deref (t_ctx x); _ ← v_port_ctx_clear c; start t)) as Hg; [|by eapply Hg].
  unfold v_port_ctx_clear. do 2 free. exact Hst.
Qed.

Lemma drop_snapshot_spends : spends 0 (λ _, True) (drop_snapshot t).
Proof.
  unfold drop_snapshot. apply (spends_bind 0 0 (λ _, True)); [apply spends_txn_get|intros x _].
  destruct (t_impl x); [|by apply spends_ret]. apply (spends_bind 0 0 (λ _, True)); [apply spends_ctx_free|intros _ _].
  apply spends_txn_upd.
Qed.

Lemma mod_conflict_goes k ver w a w' :
  0 <= k → k + 1 < V_CAS_MAX_RETRY → retry_of w t = k → supplied 2 w →
  mod_cas_cb t RET_CODE_OK V_CAS_CONFLICT ver w = Some (a, w') → continues t w'.
Proof.
  intros Hk Hlt Hr Hs (w1&[]&E1&E2)%bind_Some_inv. eapply (conflict_goes k mod_start_read w1); try done; [apply mod_start_goes| |].
  - rewrite <- Hr. by eapply silent_retry, silent_drop_snapshot.
  - by eapply (drop_snapshot_spends 2%nat).
Qed.

Lemma del_conflict_goes k ver w a w' :
  0 <= k → k + 1 < V_CAS_MAX_RETRY → retry_of w t = k → supplied 2 w →
  del_delete_cb t RET_CODE_OK V_CAS_CONFLICT ver w = Some (a, w') → continues t w'.
Proof. intros Hk Hlt Hr Hs E. eapply (conflict_goes k del_start_read w); try done. apply del_start_goes. Qed.

(** What was read can be copied. *)
Definition copyable (c : pdu_ses_ctx) : Prop :=
  ∀ blob p, v_port_pdu_serialize c V_SESS_BLOB_MAX_BYTES = Some blob → (v_port_pdu_deserialize blob p).1 = RET_CODE_OK.

Lemma mod_read_goes ctx ver c w a w' :
  supplied 3 w → heap_wf (w_ctxs w) → hp_mem (w_ctxs w) !! ctx = Some c → copyable c →
  mod_read_cb iu t RET_CODE_OK V_CAS_OK ctx ver w = Some (a, w') → continues t w'.
Proof.
  intros Hs Hwf Hc Hcopy. unfold mod_read_cb. cbn [negb Z.eqb RET_CODE_OK]. rewrite decide_False by (intros H; by apply H).
  intros (w1&[]&E1&(w2&o&E2&E3)%bind_Some_inv)%bind_Some_inv.
  destruct (spends_txn_upd t _ 3%nat _ _ _ Hs E1) as [_ Hs1]. destruct (spends_ctx_alloc 2%nat _ _ _ Hs1 E2) as [Ho Hs2].
  assert (w_ctxs w1 = w_ctxs w) as Hcx by (unfold txn_upd in E1; destruct (heap_get _ _); [by injection E1 as <-|done]).
  destruct o as [prev|]; [|done]. unfold v_port_ctx_alloc in E2. rewrite Hcx in E2.
  destruct (heap_alloc _ _) as [[p h]|] eqn:Ea; [|done]. injection E2 as <- <-.
  destruct (live_alloc _ _ _ _ Hwf Ea) as (_&_&Hm&Hn).
  assert (hp_mem h !! ctx = Some c) as Hc2 by (rewrite Hm, lookup_insert_ne by congruence; done).
  apply bind_Some_inv in E3 as (w3&c1&E3&(w4&p1&E4&E5)%bind_Some_inv). unfold ctx_get, heap_get in E3, E4.
  cbn in E3. rewrite Hc2 in E3. injection E3 as <- <-. cbn in E4. destruct (hp_mem h !! p) as [p2|]; [|done]. injection E4 as <- <-.
  destruct (cf_serialize Hcf c) as (blob&Hb&_). rewrite Hb in E5. pose proof (Hcopy blob p2 Hb) as Hd.
  destruct (v_port_pdu_deserialize blob p2) as [rc p']. cbn in Hd. subst rc. cbn in E5.
  revert E5. generalize Hs2. generalize (set_ctxs h w1). clear -Hcf. intros w2 Hs E.
  refine ((_ : goes_on t 2 _) w2 a w' Hs E). do 5 free. pose proof (cf_modify Hcf a4 c) as Hmod.
  destruct (v_port_pfcp_modify_session a4 c) as [rc c']. cbn in Hmod. subst rc. do 2 free. cbn [negb Z.eqb RET_CODE_OK].
  apply goes_call. by apply hands_write.
Qed.

(** ** Establishment *)

Lemma part_chosen w x r m part w' :
  heap_get (w_txns w) t = Some x → t_req x = Some r → heap_get (w_msgs w) r = Some m →
  match v_port_pfcp_ue_ip m with Some (v4, v6) => mret (hash_ue_ip v4 v6) | None => part_rr end w = Some (part, w') →
  est_part t w = Some part ∧ w_ids w' = w_ids w ∧ supplies w' = supplies w.
Proof.
  intros Hx Hr Hm E. unfold est_part. rewrite Hx. cbn. rewrite Hr. cbn. rewrite Hm. cbn.
  destruct (v_port_pfcp_ue_ip m) as [[v4 v6]|]; [injection E as <- <-; done|]. by injection E as <- <-.
Qed.

(** From the partition on. *)
Lemma allocates_goes req part w a w' :
  supplied 6 w → seids_left part w → teids_left part w →
  (_ ← txn_upd t (txn_set_part part);
   seid ← v_seid_alloc part;
   teid ← v_teid_alloc iu part;
   if (seid =? 0) || (teid =? 0) then
     _ ← when (negb (teid =? 0)) (v_teid_free part teid);
     finish t V_PFCP_CAUSE_NO_RESOURCES_AVAILABLE
   else
     _ ← txn_upd t (txn_set_seid seid);
     _ ← txn_upd t (txn_set_teid teid);
     c ← v_port_ctx_alloc;
     match c with
     | None => _ ← v_teid_free part teid; finish t V_PFCP_CAUSE_SYSTEM_FAILURE
     | Some c =>
         _ ← txn_upd t (txn_set_ctx (Some c));
         v ← ctx_get c;
         let '(rc, v') := v_port_pfcp_build_session req seid teid v in
         _ ← ctx_set c v';
         if negb (rc =? RET_CODE_OK) then _ ← v_teid_free part teid; finish t V_PFCP_CAUSE_SYSTEM_FAILURE
         else
           _ ← v_port_txn_set_state t TXN_ST_DB_WRITE_WAIT;
           rc ← v_sess_cas_write iu part seid 0 c V_SESS_PENDING fp_cas_write_cb (Some t);
           when (negb (rc =? RET_CODE_OK)) (_ ← v_teid_free part teid; finish t V_PFCP_CAUSE_SYSTEM_FAILURE)
     end) w = Some (a, w') → continues t w'.
Proof.
  intros Hs Hseid Hteid (w1&[]&E1&(w2&seid&E2&(w3&teid&E3&E4)%bind_Some_inv)%bind_Some_inv)%bind_Some_inv.
  destruct (spends_txn_upd t _ 6%nat _ _ _ Hs E1) as [_ Hs1].
  assert (w_ids w1 = w_ids w) as Hi by (unfold txn_upd in E1; destruct (heap_get _ _); [by injection E1 as <-|done]).
  destruct (seid_gives 5 part w1 seid w2 Hs1) as (Hs0&Hs2&Hr); [unfold seids_left; by rewrite Hi|done|].
  destruct (teid_gives iu 3 part w2 teid w3 Hs2) as (Ht0&Hs3); [unfold teids_left; by rewrite Hr, Hi|done|].
  rewrite (proj2 (Z.eqb_neq _ _) Hs0), (proj2 (Z.eqb_neq _ _) Ht0) in E4. cbn [orb] in E4.
  refine ((_ : goes_on t 3 _) w3 a w' Hs3 E4). do 2 free.
  apply (goes_bind t 1 2 _ _ _ spends_ctx_alloc). intros [c|] Hc; [|done]. do 2 free.
  match goal with |- context [v_port_pfcp_build_session req seid teid ?v] =>
    pose proof (cf_build Hcf req seid teid v) as Hb; destruct (v_port_pfcp_build_session req seid teid v) as [rc v'] end.
  cbn in Hb. subst rc. do 2 free. apply goes_call. by apply hands_write.
Qed.

Lemma est_lookup_goes st hit resp w a w' :
  (st =? RET_CODE_OK) && hit = false → supplied 6 w → stocked t w →
  retrans_lookup_cb iu t st hit resp w = Some (a, w') → continues t w'.
Proof.
  intros Hh Hs (part&Hp&Hseid&Hteid). unfold retrans_lookup_cb. rewrite Hh.
  intros (w1&x&E1&(w2&r&E2&(w3&m&E3&(w4&part'&E4&E5)%bind_Some_inv)%bind_Some_inv)%bind_Some_inv)%bind_Some_inv.
  unfold txn_get in E1. destruct (heap_get (w_txns w) t) as [y|] eqn:Ex; [|done]. injection E1 as <- <-.
  unfold deref in E2. destruct (t_req y) as [q|] eqn:Eq; [|done]. injection E2 as <- <-.
  unfold msg_get in E3. destruct (heap_get (w_msgs w) q) as [n|] eqn:Em; [|done]. injection E3 as <- <-.
  destruct (part_chosen _ _ _ _ _ _ Ex Eq Em E4) as (Hp'&Hi&Hsup). assert (part' = part) as -> by congruence.
  eapply allocates_goes, E5; [by eapply same_supplies|unfold seids_left; by rewrite Hi|unfold teids_left; by rewrite Hi].
Qed.

End onward.
