(* ===== verification/Verdict.v ===== *)
(** The outcome of a request as a function of its completions.  Protocol.v
    leaves open where a procedure may fail for want of a resource; in a pod
    with supplies it does not, so the protocol becomes an automaton, and the
    answer to a request can be computed from what completed. *)
From S2P Require Import Prelude Seid Dpdk Heap Redis World DbScript SessStore RetransCache IdAlloc.
From S2P Require Import DispatchQ NodeState Flow Sweeper Pod Preserve Pools Own OwnPod Safety SessCas.
From S2P Require Import Protocol Progress Conform Procedures ProtocolRefine Answers Supplies Onward.

(** ** The automaton *)

(** Context addresses and versions do not bear on the outcome: they are left
    out (0). *)
Definition erase_role (r : role) : role :=
  match r with RRead cb _ => RRead cb 0 | RCas cb _ => RCas cb 0 | r => r end.

(** The state after a completion. *)
Definition retry (cb : v_sess_read_cb_t) (k : Z) : outcome :=
  if k + 1 <? V_CAS_MAX_RETRY then Wait (RRead cb 0) 0 (k + 1) else FAILURE.

Definition proc_next (r : role) (k : Z) (c : completion) : outcome :=
  match r, c with
  | RLookup cb, CReply reply =>
      match cached_response reply with
      | Some resp => Answered (Cached resp)
      | None =>
          match cb with
          | fp_retrans_lookup_cb => Wait (RCas fp_cas_write_cb 0) 2 k
          | fp_mod_retrans_lookup_cb => Wait (RRead fp_mod_read_cb 0) 0 k
          | fp_del_retrans_lookup_cb => Wait (RRead fp_del_read_cb 0) 0 k
          end
      end
  | RCas fp_cas_write_cb _, CReply reply =>
      match cas_result reply with Some V_CAS_OK => Wait (RVdp fp_vdp_create_cb) 0 k | _ => FAILURE end
  | RVdp fp_vdp_create_cb, CVdp res => match res with V_VDP_ACCEPT => Wait RConfirm 0 k | _ => REJECTED end
  | RConfirm, CReply reply => match reply with Some _ => ACCEPTED | None => FAILURE end
  | RRead cb _, CReply reply =>
      match session_found reply with
      | None => FAILURE
      | Some false => NOT_FOUND
      | Some true =>
          match cb with
          | fp_mod_read_cb => Wait (RCas fp_mod_cas_cb 0) 2 k
          | fp_del_read_cb => Wait (RVdp fp_del_vdp_cb) 0 k
          end
      end
  | RCas fp_mod_cas_cb _, CReply reply =>
      match cas_result reply with
      | None => FAILURE
      | Some V_CAS_OK => Wait (RVdp fp_mod_vdp_cb) 0 k
      | Some V_CAS_CONFLICT => retry fp_mod_read_cb k
      | Some V_CAS_GONE => NOT_FOUND
      end
  | RVdp fp_mod_vdp_cb, CVdp res =>
      match res with V_VDP_ACCEPT => ACCEPTED | _ => Wait (RCas fp_mod_compensate_write_cb 0) 2 k end
  | RCas fp_mod_compensate_write_cb _, CReply _ => REJECTED
  | RVdp fp_del_vdp_cb, CVdp res => match res with V_VDP_ACCEPT => Wait (RCas fp_del_delete_cb 0) 2 k | _ => REJECTED end
  | RCas fp_del_delete_cb _, CReply reply =>
      match cas_result reply with
      | None => FAILURE
      | Some V_CAS_OK => ACCEPTED
      | Some V_CAS_CONFLICT => retry fp_del_read_cb k
      | Some V_CAS_GONE => NOT_FOUND
      end
  | _, _ => Answered Dropped
  end.

(** With the transport below: NOSCRIPT once, then SCRIPT LOAD, then again. *)
Definition next (r : role) (s : nat) (k : Z) (c : completion) : outcome :=
  match s, c with
  | O, _ => proc_next r k c
  | 2%nat, CReply reply => if is_noscript (reply_status reply) reply then Wait (erase_role r) 1 k else proc_next r k c
  | _, CReply reply => if sha_reply reply then Wait (erase_role r) (s - 1) k else proc_next r k (CReply None)
  | _, CVdp _ => Answered Dropped
  end.

Fixpoint verdict (o : outcome) (cs : list completion) : outcome :=
  match o, cs with
  | Wait r s k, c :: cs' => verdict (next r s k c) cs'
  | _, _ => o
  end.

(** What completing [cs] answers to a request that begins with [cb]. *)
Definition answer_to (cb : v_retrans_cb_t) (cs : list completion) : outcome := verdict (Wait (RLookup cb) 0 0) cs.

Definition is_wait (o : outcome) : bool := match o with Wait _ _ _ => true | Answered _ => false end.

Definition erase (o : outcome) : outcome :=
  match o with Wait r s k => Wait (erase_role r) s k | Answered a => Answered a end.

(** The protocol step that goes on where it can is the one of the automaton. *)
Lemma proc_unique r k c o :
  proc_step r k c o → (is_wait (proc_next r k c) = true → is_wait o = true) → erase o = proc_next r k c.
Proof.
  intros Hs Hw. destruct Hs; cbn in Hw |- *; unfold retry in *;
    repeat match goal with
    | H : ?x = _ |- context [?x] => rewrite H in *
    | cb : v_retrans_cb_t |- _ => destruct cb
    | H : context [match ?x with _ => _ end] |- _ => destruct x eqn:?
    | |- context [match ?x with _ => _ end] => destruct x eqn:?
    end; outcomes; cbn in *; try done; try (by specialize (Hw eq_refl)); try lia.
Qed.

Lemma failed_trip_waits r k : is_wait (proc_next r k (CReply None)) = true → ∃ cb, r = RLookup cb.
Proof. destruct r as [cb|[]|[]| |[]|]; cbn; try done. by exists cb. Qed.

Lemma next_unique r s k c o :
  (s = 0%nat ∨ ∃ cb v, r = RCas cb v) → wait_step r s k c o → (is_wait (next r s k c) = true → is_wait o = true) →
  erase o = next r s k c.
Proof.
  intros Hr Hs Hw. destruct Hs as [|r k reply o Hn Hp|r k reply o Hn Ho|r s k reply o Hin Hsha Ho|r s k reply o Hin Hsha Ho].
  - by apply proc_unique.
  - cbn in *. rewrite Hn in *. by apply proc_unique.
  - cbn in *. rewrite Hn in *. destruct Ho as [->|Ho]; [done|]. destruct Hr as [[=]|(cb&v&->)].
    destruct o; [|discriminate (Hw eq_refl)]. by inversion Ho; subst; cbn in *; outcomes.
  - assert (next r s k (CReply reply) = Wait (erase_role r) (s - 1) k) as Hn.
    { outcomes; cbn; try by rewrite Hsha. }
    rewrite Hn in *. destruct Ho as [->|Ho]; [done|]. destruct Hr as [->|(cb&v&->)]; [by apply elem_of_cons in Hin as [[=]|[[=]|[]%not_elem_of_nil]%elem_of_cons]|].
    destruct o; [|discriminate (Hw eq_refl)]. by inversion Ho; subst; cbn in *; outcomes.
  - assert (next r s k (CReply reply) = proc_next r k (CReply None)) as Hn.
    { outcomes; cbn; by rewrite Hsha. }
    rewrite Hn in *. by apply proc_unique.
Qed.

Lemma next_erase r s k c : next (erase_role r) s k c = next r s k c.
Proof. destruct s as [|[|[|s]]], c; cbn; by destruct r. Qed.

Lemma verdict_next r s k c cs o : erase o = next r s k c → verdict (Wait (erase_role r) s k) (c :: cs) = verdict (erase o) cs.
Proof. intros Ho. cbn [verdict]. by rewrite next_erase, Ho. Qed.

(** ** A pod with supplies follows it *)

(** The operations of one event take at most six objects of a pool. *)
Definition SUPPLY : nat := 6.

Section verdict.
Context {DP : Dpdk} {PP : PfcpPort}.
Hypothesis Hcf : codec_fits.

(** The pod can do what [t], waiting in [r], asks for next. *)
Definition provided (t : Z) (r : role) (w : world) : Prop :=
  supplied SUPPLY w ∧ (r = RLookup fp_retrans_lookup_cb → stocked t w).

(** Session data that a read returns can be decoded. *)
Definition legible (c : completion) : Prop :=
  ∀ reply data ver c0, c = CReply reply → read_fields (reply_status reply) reply = Some (data, ver) →
    reply_is_nil data || reply_is_nil ver = false → (v_port_pdu_deserialize (reply_str data) c0).1 = RET_CODE_OK.

Lemma call_cas_goes iu t k cb v st res ver reply w a w' :
  0 <= k → supplied SUPPLY w → retry_of w t = k → cas_result reply = (if st =? RET_CODE_OK then Some res else None) →
  is_wait (proc_next (RCas cb v) k (CReply reply)) = true →
  call_cas iu cb st res ver (Some t) w = Some (a, w') → continues t w'.
Proof.
  intros Hk Hs Hr Hc Hw. apply (supplied_le _ 2) in Hs; [|unfold SUPPLY; lia].
  destruct (st =? RET_CODE_OK) eqn:Est; [apply Z.eqb_eq in Est as ->|]; destruct cb; cbn in Hw; rewrite ?Hc in Hw; try done;
    destruct res; try done; unfold retry in *; try (destruct (k + 1 <? V_CAS_MAX_RETRY) eqn:El; [|done]; apply Z.ltb_lt in El); cbn [call_cas deref];
    intros E.
  - eapply (cas_write_goes iu t ver w); [by eapply supplied_le, Hs; lia|exact E].
  - eapply (mod_cas_goes t ver w); [by eapply supplied_le, Hs; lia|exact E].
  - by eapply (mod_conflict_goes t k ver w).
  - by eapply (del_conflict_goes t k ver w).
Qed.

Lemma invoke_goes d t r k u reply w a w' :
  user_conts u = [(r, t)] → r ≠ RBad → 0 <= k → supplied SUPPLY w → retry_of w t = k →
  is_wait (proc_next r k (CReply reply)) = true → invoke_user (S d) u (reply_status reply) reply w = Some (a, w') → continues t w'.
Proof.
  intros Hu Hr Hk Hs Hret Hw E. cbn [invoke_user] in E.
  destruct u as [p|p|part]; cbn [user_conts] in Hu; [..|done].
  - apply cas_conts_inv in Hu as (Ha&->&_&_); [|done]. unfold cas_write_reply_cb in E. rewrite Ha in E.
    destruct (cas_reply _ _ _) as [[st res] ver] eqn:Ec. apply bind_Some_inv in E as (w1&[]&E1&E2).
    eapply silent_continues; [by eapply silent_sess_put|]. eapply (call_cas_goes (invoke_user d) t k), E1; try done. by eapply cas_reply_result.
  - apply del_conts_inv in Hu as (Ha&->&_&_); [|done]. unfold delete_reply_cb in E. rewrite Ha in E.
    destruct (cas_reply _ _ _) as [[st res] ver] eqn:Ec. apply bind_Some_inv in E as (w1&[]&E1&E2).
    eapply silent_continues; [by eapply silent_sess_put|]. eapply (call_cas_goes (invoke_user d) t k), E1; try done. by eapply cas_reply_result.
Qed.

(** ** The callbacks of the ports *)

Lemma load_request_hands t r shard id p :
  0 <= shard < V_STUB_DB_SHARDS → user_conts (ep_user p) = [(r, t)] → hands_over t 2 (request_script_load shard id (Some p)).
Proof.
  intros Hsh Hu w rc w' Hs. unfold request_script_load. destruct (pool_get 1 _ (sup_load _ _ Hs)) as (o&pool&->&Hn).
  intros (w1&rc1&E1&E2)%bind_Some_inv. eapply (hands_cmd t r) in E1 as [-> Hc]; [by injection E2 as <- <-|done|done|].
  apply (supplied_le 2 1) in Hs; [|lia]. by destruct Hs; split.
Qed.

Lemma evalsha_reply_goes t r k p reply w a w' :
  0 <= ep_shard p < V_STUB_DB_SHARDS → user_conts (ep_user p) = [(r, t)] → r ≠ RBad → 0 <= k → supplied SUPPLY w →
  retry_of w t = k → is_wait (next r (if ep_retried p then 0 else 2) k (CReply reply)) = true →
  evalsha_reply_cb iu p (reply_status reply) reply w = Some (a, w') → continues t w'.
Proof.
  intros Hsh Hu Hr Hk Hs Hret Hw. unfold evalsha_reply_cb.
  assert (is_wait (proc_next r k (CReply reply)) = true →
    (_ ← iu (ep_user p) (reply_status reply) reply; evalsha_put (ep_obj p)) w = Some (a, w') → continues t w') as Hiu.
  { intros Hn (w1&[]&E1&E2)%bind_Some_inv. eapply silent_continues; [by eapply silent_evalsha_put|].
    by eapply (invoke_goes 1 t r k), E1. }
  destruct (is_noscript _ reply) eqn:En; destruct (ep_retried p) eqn:Ep; cbn [andb negb]; cbn in Hw; rewrite ?En in Hw; try by apply Hiu.
  intros E. refine (goes_call t 2 _ _ _ w a w' _ E); [by eapply load_request_hands|by eapply supplied_le, Hs; unfold SUPPLY; lia].
Qed.

Lemma load_reply_goes t r k lc p reply w a w' :
  lc_resume lc = Some p → 0 <= ep_shard p < V_STUB_DB_SHARDS → user_conts (ep_user p) = [(r, t)] → r ≠ RBad →
  supplied SUPPLY w → is_wait (next r (if ep_retried p then 1 else 3) k (CReply reply)) = true →
  load_reply_cb iu lc (reply_status reply) reply w = Some (a, w') → continues t w'.
Proof.
  intros Hp Hsh Hu Hr Hs Hw. unfold load_reply_cb. rewrite Hp. pose proof (load_branch reply) as Hb.
  destruct (if reply_status reply =? RET_CODE_OK then _ else None) as [sha|].
  - intros (w1&[]&[= <-]&(w2&[]&E2&E3)%bind_Some_inv)%bind_Some_inv.
    eapply silent_continues; [by eapply silent_load_put|].
    apply (issue_queues iu 5) in E2 as (o&pool&_&->); try done; try (apply (sup_accept _ _ Hs); cbn; unfold SUPPLY; lia); try apply Hs. by eapply (queued_continues t r).
  - exfalso. assert (sha_reply reply = false) as Hn by by apply Hb.
    assert (next r (if ep_retried p then 1 else 3) k (CReply reply) = proc_next r k (CReply None)) as E.
    { destruct (ep_retried p); cbn; by rewrite Hn. }
    rewrite E in Hw. apply failed_trip_waits in Hw as [cb ->]. by destruct (ep_user p) as [q|q|]; cbn in Hu;
      unfold cas_conts, del_conts, call_conts in Hu; try destruct (cp_cb q); try destruct (cp_arg q).
Qed.

Lemma read_reply_goes t k p reply w a w' :
  rp_arg p = Some t → supplied SUPPLY w → heap_wf (w_ctxs w) → legible (CReply reply) →
  is_wait (proc_next (RRead (rp_cb p) (rp_ctx p)) k (CReply reply)) = true →
  read_reply_cb call_read p (reply_status reply) reply w = Some (a, w') → continues t w'.
Proof.
  intros Ha Hs Hwf Hl Hw. cbn in Hw. unfold read_reply_cb. rewrite Ha. unfold session_found in Hw.
  destruct (read_fields _ _) as [[data ver]|] eqn:Ef; [|done].
  destruct (reply_is_nil data || reply_is_nil ver) eqn:En; [done|]. pose proof (Hl reply data ver) as Hd.
  intros (w1&c&E1&E2)%bind_Some_inv. specialize (Hd c eq_refl Ef En).
  destruct (v_port_pdu_deserialize _ _) as [rc c'] eqn:Ec. cbn in Hd. subst rc. cbn [negb Z.eqb RET_CODE_OK] in E2.
  apply bind_Some_inv in E2 as (w2&[]&E2&(w3&[]&E3&E4)%bind_Some_inv).
  eapply silent_continues; [by eapply silent_sess_put|].
  unfold ctx_get, heap_get in E1. destruct (hp_mem (w_ctxs w) !! rp_ctx p) as [c1|] eqn:Ex; [|done]. injection E1 as -> <-.
  pose proof (spends_ctx_set (rp_ctx p) c' SUPPLY w _ w2 Hs E2) as [_ Hs2].
  unfold ctx_set, heap_get in E2. rewrite Ex in E2. injection E2 as <-. destruct (rp_cb p); cbn [call_read deref] in E3.
  - eapply (mod_read_goes Hcf iu t (rp_ctx p) _ c'), E3; [by eapply supplied_le, Hs2; unfold SUPPLY; lia| | |].
    + cbn. by apply (heap_set_spec _ _ _ c).
    + cbn. by rewrite lookup_insert_eq.
    + intros blob q Hb. by eapply (cf_copy Hcf).
  - eapply (del_read_goes t (rp_ctx p)), E3. by eapply supplied_le, Hs2; unfold SUPPLY; lia.
Qed.

Lemma lookup_reply_goes t k p reply w a w' :
  rt_arg p = Some t → provided t (RLookup (rt_cb p)) w → is_wait (proc_next (RLookup (rt_cb p)) k (CReply reply)) = true →
  lookup_reply_cb call_retrans p (reply_status reply) reply w = Some (a, w') → continues t w'.
Proof.
  intros Ha [Hs Hst] Hw. unfold lookup_reply_cb. rewrite Ha. destruct (lookup_outcome _ _) as [[st hit] resp] eqn:El.
  assert ((st =? RET_CODE_OK) && hit = false) as Hh.
  { destruct reply as [[| | | | |]|]; cbn in El, Hw; injection El as <- <- <-; done. }
  intros (w1&[]&E1&E2)%bind_Some_inv. eapply silent_continues; [by eapply silent_retrans_put|].
  destruct (rt_cb p); cbn [call_retrans deref] in E1.
  - eapply (est_lookup_goes Hcf iu t), E1; try done. by apply Hst.
  - unfold mod_retrans_lookup_cb in E1. cbn [mbind] in E1. unfold mbind, SM_bind in E1. cbn in E1. rewrite Hh in E1.
    eapply (alloc_goes t), E1; [apply mod_start_goes|by eapply supplied_le, Hs; unfold SUPPLY; lia].
  - unfold del_retrans_lookup_cb in E1. unfold mbind, SM_bind in E1. cbn in E1. rewrite Hh in E1.
    eapply (alloc_goes t), E1; [apply del_start_goes|by eapply supplied_le, Hs; unfold SUPPLY; lia].
Qed.

Lemma call_vdp_goes t k cb res w a w' :
  supplied SUPPLY w → is_wait (proc_next (RVdp cb) k (CVdp res)) = true →
  call_vdp cb t res w = Some (a, w') → continues t w'.
Proof.
  intros Hs Hw E. apply (supplied_le _ 2) in Hs; [|unfold SUPPLY; lia]. destruct cb; cbn in Hw, E.
  - destruct res; try done. by eapply (vdp_create_goes iu t).
  - eapply (mod_vdp_goes Hcf iu t res); try done. by destruct res.
  - destruct res; try done. by eapply (del_vdp_goes iu t).
Qed.

(** ** Events *)

Lemma user_conts_cas u r t : user_conts u = [(r, t)] → r ≠ RBad → ∃ cb v, r = RCas cb v.
Proof.
  destruct u as [p|p|]; cbn; [intros H Hr; apply cas_conts_inv in H as (_&->&_)|intros H Hr; apply del_conts_inv in H as (_&->&_)|];
    try done; by eexists _, _.
Qed.

Lemma cb_stage cb r t : cb_conts cb = [(r, t)] → r ≠ RBad → stage cb = 0%nat ∨ ∃ cb' v, r = RCas cb' v.
Proof.
  intros Hc Hr. destruct cb as [p|lc|p|p|part| | |p| |p|p|p]; cbn in Hc |- *; try by left.
  - right. by eapply user_conts_cas.
  - right. destruct (lc_resume lc) as [p|]; [|done]. by eapply user_conts_cas.
Qed.

Lemma waits_stage t r s w : r ≠ RBad → (t, r, s) ∈ waits w → s = 0%nat ∨ ∃ cb v, r = RCas cb v.
Proof.
  intros Hr H. unfold waits in H. apply elem_of_app in H as [H|H].
  - apply list_elem_of_bind in H as (c&H&_). unfold cmd_waits in H. apply list_elem_of_fmap in H as ([r' t']&[= -> -> ->]&H).
    pose proof (cb_conts_length (dc_cb c)). destruct (cb_conts (dc_cb c)) as [|x [|]] eqn:Ec; [by apply not_elem_of_nil in H| |cbn in *; lia].
    apply list_elem_of_singleton in H as <-. by eapply cb_stage.
  - apply list_elem_of_fmap in H as (v&[= _ _ ->]&_). by left.
Qed.

Lemma asks_shard x s p argv r t :
  asks x s (fp_evalsha_reply_cb p) argv ∨ (∃ lc, lc_resume lc = Some p ∧ asks x s (fp_load_reply_cb lc) argv) →
  user_conts (ep_user p) = [(r, t)] → 0 <= ep_shard p < V_STUB_DB_SHARDS.
Proof.
  intros Ha Hu. assert (script_call x p) as Hc by (destruct Ha as [(_&_&?)|(lc&Hp&Ha)]; [done|by apply Ha]).
  unfold script_call in Hc. destruct (ep_user p); [destruct Hc as (->&_)|destruct Hc as (->&_)|done]; apply shard_of_range.
Qed.

Lemma db_invoke_goes t r k x c reply w a w' :
  cb_conts (dc_cb c) = [(r, t)] → r ≠ RBad → 0 <= k → retry_of w t = k → asks x (dc_shard c) (dc_cb c) (dc_argv c) →
  provided t r w → heap_wf (w_ctxs w) → legible (CReply reply) →
  is_wait (next r (stage (dc_cb c)) k (CReply reply)) = true →
  db_invoke (dc_cb c) (reply_status reply) reply w = Some (a, w') → continues t w'.
Proof.
  intros Hc Hr Hk Hret Ha Hp Hwf Hl Hw.
  destruct (dc_cb c) as [p|lc|p|p|part| | |p| |p|p|p]; cbn [cb_conts db_invoke stage] in *; try done.
  - eapply evalsha_reply_goes; try done; [|apply Hp]. eapply asks_shard; [by left|done].
  - destruct (lc_resume lc) as [p|] eqn:Ep; [|done]. eapply load_reply_goes; try done; [|apply Hp].
    eapply asks_shard; [right; by exists lc|done].
  - apply cont_of_inv in Hc as [Harg ->]; [|done]. eapply read_reply_goes; try done. apply Hp.
  - destruct (sp_cb p); [|done]. apply cont_of_inv in Hc as [_ ->]; [|done]. by destruct reply.
  - apply cont_of_inv in Hc as [Harg ->]; [|done]. by eapply lookup_reply_goes.
Qed.

Lemma continues_procs t w : Own no_amb None [] [] w → continues t w → is_Some (procs w !! t).
Proof. intros HO (r&s&H). eexists. apply procs_lookup; [done|]. by split. Qed.

(** The completion of [t] in a pod that provides for it. *)
Lemma event_goes w e w' t c r s k :
  Own no_amb None [] [] w → completion_of e w = Some (t, c) → procs w !! t = Some (r, s, k) →
  provided t r w → legible c → is_wait (next r s k c) = true → pod_step e w = Some (tt, w') → continues t w'.
Proof.
  intros HO Hc Hp Hprov Hl Hw E. apply (procs_lookup w t r s k HO) in Hp as [Hin ->].
  destruct (wait_ok w t r s HO Hin) as (Hr&Hk&[x Hx]).
  assert (∀ r' s', (t, r', s') ∈ waits w → r' = r ∧ s' = s) as Hone.
  { intros r' s' Hin'. assert (procs w !! t = Some (r', s', retry_of w t)) as E1 by by apply procs_lookup.
    assert (procs w !! t = Some (r, s, retry_of w t)) as E2 by by apply procs_lookup. by simplify_eq. }
  destruct e as [| |i reply|i res| | | | | | |]; try done; cbn in Hc.
  - destruct (db_queue (w_db w) !! i) as [cmd|] eqn:Ei; [|done]. pose proof (cb_conts_length (dc_cb cmd)) as Hlen.
    destruct (cb_conts (dc_cb cmd)) as [|[r' t'] [|]] eqn:Ec; [done| |cbn in Hlen; lia]. injection Hc as -> <-.
    assert (cmd ∈ db_queue (w_db w)) as Hcmd by (apply list_elem_of_lookup; by eexists).
    destruct (Hone r' (stage (dc_cb cmd))) as [-> <-].
    { unfold waits. apply elem_of_app. left. apply list_elem_of_bind. exists cmd. split; [|done].
      unfold cmd_waits. rewrite Ec. by left. }
    destruct (o_cmds _ _ _ _ _ HO cmd Hcmd) as [_ Ha]. specialize (Ha r t x ltac:(rewrite Ec; by left) Hx).
    cbn [pod_step] in E. apply bind_Some_inv in E as (w1&o&E1&E2). unfold take_db_cmd in E1. rewrite Ei in E1. injection E1 as <- <-.
    apply bind_Some_inv in E2 as (w2&[]&E2&E3). eapply silent_continues; [|eapply (db_invoke_goes t r (retry_of w t) x cmd reply), E2; try done].
    + injection E3 as <-. by apply frame_silent.
    + by destruct Hk.
    + destruct Hprov as [Hs Hst]. split; [by eapply same_supplies, Hs|exact Hst].
    + apply (o_ctxs _ _ _ _ _ HO).
  - destruct (vdp_queue (w_vdp w) !! i) as [v|] eqn:Ei; [|done]. injection Hc as <- <-.
    destruct (Hone (RVdp (vc_cb v)) 0%nat) as [<- <-].
    { unfold waits. apply elem_of_app. right. apply list_elem_of_fmap. exists v. split; [done|]. apply list_elem_of_lookup. by eexists. }
    cbn [pod_step] in E. apply bind_Some_inv in E as (w1&o&E1&E2). unfold take_vdp_call in E1. rewrite Ei in E1. injection E1 as <- <-.
    eapply call_vdp_goes, E2; [|exact Hw]. destruct Hprov as [Hs _]. by eapply same_supplies, Hs.
Qed.

(** ** Runs *)

(** Whenever [t] has a completion in the run, the pod provides for it. *)
Fixpoint provided_run (t : Z) (es : list event) (w : world) : Prop :=
  match es with
  | [] => True
  | e :: es' =>
      match procs w !! t with
      | None => True (* answered *)
      | Some (r, s, k) =>
          (∀ c, is_completion_of t e w = Some c → provided t r w ∧ legible c) ∧
          match pod_step e w with Some (_, w1) => provided_run t es' w1 | None => True end
      end
  end.

(** One event, seen from a transaction in flight. *)
Lemma event_verdict e t r s k w :
  pod_reachable w → is_timeout e = false → procs w !! t = Some (r, s, k) →
  (∀ c, is_completion_of t e w = Some c → provided t r w ∧ legible c) →
  ∃ w1, pod_step e w = Some (tt, w1) ∧ pod_reachable w1 ∧
    match is_completion_of t e w with
    | None => procs w1 !! t = Some (r, s, k)
    | Some c => ∃ o, erase o = next r s k c ∧
        match o with
        | Wait r s k => procs w1 !! t = Some (r, s, k)
        | Answered a => procs w1 !! t = None ∧ replies t a w w1
        end
    end.
Proof.
  intros Hw He Hp Hprov. destruct (event_of e t _ w Hw He Hp) as (w1&E&Hw1&Hev). exists w1. split; [done|]. split; [done|].
  unfold is_completion_of in *. destruct (completion_of e w) as [[u c]|] eqn:Ec; [|done]. case_decide; [subst u|done].
  destruct Hev as (o&Hs&Ho). exists o. split; [|done]. destruct (Hprov c eq_refl) as [Hpr Hl].
  pose proof (proj1 (pod_reachable_inv w Hw)) as HO. pose proof (proj1 (pod_reachable_inv w1 Hw1)) as HO1.
  apply next_unique; [|done|].
  - apply (procs_lookup w t r s k HO) in Hp as [Hin _]. destruct (wait_ok w t r s HO Hin) as (Hr&_). by eapply waits_stage.
  - intros Hn. pose proof (event_goes w e w1 t c r s k HO Ec Hp Hpr Hl Hn E) as Hc.
    apply (continues_procs t w1 HO1) in Hc as [p Hc]. destruct o; [done|]. destruct Ho as [Ho _]. congruence.
Qed.

Lemma verdict_life es : ∀ w w' t p, pod_reachable w → no_timeout es → pod_run es w = Some (tt, w') →
  procs w !! t = Some p → provided_run t es w →
  (∃ p', procs w' !! t = Some p' ∧ verdict (erase (wait_of p)) (history t es w) = erase (wait_of p')) ∨
  ∃ es1 es2 cs a, es = es1 ++ es2 ∧ answered_at t w es1 cs a ∧ verdict (erase (wait_of p)) cs = Answered a.
Proof.
  induction es as [|e es IH]; intros w w' t [[r s] k] Hw Hes Hr Hp Hprov; cbn [pod_run history provided_run] in *.
  { injection Hr as <-. left. by exists (r, s, k). }
  rewrite Hp in Hprov. destruct Hprov as [Hpe Hprest].
  apply Forall_cons in Hes as [He Hes]. destruct (event_verdict e t r s k w Hw He Hp Hpe) as (w1&E&Hw1&Hev).
  apply bind_Some_inv in Hr as (w1'&[]&E'&Hr). assert (w1' = w1) as -> by congruence. rewrite E in *. clear E'.
  destruct (is_completion_of t e w) as [c|] eqn:Ec; cbn [option_list app] in *.
  - destruct Hev as ([r' s' k'|a]&Hn&Ho).
    + destruct (IH w1 w' t (r', s', k') Hw1 Hes Hr Ho Hprest) as [(p'&Hp'&Hv)|(es1&es2&cs&a&->&Ha&Hv)].
      * left. exists p'. split; [done|]. cbn [wait_of erase]. change (option_list (Some c) ++ history t es w1) with (c :: history t es w1). by rewrite (verdict_next _ _ _ _ _ _ Hn).
      * right. exists (e :: es1), es2, (c :: cs), a. split; [done|].
        split; [|cbn [wait_of erase]; by rewrite (verdict_next _ _ _ _ _ _ Hn)].
        change (c :: cs) with (option_list (Some c) ++ cs). rewrite <- Ec. by eapply answered_later.
    + destruct Ho as [Ho Hrep]. right. exists [e], es, [c], a. split; [done|]. split.
      * exists [], e, w, w1. cbn [history app]. rewrite Ec, E. split_and!; try done.
      * cbn [wait_of erase]. by rewrite (verdict_next _ _ _ _ _ _ Hn).
  - destruct (IH w1 w' t (r, s, k) Hw1 Hes Hr Hev Hprest) as [?|(es1&es2&cs&a&->&Ha&Hv)]; [by left|right].
    exists (e :: es1), es2, cs, a. split; [done|]. split; [|done].
    change cs with (option_list None ++ cs). rewrite <- Ec. by eapply answered_later.
Qed.

(** C7: the answer to a request is a function of its completions.  Take a
    request at its retransmit lookup and any run in which, whenever one of its
    completions arrives, the pod is connected and has objects, identifiers and
    scripts left, and session data that is read can be decoded.  Then at the
    end of the run the request is in the state that the automaton [next]
    computes from its completions, or it was answered, with the answer that
    the automaton computes.  So nothing is refused without a reason in the
    replies: a fresh establishment, say, whose write is taken by the database
    and then by the data plane and confirmed, is accepted. *)
Theorem request_outcome es w w' t cb :
  pod_reachable w → no_timeout es → pod_run es w = Some (tt, w') → procs w !! t = Some (RLookup cb, 0%nat, 0) →
  provided_run t es w →
  (∃ p, procs w' !! t = Some p ∧ answer_to cb (history t es w) = erase (wait_of p)) ∨
  ∃ es1 es2 cs a, es = es1 ++ es2 ∧ answered_at t w es1 cs a ∧ answer_to cb cs = Answered a.
Proof. intros Hw Hes Hr Hp Hprov. by apply (verdict_life es w w' t _ Hw Hes Hr Hp Hprov). Qed.

End verdict.

(** The automaton on the courses of events that the program is written for. *)
Example establishment_accepted reply :
  answer_to fp_retrans_lookup_cb
    [CReply (Some V_DB_REPLY_NIL); CReply (Some (V_DB_REPLY_INTEGER 1)); CVdp V_VDP_ACCEPT; CReply (Some reply)] = ACCEPTED.
Proof. reflexivity. Qed.

Example modification_retried data ver :
  let found := CReply (Some (V_DB_REPLY_ARRAY [V_DB_REPLY_STRING data; V_DB_REPLY_STRING ver])) in
  answer_to fp_mod_retrans_lookup_cb
    [CReply (Some V_DB_REPLY_NIL); found; CReply (Some (V_DB_REPLY_INTEGER 0)); found; CReply (Some (V_DB_REPLY_INTEGER 1));
     CVdp V_VDP_ACCEPT] = ACCEPTED.
Proof. reflexivity. Qed.

Example deletion_gives_up data ver :
  let found := CReply (Some (V_DB_REPLY_ARRAY [V_DB_REPLY_STRING data; V_DB_REPLY_STRING ver])) in
  let lost := [found; CVdp V_VDP_ACCEPT; CReply (Some (V_DB_REPLY_INTEGER 0))] in
  answer_to fp_del_retrans_lookup_cb (CReply (Some V_DB_REPLY_NIL) :: lost ++ lost ++ lost) = FAILURE.
Proof. reflexivity. Qed.
