(* ===== verification/Main.v ===== *)
(** Component main, the start-up: the start-up sequence of main.c with its
    readiness gates.  v_port_db_poll delivers whatever completions are due:
    the start-up is parametrised by the events each poll delivers.  The loops
    that follow it are in Loops.v. *)
From S2P Require Import Prelude Seid Dpdk Heap Redis World DbScript SessStore RetransCache IdAlloc.
From S2P Require Import DispatchQ NodeState Flow Sweeper Pod Preserve Pools PoolsPod.
From S2P Require Import Own OwnPrim OwnCmd OwnPod Boot Safety.

Section main.
Context {DP : Dpdk} {PP : PfcpPort}.

(** v_port_db_poll: libevent runs the callbacks that are due, which arrive as
    events.  (The event base exists: v_port_db_init, before, created it.) *)
Definition v_port_db_poll (due : list event) : M () := pod_run due.

(** wait_until: [polls i] are the events the i-th v_port_db_poll delivers. *)
Fixpoint wait_until (pred : world → bool) (polls : nat → list event) (i max_iters : nat) : M bool :=
  match max_iters with
  | O => gets pred
  | S n =>
      w ← gets id;
      if pred w then mret true else _ ← v_port_db_poll (polls i); wait_until pred polls (S i) n
  end.

(** recovery_ts_loaded_cb and the node-state user token *)
Definition FP_RECOVERY_TS_LOADED : Z := 0.

Definition scripts_ready (w : world) : bool := v_db_script_ready (w_script w).
Definition ids_ready (w : world) : bool := v_id_alloc_ready (w_ids w).

(** main from the script gate to the launch of the workers; [false] is
    [goto fail]. *)
Definition start_up (p1 p2 p3 : nat → list event) (n1 n2 n3 : nat) : M bool :=
  ok ← wait_until scripts_ready p1 0 n1;
  if negb ok then mret false
  else
    rc ← v_id_alloc_init iu;
    if negb (rc =? RET_CODE_OK) then mret false
    else
      ok ← wait_until ids_ready p2 0 n2;
      if negb ok then mret false
      else
        _ ← v_node_state_load_recovery_ts FP_RECOVERY_TS_LOADED;
        _ ← wait_until v_node_state_recovery_ts_ready p3 0 n3; (* "proceeding anyway" *)
        mret true.

Definition SCRIPT_ITERS : nat := Z.to_nat 30000.
Definition ID_ITERS : nat := Z.to_nat 60000.
Definition TS_ITERS : nat := Z.to_nat 5000.

(** main: [None] is undefined behaviour, [Some None] exit status 1,
    [Some (Some w)] the state in which the workers are launched. *)
Definition main (db_accept vdp_accept : nat → bool) (addr pid now : Z) (p1 p2 p3 : nat → list event) :
    option (option world) :=
  match pod_boot db_accept vdp_accept addr pid now with
  | None => Some None
  | Some w0 =>
      match start_up p1 p2 p3 SCRIPT_ITERS ID_ITERS TS_ITERS w0 with
      | None => None
      | Some (false, _) => Some None
      | Some (true, w) => Some (Some w)
      end
  end.

#[local] Opaque SCRIPT_ITERS ID_ITERS TS_ITERS.

(** ** The gates *)

(** Only completions of the database port are delivered during start-up. *)
Definition db_only (p : nat → list event) : Prop := ∀ i, Forall (λ e, is_boot e = true) (p i).

Lemma boot_no_timeout es : Forall (λ e, is_boot e = true) es → no_timeout es.
Proof. intros H. eapply Forall_impl; [exact H|]. by intros []. Qed.

(** Waiting keeps any invariant that the polls keep, and ends with the
    predicate or without it. *)
Lemma wait_until_inv (I : world → Prop) pred polls n : ∀ i w,
  (∀ es w, Forall (λ e, is_boot e = true) es → I w → ∃ w', pod_run es w = Some (tt, w') ∧ I w') →
  db_only polls → I w →
  ∃ b w', wait_until pred polls i n w = Some (b, w') ∧ I w' ∧ pred w' = b.
Proof.
  induction n as [|n IH]; intros i w Hrun Hp Hw; cbn [wait_until]; unfold v_port_db_poll, mbind, SM_bind; cbn [gets id].
  { by exists (pred w), w. }
  destruct (pred w) eqn:E; [by exists true, w|].
  destruct (Hrun (polls i) w (Hp i) Hw) as (w1&->&Hw1). by apply IH.
Qed.

(** *** Start-up traffic only adds identifiers *)

Definition refill_user (u : evalsha_user) : bool := match u with fp_teid_refill_reply_cb _ => true | _ => false end.

(** The commands of the start-up: no session procedure waits for them. *)
Definition idle_cmd (c : db_cmd) : Prop :=
  match dc_cb c with
  | fp_load_reply_cb lc => match lc_resume lc with Some p => refill_user (ep_user p) = true | None => True end
  | fp_evalsha_reply_cb p => refill_user (ep_user p) = true
  | fp_read_reply_cb _ | fp_confirm_reply_cb _ | fp_lookup_reply_cb _ => False
  | _ => True
  end.

Definition idle (w : world) : Prop := Forall idle_cmd (db_queue (w_db w)).

Definition ring_grows (m m' : gmap Z rte_ring) : Prop :=
  ∀ p r, m !! p = Some r → ∃ r', m' !! p = Some r' ∧ (length (ring_items r) <= length (ring_items r'))%nat.

(** Effects that issue start-up commands only and take no identifier. *)
Definition node_ready (w : world) : Prop := is_Some (g_node_pool (w_node w)).
Definition steady (w w' : world) : Prop :=
  (node_ready w → node_ready w') ∧ g_initialized (w_ids w') = g_initialized (w_ids w).

Definition grows (w w' : world) : Prop :=
  idle w → idle w' ∧ ring_grows (g_seid_ring (w_ids w)) (g_seid_ring (w_ids w')) ∧
           ring_grows (g_teid_ring (w_ids w)) (g_teid_ring (w_ids w')) ∧ steady w w'.

Definition adds {A} (m : M A) : Prop := ∀ w a w', m w = Some (a, w') → grows w w'.

#[local] Instance ring_grows_refl : Reflexive ring_grows.
Proof. intros m p r Hr. by exists r. Qed.

#[local] Instance grows_preorder : PreOrder grows.
Proof.
  split.
  - intros w Hw. done.
  - intros w1 w2 w3 H12 H23 Hw. destruct (H12 Hw) as (Hw2&Hs&Ht&Hn). destruct (H23 Hw2) as (Hw3&Hs'&Ht'&Hn').
    split; [done|]. split; [|split; [|destruct Hn, Hn'; split; [by auto|congruence]]]; intros p r Hr.
    + destruct (Hs p r Hr) as (r1&H1&?). destruct (Hs' p r1 H1) as (r2&H2&?). exists r2. split; [done|lia].
    + destruct (Ht p r Hr) as (r1&H1&?). destruct (Ht' p r1 H1) as (r2&H2&?). exists r2. split; [done|lia].
Qed.

Lemma grows_ready w w' : grows w w' → idle w → ids_ready w = true → ids_ready w' = true.
Proof.
  intros Hg Hw. destruct (Hg Hw) as (_&Hs&Ht&[_ Hi]). unfold ids_ready, v_id_alloc_ready.
  rewrite Hi, !andb_true_iff, !forallb_forall. intros [Hini Hall]. split; [done|]. intros p Hp. specialize (Hall p Hp). apply andb_true_iff in Hall as [H1 H2]. apply andb_true_iff.
  assert (∀ m m', ring_grows m m' → ring_nonempty (m !! p) = true → ring_nonempty (m' !! p) = true) as Hne.
  { intros m m' Hg' Hm. unfold ring_nonempty in *. destruct (m !! p) as [r|] eqn:Er; [|done].
    destruct (Hg' p r Er) as (r'&->&Hl). rewrite !ring_count_law in *. lia. }
  by split; [apply (Hne (g_seid_ring (w_ids w)))|apply (Hne (g_teid_ring (w_ids w)))].
Qed.

Lemma adds_ret {A} (a : A) : adds (mret a).
Proof. by intros w b w' [= _ <-]. Qed.

Lemma adds_bind {A B} (m : M A) (f : A → M B) : adds m → (∀ a, adds (f a)) → adds (m ≫= f).
Proof. intros Hm Hf w b w' (w1&a&E1&E2)%bind_Some_inv. etrans; [by eapply Hm|by eapply Hf]. Qed.

(** An update of the other components. *)
Lemma grows_frame w w' :
  db_queue (w_db w') = db_queue (w_db w) → g_seid_ring (w_ids w') = g_seid_ring (w_ids w) →
  g_teid_ring (w_ids w') = g_teid_ring (w_ids w) → steady w w' → grows w w'.
Proof. intros Hq Hs Ht Hn Hw. unfold idle. rewrite Hq, Hs, Ht. done. Qed.

Lemma adds_when b m : adds m → adds (when b m).
Proof. intros H. destruct b; [done|apply adds_ret]. Qed.

Lemma cmd_adds shard cb argv : (∀ c, dc_cb c = cb → idle_cmd c) → adds (v_port_db_cmd_argv shard cb argv).
Proof.
  intros Hc w a w'. unfold v_port_db_cmd_argv.
  destruct (_ || _); [intros [= _ <-]; done|]. destruct (rte_mempool_get _) as [[p pool]|]; [|intros [= _ <-]; done].
  destruct (db_accept _ _); intros [= _ <-]; [|by apply grows_frame].
  intros Hw. split; [|done]. unfold idle. cbn. apply Forall_app. split; [exact Hw|]. constructor; [|constructor]. by apply Hc.
Qed.

(** An effect that leaves queue and rings alone. *)
Definition quiet {A} (m : M A) : Prop := ∀ w a w', m w = Some (a, w') →
  db_queue (w_db w') = db_queue (w_db w) ∧ g_seid_ring (w_ids w') = g_seid_ring (w_ids w) ∧
  g_teid_ring (w_ids w') = g_teid_ring (w_ids w) ∧ steady w w'.

Lemma quiet_adds {A} (m : M A) : quiet m → adds m.
Proof. intros H w a w' E. destruct (H w a w' E) as (?&?&?&?). by apply grows_frame. Qed.

Lemma request_load_adds shard id resume :
  match resume with Some p => refill_user (ep_user p) = true | None => True end →
  adds (request_script_load shard id resume).
Proof.
  intros Hr w a w'. unfold request_script_load. destruct (rte_mempool_get _) as [[o pool]|]; [|intros [= _ <-]; done].
  set (w1 := set_script _ w). intros E. transitivity w1; [by apply grows_frame|]. revert E. generalize w1. clear w w1.
  intros w E. revert w a w' E. fold (adds (A := Z)). apply adds_bind; [apply cmd_adds; intros c Hc; unfold idle_cmd; by rewrite Hc|].
  intros rc. destruct (negb _); [|apply adds_ret]. apply adds_bind; [|intros; apply adds_ret].
  by apply quiet_adds; intros w a w' [= _ <-].
Qed.

(** The reply of a refill script. *)
Lemma ring_grows_insert (m : gmap Z rte_ring) p r r' :
  m !! p = Some r → (length (ring_items r) <= length (ring_items r'))%nat → ring_grows m (<[p := r']> m).
Proof.
  intros Hr Hl q x Hx. destruct (decide (q = p)) as [->|Hne].
  - exists r'. rewrite lookup_insert_eq. split; [done|]. congruence.
  - exists x. by rewrite lookup_insert_ne.
Qed.

Lemma enqueue_grows r x r' : rte_ring_enqueue r x = Some r' → (length (ring_items r) <= length (ring_items r'))%nat.
Proof. intros (->&_)%ring_enqueue_inv. rewrite length_app. cbn. lia. Qed.

Lemma seid_block_grows part base n : ∀ i r, (length (ring_items r) <= length (ring_items (seid_enqueue_block part base i n r)))%nat.
Proof.
  induction n as [|n IH]; intros i r; cbn [seid_enqueue_block]; [done|].
  destruct (v_seid_encode _ _); [|apply IH]. destruct (rte_ring_enqueue _ _) as [r'|] eqn:E; [|done].
  etrans; [by eapply enqueue_grows|apply IH].
Qed.

#[local] Opaque seid_enqueue_block.

Lemma teid_enqueue_grows part l r : (length (ring_items r) <= length (ring_items (enqueue_teid part l r)))%nat.
Proof.
  unfold enqueue_teid. destruct (v_teid_encode _ _) as [x|]; [|done].
  destruct (rte_ring_enqueue r x) as [r'|] eqn:E; cbn; [by eapply enqueue_grows|done].
Qed.

Lemma teid_range_grows part base n : ∀ i r, (length (ring_items r) <= length (ring_items (enqueue_range part base i n r)))%nat.
Proof. induction n as [|n IH]; intros i r; cbn; [done|]. etrans; [apply teid_enqueue_grows|apply IH]. Qed.

Lemma teid_list_grows part l : ∀ r, (length (ring_items r) <= length (ring_items (enqueue_list part l r)))%nat.
Proof.
  induction l as [|e l IH]; intros r; cbn; [done|]. etrans; [|apply IH].
  destruct (parse_u64 e); [apply teid_enqueue_grows|done].
Qed.

Lemma teid_refill_grows part reply r r' :
  teid_refill_ring part reply r = Some r' → (length (ring_items r) <= length (ring_items r'))%nat.
Proof.
  unfold teid_refill_ring. repeat (case_match; try done).
  - intros (b'&_&(c'&_&[= <-])%bind_Some)%bind_Some. apply teid_range_grows.
  - intros [= <-]. apply teid_list_grows.
Qed.

Lemma teid_reply_adds part status reply : adds (teid_refill_reply_cb part status reply).
Proof.
  apply adds_bind; [by apply quiet_adds; intros w a w' [= _ <-]|]. intros _. destruct (negb _); [apply adds_ret|].
  intros w a w' (w1&r&E1&E2)%bind_Some_inv. unfold teid_ring in E1.
  destruct (g_teid_ring (w_ids w) !! part) as [r0|] eqn:Er; [|done]. injection E1 as <- <-.
  destruct (teid_refill_ring part reply r0) as [r'|] eqn:Ef; [|by injection E2 as _ <-].
  injection E2 as _ <-. intros Hw. split; [done|]. split; [done|]. split; [|done].
  apply (ring_grows_insert _ _ r0); [done|by eapply teid_refill_grows].
Qed.

Lemma seid_reply_adds part status reply : adds (seid_refill_reply_cb part status reply).
Proof.
  apply adds_bind; [by apply quiet_adds; intros w a w' [= _ <-]|]. intros _.
  destruct reply as [[]|]; try apply adds_ret. destruct (negb _); [apply adds_ret|].
  intros w a w' (w1&r&E1&E2)%bind_Some_inv. unfold seid_ring in E1.
  destruct (g_seid_ring (w_ids w) !! part) as [r0|] eqn:Er; [|done]. injection E1 as <- <-.
  injection E2 as _ <-. intros Hw. split; [done|]. split; [|done].
  apply (ring_grows_insert _ _ r0); [done|apply seid_block_grows].
Qed.

Lemma refill_user_adds u status reply : refill_user u = true → adds (iu u status reply).
Proof. unfold iu, CALLBACK_DEPTH. cbn [invoke_user]. destruct u; try done. intros _. apply teid_reply_adds. Qed.

Lemma evalsha_put_adds o : adds (evalsha_put o).
Proof. by apply quiet_adds; intros w a w' [= _ <-]. Qed.

Lemma load_put_adds o : adds (load_put o).
Proof. by apply quiet_adds; intros w a w' [= _ <-]. Qed.

Lemma issue_adds p : refill_user (ep_user p) = true → adds (issue_evalsha iu p).
Proof.
  intros Hp. apply adds_bind; [apply cmd_adds; intros c Hc; unfold idle_cmd; by rewrite Hc|].
  intros rc. apply adds_when, adds_bind; [by apply refill_user_adds|intros _; apply evalsha_put_adds].
Qed.

Lemma node_put_adds o : adds (node_pending_put o).
Proof.
  apply quiet_adds. intros w a w'. unfold node_pending_put. destruct (g_node_pool _); [|done]. intros [= _ <-]. split_and!; try done. split; [by eexists|done].
Qed.

(** A command of the start-up completes. *)
Lemma idle_invoke c status reply : idle_cmd c → adds (db_invoke (dc_cb c) status reply).
Proof.
  unfold idle_cmd. destruct (dc_cb c) as [p|lc|p|p|part| | |p| |p|p|p]; cbn [db_invoke]; try done; intros Hc.
  - unfold evalsha_reply_cb. destruct (_ && _).
    + apply adds_bind; [by apply request_load_adds|]. intros rc. apply adds_when.
      apply adds_bind; [by apply refill_user_adds|intros _; apply evalsha_put_adds].
    + apply adds_bind; [by apply refill_user_adds|intros _; apply evalsha_put_adds].
  - unfold load_reply_cb. destruct (if _ : bool then _ else None) as [sha|].
    + apply adds_bind; [by apply quiet_adds; intros w a w' [= _ <-]|]. intros _.
      apply adds_bind; [|intros _; apply load_put_adds]. destruct (lc_resume lc); [by apply issue_adds|apply adds_ret].
    + apply adds_bind; [|intros _; apply load_put_adds]. destruct (lc_resume lc); [|apply adds_ret].
      apply adds_bind; [by apply refill_user_adds|intros _; apply evalsha_put_adds].
  - apply seid_reply_adds.
  - apply adds_ret.
  - apply adds_ret.
  - apply adds_ret.
  - apply adds_bind; [apply node_put_adds|]. intros _. destruct (negb _); [apply adds_ret|].
    apply adds_bind; [by intros w a w' [= _ <-]|]. intros now. cbn zeta.
    apply adds_bind; [by apply quiet_adds; intros w a w' [= _ <-]|]. intros _. apply adds_ret.
  - apply adds_bind; [apply node_put_adds|]. intros _. apply adds_ret.
  - apply adds_bind; [apply node_put_adds|]. intros _. destruct (assoc_outcome _ _) as [[??]?]. apply adds_ret.
Qed.

(** Every event of the database port. *)
Lemma boot_step_adds e : is_boot e = true → adds (pod_step e).
Proof.
  intros He. destruct e as [| |i r| | |s|s|s|t| |]; try done; cbn [pod_step].
  - intros w a w' (w1&o&Et&E)%bind_Some_inv. unfold take_db_cmd in Et.
    destruct (db_queue (w_db w) !! i) as [c|] eqn:Ei; injection Et as <- <-; [|by injection E as _ <-].
    intros Hw. assert (idle_cmd c ∧ Forall idle_cmd (delete i (db_queue (w_db w)))) as [Hc Hq].
    { unfold idle in Hw. by rewrite (delete_Permutation _ _ _ Ei), Forall_cons in Hw. }
    assert (adds (on_reply db_invoke c r)) as Ha.
    { apply adds_bind; [by apply idle_invoke|]. intros _. by apply quiet_adds; intros ? ? ? [= _ <-]. }
    by apply (Ha _ _ _ E).
  - by apply quiet_adds; intros ? ? ? [= _ <-].
  - do 3 (apply adds_bind; [by apply request_load_adds|intros _]). apply adds_ret.
  - by apply quiet_adds; intros ? ? ? [= _ <-].
  - by apply quiet_adds; intros ? ? ? [= _ <-].
Qed.

Lemma boot_run_adds es : Forall (λ e, is_boot e = true) es → adds (pod_run es).
Proof.
  induction 1 as [|e es He _ IH]; cbn [pod_run]; [apply adds_ret|].
  apply adds_bind; [by apply boot_step_adds|by intros _].
Qed.

(** The initial refills issue start-up commands only. *)
Lemma seid_ring_adds part : adds (seid_ring part).
Proof. intros w a w'. unfold seid_ring. destruct (g_seid_ring _ !! part); [|done]. by intros [= _ <-]. Qed.

Lemma teid_ring_adds part : adds (teid_ring part).
Proof. intros w a w'. unfold teid_ring. destruct (g_teid_ring _ !! part); [|done]. by intros [= _ <-]. Qed.

Lemma ids_modify_adds f :
  (∀ a, g_seid_ring (f a) = g_seid_ring a) → (∀ a, g_teid_ring (f a) = g_teid_ring a) →
  (∀ a, g_initialized (f a) = g_initialized a) → adds (ids_modify f).
Proof. intros Hs Ht Hi. apply quiet_adds. intros w a w' [= _ <-]. unfold steady. cbn. by rewrite Hs, Ht, Hi. Qed.

Lemma seid_maybe_adds part : adds (seid_maybe_refill part).
Proof.
  apply adds_bind; [apply seid_ring_adds|]. intros r. apply adds_bind; [by intros ? ? ? [= _ <-]|]. intros a.
  case_match; [apply adds_ret|]. case_decide; [apply adds_ret|].
  apply adds_bind; [by apply ids_modify_adds|]. intros _.
  apply adds_bind; [apply cmd_adds; intros c Hc; unfold idle_cmd; by rewrite Hc|]. intros rc.
  apply adds_when. by apply ids_modify_adds.
Qed.

Lemma evalsha_adds shard id keys argv u : refill_user u = true → adds (v_db_evalsha iu shard id keys argv u).
Proof.
  intros Hu w a w'. unfold v_db_evalsha. destruct (_ <? _); [by intros [= _ <-]|].
  destruct (if _ : bool then _ else _) as [sha|]; [|by intros [= _ <-]].
  destruct (rte_mempool_get _) as [[o pool]|]; [|by intros [= _ <-]]. cbn zeta.
  set (w1 := set_script _ w). intros E. transitivity w1; [by apply grows_frame|].
  destruct (scratch_copy_all _ _) as [n|].
  - refine (adds_bind _ _ _ _ _ _ _ E); [by apply issue_adds|intros _; apply adds_ret].
  - refine (adds_bind _ _ _ _ _ _ _ E); [apply evalsha_put_adds|intros _; apply adds_ret].
Qed.

Lemma teid_maybe_adds part : adds (teid_maybe_refill iu part).
Proof.
  apply adds_bind; [apply teid_ring_adds|]. intros r. apply adds_bind; [by intros ? ? ? [= _ <-]|]. intros a.
  case_match; [apply adds_ret|]. case_decide; [apply adds_ret|].
  apply adds_bind; [by apply ids_modify_adds|]. intros _. cbn zeta. apply adds_bind.
  - case_decide; [apply adds_ret|]. apply adds_bind; [by apply ids_modify_adds|]. intros _.
    apply cmd_adds. intros c Hc. unfold idle_cmd. by rewrite Hc.
  - intros _. apply adds_bind; [by apply evalsha_adds|]. intros rc. apply adds_when. by apply ids_modify_adds.
Qed.

Lemma initial_refills_adds ps : adds (initial_refills iu ps).
Proof.
  induction ps as [|p ps IH]; cbn [initial_refills]; [apply adds_ret|].
  apply adds_bind; [apply seid_maybe_adds|]. intros _. by apply adds_bind; [apply teid_maybe_adds|intros _].
Qed.

(** Where an initialisation that succeeded went on from. *)
Lemma id_init_inv_ok w w' : v_id_alloc_init iu w = Some (RET_CODE_OK, w') →
  ∃ a, g_initialized a = true ∧ initial_refills iu (seqZ 0 V_NUM_PARTS) (set_ids a w) = Some (tt, w').
Proof.
  unfold v_id_alloc_init. destruct (g_initialized _); [done|]. cbn zeta. destruct (negb id_tables); [done|].
  destruct (create_rings _ _) as [[] a]; [|done].
  intros (w1&[]&E&E2)%bind_Some_inv. injection E2 as <-. by exists (ids_set_initialized true a).
Qed.

Lemma id_init_idle w w' : idle w → v_id_alloc_init iu w = Some (RET_CODE_OK, w') → idle w'.
Proof. intros Hw (a&_&E)%id_init_inv_ok. by apply (initial_refills_adds _ _ _ _ E). Qed.

Lemma id_init_node w w' : idle w → node_ready w → v_id_alloc_init iu w = Some (RET_CODE_OK, w') → node_ready w'.
Proof. intros Hw Hn (a&_&E)%id_init_inv_ok. by apply (initial_refills_adds _ _ _ _ E). Qed.

Lemma node_issue_adds key argv cb user : (∀ p, ∀ c, dc_cb c = cb p → idle_cmd c) → adds (node_issue key argv cb user).
Proof.
  intros Hc. apply adds_bind.
  - apply quiet_adds. intros w a w'. unfold node_pending_get. destruct (g_node_pool _); [|done].
    destruct (rte_mempool_get _) as [[??]|]; intros [= _ <-]; split_and!; try done. split; [by eexists|done].
  - intros [o|]; [|apply adds_ret]. apply adds_bind; [by apply cmd_adds, Hc|]. intros rc.
    destruct (negb _); [|apply adds_ret]. apply adds_bind; [apply node_put_adds|]. intros _. apply adds_ret.
Qed.

Lemma load_ts_adds user : adds (v_node_state_load_recovery_ts user).
Proof.
  do 2 (apply adds_bind; [by intros ? ? ? [= _ <-]|intros ?]). apply node_issue_adds.
  intros p c Hc. unfold idle_cmd. by rewrite Hc.
Qed.

Lemma plain_idle w : Forall plain_load (db_queue (w_db w)) → idle w.
Proof.
  intros H. eapply Forall_impl; [exact H|]. intros c. unfold plain_load, idle_cmd.
  destruct (dc_cb c); try done. by intros ->.
Qed.

(** *** The node-state calls *)

(** A call of v_node_state from outside any procedure. *)
Lemma node_issue_inv key argv cb user w :
  (∀ p, hold_cb (cb p) = [(PK_NODE, np_obj p)]) → (∀ p, cb_conts (cb p) = [] ∧ cb_parts (cb p)) →
  pod_inv w → node_ready w → ∃ rc w', node_issue key argv cb user w = Some (rc, w') ∧ pod_inv w'.
Proof.
  intros Hh Hc [HO HJ] Hn.
  destruct (wp_total _ _ _ (node_issue_ok None None key argv cb user w Hn Hc HO)) as (rc&w'&E&HO').
  exists rc, w'. split; [done|]. split; [done|]. by eapply (node_issue_pools [] key argv cb user Hh).
Qed.

(** ** Start-up *)

Lemma pod_run_app es es' w : pod_run (es ++ es') w = (_ ← pod_run es; pod_run es') w.
Proof.
  revert w. induction es as [|e es IH]; intros w; [done|]. cbn [app pod_run]. unfold mbind, SM_bind.
  destruct (pod_step e w) as [[[] w1]|]; [|done]. apply IH.
Qed.

(** Waiting is a run of the polls that were needed. *)
Lemma wait_until_run pred polls n : ∀ i w b w', db_only polls →
  wait_until pred polls i n w = Some (b, w') →
  ∃ es, Forall (λ e, is_boot e = true) es ∧ pod_run es w = Some (tt, w').
Proof.
  induction n as [|n IH]; intros i w b w' Hp; cbn [wait_until]; unfold v_port_db_poll, mbind, SM_bind; cbn [gets id].
  { intros [= _ <-]. by exists []. }
  destruct (pred w); [intros [= _ <-]; by exists []|].
  destruct (pod_run (polls i) w) as [[[] w1]|] eqn:E1; [|done].
  intros (es&Hes&Hr)%IH; [|done]. exists (polls i ++ es). split; [apply Forall_app; by split|].
  rewrite (pod_run_app (polls i) es). unfold mbind, SM_bind. by rewrite E1.
Qed.

Lemma boot_node_ready da va addr pid now w : pod_boot da va addr pid now = Some w → node_ready w.
Proof.
  unfold pod_boot. intros (ctxs&_&(txns&_&(script&_&(db&_&(disp&_&(msgs&_&Hb)%bind_Some)%bind_Some)%bind_Some)%bind_Some)%bind_Some)%bind_Some.
  unfold mbind, SM_bind, v_flow_init, v_node_state_init in Hb.
  destruct (rte_mempool_create V_NODE_STATE_PENDING_POOL_CAP) as [np|] eqn:Enp; cbn in Hb; rewrite ?Enp in Hb; [|done].
  injection Hb as <-. by eexists.
Qed.

(** C16: the start-up gates.  Whatever completions the polls deliver, main
    never runs into undefined behaviour; and if it launches the workers, then
    every partition has a SEID and a TEID to allocate, and from that state on
    no sequence of events other than hard timeouts leads to undefined
    behaviour. *)
Theorem startup_gate da va addr pid now p1 p2 p3 :
  db_only p1 → db_only p2 → db_only p3 →
  ∃ r, main da va addr pid now p1 p2 p3 = Some r ∧
    match r with
    | None => True
    | Some w => pod_inv w ∧
        (∀ part, 0 <= part < V_NUM_PARTS → ring_nonempty (g_seid_ring (w_ids w) !! part) = true ∧
                                           ring_nonempty (g_teid_ring (w_ids w) !! part) = true) ∧
        ∀ es, no_timeout es → ∃ w', pod_run es w = Some (tt, w')
    end.
Proof.
  intros Hp1 Hp2 Hp3. unfold main. destruct (pod_boot da va addr pid now) as [w0|] eqn:Eb; [|by exists None].
  pose proof (boot_node_ready _ _ _ _ _ _ Eb) as Hn0. apply pod_boot_clean in Eb as [Hc0 HJ0].
  unfold start_up, mbind, SM_bind.
  (* the script gate *)
  destruct (wait_until_inv (λ w, (pod_clean w ∧ pools_ok [] w) ∧ node_ready w) scripts_ready p1 SCRIPT_ITERS 0 w0)
    as (b1&w1&E1&[[Hc1 HJ1] Hn1]&_); [|done|done|].
  { intros es w Hes [[Hc HJ] Hn]. destruct (boot_run_clean es w Hes Hc HJ) as (w'&E&Hc'&HJ'). exists w'.
    split; [done|]. split; [done|]. assert (idle w) as Hi by (apply plain_idle, Hc). by apply (boot_run_adds es Hes w tt w' E). }
  rewrite E1. destruct b1; cbn [negb]; [|by exists None].
  (* v_id_alloc_init *)
  assert (idle w1) as Hi1 by (apply plain_idle, Hc1).
  destruct (id_init_inv w1 Hc1 HJ1) as (rc&w2&E2&Hinv2). rewrite E2.
  destruct (Z.eqb_spec rc RET_CODE_OK) as [->|]; cbn [negb]; [|by exists None]. specialize (Hinv2 eq_refl).
  pose proof (id_init_idle w1 w2 Hi1 E2) as Hi2.
  assert (node_ready w2) as Hn2 by (exact (id_init_node w1 w2 Hi1 Hn1 E2)).
  assert (∀ es w, Forall (λ e, is_boot e = true) es → pod_inv w ∧ idle w ∧ node_ready w →
    ∃ w', pod_run es w = Some (tt, w') ∧ pod_inv w' ∧ idle w' ∧ node_ready w') as Hrun.
  { intros es w Hes (Hi&Hq&Hn). destruct (pod_run_inv es w (boot_no_timeout es Hes) Hi) as (w'&E&Hi').
    exists w'. split; [done|]. split; [done|]. destruct (boot_run_adds es Hes w tt w' E Hq) as (?&_&_&[? _]). auto. }
  (* the identifier gate *)
  destruct (wait_until_inv _ ids_ready p2 ID_ITERS 0 w2 Hrun Hp2) as (b3&w3&E3&(Hinv3&Hi3&Hn3)&Hr3); [done|].
  rewrite E3. destruct b3; cbn [negb]; [|by exists None].
  (* the recovery time stamp *)
  assert (∃ rc w4, v_node_state_load_recovery_ts FP_RECOVERY_TS_LOADED w3 = Some (rc, w4) ∧ pod_inv w4) as (rc4&w4&E4&Hinv4).
  { by apply node_issue_inv. }
  pose proof (load_ts_adds _ _ _ _ E4) as Hg4. destruct (Hg4 Hi3) as (Hi4&_&_&[Hn4 _]).
  rewrite E4. destruct (wait_until_inv _ v_node_state_recovery_ts_ready p3 TS_ITERS 0 w4 Hrun Hp3) as (b5&w5&E5&(Hinv5&_)&_); [by auto|].
  rewrite E5. exists (Some w5). split; [done|]. split; [done|]. split.
  - destruct (wait_until_run _ _ _ _ _ _ _ Hp3 E5) as (es&Hes&Hr5).
    assert (ids_ready w5 = true) as Hrdy.
    { apply (grows_ready w4); [by eapply boot_run_adds|done|]. by apply (grows_ready w3). }
    apply andb_true_iff in Hrdy as [_ Hrdy]. rewrite forallb_forall in Hrdy. intros part Hpart.
    apply andb_true_iff, Hrdy, list_elem_of_In, elem_of_seqZ. lia.
  - intros es Hes. destruct (pod_run_inv es w5 Hes Hinv5) as (w'&?&_). by exists w'.
Qed.

End main.
