(* ===== verification/Loops.v ===== *)
(** Component main, the endless loops: an iteration of a worker and of the
    I/O core, in terms of the datagrams that wait in the two rings.  An
    iteration is described as it runs alone; the interleaving of the cores is
    the order of the events of Pod.v. *)
From S2P Require Import Prelude Seid Dpdk Heap Redis World DbScript SessStore RetransCache IdAlloc.
From S2P Require Import DispatchQ NodeState Flow Sweeper Pod Preserve Pools Own OwnPod Boot Safety Transport.
From S2P Require Import Protocol Progress Conform Procedures ProtocolRefine Arrival Main.

Section loops.
Context {DP : Dpdk} {PP : PfcpPort}.

(** The body of the loop of worker_main. *)
Definition worker_iteration : M () := _ ← v_dispatch_worker_poll 32 v_flow_handle_msg; mret tt.

(** The body of the loop of main: [due] are the completions that are due; the
    result are the datagrams handed to v_port_pfcp_io_send. *)
Definition io_iteration (due : list event) : M (list v_dispatch_msg) :=
  _ ← v_port_db_poll due; v_dispatch_io_drain_tx 64.

(** ** What an event does to the rings *)

(** At most [n] datagrams are appended to the transmit ring. *)
Definition queues (n : nat) (d d' : dispatch) : Prop :=
  ∃ l, tx_view d' = tx_view d ++ l ∧ (length l <= n)%nat.

Lemma queues_same n d d' : tx_view d' = tx_view d → queues n d d'.
Proof. unfold queues. intros ->. exists []. rewrite app_nil_r. split; [done|cbn; lia]. Qed.

Lemma queues_trans n k d1 d2 d3 : queues n d1 d2 → queues k d2 d3 → queues (n + k) d1 d3.
Proof.
  intros (l&H1&Hl) (l'&H2&Hl'). exists (l ++ l'). rewrite length_app, app_assoc, <- H1. split; [done|lia].
Qed.

Lemma sent_rings D d buf peer : disp_wf D d →
  disp_wf D (sent buf peer d) ∧ rx_view (sent buf peer d) = rx_view d ∧ queues 1 d (sent buf peer d).
Proof.
  intros Hd. destruct buf as [b|]; [|split; [done|split; [done|by apply queues_same]]]. cbn [sent].
  pose proof (tx_spec D d b (Some peer) Hd) as H. destruct (dispatch_tx_enqueue _ _ _) as [rc d']. cbn.
  destruct H as (Hd'&Hr&H). split; [done|]. split; [done|].
  case_match; destruct H as [_ H]; [by apply queues_same|]. eexists. split; [exact H|done].
Qed.

Lemma dispatched_rings m r x w w' :
  disp_wf [m] (Dispatch r (g_tx_ring (w_disp w)) (g_msg_pool (w_disp w))) → dispatched m r x w w' →
  let d := Dispatch r (g_tx_ring (w_disp w)) (g_msg_pool (w_disp w)) in
  disp_wf [] (w_disp w') ∧ rx_view (w_disp w') = rx_view d ∧ queues 1 d (w_disp w').
Proof.
  intros Hd Hx d. fold d in Hd.
  assert (∃ d1, (disp_wf [m] d1 ∧ rx_view d1 = rx_view d ∧ queues 1 d d1) ∧ w_disp w' = released m d1) as (d1&(Hd1&Hr&l&Hl&Hn)&->).
  { unfold dispatched in Hx. cbn zeta in Hx. fold d in Hx.
    assert (disp_wf [m] d ∧ rx_view d = rx_view d ∧ queues 1 d d) as Hid by (split; [done|split; [done|by apply queues_same]]).
    destruct (route (m_buf x)) as [|q|q cb tgt].
    - exists d. split; [done|apply Hx].
    - eexists. split; [|apply Hx]. destruct (msg_room w); [by apply sent_rings|done].
    - exists d. split; [done|apply Hx]. }
  destruct (chan_put [] d1 m Hd1) as (H1&H2&H3). split; [exact H1|]. split; [by rewrite <- Hr|].
  exists l. split; [by rewrite <- Hl|done].
Qed.

(** A poll takes the oldest datagram, if there is one. *)
Lemma poll_rings w : pod_reachable w → disp_wf [] (w_disp w) →
  match rx_view (w_disp w) with
  | [] => rte_ring_dequeue (g_rx_ring (w_disp w)) = None
  | x :: l => ∃ m r w1, rte_ring_dequeue (g_rx_ring (w_disp w)) = Some (m, r) ∧
      heap_get (g_msg_pool (w_disp w)) m = Some x ∧ pod_step EvPoll w = Some (tt, w1) ∧ dispatched m r x w w1 ∧
      pod_reachable w1 ∧ disp_wf [] (w_disp w1) ∧ rx_view (w_disp w1) = l ∧ queues 1 (w_disp w) (w_disp w1)
  end.
Proof.
  intros Hw Hd. pose proof (take_spec [] (w_disp w) Hd) as Ht. destruct (rx_view (w_disp w)) as [|x l] eqn:Ev; [done|].
  destruct Ht as (m&r&Hr&Hx&Hd1&Hrx&Htx). destruct (poll_dispatches w m r x Hw Hr Hx) as (w1&E&Hdx).
  exists m, r, w1. split; [done|]. split; [done|]. split; [done|]. split; [done|].
  split; [exact (reachable_step w EvPoll w1 Hw eq_refl E)|]. destruct (dispatched_rings m r x w w1 Hd1 Hdx) as (H1&H2&l'&H3&H4).
  split; [done|]. split; [rewrite H2; exact Hrx|]. exists l'. split; [|exact H4]. rewrite H3. by f_equal.
Qed.

Lemma silent_disp_eq {A} (m : M A) w a w' : does silent m → m w = Some (a, w') → w_disp w' = w_disp w.
Proof. intros H E. apply (H w a w' E). Qed.

(** The other events leave the receive ring alone, except an arrival, and
    append at most one response, except a drain. *)
Lemma step_rings e w w' :
  pod_reachable w → disp_wf [] (w_disp w) → is_timeout e = false → pod_step e w = Some (tt, w') →
  disp_wf [] (w_disp w') ∧
  match e with
  | EvRx _ _ => tx_view (w_disp w') = tx_view (w_disp w)
  | EvPoll => True
  | EvDrain => rx_view (w_disp w') = rx_view (w_disp w)
  | _ => rx_view (w_disp w') = rx_view (w_disp w) ∧ queues 1 (w_disp w) (w_disp w')
  end.
Proof.
  intros Hw Hd He E. pose proof (proj1 (pod_reachable_inv w Hw)) as HO.
  assert (∀ d, w_disp w' = d → d = w_disp w → disp_wf [] (w_disp w') ∧
    rx_view (w_disp w') = rx_view (w_disp w) ∧ queues 1 (w_disp w) (w_disp w')) as Hsame.
  { intros d -> ->. split; [done|]. split; [done|by apply queues_same]. }
  assert (completion_of e w ≠ None → disp_wf [] (w_disp w') ∧
    rx_view (w_disp w') = rx_view (w_disp w) ∧ queues 1 (w_disp w) (w_disp w')) as Hcomp.
  { intros Hc. destruct (step_follows w e Hw He) as (w1&E1&Hf). assert (w1 = w') as -> by congruence.
    unfold follows in Hf. destruct (completion_of e w) as [[t c]|]; [|done]. destruct Hf as (r&s&k&[r' s' k'|a]&_&_&_&Ho).
    - by eapply Hsame.
    - destruct Ho as (x&rq&m&buf&_&_&_&_&->). by apply sent_rings. }
  destruct e as [buf peer| |i reply|i res| |s|s|s|now|call user|t]; try done.
  - injection E as <-. cbn. by destruct (rx_spec [] _ buf (Some peer) Hd) as (?&?&_).
  - split; [|done]. pose proof (poll_rings w Hw Hd) as Hp. destruct (rx_view (w_disp w)) as [|x l].
    + apply bind_Some_inv in E as (w1&n&E&[= <-]). cbn in E. unfold mbind, SM_bind, rx_dequeue in E.
      rewrite Hp in E. by injection E as _ <-.
    + destruct Hp as (m&r&w1&_&_&E1&_&_&Hd1&_). by assert (w1 = w') as <- by congruence.
  - destruct (completion_of (EvReply i reply) w) eqn:Ec; [by apply Hcomp|]. pose proof (reply_step i reply w w' HO E) as Hs.
    rewrite Ec in Hs. by eapply Hsame; [|apply Hs].
  - destruct (completion_of (EvVdp i res) w) eqn:Ec; [by apply Hcomp|]. pose proof (vdp_step i res w w' HO E) as Hs.
    rewrite Ec in Hs. by eapply Hsame; [|apply Hs].
  - apply bind_Some_inv in E as (w1&l&E&[= <-]). unfold v_dispatch_io_drain_tx in E.
    destruct (drain_spec 1 [] (w_disp w) Hd) as (d'&Hdr&Hd'&_&Hrx). rewrite Hdr in E. by injection E as _ <-.
  - by injection E as <-; apply (Hsame (w_disp w)).
  - by eapply Hsame, silent_disp_eq; [|apply reconnect_silent|exact E].
  - by injection E as <-; apply (Hsame (w_disp w)).
  - by injection E as <-; apply (Hsame (w_disp w)).
  - apply bind_Some_inv in E as (w1&n&[= <- <-]&E). destruct (g_node_pool (w_node w)).
    + apply bind_Some_inv in E as (w1&rc&E&[= <-]). by eapply Hsame, silent_disp_eq; [|apply node_do_silent|exact E].
    + injection E as <-. by apply (Hsame (w_disp w)).
Qed.

(** ** The rings of a reachable pod *)

Lemma plain_no_conts c : plain_load c → cb_conts (dc_cb c) = [].
Proof. unfold plain_load. destruct (dc_cb c); try done. cbn. by intros ->. Qed.

Lemma boot_disp e w w' : is_boot e = true → pod_clean w → pod_step e w = Some (tt, w') → w_disp w' = w_disp w.
Proof.
  intros He Hw E. destruct e as [| |i reply| | |s|s|s|now| |]; try done; try by injection E as <-.
  - apply bind_Some_inv in E as (w1&o&E1&E2). unfold take_db_cmd in E1.
    destruct (db_queue (w_db w) !! i) as [c|] eqn:Ei; injection E1 as <- <-; [|by injection E2 as <-].
    assert (plain_load c) as Hc.
    { destruct Hw as (_&_&_&_&_&_&_&_&_&_&Hq&_). by eapply Forall_lookup, Ei. }
    apply bind_Some_inv in E2 as (w2&[]&E2&[= <-]). cbn.
    apply (silent_disp_eq _ _ _ _ (db_invoke_silent _ _ _ (plain_no_conts c Hc)) E2).
  - by eapply silent_disp_eq; [apply reconnect_silent|].
Qed.

Lemma boot_run_disp es : ∀ w w', Forall (λ e, is_boot e = true) es → pod_clean w → pools_ok [] w →
  pod_run es w = Some (tt, w') → w_disp w' = w_disp w.
Proof.
  induction es as [|e es IH]; intros w w' Hes Hw HJ E; cbn [pod_run] in E; [by injection E as <-|].
  apply Forall_cons in Hes as [He Hes]. apply bind_Some_inv in E as (w1&[]&E1&E2).
  destruct (boot_run_clean [e] w ltac:(by repeat constructor) Hw HJ) as (w1'&E1'&Hw1&HJ1).
  cbn [pod_run] in E1'. unfold mbind, SM_bind in E1'. rewrite E1 in E1'. injection E1' as <-.
  rewrite (IH w1 w' Hes Hw1 HJ1 E2). by eapply boot_disp.
Qed.

(** The initial refills send nothing. *)
Lemma initial_refills_silent ps : does silent (initial_refills iu ps).
Proof.
  assert (∀ shard id keys argv part, does silent (v_db_evalsha iu shard id keys argv (fp_teid_refill_reply_cb part))) as He.
  { intros. by apply silent_evalsha; [apply iu_conforming|]. }
  induction ps as [|p ps IH]; cbn [initial_refills]; [apply silent_ret|].
  apply silent_bind; [unfold seid_maybe_refill, clear_seid_inflight; prog|intros _].
  apply silent_bind; [|done]. unfold teid_maybe_refill, clear_teid_inflight, v_port_db_cmd.
  repeat first [apply He | prog_step].
Qed.

Lemma boot_wf da va addr pid now w : pod_boot da va addr pid now = Some w → disp_wf [] (w_disp w).
Proof.
  unfold pod_boot. intros (ctxs&_&(txns&_&(script&_&(db&_&(disp&Hd&(msgs&_&Hb)%bind_Some)%bind_Some)%bind_Some)%bind_Some)%bind_Some)%bind_Some.
  unfold mbind, SM_bind, v_flow_init, v_node_state_init in Hb.
  destruct (rte_mempool_create V_NODE_STATE_PENDING_POOL_CAP) as [np|] eqn:Enp; cbn in Hb; rewrite ?Enp in Hb; [|done].
  injection Hb as <-. by apply init_wf.
Qed.

Lemma started_wf w : pod_started w → disp_wf [] (w_disp w).
Proof.
  intros (da&va&addr&pid&now&w0&es0&w1&Hb&Hes&Hr&Hi). pose proof (boot_wf _ _ _ _ _ _ Hb) as Hd.
  apply pod_boot_clean in Hb as [Hw0 HJ0]. rewrite <- (boot_run_disp es0 w0 w1 Hes Hw0 HJ0 Hr) in Hd.
  apply id_init_inv_ok in Hi as (a&_&E). by rewrite (silent_disp_eq _ _ _ _ (initial_refills_silent _) E).
Qed.

(** Between events no worker holds a buffer. *)
Lemma pod_disp_wf w : pod_reachable w → disp_wf [] (w_disp w).
Proof.
  intros (w0&es&Hs&Hes&Hr). pose proof (started_wf w0 Hs) as Hd.
  assert (pod_reachable w0) as Hw0 by (exists w0, []; by split; [|split; [constructor|]]). clear Hs.
  revert w0 Hw0 Hd Hr. induction es as [|e es IH]; intros w0 Hw0 Hd Hr; cbn [pod_run] in Hr; [by injection Hr as <-|].
  apply Forall_cons in Hes as [He Hes]. apply bind_Some_inv in Hr as (w1&[]&E&Hr).
  apply (IH Hes w1); [by eapply reachable_step|by eapply step_rings|done].
Qed.

(** ** A worker's iteration *)

(** The datagrams of a list are dispatched one after the other. *)
Inductive dispatches : list v_dispatch_msg → world → world → Prop :=
  | dispatches_nil w : dispatches [] w w
  | dispatches_cons m r x l w w1 w' :
      rte_ring_dequeue (g_rx_ring (w_disp w)) = Some (m, r) → heap_get (g_msg_pool (w_disp w)) m = Some x →
      dispatched m r x w w1 → dispatches l w1 w' → dispatches (x :: l) w w'.

Lemma poll_empty n h w : rte_ring_dequeue (g_rx_ring (w_disp w)) = None → v_dispatch_worker_poll n h w = Some (0, w).
Proof. intros E. destruct n as [|n]; [done|]. cbn. unfold mbind, SM_bind, rx_dequeue. by rewrite E. Qed.

(** A longer poll is a poll of one followed by the rest. *)
Lemma poll_split n w w1 m r k w' : rte_ring_dequeue (g_rx_ring (w_disp w)) = Some (m, r) →
  pod_step EvPoll w = Some (tt, w1) → v_dispatch_worker_poll n v_flow_handle_msg w1 = Some (k, w') →
  v_dispatch_worker_poll (S n) v_flow_handle_msg w = Some (k + 1, w').
Proof.
  cbn [pod_step v_dispatch_worker_poll]. unfold mbind, SM_bind, rx_dequeue. intros ->.
  destruct (dispatch_msg_get m _) as [[x w2]|]; [|done]. destruct (v_flow_handle_msg x w2) as [[u w3]|]; [|done].
  destruct (dispatch_msg_put m w3) as [[u' w4]|]; [|done]. intros [= <-] E. by rewrite E.
Qed.

Lemma worker_poll_spec n : ∀ w, pod_reachable w →
  let now := take n (rx_view (w_disp w)) in
  ∃ w', v_dispatch_worker_poll n v_flow_handle_msg w = Some (Z.of_nat (length now), w') ∧ pod_reachable w' ∧
    dispatches now w w' ∧ rx_view (w_disp w') = drop n (rx_view (w_disp w)) ∧ queues (length now) (w_disp w) (w_disp w').
Proof.
  induction n as [|n IH]; intros w Hw now.
  { exists w. split; [done|]. split; [done|]. split; [constructor|]. split; [done|by apply queues_same]. }
  pose proof (poll_rings w Hw (pod_disp_wf w Hw)) as Hp. unfold now. destruct (rx_view (w_disp w)) as [|x l] eqn:Ev.
  - exists w. rewrite poll_empty by done. split; [done|]. split; [done|]. split; [constructor|]. split; [by rewrite Ev|by apply queues_same].
  - destruct Hp as (m&r&w1&Hr&Hx&E&Hdx&Hw1&_&Hl&Hq). destruct (IH w1 Hw1) as (w'&E'&Hw'&Hds&Hrx&Hq').
    rewrite Hl in E', Hds, Hrx, Hq'. exists w'. cbn [take length drop].
    split; [rewrite (poll_split n w w1 m r _ w' Hr E E'); do 2 f_equal; lia|]. split; [done|].
    split; [by eapply dispatches_cons|]. split; [done|]. by apply (queues_trans 1 _ _ _ _ Hq).
Qed.

(** ** The I/O core's iteration *)

Lemma due_rings due : ∀ w, Forall (λ e, is_boot e = true) due → pod_reachable w →
  ∃ w', v_port_db_poll due w = Some (tt, w') ∧ pod_reachable w' ∧ rx_view (w_disp w') = rx_view (w_disp w) ∧
    queues (length due) (w_disp w) (w_disp w').
Proof.
  unfold v_port_db_poll. induction due as [|e due IH]; intros w Hdue Hw.
  { exists w. split; [done|]. split; [done|]. split; [done|by apply queues_same]. }
  apply Forall_cons in Hdue as [He Hdue]. assert (is_timeout e = false) as Ht by by destruct e.
  destruct (step_follows w e Hw Ht) as (w1&E&_).
  pose proof (reachable_step w e w1 Hw Ht E) as Hw1. destruct (IH w1 Hdue Hw1) as (w'&E'&Hw'&Hrx&Hq).
  exists w'. cbn [pod_run]. unfold mbind, SM_bind. rewrite E. split; [done|]. split; [done|].
  destruct (step_rings e w w1 Hw (pod_disp_wf w Hw) Ht E) as [_ H].
  assert (rx_view (w_disp w1) = rx_view (w_disp w) ∧ queues 1 (w_disp w) (w_disp w1)) as [Hrx1 Hq1] by by destruct e.
  split; [congruence|]. by apply (queues_trans 1 (length due) _ _ _ Hq1).
Qed.

Lemma drain_empty n d : rte_ring_dequeue (g_tx_ring d) = None → dispatch_drain n d = Some ([], d).
Proof. intros E. destruct n as [|n]; [done|]. cbn. by rewrite E. Qed.

(** A drain is a run of single drains. *)
Lemma drain_is_events n : ∀ w, (_ ← v_dispatch_io_drain_tx n; mret tt) w = pod_run (replicate n EvDrain) w.
Proof.
  assert (∀ w, set_disp (w_disp w) w = w) as Hid by (by intros []).
  induction n as [|n IH]; intros w; cbn [replicate pod_run pod_step].
  { unfold mbind, SM_bind, v_dispatch_io_drain_tx. cbn. by rewrite Hid. }
  unfold mbind at 2 3, SM_bind at 2 3.
  destruct (rte_ring_dequeue (g_tx_ring (w_disp w))) as [[m r]|] eqn:E.
  - unfold mbind, SM_bind, v_dispatch_io_drain_tx. cbn [dispatch_drain]. rewrite E.
    destruct (heap_get (g_msg_pool (w_disp w)) m) as [x|]; [|done]. cbn [mret SM_ret].
    rewrite <- IH. unfold mbind, SM_bind, v_dispatch_io_drain_tx. cbn [w_disp set_disp].
    by destruct (dispatch_drain n _) as [[l d']|].
  - unfold mbind at 1, SM_bind at 1. unfold v_dispatch_io_drain_tx. rewrite !drain_empty by done. cbn [mret SM_ret].
    rewrite Hid, <- IH. unfold mbind, SM_bind, v_dispatch_io_drain_tx. by rewrite drain_empty, Hid.
Qed.

Lemma drain_reachable n w l w' : pod_reachable w → v_dispatch_io_drain_tx n w = Some (l, w') → pod_reachable w'.
Proof.
  intros Hw E. apply (reachable_run (replicate n EvDrain) w w' Hw).
  - apply Forall_replicate. done.
  - rewrite <- drain_is_events. unfold mbind, SM_bind. by rewrite E.
Qed.

(** C29: an iteration of each endless loop of main.c, from any reachable state
    of the pod.  An iteration of a worker takes exactly the oldest thirty-two
    received datagrams (all of them, if there are fewer) and dispatches them
    one after the other, each as its content and the resources at that point
    say; those that arrived behind them wait for the next iteration, and at
    most one response for each is appended to the transmit ring.  An iteration
    of the I/O core first runs whatever database completions are due, then
    hands the oldest sixty-four outgoing datagrams to the network, in order,
    responses that these completions produced included; it leaves the received
    datagrams alone, and no outgoing one is lost or overtaken.  Neither loop
    runs into undefined behaviour, and both leave a reachable state in which
    no buffer is held. *)
Theorem loop_iterations w :
  pod_reachable w →
  let rx := rx_view (w_disp w) in
  (∃ w', worker_iteration w = Some (tt, w') ∧ pod_reachable w' ∧ disp_wf [] (w_disp w') ∧
     dispatches (take 32 rx) w w' ∧ rx_view (w_disp w') = drop 32 rx ∧
     queues (length (take 32 rx)) (w_disp w) (w_disp w')) ∧
  (∀ due, Forall (λ e, is_boot e = true) due →
     ∃ w1 w', v_port_db_poll due w = Some (tt, w1) ∧ queues (length due) (w_disp w) (w_disp w1) ∧
       io_iteration due w = Some (take 64 (tx_view (w_disp w1)), w') ∧ pod_reachable w' ∧ disp_wf [] (w_disp w') ∧
       tx_view (w_disp w') = drop 64 (tx_view (w_disp w1)) ∧ rx_view (w_disp w') = rx ∧ w' = set_disp (w_disp w') w1).
Proof.
  intros Hw rx. split.
  - destruct (worker_poll_spec 32 w Hw) as (w'&E&Hw'&Hds&Hrx&Hq). exists w'. unfold worker_iteration, mbind, SM_bind. rewrite E.
    split; [done|]. split; [done|]. split; [by apply pod_disp_wf|]. by split.
  - intros due Hdue. destruct (due_rings due w Hdue Hw) as (w1&E1&Hw1&Hrx&Hq).
    destruct (drain_spec 64 [] (w_disp w1) (pod_disp_wf w1 Hw1)) as (d'&Ed&_&Ht&Hr).
    assert (v_dispatch_io_drain_tx 64 w1 = Some (take 64 (tx_view (w_disp w1)), set_disp d' w1)) as E2.
    { unfold v_dispatch_io_drain_tx. by rewrite Ed. }
    pose proof (drain_reachable 64 w1 _ _ Hw1 E2) as Hw'. exists w1, (set_disp d' w1).
    split; [done|]. split; [done|]. split; [unfold io_iteration, mbind, SM_bind; by rewrite E1|].
    split; [done|]. split; [by apply (pod_disp_wf (set_disp d' w1))|]. split; [done|]. split; [|done].
    unfold rx; by rewrite <- Hrx, <- Hr.
Qed.

End loops.
