(* ===== verification/Testbed.v ===== *)
(** A concrete pod for the witnesses and counterexamples: list-based rings and
    pools, the codec stub, one event script per scenario. *)
From S2P Require Import Prelude Seid Dpdk Heap Redis World DbScript SessStore RetransCache IdAlloc.
From S2P Require Import DispatchQ NodeState Flow Sweeper Pod StubPfcp Server Pools Boot Safety.
Export ListDpdk MapServer StubCodec FixedSha.

(** Replies to the script loads of one shard. *)
Definition loaded_reply (id : v_script_id_t) : option v_db_reply := Some (V_DB_REPLY_STRING (script_sha id)).

(** The connections come up and the scripts are loaded. *)
Definition boot_events : list event :=
  (seqZ 0 5 ≫= λ s, [EvReconnect s; EvReply 0 (loaded_reply V_SCRIPT_SESS_CAS_WRITE);
                     EvReply 0 (loaded_reply V_SCRIPT_SESS_DELETE); EvReply 0 (loaded_reply V_SCRIPT_TEID_REFILL)]).

Definition always (n : nat) : bool := true.

Definition boot_world : option world := pod_boot always always 0 0 1000.

Definition after_boot : option world :=
  w0 ← boot_world; '(_, w1) ← pod_run boot_events w0; Some w1.

Definition start_world : option world :=
  w1 ← after_boot;
  match v_id_alloc_init iu w1 with
  | Some (rc, w2) => if rc =? RET_CODE_OK then Some w2 else None
  | None => None
  end.

(** Their definitions as rewrite rules: the constants themselves are only
    meant to be evaluated. *)
Lemma boot_world_eq : boot_world = pod_boot always always 0 0 1000.
Proof. reflexivity. Qed.

Lemma after_boot_eq : after_boot = (w0 ← boot_world; '(_, w1) ← pod_run boot_events w0; Some w1).
Proof. reflexivity. Qed.

Lemma start_world_eq : start_world =
  (w1 ← after_boot;
   match v_id_alloc_init iu w1 with
   | Some (rc, w2) => if rc =? RET_CODE_OK then Some w2 else None
   | None => None
   end).
Proof. reflexivity. Qed.

(** Requests of the test suite's wire format, without UE IP. *)
Definition peer : sockaddr := sockaddr_zero.
Definition request (type seq seid : Z) : bytes :=
  v_stub_pfcp_encode (StubMsg type 0 seq seid 77 0 (replicate 16 zero)) WIRE_REQ_SIZE.
Definition est_req (seq : Z) : bytes := request V_PFCP_MSG_SESSION_EST_REQ seq 0.
Definition mod_req (seq seid : Z) : bytes := request V_PFCP_MSG_SESSION_MOD_REQ seq seid.

(** The refills of partition 0 complete; 3070 other commands stay in flight. *)
Definition refill_events : list event :=
  [EvReply 2 (Some (V_DB_REPLY_ARRAY [V_DB_REPLY_STRING $"range"; V_DB_REPLY_STRING $"1"; V_DB_REPLY_STRING $"256"]));
   EvReply 0 (Some (V_DB_REPLY_INTEGER 256))].

(** The newest command in flight. *)
Definition NEWEST : nat := 3070.

Definition receive (buf : bytes) : list event := [EvRx buf peer; EvPoll].
Definition reply_with (r : v_db_reply) : list event := [EvReply NEWEST (Some r)].

(** An establishment up to its CAS write, up to the data plane, to its end. *)
Definition est_to_cas : list event := refill_events ++ receive (est_req 1) ++ reply_with V_DB_REPLY_NIL.
Definition est_to_vdp : list event := est_to_cas ++ reply_with (V_DB_REPLY_INTEGER 1).
Definition est_to_confirm : list event := est_to_vdp ++ [EvVdp 0 V_VDP_ACCEPT].
Definition est_done : list event := est_to_confirm ++ reply_with (V_DB_REPLY_INTEGER 1) ++ reply_with (V_DB_REPLY_STATUS $"OK").

(** The SEID partition 0 hands out first. *)
Definition first_seid : Z := 2 ^ 60.
Definition stored_blob : bytes := replicate CTX_SIZE zero.

(** A modification up to the data plane. *)
Definition mod_to_vdp : list event :=
  receive (mod_req 2 first_seid) ++ reply_with V_DB_REPLY_NIL ++
  reply_with (V_DB_REPLY_ARRAY [V_DB_REPLY_STRING stored_blob; V_DB_REPLY_STRING $"1"]) ++ reply_with (V_DB_REPLY_INTEGER 1).

(** What is observed of a state. *)
Definition live_counts (w : world) : nat * nat * nat :=
  (size (hp_mem (w_txns w)), size (hp_mem (w_ctxs w)), size (hp_mem (w_msgs w))).

Definition responses_sent (w : world) : list (Z * Z) :=
  (λ m, (rsp_cause (m_buf m), rsp_seid (m_buf m))) <$> (omap (heap_get (g_msg_pool (w_disp w))) (ring_items (g_tx_ring (w_disp w)))).

