(* ===== verification/Runs.v ===== *)
(** Runs of the testbed.  The start of a pod, with its 2048 identifier rings,
    is by far the longest part of a run: all scenarios are evaluated from one
    start, in one lemma, and used through [scenario_reachable] and
    [scenario_split]. *)
From S2P Require Import Prelude Seid Dpdk Heap Redis World DbScript SessStore RetransCache IdAlloc.
From S2P Require Import DispatchQ NodeState Flow Sweeper Pod StubPfcp Server Pools Own OwnPod Boot Safety Testbed.
From S2P Require Import Protocol Progress Procedures ProtocolRefine Answers Arrival Supplies Verdict Transport Main Loops.

#[local] Opaque boot_world after_boot start_world.

(** The started pod is reachable, and so is every run of it. *)
Lemma start_world_started w : start_world = Some w → pod_started w.
Proof.
  rewrite start_world_eq, after_boot_eq. intros (w1&Hw1&Hi)%bind_Some.
  apply bind_Some in Hw1 as (w0&Hb&([[] w1']&Hr&[= ->])%bind_Some).
  destruct (v_id_alloc_init iu w1) as [[rc w2]|] eqn:Ei; [|done].
  destruct (Z.eqb_spec rc RET_CODE_OK) as [->|]; [|done]. injection Hi as ->.
  rewrite boot_world_eq in Hb.
  exists always, always, 0, 0, 1000, w0, boot_events, w1.
  split; [exact Hb|]. split; [by repeat constructor|]. split; [exact Hr|exact Ei].
Qed.

Definition is_some {A} (o : option A) : bool := match o with Some _ => true | None => false end.

Lemma boot_world_some : is_some boot_world = true.
Proof. vm_compute. reflexivity. Qed.

(** ** Scenarios *)

(** Running [es] ends, in a state that satisfies [P]. *)
Definition reaches (es : list event) (P : world → bool) (w : world) : bool :=
  match pod_run es w with Some (_, w') => P w' | None => false end.

Definition no_timeouts (es : list event) : bool := forallb (λ e, negb (is_timeout e)) es.

Lemma no_timeout_check es : no_timeouts es = true → no_timeout es.
Proof.
  intros H. apply List.Forall_forall. intros e He. unfold no_timeouts in H. rewrite forallb_forall in H.
  specialize (H e He). by destruct (is_timeout e).
Qed.

(** The state and version of transaction 1, and its protocol state. *)
Definition txn1 (w : world) : option (v_txn_state_t * Z) :=
  (λ x, (t_state x, t_db_ver x)) <$> hp_mem (w_txns w) !! 1.

Definition proc1 (w : world) : option pstate := procs w !! 1.

#[export] Instance retrans_cb_eq : EqDecision v_retrans_cb_t.
Proof. solve_decision. Defined.
#[export] Instance read_cb_eq : EqDecision v_sess_read_cb_t.
Proof. solve_decision. Defined.
#[export] Instance cas_cb_eq : EqDecision v_sess_cas_cb_t.
Proof. solve_decision. Defined.
#[export] Instance vdp_cb_eq : EqDecision v_vdp_cb_t.
Proof. solve_decision. Defined.
#[export] Instance role_eq : EqDecision role.
Proof. solve_decision. Defined.

(** An establishment in VDP_WAIT, its data-plane operation in flight. *)
Definition in_vdp_wait (w : world) : bool :=
  bool_decide (txn1 w = Some (TXN_ST_VDP_WAIT, 1)) &&
  match vdp_queue (w_vdp w) with
  | [v] => bool_decide (vc_arg v = 1) && bool_decide (vc_cb v = fp_vdp_create_cb)
  | _ => false
  end.

(** An establishment whose CAS write is in flight, and the write's reply. *)
Definition in_cas_write (w : world) : bool := bool_decide (proc1 w = Some (RCas fp_cas_write_cb 0, 2%nat, 0)).
Definition cas_accepted : event := EvReply NEWEST (Some (V_DB_REPLY_INTEGER 1)).

(** A reply that comes after the hard timeout of transaction 1. *)
Definition late_reply_crashes (w : world) : bool :=
  bool_decide (txn1 w = Some (TXN_ST_DB_WRITE_WAIT, 0)) &&
  match pod_step (EvTimeout 1) w with
  | Some (_, w') => negb (is_some (pod_step cas_accepted w'))
  | None => false
  end.

(** A hard timeout that leaves a context behind. *)
Definition timeout_leaks (w : world) : bool :=
  bool_decide (live_counts w = (1, 2, 1)%nat) &&
  match pod_step (EvTimeout 1) w with
  | Some (_, w') => bool_decide (live_counts w' = (0, 1, 0)%nat)
  | None => false
  end.

(** Nothing is in flight: every other command of the start is answered with
    an error, the connections are down. *)
Definition drain_events : list event := replicate 3072 (EvReply 0 None).
Definition drained (w : world) : bool :=
  bool_decide ((length (db_queue (w_db w)), length (vdp_queue (w_vdp w))) = (0, 0)%nat).

(** An establishment from its lookup to its end. *)
Definition est_begun : list event := refill_events ++ receive (est_req 1).
Definition est_rest : list event :=
  reply_with V_DB_REPLY_NIL ++ reply_with (V_DB_REPLY_INTEGER 1) ++ [EvVdp 0 V_VDP_ACCEPT] ++
  reply_with (V_DB_REPLY_INTEGER 1) ++ reply_with (V_DB_REPLY_STATUS $"OK").
Definition begun (w : world) : bool :=
  bool_decide (proc1 w = Some (RLookup fp_retrans_lookup_cb, 0%nat, 0) ∧ work (procs w) = 6%nat).
Definition finished (w : world) : bool := bool_decide (proc1 w = None ∧ work (procs w) = 0%nat).

(** ** Supplies, decided *)

Definition atleast (n : nat) (l : list Z) : bool := (n <=? length l)%nat.

Definition supplied_check (n : nat) (w : world) : bool :=
  forallb (λ s, db_connected (w_db w) s &&
    forallb (λ id, is_some (sha_cached (w_script w) s id)) [V_SCRIPT_SESS_CAS_WRITE; V_SCRIPT_SESS_DELETE; V_SCRIPT_TEID_REFILL])
    (seqZ 0 V_STUB_DB_SHARDS) &&
  forallb (db_accept (w_db w)) (seq (db_issue_no (w_db w)) n) &&
  forallb (vdp_accept (w_vdp w)) (seq (vdp_issue_no (w_vdp w)) n) &&
  atleast n (mp_free (db_pending_pool (w_db w))) && atleast n (mp_free (g_evalsha_pool (w_script w))) &&
  atleast n (mp_free (g_load_pool (w_script w))) &&
  match w_sess_pool w with
  | Some p => atleast n (mp_free p)
  | None => match rte_mempool_create V_SESS_PENDING_POOL_CAP with Some p => atleast n (mp_free p) | None => false end
  end &&
  atleast n (mp_free (hp_pool (w_ctxs w))).

Definition first_item (o : option rte_ring) : option Z := r ← o; head (ring_items r).

Definition stocked_check (t : Z) (w : world) : bool :=
  match est_part t w with
  | Some part =>
      match first_item (g_seid_ring (w_ids w) !! part), first_item (g_teid_ring (w_ids w) !! part) with
      | Some x, Some y => negb (x =? 0) && negb (u32 y =? 0)
      | _, _ => false
      end
  | None => false
  end.

(** A completion that carries no session data. *)
Definition no_data (c : completion) : bool :=
  match c with CReply reply => negb (is_some (read_fields (reply_status reply) reply)) | CVdp _ => true end.

Definition provided_check (t : Z) (r : role) (w : world) : bool :=
  supplied_check SUPPLY w && (bool_decide (r ≠ RLookup fp_retrans_lookup_cb) || stocked_check t w).

Fixpoint provided_run_check (t : Z) (es : list event) (w : world) : bool :=
  match es with
  | [] => true
  | e :: es' =>
      match procs w !! t with
      | None => true
      | Some (r, s, k) =>
          match is_completion_of t e w with Some c => provided_check t r w && no_data c | None => true end &&
          match pod_step e w with Some (_, w1) => provided_run_check t es' w1 | None => true end
      end
  end.

Lemma atleast_length n l : atleast n l = true → (n <= length l)%nat.
Proof. apply Nat.leb_le. Qed.

Lemma forallb_at {A} (f : A → bool) l x : forallb f l = true → x ∈ l → f x = true.
Proof. rewrite forallb_forall. intros H Hx%list_elem_of_In. by apply H. Qed.

Lemma supplied_check_ok n w : supplied_check n w = true → supplied n w.
Proof.
  unfold supplied_check. rewrite !andb_true_iff. intros [[[[[[[Hs Ha] Hv] H1] H2] H3] H4] H5].
  assert (∀ s, 0 <= s < V_STUB_DB_SHARDS → s ∈ seqZ 0 V_STUB_DB_SHARDS) as Hin by (intros s ?; apply elem_of_seqZ; lia).
  split; try by apply atleast_length.
  - intros s Hr. by pose proof (forallb_at _ _ s Hs (Hin s Hr)) as [? _]%andb_true_iff.
  - intros i Hi. apply (forallb_at _ _ i Ha), elem_of_seq. lia.
  - intros i Hi. apply (forallb_at _ _ i Hv), elem_of_seq. lia.
  - intros s id Hr. pose proof (forallb_at _ _ s Hs (Hin s Hr)) as [_ Hid]%andb_true_iff.
    assert (is_some (sha_cached (w_script w) s id) = true) as Hx; [|by destruct (sha_cached _ _ _)].
    apply (forallb_at _ _ id Hid). destruct id; [left|right; left|right; right; left].
  - destruct (w_sess_pool w); [by apply atleast_length|]. destruct (rte_mempool_create _) as [p|]; [|done].
    exists p. split; [done|by apply atleast_length].
Qed.

Lemma stocked_check_ok t w : stocked_check t w = true → stocked t w.
Proof.
  unfold stocked_check, first_item. destruct (est_part t w) as [part|] eqn:Ep; [|done].
  destruct (g_seid_ring (w_ids w) !! part) as [r1|] eqn:E1; cbn [mbind option_bind]; [|done].
  destruct (ring_items r1) as [|x l1] eqn:El1; cbn [head]; [done|].
  destruct (g_teid_ring (w_ids w) !! part) as [r2|] eqn:E2; cbn [mbind option_bind]; [|done].
  destruct (ring_items r2) as [|y l2] eqn:El2; cbn [head]; [done|]. rewrite andb_true_iff, !negb_true_iff, !Z.eqb_neq. intros [Hx Hy].
  exists part. split; [done|]. split; [by exists r1, x, l1|by exists r2, y, l2].
Qed.

Lemma provided_run_check_ok t es : ∀ w, provided_run_check t es w = true → provided_run t es w.
Proof.
  induction es as [|e es IH]; intros w; cbn; [done|]. destruct (procs w !! t) as [[[r s] k]|]; [|done].
  rewrite andb_true_iff. intros [Hc Hr]. split.
  - intros c Ec. rewrite Ec in Hc. apply andb_true_iff in Hc as [[H1 H2]%andb_true_iff H3]. split; [split|].
    + by apply supplied_check_ok.
    + intros ->. apply stocked_check_ok. apply orb_true_iff in H2 as [H2|H2]; [|done]. by apply bool_decide_eq_true in H2.
    + intros reply data ver c0 -> Hf. cbn in H3. by rewrite Hf in H3.
  - destruct (pod_step e w) as [[? w1]|]; [by apply IH|done].
Qed.

(** The establishment at its lookup, in a pod that provides for all of it. *)
Definition begun_provided (w : world) : bool := begun w && provided_run_check 1 est_rest w.

(** A received establishment that the pod can begin. *)
Definition arrival_events : list event := refill_events ++ [EvRx (est_req 1) peer].
Definition arrived (w : world) : bool :=
  match rte_ring_dequeue (g_rx_ring (w_disp w)) with
  | Some (m, _) =>
      match heap_get (g_msg_pool (w_disp w)) m with
      | Some x => match route (m_buf x) with Begin q fp_retrans_lookup_cb None => msg_room w && begin_room q w | _ => false end
      | None => false
      end
  | None => false
  end.

(** A datagram waits while the last reply of an establishment is due. *)
Definition busy_events : list event :=
  est_begun ++ reply_with V_DB_REPLY_NIL ++ reply_with (V_DB_REPLY_INTEGER 1) ++ [EvVdp 0 V_VDP_ACCEPT] ++ [EvRx (est_req 2) peer].
Definition last_reply : list event := reply_with (V_DB_REPLY_INTEGER 1).
Definition busy (w : world) : bool :=
  bool_decide (m_buf <$> rx_view (w_disp w) = [est_req 2]) &&
  match io_iteration last_reply w with Some ([_], _) => true | _ => false end.

Definition scenarios : list (world → bool) :=
  [reaches (est_done ++ drain_events) drained;
   reaches est_to_vdp in_vdp_wait;
   reaches est_to_cas late_reply_crashes;
   reaches (est_done ++ mod_to_vdp) timeout_leaks;
   reaches est_to_cas in_cas_write;
   reaches est_begun begun;
   reaches (est_begun ++ est_rest) finished;
   reaches est_begun begun_provided;
   reaches arrival_events arrived;
   reaches busy_events busy].

Lemma scenarios_hold :
  match start_world with Some w => forallb (λ s, s w) scenarios | None => false end = true.
Proof. vm_compute. reflexivity. Qed.

Lemma scenario_holds i s : scenarios !! i = Some s → ∃ w, start_world = Some w ∧ s w = true.
Proof.
  intros Hi. pose proof scenarios_hold as H. destruct start_world as [w|]; [|discriminate H].
  exists w. split; [reflexivity|]. rewrite forallb_forall in H. apply H, list_elem_of_In. by eapply list_elem_of_lookup_2.
Qed.

Lemma started_reachable es w w' :
  no_timeouts es = true → start_world = Some w → pod_run es w = Some (tt, w') → pod_reachable w'.
Proof.
  intros Hes Hw Hr. exists w, es. split; [exact (start_world_started w Hw)|]. split; [by apply no_timeout_check|exact Hr].
Qed.

Lemma scenario_reachable i es P :
  scenarios !! i = Some (reaches es P) → no_timeouts es = true → ∃ w, pod_reachable w ∧ P w = true.
Proof.
  intros Hi Hes. destruct (scenario_holds i _ Hi) as (w&Hw&H). unfold reaches in H.
  destruct (pod_run es w) as [[[] w']|] eqn:E; [|discriminate H].
  exists w'. split; [by eapply started_reachable|exact H].
Qed.

(** A scenario that continues another one. *)
Lemma scenario_split i j es es' P Q :
  scenarios !! i = Some (reaches es P) → scenarios !! j = Some (reaches (es ++ es') Q) → no_timeouts es = true →
  ∃ w w', pod_reachable w ∧ P w = true ∧ pod_run es' w = Some (tt, w') ∧ Q w' = true.
Proof.
  intros Hi Hj Hes. destruct (scenario_holds i _ Hi) as (w0&Hw0&HP). destruct (scenario_holds j _ Hj) as (w0'&Hw0'&HQ).
  rewrite Hw0 in Hw0'. injection Hw0' as <-. unfold reaches in HP, HQ.
  destruct (pod_run es w0) as [[[] w]|] eqn:E; [|discriminate HP].
  rewrite (pod_run_split es es' w0 w E) in HQ. destruct (pod_run es' w) as [[[] w']|] eqn:E'; [|discriminate HQ].
  exists w, w'. split; [by eapply started_reachable|]. split; [exact HP|]. split; [exact E'|exact HQ].
Qed.
