(* ===== verification/Scenarios.v ===== *)
(** Concrete runs: the witnesses of the process-level theorems and the
    counterexamples of the hard timeout. *)
From S2P Require Import Prelude Seid Dpdk Heap Redis World DbScript SessStore RetransCache IdAlloc.
From S2P Require Import DispatchQ NodeState Flow Sweeper Pod StubPfcp Server Pools Own OwnPod Boot Safety Testbed.
From S2P Require Import Runs.

#[local] Opaque boot_world after_boot start_world.

Lemma pod_no_undefined_behaviour_witness :
  ∃ w0 w1, boot_world = Some w0 ∧ pod_run boot_events w0 = Some (tt, w1) ∧
    ∃ rc w2, v_id_alloc_init iu w1 = Some (rc, w2) ∧
      (rc = RET_CODE_OK → ∃ w3, pod_run est_done w2 = Some (tt, w3)).
Proof.
  pose proof boot_world_some as Hb. destruct boot_world as [w0|] eqn:E; [|discriminate Hb].
  pose proof E as E'. rewrite boot_world_eq in E'.
  destruct (pod_no_undefined_behaviour always always 0 0 1000 w0 boot_events E') as (w1&Hr&rc&w2&Hi&Hs).
  { by repeat constructor. }
  exists w0, w1. split; [reflexivity|]. split; [exact Hr|]. exists rc, w2. split; [exact Hi|].
  intros Hrc. apply Hs; [exact Hrc|]. by repeat constructor.
Defined.

Lemma quiescent_no_leak_witness :
  ∃ w, pod_reachable w ∧ heap_live (w_txns w) = ∅ ∧ heap_live (w_ctxs w) = ∅ ∧ heap_live (w_msgs w) = ∅.
Proof.
  destruct (scenario_reachable 0 _ _ eq_refl ltac:(vm_compute; reflexivity)) as (w&Hr&[= Hq Hv]%bool_decide_eq_true).
  exists w. split; [exact Hr|].
  destruct (quiescent_no_leak w Hr (nil_length_inv _ Hq) (nil_length_inv _ Hv)) as (Ht&Hc&Hm&_).
  split; [exact Ht|]. split; [exact Hc|exact Hm].
Defined.

Lemma txn_state_machine_witness :
  ∃ w x r, pod_reachable w ∧ hp_mem (w_txns w) !! 1 = Some x ∧ txn_ok r x ∧ (r, 1) ∈ conts w.
Proof.
  destruct (scenario_reachable 1 _ _ eq_refl ltac:(vm_compute; reflexivity)) as (w&Hr&[Ht%bool_decide_eq_true _]%andb_prop).
  unfold txn1 in Ht. destruct (hp_mem (w_txns w) !! 1) as [x|] eqn:Hx; [|discriminate Ht].
  destruct (txn_state_machine w 1 x Hr Hx) as (r&Hok&Hc&_).
  exists w, x, r. split; [exact Hr|]. split; [exact Hx|]. split; [exact Hok|]. apply (proj2 (Hc r)). reflexivity.
Defined.

(** ** Counterexamples: the hard timeout *)

(** C33: a hard timeout followed by the late reply is a use after free.  The
    sweeper destroys the transaction although the CAS write in flight still
    carries a pointer to it; when the reply arrives, cas_write_cb dereferences
    the released transaction.  The run is legal up to the reply. *)
Theorem timeout_use_after_free :
  ∃ w, pod_reachable w ∧ (∃ x, hp_mem (w_txns w) !! 1 = Some x ∧ t_state x = TXN_ST_DB_WRITE_WAIT) ∧
    ∃ w', pod_step (EvTimeout 1) w = Some (tt, w') ∧ 
      pod_step (EvReply NEWEST (Some (V_DB_REPLY_INTEGER 1))) w' = None.
Proof.
  destruct (scenario_reachable 2 _ _ eq_refl ltac:(vm_compute; reflexivity)) as (w&Hr&[Ht%bool_decide_eq_true Hl]%andb_prop).
  exists w. split; [exact Hr|]. split.
  - unfold txn1 in Ht. destruct (hp_mem (w_txns w) !! 1) as [x|]; [|discriminate Ht].
    exists x. split; [done|]. by injection Ht.
  - destruct (pod_step (EvTimeout 1) w) as [[[] w']|]; [|discriminate Hl].
    exists w'. split; [done|]. unfold cas_accepted in Hl. by destruct (pod_step _ w').
Qed.

(** C34: a hard timeout of a modification in VDP_WAIT leaks its snapshot.  The
    sweeper releases the context and the request, never the prior state kept
    in t->impl: afterwards no transaction exists, yet one context is still
    allocated, and nothing refers to it any more. *)
Theorem timeout_leaks_snapshot :
  ∃ w, pod_reachable w ∧ live_counts w = (1%nat, 2%nat, 1%nat) ∧
    ∃ w', pod_step (EvTimeout 1) w = Some (tt, w') ∧ live_counts w' = (0%nat, 1%nat, 0%nat) ∧
      heap_live (w_txns w') = ∅ ∧ heap_live (w_ctxs w') ≠ ∅.
Proof.
  destruct (scenario_reachable 3 _ _ eq_refl ltac:(vm_compute; reflexivity)) as (w&Hr&[Hl%bool_decide_eq_true Ha]%andb_prop).
  exists w. split; [exact Hr|]. split; [exact Hl|].
  destruct (pod_step (EvTimeout 1) w) as [[[] w']|]; [|discriminate Ha]. apply bool_decide_eq_true in Ha.
  exists w'. split; [done|]. split; [exact Ha|]. injection Ha as Ht Hc _. split.
  - unfold heap_live. apply map_size_empty_inv in Ht. by rewrite Ht, dom_empty_L.
  - assert (size (hp_mem (w_ctxs w')) = 1%nat) as Hc1 by exact Hc.
    unfold heap_live. intros Hd. apply dom_empty_inv_L in Hd. by rewrite Hd, map_size_empty in Hc1.
Qed.
