(* ===== verification/RunExamples.v ===== *)
(** Concrete runs of the session procedures: the witnesses of the protocol
    theorems. *)
From S2P Require Import Prelude Seid Dpdk Heap Redis World DbScript SessStore RetransCache IdAlloc.
From S2P Require Import DispatchQ NodeState Flow Sweeper Pod StubPfcp Server Pools Own OwnPod Boot Safety Testbed.
From S2P Require Import Protocol Progress Procedures ProtocolRefine Answers Arrival Transport Main Loops Runs.

#[local] Opaque boot_world after_boot start_world.

Lemma procedures_refine_protocol_witness :
  ∃ w w', pod_reachable w ∧ proc1 w = Some (RCas fp_cas_write_cb 0, 2%nat, 0) ∧
    pod_step cas_accepted w = Some (tt, w') ∧ follows cas_accepted w w'.
Proof.
  destruct (scenario_reachable 4 _ _ eq_refl ltac:(vm_compute; reflexivity)) as (w&Hr&Hp%bool_decide_eq_true).
  destruct (procedures_refine_protocol w cas_accepted Hr eq_refl) as (w'&E&Hf).
  exists w, w'. split; [exact Hr|]. split; [exact Hp|]. split; [exact E|exact Hf].
Defined.

(** An establishment from its lookup to its end. *)
Lemma procedures_terminate_witness :
  ∃ w w', pod_reachable w ∧ proc1 w = Some (RLookup fp_retrans_lookup_cb, 0%nat, 0) ∧ pod_run est_rest w = Some (tt, w') ∧
    (delivered 1 est_rest w <= 6)%nat ∧ answered_in 1 est_rest w ∧ (completed est_rest w <= 6)%nat ∧ hp_mem (w_txns w') = ∅.
Proof.
  destruct (scenario_split 5 6 _ est_rest _ _ eq_refl eq_refl ltac:(vm_compute; reflexivity))
    as (w&w'&Hr&[Hp Hw]%bool_decide_eq_true&E&[Hp' Hw']%bool_decide_eq_true).
  destruct (procedures_terminate est_rest w w' Hr ltac:(by repeat constructor) E) as (Ht&_&Hb&Hz).
  destruct (Ht 1 fp_retrans_lookup_cb Hp) as [Hd [[[p Hs] _]|Ha]].
  { exfalso. unfold proc1 in Hp'. rewrite Hp' in Hs. discriminate Hs. }
  exists w, w'. split; [exact Hr|]. split; [exact Hp|]. split; [exact E|]. split; [exact Hd|]. split; [exact Ha|].
  split; [|apply Hz; exact Hw']. rewrite Hw in Hb. change (polls est_rest) with 0%nat in Hb. lia.
Defined.

Lemma request_served_witness :
  ∃ w w' es1 cs a, pod_reachable w ∧ pod_run est_rest w = Some (tt, w') ∧ answered_at 1 w es1 cs a ∧
    (a = Cause V_PFCP_CAUSE_REQUEST_ACCEPTED → accepted_after fp_retrans_lookup_cb cs).
Proof.
  destruct (scenario_split 5 6 _ est_rest _ _ eq_refl eq_refl ltac:(vm_compute; reflexivity))
    as (w&w'&Hr&[Hw _]%bool_decide_eq_true&E&[Hw' _]%bool_decide_eq_true).
  destruct (request_served est_rest w w' 1 fp_retrans_lookup_cb Hr ltac:(by repeat constructor) E Hw)
    as [(p&Hp&_)|(es1&es2&cs&a&_&Ha&_&Hacc)].
  - exfalso. unfold proc1 in Hw'. rewrite Hw' in Hp. discriminate Hp.
  - exists w, w', es1, cs, a. split; [exact Hr|]. split; [exact E|]. split; [exact Ha|exact Hacc].
Defined.

(** A worker takes the waiting datagram, the I/O core sends a response. *)
Lemma loop_iterations_witness :
  ∃ w, pod_reachable w ∧
    (∃ x w', rx_view (w_disp w) = [x] ∧ m_buf x = est_req 2 ∧ worker_iteration w = Some (tt, w') ∧
       dispatches [x] w w' ∧ rx_view (w_disp w') = []) ∧
    ∃ y w', io_iteration last_reply w = Some ([y], w') ∧ rx_view (w_disp w') = rx_view (w_disp w).
Proof.
  destruct (scenario_reachable 9 _ _ eq_refl ltac:(vm_compute; reflexivity)) as (w&Hw&Hb). exists w. split; [exact Hw|].
  unfold busy in Hb. apply andb_true_iff in Hb as [Hrx%bool_decide_eq_true Hio].
  destruct (loop_iterations w Hw) as [(w'&E&_&_&Hd&Hr&_) Hi]. split.
  - destruct (rx_view (w_disp w)) as [|x [|? ?]]; try discriminate Hrx. injection Hrx as Hx. exists x, w'.
    split; [reflexivity|]. split; [exact Hx|]. split; [exact E|]. split; [exact Hd|exact Hr].
  - destruct (Hi last_reply ltac:(by repeat constructor)) as (w1&w2&_&_&E2&_&_&_&Hr2&_).
    rewrite E2 in Hio. destruct (take 64 _) as [|y [|? ?]]; try discriminate Hio. exists y, w2. split; [exact E2|exact Hr2].
Defined.

(** A received establishment. *)
Lemma datagram_dispatch_witness :
  ∃ w w' t, pod_reachable w ∧ pod_step EvPoll w = Some (tt, w') ∧ procs w !! t = None ∧
    procs w' = <[t := (RLookup fp_retrans_lookup_cb, 0%nat, 0)]> (procs w).
Proof.
  destruct (scenario_reachable 8 _ _ eq_refl ltac:(vm_compute; reflexivity)) as (w&Hw&Ha). unfold arrived in Ha.
  destruct (rte_ring_dequeue (g_rx_ring (w_disp w))) as [[m r]|] eqn:Er; [|discriminate Ha].
  destruct (heap_get (g_msg_pool (w_disp w)) m) as [x|] eqn:Ex; [|discriminate Ha].
  destruct (datagram_dispatch w m r x Hw Er Ex) as (w'&E&H).
  destruct (route (m_buf x)) as [|q|q [] [tgt|]]; try discriminate Ha. rewrite Ha in H.
  destruct H as (_&t&req&Hn&Hp&_). exists w, w', t. split; [exact Hw|]. split; [exact E|]. split; [exact Hn|exact Hp].
Defined.
