(* ===== verification/SharedState.v ===== *)
(** What the pods share through Redis besides the sessions: the retransmit
    cache (v_retrans_cache) and the node's recovery time stamp and association
    (v_node_state), issued by one pod, served, and read by another. *)
From S2P Require Import Prelude Seid Dpdk Heap Redis Scripts World DbScript SessStore RetransCache NodeState Server SessCas SessHistory.

(** ** Keys *)

Lemma retrans_part_range f : 0 <= v_retrans_part f < V_NUM_PARTS.
Proof.
  unfold v_retrans_part, V_NUM_PARTS, u16. pose proof (Z.mod_pos_bound (fnv1a (le_bytes 8 f)) 1024 eq_refl).
  rewrite Z.mod_small; lia.
Qed.

Lemma retrans_key_full f seq : is_u64 f → is_u32 seq →
  retrans_key (v_retrans_part f) f seq = $"txn_" ++ dec (v_retrans_part f) ++ $":" ++ dec f ++ $":" ++ dec seq.
Proof.
  intros Hf Hs. apply snprintf_fits. rewrite !length_app. pose proof (retrans_part_range f).
  assert (length (dec (v_retrans_part f)) ≤ 5)%nat by (apply dec_part_length; unfold V_NUM_PARTS in *; lia).
  pose proof (dec_u64_length f Hf). pose proof (dec_u64_length seq ltac:(u_lia)). cbn. lia.
Qed.

(** Different requests have different keys. *)
Lemma retrans_key_inj f f' seq seq' : is_u64 f → is_u64 f' → is_u32 seq → is_u32 seq' →
  retrans_key (v_retrans_part f) f seq = retrans_key (v_retrans_part f') f' seq' → f = f' ∧ seq = seq'.
Proof.
  intros Hf Hf' Hs Hs'. rewrite !retrans_key_full by done. intros H%app_inv_head.
  pose proof (retrans_part_range f). pose proof (retrans_part_range f'). unfold V_NUM_PARTS in *.
  apply digits_split_inj in H as [_ H]; [|done|apply dec_digits; lia..].
  apply digits_split_inj in H as [Hfd Hsd]; [|done|apply dec_digits; u_lia..].
  split; apply dec_inj; done || u_lia.
Qed.

Section shared.
Context {DP : Dpdk} {PP : PfcpPort} {R : Redis} {L : Lua} {SS : ScriptSha}.

(** ** The retransmit cache *)

Definition retrans_pool_ready (w : world) : Prop :=
  ∃ pool o pool', w_retrans_pool w = Some pool ∧ rte_mempool_get pool = Some (o, pool').

Lemma lookup_issued part f seq cb arg w :
  retrans_pool_ready w → cmd_ready w (v_port_db_shard_of (retrans_key part f seq)) →
  ∃ w' cmd o, v_retrans_lookup part f seq cb arg w = Some (RET_CODE_OK, w') ∧ db_queue (w_db w') = db_queue (w_db w) ++ [cmd] ∧
    dc_shard cmd = v_port_db_shard_of (retrans_key part f seq) ∧ dc_argv cmd = [$"GET"; retrans_key part f seq] ∧
    dc_cb cmd = fp_lookup_reply_cb (RetransPending o cb arg).
Proof.
  intros (pool&o&pool'&Hp&Hg) [Hconn Hpend Hacc]. unfold v_retrans_lookup, mbind, SM_bind, retrans_ensure_pool.
  rewrite Hp. cbn [negb Z.eqb RET_CODE_OK]. unfold retrans_pending_get. rewrite Hp, Hg. set (w1 := set_retrans_pool _ w).
  destruct (cmd_issued (v_port_db_shard_of (retrans_key part f seq)) (fp_lookup_reply_cb (RetransPending o cb arg))
    [$"GET"; retrans_key part f seq] w1) as (w2&cmd&Hc&Hq&Hsh&Ha&Hcb); [apply shard_of_range|done..|].
  exists w2, cmd, o. unfold v_port_db_cmd. by rewrite Hc.
Qed.

(** A plain command runs on the key space. *)
Lemma serve_plain cmd args sh : cmd ≠ $"EVALSHA" → cmd ≠ $"SCRIPT" →
  serve (cmd :: args) sh = let '(r, s') := exec (cmd :: args) (sh_store sh) in (r, Shard s' (sh_loaded sh)).
Proof. intros H1 H2. unfold serve. destruct args as [|a [|b args]]; [done..|]. rewrite !decide_False by (done || by intros []). done. Qed.

Lemma serve_setex k ttl v sh : 0 < ttl < 2 ^ 31 →
  ∃ s', serve [$"SETEX"; k; dec ttl; v] sh = (V_DB_REPLY_STATUS $"OK", Shard s' (sh_loaded sh)) ∧
    rview s' = <[k := (VStr v, Some ttl)]> (rview (sh_store sh)).
Proof.
  intros Ht. destruct (setex_law (sh_store sh) k ttl v Ht) as (s'&E&Hs). exists s'. split; [|done].
  by rewrite serve_plain, E.
Qed.

Lemma serve_get k v ttl sh : rview (sh_store sh) !! k = Some (VStr v, ttl) → serve [$"GET"; k] sh = (V_DB_REPLY_STRING v, sh).
Proof. intros Hk. rewrite serve_plain, (proj1 (get_law (sh_store sh) k) v ttl Hk) by done. by destruct sh. Qed.

(** C24: the retransmit cache.  A response that one pod stores and its shard
    serves is what any pod's lookup of the same (F-SEID, sequence number)
    gets back, byte for byte, as a hit, for V_RETRANS_TTL seconds; lookups of
    any other request are not affected: no two requests share a key. *)
Theorem retrans_roundtrip w f seq resp sh :
  is_u64 f → is_u32 seq → let part := v_retrans_part f in let key := retrans_key part f seq in
  cmd_ready w (v_port_db_shard_of key) →
  ∃ w' cmd, v_retrans_store part f seq resp w = Some (RET_CODE_OK, w') ∧ db_queue (w_db w') = db_queue (w_db w) ++ [cmd] ∧
    dc_shard cmd = v_port_db_shard_of key ∧
    let sh' := (serve (dc_argv cmd) sh).2 in
    rview (sh_store sh') = <[key := (VStr resp, Some V_RETRANS_TTL)]> (rview (sh_store sh)) ∧
    (∀ w2 cb arg, retrans_pool_ready w2 → cmd_ready w2 (v_port_db_shard_of key) →
       ∃ w2' cmd2 o, v_retrans_lookup part f seq cb arg w2 = Some (RET_CODE_OK, w2') ∧
         db_queue (w_db w2') = db_queue (w_db w2) ++ [cmd2] ∧ dc_shard cmd2 = v_port_db_shard_of key ∧
         dc_cb cmd2 = fp_lookup_reply_cb (RetransPending o cb arg) ∧
         lookup_outcome RET_CODE_OK (Some (serve (dc_argv cmd2) sh').1) = (RET_CODE_OK, true, resp)) ∧
    ∀ f' seq', is_u64 f' → is_u32 seq' → (f', seq') ≠ (f, seq) →
      rview (sh_store sh') !! retrans_key (v_retrans_part f') f' seq' =
      rview (sh_store sh) !! retrans_key (v_retrans_part f') f' seq'.
Proof.
  intros Hf Hs part key [Hconn Hpend Hacc]. unfold v_retrans_store. fold key.
  destruct (cmd_issued (v_port_db_shard_of key) fp_store_ack_cb [$"SETEX"; key; snprintf 8 (dec V_RETRANS_TTL); resp] w)
    as (w'&cmd&Hc&Hq&Hsh&Ha&_); [apply shard_of_range|done..|].
  exists w', cmd. split; [done|]. split; [done|]. split; [done|]. rewrite Ha.
  destruct (serve_setex key V_RETRANS_TTL resp sh) as (s'&E&Hv); [by vm_compute|].
  assert (snprintf 8 (dec V_RETRANS_TTL) = dec V_RETRANS_TTL) as -> by (by vm_compute). rewrite E. cbn [snd sh_store].
  split; [done|]. split.
  - intros w2 cb arg Hp Hr. destruct (lookup_issued part f seq cb arg w2 Hp Hr) as (w2'&cmd2&o&Hl&Hq2&Hsh2&Ha2&Hcb2).
    exists w2', cmd2, o. split; [done|]. split; [done|]. split; [done|]. split; [done|]. rewrite Ha2. fold key.
    erewrite serve_get; [done|]. cbn [sh_store]. by rewrite Hv, lookup_insert_eq.
  - intros f' seq' Hf' Hs' Hne. rewrite Hv, lookup_insert_ne; [done|]. intros Hk.
    apply retrans_key_inj in Hk as [-> ->]; done.
Qed.

(** ** The node *)

(** A node-state call can be issued on the shard of [key]. *)
Definition node_call_ready (w : world) (key : bytes) : Prop :=
  (∃ pool o pool', g_node_pool (w_node w) = Some pool ∧ rte_mempool_get pool = Some (o, pool')) ∧
  cmd_ready w (v_port_db_shard_of key).

Lemma node_issued key argv (cb : node_pending → v_db_cb_t) user w :
  node_call_ready w key →
  ∃ w' cmd o, node_issue key argv cb user w = Some (RET_CODE_OK, w') ∧ db_queue (w_db w') = db_queue (w_db w) ++ [cmd] ∧
    dc_shard cmd = v_port_db_shard_of key ∧ dc_argv cmd = argv ∧ dc_cb cmd = cb (NodePending o user).
Proof.
  intros [(pool&o&pool'&Hp&Hg) [Hconn Hpend Hacc]]. unfold node_issue, mbind, SM_bind, node_pending_get. rewrite Hp, Hg.
  set (w1 := set_node _ w).
  destruct (cmd_issued (v_port_db_shard_of key) (cb (NodePending o user)) argv w1) as (w2&cmd&Hc&Hq&Hsh&Ha&Hcb);
    [apply shard_of_range|done..|].
  exists w2, cmd, o. unfold v_port_db_cmd. by rewrite Hc.
Qed.

(** What a query of the association reports. *)
Definition queried (w : world) (key : bytes) (sh : shard) (associated : bool) (smf : Z) : Prop :=
  ∀ user, node_call_ready w key → ∃ w' cmd o, v_node_state_query_associated user w = Some (RET_CODE_OK, w') ∧
    db_queue (w_db w') = db_queue (w_db w) ++ [cmd] ∧ dc_shard cmd = v_port_db_shard_of key ∧
    dc_cb cmd = fp_assoc_query_reply_cb (NodePending o user) ∧
    assoc_outcome RET_CODE_OK (Some (serve (dc_argv cmd) sh).1) = (RET_CODE_OK, associated, smf).

Lemma query_reports w key sh h ttl :
  g_assoc_key (w_node w) = key → as_hash (rview (sh_store sh) !! key) = Some (h, ttl) →
  (h !! $"associated" = None → queried w key sh false 0) ∧
  (h !! $"associated" = Some $"0" → queried w key sh false 0) ∧
  (∀ smf, is_u64 smf → h !! $"associated" = Some $"1" → h !! $"smf" = Some (dec smf) → queried w key sh true smf).
Proof.
  intros Hk Hh.
  assert (∀ associated smf, assoc_outcome RET_CODE_OK (Some (V_DB_REPLY_ARRAY [bulk (h !! $"associated"); bulk (h !! $"smf")])) =
    (RET_CODE_OK, associated, smf) → queried w key sh associated smf) as Hq.
  { intros associated smf Ho user Hr. unfold v_node_state_query_associated, mbind, SM_bind. cbn [gets]. rewrite Hk.
    destruct (node_issued key [$"HMGET"; key; $"associated"; $"smf"] fp_assoc_query_reply_cb user w Hr)
      as (w'&cmd&o&Hw&Hqq&Hs&Ha&Hcb).
    exists w', cmd, o. split; [done|]. split; [done|]. split; [done|]. split; [done|].
    by rewrite Ha, serve_plain, (hmget_law _ _ _ _ _ _ Hh). }
  split; [|split].
  - intros Ha. apply Hq. by rewrite Ha.
  - intros Ha. apply Hq. rewrite Ha. by destruct (h !! $"smf").
  - intros smf Hs Ha Hsmf. apply Hq. rewrite Ha, Hsmf. cbn. by rewrite parse_buf_dec by (done || lia).
Qed.

(** The key of the association holds a hash or nothing. *)
Definition assoc_clean (sh : shard) (key : bytes) : Prop := is_Some (as_hash (rview (sh_store sh) !! key)).

(** C25: the association is shared by all pods.  Once the command of
    v_node_state_set_associated has been served, a query by any pod of the
    node reports that SMF; once the command of v_node_state_clear_associated
    has been served, a query reports no association; a node never associated
    is reported as such. *)
Theorem association_shared w key sh :
  g_assoc_key (w_node w) = key → node_call_ready w key → assoc_clean sh key →
  (∀ smf user, is_u64 smf → ∃ w' cmd, v_node_state_set_associated smf user w = Some (RET_CODE_OK, w') ∧
     db_queue (w_db w') = db_queue (w_db w) ++ [cmd] ∧ dc_shard cmd = v_port_db_shard_of key ∧
     let sh' := (serve (dc_argv cmd) sh).2 in
     assoc_clean sh' key ∧ ∀ w2, g_assoc_key (w_node w2) = key → queried w2 key sh' true smf) ∧
  (∀ user, ∃ w' cmd, v_node_state_clear_associated user w = Some (RET_CODE_OK, w') ∧
     db_queue (w_db w') = db_queue (w_db w) ++ [cmd] ∧ dc_shard cmd = v_port_db_shard_of key ∧
     let sh' := (serve (dc_argv cmd) sh).2 in
     assoc_clean sh' key ∧ ∀ w2, g_assoc_key (w_node w2) = key → queried w2 key sh' false 0) ∧
  (rview (sh_store sh) !! key = None → ∀ w2, g_assoc_key (w_node w2) = key → queried w2 key sh false 0).
Proof.
  intros Hk Hr [[h ttl] Hh]. split; [|split].
  - intros smf user Hs. unfold v_node_state_set_associated, mbind, SM_bind. cbn [gets]. rewrite Hk.
    destruct (node_issued key [$"HSET"; key; $"associated"; $"1"; $"smf"; dec smf] fp_simple_ack_cb user w Hr)
      as (w'&cmd&o&Hw&Hq&Hsh&Ha&_).
    exists w', cmd. split; [done|]. split; [done|]. split; [done|]. rewrite Ha, serve_plain by done.
    destruct (hset_law _ key $"associated" $"1" $"smf" (dec smf) _ _ Hh) as (n&s'&->&Hv). cbn [snd].
    assert (as_hash (rview s' !! key) = Some (<[$"smf" := dec smf]> (<[$"associated" := $"1"]> h), ttl)) as Hh'.
    { by rewrite Hv, lookup_insert_eq. }
    split; [by eexists|]. intros w2 Hk2. destruct (query_reports w2 key (Shard s' (sh_loaded sh)) _ _ Hk2 Hh') as (_&_&Hset).
    apply Hset; [done|by rewrite lookup_insert_ne, lookup_insert_eq|by rewrite lookup_insert_eq].
  - intros user. unfold v_node_state_clear_associated, mbind, SM_bind. cbn [gets]. rewrite Hk.
    destruct (node_issued key [$"HSET"; key; $"associated"; $"0"] fp_simple_ack_cb user w Hr) as (w'&cmd&o&Hw&Hq&Hsh&Ha&_).
    exists w', cmd. split; [done|]. split; [done|]. split; [done|]. rewrite Ha, serve_plain by done.
    destruct (hset1_law _ key $"associated" $"0" _ _ Hh) as (n&s'&->&Hv). cbn [snd].
    assert (as_hash (rview s' !! key) = Some (<[$"associated" := $"0"]> h, ttl)) as Hh' by (by rewrite Hv, lookup_insert_eq).
    split; [by eexists|]. intros w2 Hk2. destruct (query_reports w2 key (Shard s' (sh_loaded sh)) _ _ Hk2 Hh') as (_&Hclear&_).
    apply Hclear. by rewrite lookup_insert_eq.
  - intros Hn w2 Hk2. rewrite Hn in Hh. injection Hh as <- <-.
    destruct (query_reports w2 key sh ∅ None Hk2) as (Hnone&_); [by rewrite Hn|]. apply Hnone. by rewrite lookup_empty.
Qed.

(** The callback of [p] for [reply], in the world [w1], adopts [ts]. *)
Definition adopts (p : node_pending) (reply : v_db_reply) (w1 : world) (ts : Z) : Prop :=
  ∀ invoke_recovery, is_Some (g_node_pool (w_node w1)) →
  ∃ w2, recovery_reply_cb invoke_recovery p RET_CODE_OK (Some reply) w1 = invoke_recovery (np_cb p) RET_CODE_OK ts w2 ∧
    v_node_state_recovery_ts w2 = ts ∧ v_node_state_recovery_ts_ready w2 = true.

Lemma reply_adopts p reply w1 : adopts p reply w1 (recovery_value (Some reply) (w_time w1)).
Proof.
  intros inv [pool Hp]. unfold recovery_reply_cb, mbind, SM_bind, node_pending_put. rewrite Hp. cbn. by eexists.
Qed.

(** C26: the recovery time stamp.  On a shard without the key the command of
    v_node_state_load_recovery_ts stores the clock of the moment it was
    issued, and every later load by any pod finds and adopts exactly that
    value and changes nothing; the pod that won adopts its clock of the moment
    the reply arrived instead, so it disagrees with all others, and with what
    it stored, unless the clock still shows the same second. *)
Theorem recovery_ts_race w key sh user :
  g_recovery_key (w_node w) = key → node_call_ready w key → rview (sh_store sh) !! key = None →
  ∃ w' cmd o, v_node_state_load_recovery_ts user w = Some (RET_CODE_OK, w') ∧
    db_queue (w_db w') = db_queue (w_db w) ++ [cmd] ∧ dc_shard cmd = v_port_db_shard_of key ∧ dc_cb cmd = fp_recovery_reply_cb (NodePending o user) ∧
    let '(reply, sh') := serve (dc_argv cmd) sh in
    rview (sh_store sh') = <[key := (VStr (dec (u32 (w_time w))), None)]> (rview (sh_store sh)) ∧
    (∀ w1, adopts (NodePending o user) reply w1 (u32 (w_time w1))) ∧
    ∀ w2 user2, g_recovery_key (w_node w2) = key → node_call_ready w2 key →
      ∃ w2' cmd2 o2, v_node_state_load_recovery_ts user2 w2 = Some (RET_CODE_OK, w2') ∧
        db_queue (w_db w2') = db_queue (w_db w2) ++ [cmd2] ∧ dc_cb cmd2 = fp_recovery_reply_cb (NodePending o2 user2) ∧
        (serve (dc_argv cmd2) sh').2 = sh' ∧
        ∀ w1, adopts (NodePending o2 user2) (serve (dc_argv cmd2) sh').1 w1 (u32 (w_time w)).
Proof.
  intros Hk Hr Hn.
  destruct (node_issued key [$"SET"; key; dec (u32 (w_time w)); $"NX"; $"GET"] fp_recovery_reply_cb user w Hr)
    as (w'&cmd&o&Hw&Hq&Hsh&Ha&Hcb).
  exists w', cmd, o. split; [|split; [done|split; [done|split; [done|]]]].
  { unfold v_node_state_load_recovery_ts, mbind, SM_bind. cbn [gets]. by rewrite Hk. }
  rewrite Ha, serve_plain by done.
  destruct (proj2 (set_nx_get_law (sh_store sh) key (dec (u32 (w_time w)))) Hn) as (s'&->&Hv).
  split; [done|]. split; [intros w1; apply (reply_adopts (NodePending o user) V_DB_REPLY_NIL)|].
  intros w2 user2 Hk2 Hr2.
  destruct (node_issued key [$"SET"; key; dec (u32 (w_time w2)); $"NX"; $"GET"] fp_recovery_reply_cb user2 w2 Hr2)
    as (w2'&cmd2&o2&Hw2&Hq2&_&Ha2&Hcb2).
  exists w2', cmd2, o2. split; [|split; [done|split; [done|]]].
  { unfold v_node_state_load_recovery_ts, mbind, SM_bind. cbn [gets]. by rewrite Hk2. }
  assert (serve (dc_argv cmd2) (Shard s' (sh_loaded sh)) = (V_DB_REPLY_STRING (dec (u32 (w_time w))), Shard s' (sh_loaded sh))) as ->.
  { rewrite Ha2, serve_plain by done. cbn [sh_store].
    by rewrite (proj1 (set_nx_get_law s' key _) (dec (u32 (w_time w))) None) by (by rewrite Hv, lookup_insert_eq). }
  split; [done|]. intros w1. cbn [fst].
  pose proof (reply_adopts (NodePending o2 user2) (V_DB_REPLY_STRING (dec (u32 (w_time w)))) w1) as H.
  cbn [recovery_value] in H. pose proof (u32_range (w_time w)) as [? ?].
  rewrite parse_buf_dec in H by u_lia. by rewrite (u32_small (u32 _)) in H by apply u32_range.
Qed.

End shared.
