(* ===== verification/SessExamples.v ===== *)
(** Concrete instances of the session-store theorems: a pod with one session
    context, one shard that holds version 4 of session 0:5. *)
From S2P Require Import Prelude Seid Dpdk Heap Redis Scripts World DbScript SessStore RetransCache IdAlloc.
From S2P Require Import DispatchQ NodeState Flow Sweeper Pod StubPfcp Server SessCas SessHistory.
Import ListDpdk MapServer StubCodec FixedSha.

Definition toy_world {PP : PfcpPort} (ctx : pdu_ses_ctx) : world :=
  World (Heap [] ∅) (Heap [] {[1 := ctx]}) (Heap [] ∅) (DbPort (λ _, true) [1; 2] [] 0 (λ _, true))
    (VdpPort [] 0 (λ _, true))
    (DbScript (list_to_map (seqZ 0 5 ≫= λ s, [(s, 0, script_sha V_SCRIPT_SESS_CAS_WRITE); (s, 1, script_sha V_SCRIPT_SESS_DELETE)])) [1] [])
    (Some [1]) None (IdAlloc ∅ ∅ ∅ ∅ ∅ false) (Dispatch ([], 1) ([], 1) (Heap [] ∅)) (NodeState [] [] 0 false None) 0 0 0.

Definition toy_ctx : pdu_ses_ctx := stub_ctx_cleared.
Definition toy_key : bytes := make_key 0 5.

Definition toy_shard : shard :=
  Shard {[toy_key := (VHash {[$"ver" := dec 4; $"data" := $"old"]}, Some 30)]} (λ _, true).

Lemma toy_record : rec_at (sh_store toy_shard) toy_key (Some (SessRec 4 $"old" (Some 30))).
Proof. split; [done|]. eexists. by repeat split; vm_compute. Qed.

Lemma toy_evalsha_ready id ctx :
  id ≠ V_SCRIPT_TEID_REFILL → evalsha_ready (toy_world ctx) (v_port_db_shard_of toy_key) id (script_sha id).
Proof. intros Hid. by destruct id; split; vm_compute. Qed.

Lemma toy_cmd_ready ctx : cmd_ready (toy_world ctx) (v_port_db_shard_of toy_key).
Proof. by split; vm_compute. Qed.

Lemma toy_pool ctx : sess_pool_ready (toy_world ctx).
Proof. by exists [1], 1, []. Qed.

Lemma toy_ctx_length : Z.of_nat (length toy_ctx) <= 971.
Proof. vm_compute. discriminate. Qed.

(** A write that expects version 4 replaces the record. *)
Lemma cas_write_refines_witness :
  ∃ w' cmd reply sh', v_sess_cas_write iu 0 5 4 1 V_SESS_CONFIRMED fp_mod_cas_cb (Some 7) (toy_world toy_ctx) = Some (RET_CODE_OK, w') ∧
    db_queue (w_db w') = [cmd] ∧ serve (dc_argv cmd) toy_shard = (reply, sh') ∧
    rec_at (sh_store sh') toy_key (Some (SessRec 5 toy_ctx (Some 30))).
Proof.
  pose proof (cas_write_refines iu 0 5 4 1 toy_ctx V_SESS_CONFIRMED fp_mod_cas_cb (Some 7) (toy_world toy_ctx) toy_ctx
    toy_shard (Some (SessRec 4 $"old" (Some 30))) ltac:(u_lia) ltac:(u_lia) ltac:(u_lia) ltac:(reflexivity) ltac:(vm_compute; reflexivity)
    toy_ctx_length (toy_pool toy_ctx) (toy_evalsha_ready V_SCRIPT_SESS_CAS_WRITE toy_ctx ltac:(discriminate)) ltac:(reflexivity) toy_record) as H.
  cbn [write_contract sr_ver negb Z.eqb Pos.eqb andb sr_ttl] in H.
  destruct H as (w'&cmd&p&q&reply&sh'&H1&H2&H3&H4&H5&_). exists w', cmd, reply, sh'. exact (conj H1 (conj H2 (conj H4 H5))).
Defined.

(** A deletion that expects version 3 conflicts and leaves the record. *)
Lemma delete_refines_witness :
  ∃ w' cmd reply sh', v_sess_delete iu 0 5 3 fp_del_delete_cb (Some 7) (toy_world toy_ctx) = Some (RET_CODE_OK, w') ∧
    db_queue (w_db w') = [cmd] ∧ serve (dc_argv cmd) toy_shard = (reply, sh') ∧
    rec_at (sh_store sh') toy_key (Some (SessRec 4 $"old" (Some 30))).
Proof.
  pose proof (delete_refines iu 0 5 3 fp_del_delete_cb (Some 7) (toy_world toy_ctx)
    toy_shard (Some (SessRec 4 $"old" (Some 30))) ltac:(u_lia) ltac:(u_lia) ltac:(u_lia)
    (toy_pool toy_ctx) (toy_evalsha_ready V_SCRIPT_SESS_DELETE toy_ctx ltac:(discriminate)) ltac:(reflexivity) toy_record) as H.
  cbn [delete_contract sr_ver Z.eqb Pos.eqb] in H.
  destruct H as (w'&cmd&p&q&reply&sh'&H1&H2&H3&H4&H5&_). exists w', cmd, reply, sh'. exact (conj H1 (conj H2 (conj H4 H5))).
Defined.

Lemma read_refines_witness :
  ∃ w' cmd reply, v_sess_read 0 5 1 fp_mod_read_cb (Some 7) (toy_world toy_ctx) = Some (RET_CODE_OK, w') ∧
    db_queue (w_db w') = [cmd] ∧ serve (dc_argv cmd) toy_shard = (reply, toy_shard).
Proof.
  destruct (read_refines 0 5 1 toy_ctx fp_mod_read_cb (Some 7) (toy_world toy_ctx)
    toy_shard (Some (SessRec 4 $"old" (Some 30))) ltac:(u_lia) ltac:(u_lia)
    (toy_pool toy_ctx) (toy_cmd_ready toy_ctx) toy_record) as (w'&cmd&q&reply&H1&H2&H3&H4&_).
  exists w', cmd, reply. exact (conj H1 (conj H2 H4)).
Defined.

Definition empty_shard : shard := Shard (∅ : rkeys) (λ _, true).

(** The confirm of an absent session. *)
Lemma confirm_refines_witness :
  ∃ w' cmd q reply sh', v_sess_confirm 0 5 fp_confirm_cb (Some 7) (toy_world toy_ctx) = Some (RET_CODE_OK, w') ∧
    db_queue (w_db w') = [cmd] ∧ serve (dc_argv cmd) empty_shard = (reply, sh') ∧
    rec_at (sh_store sh') toy_key None ∧
    ∀ invoke_simple, confirm_reply_cb invoke_simple q RET_CODE_OK (Some reply) =
      (_ ← invoke_simple fp_confirm_cb RET_CODE_OK (Some 7); sess_pending_put (sp_obj q)).
Proof.
  destruct (confirm_refines 0 5 fp_confirm_cb (Some 7) (toy_world toy_ctx)
    empty_shard None ltac:(u_lia) ltac:(u_lia)
    (toy_pool toy_ctx) (toy_cmd_ready toy_ctx) ltac:(reflexivity)) as (w'&cmd&q&reply&sh'&H1&H2&H3&H4&H5&H6&H7).
  exists w', cmd, q, reply, sh'. exact (conj H1 (conj H2 (conj H4 (conj H5 H7)))).
Defined.

(** Two pods read version 4; the first write wins, the second conflicts. *)
Definition toy_shard1 : shard := (serve (op_argv toy_key (OpWrite 4 $"new" V_SESS_CONFIRMED)) toy_shard).2.

Lemma cas_no_lost_update_witness :
  (serve (op_argv toy_key (OpWrite 4 $"mine" V_SESS_CONFIRMED)) toy_shard).1 = V_DB_REPLY_INTEGER 1 ∧
  (serve (op_argv toy_key (OpWrite 4 $"mine" V_SESS_CONFIRMED)) toy_shard1).1 ≠ V_DB_REPLY_INTEGER 1.
Proof.
  assert (scripts_loaded toy_shard) as Hl by (split; reflexivity). split.
  - pose proof (cas_no_lost_update toy_key 4 $"old" (Some 30) [] toy_shard toy_shard $"mine" V_SESS_CONFIRMED
      Hl ltac:(u_lia) toy_record (run_nil _ _)) as H.
    destruct (serve _ toy_shard) as [reply sh2]. apply (proj1 H). constructor.
  - assert (shard_run toy_key [EvOp (OpWrite 4 $"new" V_SESS_CONFIRMED) (V_DB_REPLY_INTEGER 1)] toy_shard toy_shard1) as Hr.
    { eapply run_cons; [|apply run_nil]. apply step_op; [cbn; u_lia|].
      apply injective_projections; [vm_compute; reflexivity|reflexivity]. }
    pose proof (cas_no_lost_update toy_key 4 $"old" (Some 30) _ toy_shard toy_shard1 $"mine" V_SESS_CONFIRMED
      Hl ltac:(u_lia) toy_record Hr) as H.
    destruct (serve _ toy_shard1) as [reply sh2]. cbn [fst]. intros Heq%(proj1 H). apply Forall_cons in Heq as [Heq _]. discriminate Heq.
Defined.

(** A codec whose serialized contexts are larger: identity on the context. *)
Definition raw_pfcp : PfcpPort := {|
  pfcp_msg := stub_msg; pdu_ses_ctx := bytes;
  v_port_pfcp_decode := stub_decode; v_port_pfcp_msg_type := sm_type;
  v_port_pfcp_hdr_seid m := u64 (sm_seid m); v_port_pfcp_seq m := u32 (sm_seq m);
  v_port_pfcp_smf_fseid m := u64 (sm_smf_fseid m); v_port_pfcp_ue_ip := stub_ue_ip;
  v_port_pfcp_build_session _ _ _ c := (RET_CODE_OK, c); v_port_pfcp_modify_session _ c := (RET_CODE_OK, c);
  v_port_pfcp_encode_rsp _ _ _ _ := None; v_port_pfcp_ctx_teid _ := 0;
  v_port_pdu_serialize c cap := if decide (length c ≤ cap)%nat then Some c else None;
  v_port_pdu_deserialize b _ := (RET_CODE_OK, b); ctx_cleared := [];
  hdr_seid_range m := u64_range _; seq_range m := u32_range _; smf_fseid_range m := u64_range _;
|}.

Definition big_ctx : bytes := replicate 1200 zero.

Lemma cas_write_oversized_blob_witness :
  ∃ w', @v_sess_cas_write _ raw_pfcp iu 0 5 4 1 V_SESS_CONFIRMED fp_mod_cas_cb (Some 7) (@toy_world raw_pfcp big_ctx) = Some (RET_CODE_ERR, w') ∧
    w_db w' = w_db (@toy_world raw_pfcp big_ctx).
Proof.
  apply (@cas_write_oversized_blob _ raw_pfcp iu 0 5 4 1 big_ctx V_SESS_CONFIRMED fp_mod_cas_cb (Some 7) (@toy_world raw_pfcp big_ctx) big_ctx).
  - reflexivity.
  - vm_compute. reflexivity.
  - vm_compute. reflexivity.
  - left. discriminate.
Defined.
