(* ===== verification/SharedExamples.v ===== *)
(** Concrete instances of the theorems on the state the pods share: two pods
    of one node, their clocks an hour apart, one shard that is empty at first. *)
From S2P Require Import Prelude Seid Dpdk Heap Redis Scripts World DbScript SessStore RetransCache NodeState.
From S2P Require Import StubPfcp Server SessCas SessHistory SessExamples SharedState.
Import ListDpdk MapServer StubCodec FixedSha.

Definition node_key : bytes := assoc_key [zero].
Definition stamp_key : bytes := recovery_key [zero].

(** A pod with both pools, whose clock shows [now]. *)
Definition shared_pod (now : Z) : world :=
  let w := toy_world toy_ctx in
  World (w_txns w) (w_ctxs w) (w_msgs w) (w_db w) (w_vdp w) (w_script w) (w_sess_pool w) (Some [1]) (w_ids w) (w_disp w)
    (NodeState stamp_key node_key 0 false (Some [1])) (w_rr_base w) (w_rr_ctr w) now.

Lemma shared_cmd_ready now shard : cmd_ready (shared_pod now) shard.
Proof. by split. Qed.

Lemma shared_node_ready now key : node_call_ready (shared_pod now) key.
Proof. split; [by exists [1], 1, []|apply shared_cmd_ready]. Qed.

Lemma shared_retrans_ready now : retrans_pool_ready (shared_pod now).
Proof. by exists [1], 1, []. Qed.

(** The response to request 3 of F-SEID 7, stored and looked up. *)
Lemma retrans_roundtrip_witness :
  ∃ w' cmd w2' cmd2, v_retrans_store (v_retrans_part 7) 7 3 $"accepted" (shared_pod 0) = Some (RET_CODE_OK, w') ∧
    db_queue (w_db w') = [cmd] ∧
    v_retrans_lookup (v_retrans_part 7) 7 3 fp_retrans_lookup_cb (Some 1) (shared_pod 3600) = Some (RET_CODE_OK, w2') ∧
    db_queue (w_db w2') = [cmd2] ∧
    lookup_outcome RET_CODE_OK (Some (serve (dc_argv cmd2) (serve (dc_argv cmd) empty_shard).2).1) = (RET_CODE_OK, true, $"accepted").
Proof.
  destruct (retrans_roundtrip (shared_pod 0) 7 3 $"accepted" empty_shard ltac:(u_lia) ltac:(u_lia)
    (shared_cmd_ready _ _)) as (w'&cmd&H1&H2&_&_&H5&_).
  destruct (H5 (shared_pod 3600) fp_retrans_lookup_cb (Some 1) (shared_retrans_ready 3600) (shared_cmd_ready _ _))
    as (w2'&cmd2&o&H6&H7&_&_&H8).
  exists w', cmd, w2', cmd2. exact (conj H1 (conj H2 (conj H6 (conj H7 H8)))).
Defined.

(** One pod records the association with SMF 42, another one reads it. *)
Lemma association_shared_witness :
  ∃ w' cmd w2' cmd2, v_node_state_set_associated 42 0 (shared_pod 0) = Some (RET_CODE_OK, w') ∧ db_queue (w_db w') = [cmd] ∧
    v_node_state_query_associated 0 (shared_pod 3600) = Some (RET_CODE_OK, w2') ∧ db_queue (w_db w2') = [cmd2] ∧
    assoc_outcome RET_CODE_OK (Some (serve (dc_argv cmd2) (serve (dc_argv cmd) empty_shard).2).1) = (RET_CODE_OK, true, 42).
Proof.
  destruct (association_shared (shared_pod 0) node_key empty_shard ltac:(reflexivity) (shared_node_ready 0 node_key)
    ltac:(by eexists)) as (Hset&_).
  destruct (Hset 42 0 ltac:(u_lia)) as (w'&cmd&H1&H2&_&_&Hq).
  destruct (Hq (shared_pod 3600) ltac:(reflexivity) 0 (shared_node_ready 3600 node_key)) as (w2'&cmd2&o&H3&H4&_&_&H5).
  exists w', cmd, w2', cmd2. exact (conj H1 (conj H2 (conj H3 (conj H4 H5)))).
Defined.

(** The first pod issues its load at second 1000 and sees the reply at second
    1001: it announces 1001, the pod that loads an hour later 1000. *)
Lemma recovery_ts_race_witness :
  ∃ cmd p p2 reply reply2, serve (dc_argv cmd) empty_shard = (reply, (serve (dc_argv cmd) empty_shard).2) ∧
    adopts p reply (shared_pod 1001) 1001 ∧ adopts p2 reply2 (shared_pod 4600) 1000.
Proof.
  destruct (recovery_ts_race (shared_pod 1000) stamp_key empty_shard 0 ltac:(reflexivity) (shared_node_ready 1000 stamp_key)
    ltac:(reflexivity)) as (w'&cmd&o&_&_&_&_&H).
  destruct (serve (dc_argv cmd) empty_shard) as [reply sh'] eqn:E. destruct H as (_&Hwin&Hlater).
  destruct (Hlater (shared_pod 4600) 0 ltac:(reflexivity) (shared_node_ready 4600 stamp_key)) as (w2'&cmd2&o2&_&_&_&_&Had).
  exists cmd, (NodePending o 0), (NodePending o2 0), reply, (serve (dc_argv cmd2) sh').1. rewrite E.
  exact (conj eq_refl (conj (Hwin (shared_pod 1001)) (Had (shared_pod 4600)))).
Defined.
