(* ===== verification/IdUnique.v ===== *)
(** SEID allocation across pods: block leases from a Redis counter, per-pod
    rings, replies that may be lost or arrive late, and pods that restart.
    One partition at a time; partitions never share a SEID because a SEID
    names its partition. *)
From S2P Require Import Prelude Seid Dpdk Heap Redis Scripts World DbScript IdAlloc Server.
Import ListDpdk MapServer FixedSha.

(** ** Lists *)

Lemma omap_seq_app {A} (f : nat → option A) a n : omap f (seq a (S n)) = match f a with Some x => x :: omap f (seq (S a) n) | None => omap f (seq (S a) n) end.
Proof. done. Qed.

Lemma submseteq_NoDup {A} (l k : list A) : l ⊆+ k → NoDup k → NoDup l.
Proof. intros [k' ->]%submseteq_Permutation Hk. by apply NoDup_app in Hk as [? _]. Qed.

Lemma submseteq_Forall {A} (P : A → Prop) (l k : list A) : l ⊆+ k → Forall P k → Forall P l.
Proof. intros [k' ->]%submseteq_Permutation Hk. by apply Forall_app in Hk as [? _]. Qed.

Section ring.
Context {DP : Dpdk} {PP : PfcpPort}.

(** The SEIDs queued in a pod for a partition. *)
Definition ring_list (part : Z) (w : world) : list Z :=
  match g_seid_ring (w_ids w) !! part with Some r => ring_items r | None => [] end.

(** The SEIDs of the lease that ends at counter value [n]. *)
Definition lease_from (part base : Z) (a n : nat) : list Z :=
  omap (λ i : nat, v_seid_encode part (u64 (base + Z.of_nat i))) (seq a n).

Definition reply_lease (part : Z) (reply : v_db_reply) : list Z :=
  match reply with
  | V_DB_REPLY_INTEGER n => lease_from part (u64 (u64 n - V_ID_BLK_SIZE)) 0 (Z.to_nat V_ID_BLK_SIZE)
  | _ => []
  end.
#[global] Arguments reply_lease : simpl never.

Lemma enqueue_block_items part base n : ∀ a r,
  ∃ k, ring_items (seid_enqueue_block part base (Z.of_nat a) n r) = ring_items r ++ take k (lease_from part base a n).
Proof.
  induction n as [|n IH]; intros a r; cbn [seid_enqueue_block].
  { exists 0%nat. by rewrite take_0, app_nil_r. }
  replace (Z.of_nat a + 1) with (Z.of_nat (S a)) by lia.
  unfold lease_from. rewrite omap_seq_app. fold (lease_from part base (S a) n).
  destruct (v_seid_encode part (u64 (base + Z.of_nat a))) as [s|]; [|apply IH].
  destruct (rte_ring_enqueue r s) as [r'|] eqn:E.
  - destruct (IH (S a) r') as [k Hk]. exists (S k). rewrite Hk.
    apply ring_enqueue_inv in E as (->&_&_). by rewrite <- app_assoc.
  - exists 0%nat. by rewrite take_0, app_nil_r.
Qed.

Definition ids_same (part : Z) (w w' : world) : Prop :=
  g_seid_ring (w_ids w') !! part = g_seid_ring (w_ids w) !! part.

#[local] Opaque seid_enqueue_block.

Lemma refill_ring_list part status reply w w' :
  seid_refill_reply_cb part status (Some reply) w = Some (tt, w') →
  ring_list part w' ⊆+ ring_list part w ++ reply_lease part reply.
Proof.
  unfold seid_refill_reply_cb, mbind, SM_bind. cbn [clear_seid_inflight ids_modify modify].
  assert (∀ w1, ids_same part w w1 → ring_list part w1 ⊆+ ring_list part w ++ reply_lease part reply) as Hin.
  { intros w1 H1. unfold ring_list. rewrite H1. by apply submseteq_inserts_r. }
  destruct reply as [|str|integer|str|els|str]; cycle 2.
  2-6: intros [= <-]; by apply Hin.
  destruct (negb (status =? RET_CODE_OK)) eqn:Es; [intros [= <-]; by apply Hin|]. clear Hin.
  unfold seid_ring. cbn [w_ids set_ids ids_set_seid_inflight g_seid_ring].
  unfold ring_list at 2. destruct (g_seid_ring (w_ids w) !! part) as [r|] eqn:E; [|done]. intros [= <-].
  unfold ring_list. cbn [w_ids set_ids ids_set_seid_ring g_seid_ring]. rewrite lookup_insert_eq.
  destruct (enqueue_block_items part (u64 (u64 integer - V_ID_BLK_SIZE)) (Z.to_nat V_ID_BLK_SIZE) 0 r) as [k Hk].
  change (Z.of_nat 0) with 0 in Hk. rewrite Hk.
  change (reply_lease part (V_DB_REPLY_INTEGER integer)) with
    (lease_from part (u64 (u64 integer - V_ID_BLK_SIZE)) 0 (Z.to_nat V_ID_BLK_SIZE)).
  generalize (lease_from part (u64 (u64 integer - V_ID_BLK_SIZE)) 0 (Z.to_nat V_ID_BLK_SIZE)). intros l.
  apply submseteq_skips_l, sublist_submseteq, sublist_take.
Qed.
#[local] Transparent seid_enqueue_block.

Lemma maybe_refill_rings part w w' :
  seid_maybe_refill part w = Some (tt, w') → g_seid_ring (w_ids w') = g_seid_ring (w_ids w).
Proof.
  unfold seid_maybe_refill, mbind, SM_bind, seid_ring. destruct (g_seid_ring (w_ids w) !! part) as [r|]; [|done].
  cbn [gets]. case_match; [by intros [= <-]|]. case_decide; [by intros [= <-]|].
  cbn [ids_modify modify]. unfold v_port_db_cmd, v_port_db_cmd_argv.
  repeat case_match; simplify_eq/=; try done; repeat (case_match; simplify_eq/=); try (intros [= <-]); done.
Qed.

(** v_seid_alloc hands out the oldest queued SEID, or 0. *)
Lemma alloc_ring_list part s w w' :
  v_seid_alloc part w = Some (s, w') →
  ring_list part w = s :: ring_list part w' ∨ (s = 0 ∧ ring_list part w = [] ∧ ring_list part w' = []).
Proof.
  unfold v_seid_alloc, mbind, SM_bind. destruct (seid_maybe_refill part w) as [[[] w1]|] eqn:E; [|done].
  apply maybe_refill_rings in E. unfold seid_ring, ring_list. rewrite E.
  destruct (g_seid_ring (w_ids w) !! part) as [r|] eqn:Er; [|done].
  destruct (rte_ring_dequeue r) as [[x r']|] eqn:Ed.
  - cbn [ids_modify modify]. intros [= <- <-]. left. cbn [w_ids set_ids ids_set_seid_ring g_seid_ring].
    rewrite lookup_insert_eq. by apply ring_dequeue_inv in Ed as [-> _].
  - intros [= <- <-]. right. rewrite E, Er. by apply ring_dequeue_None in Ed.
Qed.
End ring.

(** ** The system: pods, the shard of the counter, replies in flight *)

Section system.
Context {DP : Dpdk} {PP : PfcpPort} {R : Redis} {L : Lua} {SS : ScriptSha}.
Variable part : Z.

Record id_system := IdSystem {
  is_pods : list world;            (* the pods *)
  is_shard : shard;                (* the shard of shard_for_part(part) *)
  is_flight : list v_db_reply;     (* replies to INCRBY on their way *)
  is_granted : list Z;             (* every non-zero result of v_seid_alloc *)
}.

Definition seid_incrby : list bytes := [$"INCRBY"; seid_next_key part; dec V_ID_BLK_SIZE].

Inductive seid_step : id_system → id_system → Prop :=
  | seid_alloc_step pods1 w pods2 sh fl gr s w' :
      v_seid_alloc part w = Some (s, w') →
      seid_step (IdSystem (pods1 ++ w :: pods2) sh fl gr)
                (IdSystem (pods1 ++ w' :: pods2) sh fl (if s =? 0 then gr else s :: gr))
  | seid_serve_step pods sh fl gr reply sh' :
      serve seid_incrby sh = (reply, sh') →
      seid_step (IdSystem pods sh fl gr) (IdSystem pods sh' (reply :: fl) gr)
  | seid_deliver_step pods1 w pods2 sh fl1 reply fl2 gr w' :
      seid_refill_reply_cb part RET_CODE_OK (Some reply) w = Some (tt, w') →
      seid_step (IdSystem (pods1 ++ w :: pods2) sh (fl1 ++ reply :: fl2) gr)
                (IdSystem (pods1 ++ w' :: pods2) sh (fl1 ++ fl2) gr)
  | seid_lost_step pods sh fl1 reply fl2 gr :
      seid_step (IdSystem pods sh (fl1 ++ reply :: fl2) gr) (IdSystem pods sh (fl1 ++ fl2) gr)
  | seid_local_step pods1 w pods2 sh fl gr w' :
      (* anything else a pod does, and a restart, which empties its rings *)
      ring_list part w' = ring_list part w ∨ ring_list part w' = [] →
      seid_step (IdSystem (pods1 ++ w :: pods2) sh fl gr) (IdSystem (pods1 ++ w' :: pods2) sh fl gr)
  | seid_shard_step pods sh fl gr sh' :
      (* any command on another key *)
      rview (sh_store sh') !! seid_next_key part = rview (sh_store sh) !! seid_next_key part →
      seid_step (IdSystem pods sh fl gr) (IdSystem pods sh' fl gr).

Inductive seid_run : nat → id_system → id_system → Prop :=
  | seid_run_nil s : seid_run 0 s s
  | seid_run_snoc n s s1 s' : seid_run n s s1 → seid_step s1 s' → seid_run (S n) s s'.

Definition seid_initial (s : id_system) : Prop :=
  is_granted s = [] ∧ is_flight s = [] ∧ Forall (λ w, ring_list part w = []) (is_pods s) ∧
  rview (sh_store (is_shard s)) !! seid_next_key part = None.

(** *** The invariant *)

Definition counter_at (sh : shard) (c : Z) : Prop :=
  (rview (sh_store sh) !! seid_next_key part = None ∧ c = 0) ∨
  (∃ ttl, rview (sh_store sh) !! seid_next_key part = Some (VStr (dec c), ttl)).

(** Every SEID of the partition that is somewhere in the system. *)
Definition seid_items (s : id_system) : list Z :=
  is_granted s ++ concat (ring_list part <$> is_pods s) ++ concat (reply_lease part <$> is_flight s).

Definition below (c s : Z) : Prop := ∃ l, 0 <= l < c ∧ v_seid_encode part l = Some s.

Definition seid_inv (bound : Z) (s : id_system) : Prop :=
  ∃ c, counter_at (is_shard s) c ∧ 0 <= c <= bound ∧ NoDup (seid_items s) ∧ Forall (below c) (seid_items s).

Lemma below_mono c c' s : c <= c' → below c s → below c' s.
Proof. intros Hc (l&Hl&He). exists l. split; [lia|done]. Qed.

Lemma pods_split (pods1 pods2 : list world) w :
  concat (ring_list part <$> (pods1 ++ w :: pods2)) ≡ₚ
    ring_list part w ++ concat (ring_list part <$> pods1) ++ concat (ring_list part <$> pods2).
Proof. rewrite fmap_app, concat_app. cbn. solve_Permutation. Qed.

Lemma flight_split fl1 reply fl2 :
  concat (reply_lease part <$> (fl1 ++ reply :: fl2)) ≡ₚ
    reply_lease part reply ++ concat (reply_lease part <$> (fl1 ++ fl2)).
Proof. rewrite !fmap_app, !concat_app. cbn. solve_Permutation. Qed.

Lemma inv_shrink b b' s s' :
  b <= b' → is_shard s' = is_shard s → seid_items s' ⊆+ seid_items s → seid_inv b s → seid_inv b' s'.
Proof.
  intros Hb Hsh Hsub (c&Hc&Hcb&Hnd&Hbel). exists c. rewrite Hsh. split; [done|]. split; [lia|].
  split; [by eapply submseteq_NoDup|by eapply submseteq_Forall].
Qed.

Hypothesis Hpart : 0 <= part < V_NUM_PARTS.

Lemma lease_from_spec base n : ∀ a,
  0 <= base → base + Z.of_nat (a + n) <= 2 ^ 63 →
  NoDup (lease_from part base a n) ∧
  ∀ s, s ∈ lease_from part base a n → ∃ l, base + Z.of_nat a <= l < base + Z.of_nat (a + n) ∧ v_seid_encode part l = Some s.
Proof.
  induction n as [|n IH]; intros a Hb Hl.
  { split; [constructor|by intros s ?%not_elem_of_nil]. }
  destruct (IH (S a)) as [Hnd Hin]; [done|lia|].
  unfold lease_from. rewrite omap_seq_app. fold (lease_from part base (S a) n).
  assert (u64 (base + Z.of_nat a) = base + Z.of_nat a) as Hu.
  { apply u64_small. change (2 ^ 63) with 9223372036854775808 in Hl. u_lia. }
  rewrite Hu. destruct (v_seid_encode part (base + Z.of_nat a)) as [s|] eqn:E.
  - split.
    + constructor; [|done]. intros (l&Hl'&He)%Hin.
      destruct (v_seid_encode_inj part l part (base + Z.of_nat a) s); unfold V_NUM_PARTS in *; try lia; done.
    + intros x [->|Hx]%elem_of_cons; [exists (base + Z.of_nat a); split; [lia|done]|].
      destruct (Hin x Hx) as (l&?&?). exists l. split; [lia|done].
  - split; [done|]. intros x Hx. destruct (Hin x Hx) as (l&?&?). exists l. split; [lia|done].
Qed.

(** A served INCRBY leases a fresh block. *)
Lemma serve_incrby sh c : counter_at sh c → 0 <= c → c + V_ID_BLK_SIZE < 2 ^ 63 →
  ∃ sh', serve seid_incrby sh = (V_DB_REPLY_INTEGER (c + V_ID_BLK_SIZE), sh') ∧ counter_at sh' (c + V_ID_BLK_SIZE).
Proof.
  intros Hc H0 Hlt. unfold serve, seid_incrby. rewrite decide_False by done. rewrite decide_False by (by intros []).
  destruct (incrby_law (sh_store sh) (seid_next_key part) V_ID_BLK_SIZE) as [H1 H2]; [done|].
  destruct Hc as [[Hk ->]|[ttl Hk]].
  - destruct (H2 Hk eq_refl) as (s'&He&Hv). rewrite He. eexists. split; [done|]. right. exists None. cbn. by rewrite Hv, lookup_insert_eq.
  - destruct (H1 c ttl Hk H0 Hlt) as (s'&He&Hv). rewrite He. eexists. split; [done|]. right. exists ttl. cbn. by rewrite Hv, lookup_insert_eq.
Qed.

Lemma lease_fresh c :
  0 <= c → c + V_ID_BLK_SIZE < 2 ^ 63 →
  NoDup (reply_lease part (V_DB_REPLY_INTEGER (c + V_ID_BLK_SIZE))) ∧
  ∀ s, s ∈ reply_lease part (V_DB_REPLY_INTEGER (c + V_ID_BLK_SIZE)) →
    ∃ l, c <= l < c + V_ID_BLK_SIZE ∧ v_seid_encode part l = Some s.
Proof.
  intros H0 Hlt. change (2 ^ 63) with 9223372036854775808 in Hlt. unfold reply_lease. unfold V_ID_BLK_SIZE in *.
  rewrite (u64_small (c + 256)), (u64_small (c + 256 - 256)) by (unfold V_ID_BLK_SIZE; u_lia).
  replace (c + 256 - 256) with c by lia.
  destruct (lease_from_spec c (Z.to_nat 256) 0) as [Hnd Hin]; [done|change (2 ^ 63) with 9223372036854775808; lia|].
  split; [done|]. intros s Hs. destruct (Hin s Hs) as (l&?&?). exists l. split; [lia|done].
Qed.

#[local] Opaque reply_lease.

Lemma seid_serve_inv b pods sh fl gr reply sh' :
  serve seid_incrby sh = (reply, sh') → b + V_ID_BLK_SIZE < 2 ^ 63 →
  seid_inv b (IdSystem pods sh fl gr) → seid_inv (b + V_ID_BLK_SIZE) (IdSystem pods sh' (reply :: fl) gr).
Proof.
  intros Hs Hb (c&Hc&Hcb&Hnd&Hbel). cbn [is_shard] in Hc.
  destruct (serve_incrby sh c Hc) as (sh1&Hs1&Hc1); [lia|unfold V_ID_BLK_SIZE in *; lia|].
  rewrite Hs1 in Hs. injection Hs as <- <-.
  destruct (lease_fresh c) as [Hndl Hinl]; [lia|unfold V_ID_BLK_SIZE in *; lia|].
  exists (c + V_ID_BLK_SIZE). split; [done|]. split; [unfold V_ID_BLK_SIZE in *; lia|].
  set (old := seid_items (IdSystem pods sh fl gr)) in *. set (lease := reply_lease _ _) in *.
  assert (seid_items (IdSystem pods sh1 (V_DB_REPLY_INTEGER (c + V_ID_BLK_SIZE) :: fl) gr) ≡ₚ lease ++ old) as ->.
  { unfold seid_items, old. cbn [is_granted is_pods is_flight fmap list_fmap concat]. fold lease. clearbody lease. solve_Permutation. }
  split.
  - apply NoDup_app. split_and!; [done| |done]. intros s Hs Ho. destruct (Hinl s Hs) as (l&Hl&He).
    rewrite Forall_forall in Hbel. destruct (Hbel s Ho) as (l'&Hl'&He').
    destruct (v_seid_encode_inj part l part l' s); try lia; done.
  - apply Forall_app. split.
    + apply Forall_forall. intros s Hs. destruct (Hinl s Hs) as (l&Hl&He). exists l. split; [lia|done].
    + eapply Forall_impl; [exact Hbel|]. intros s. apply below_mono. unfold V_ID_BLK_SIZE. lia.
Qed.

Lemma seid_alloc_items (s : Z) w w' (pods1 pods2 : list world) sh fl gr :
  v_seid_alloc part w = Some (s, w') →
  seid_items (IdSystem (pods1 ++ w' :: pods2) sh fl (if s =? 0 then gr else s :: gr)) ⊆+
  seid_items (IdSystem (pods1 ++ w :: pods2) sh fl gr).
Proof.
  intros Ha. unfold seid_items. cbn [is_granted is_pods is_flight]. rewrite !pods_split.
  destruct (alloc_ring_list part s w w' Ha) as [->|(->&->&->)].
  - destruct (s =? 0).
    + apply submseteq_skips_l, submseteq_skips_r, submseteq_skips_r. by apply submseteq_cons.
    + apply Permutation_submseteq. solve_Permutation.
  - done.
Qed.

Lemma seid_step_inv b s s' :
  seid_step s s' → b + V_ID_BLK_SIZE < 2 ^ 63 → seid_inv b s → seid_inv (b + V_ID_BLK_SIZE) s'.
Proof.
  assert (b <= b + V_ID_BLK_SIZE) as Hle by (unfold V_ID_BLK_SIZE; lia).
  intros Hs Hb Hinv. destruct Hs.
  - eapply inv_shrink; [exact Hle| |by eapply seid_alloc_items|exact Hinv]. done.
  - by eapply seid_serve_inv.
  - eapply inv_shrink; [exact Hle| | |exact Hinv]; [done|]. unfold seid_items. cbn [is_granted is_pods is_flight].
    rewrite !pods_split, flight_split. apply submseteq_skips_l.
    etrans; [apply submseteq_app; [apply submseteq_app; [by eapply refill_ring_list|done]|done]|].
    apply Permutation_submseteq. solve_Permutation.
  - eapply inv_shrink; [exact Hle| | |exact Hinv]; [done|]. unfold seid_items. cbn [is_granted is_pods is_flight].
    rewrite flight_split. apply submseteq_skips_l, submseteq_skips_l. by apply submseteq_inserts_l.
  - eapply inv_shrink; [exact Hle| | |exact Hinv]; [done|]. unfold seid_items. cbn [is_granted is_pods is_flight].
    rewrite !pods_split. apply submseteq_skips_l, submseteq_skips_r, submseteq_skips_r.
    destruct H as [->| ->]; [done|apply submseteq_nil_l].
  - destruct Hinv as (c&Hc&Hcb&Hnd&Hbel). exists c. split; [|split; [lia|done]].
    unfold counter_at in *. cbn [is_shard] in *. by rewrite H.
Qed.

Lemma seid_run_inv n s s' :
  seid_run n s s' → Z.of_nat n * V_ID_BLK_SIZE < 2 ^ 63 → seid_inv 0 s → seid_inv (Z.of_nat n * V_ID_BLK_SIZE) s'.
Proof.
  induction 1 as [s|n s s1 s' Hrun IH Hstep]; intros Hn Hinv; [done|].
  replace (Z.of_nat (S n) * V_ID_BLK_SIZE) with (Z.of_nat n * V_ID_BLK_SIZE + V_ID_BLK_SIZE) in * by lia.
  apply (seid_step_inv _ s1); [done..|]. apply IH; [unfold V_ID_BLK_SIZE in *; lia|done].
Qed.

Lemma seid_initial_inv s : seid_initial s → seid_inv 0 s.
Proof.
  intros (Hg&Hf&Hp&Hk). exists 0. split; [by left|]. split; [lia|].
  assert (seid_items s = []) as ->; [|by split; constructor].
  unfold seid_items. rewrite Hg, Hf. cbn. induction Hp as [|w pods Hw _ IH]; [done|]. cbn. by rewrite Hw.
Qed.

(** C12: no SEID is ever given to two sessions, by any pod.  Any number of
    pods allocate from the same partition, lease blocks from the shared
    counter, receive the replies in any order or not at all, and restart.  The
    SEIDs returned by v_seid_alloc over the whole history are pairwise
    different, not zero, and name the partition they were allocated in. *)
Theorem seid_unique_across_pods n s s' :
  seid_initial s → seid_run n s s' → Z.of_nat n * V_ID_BLK_SIZE < 2 ^ 63 →
  NoDup (is_granted s') ∧ Forall (λ x, x ≠ 0 ∧ v_seid_validate x = Some part) (is_granted s').
Proof.
  intros Hi Hrun Hn. destruct (seid_run_inv n s s' Hrun Hn (seid_initial_inv s Hi)) as (c&_&_&Hnd&Hb).
  unfold seid_items in *. apply NoDup_app in Hnd as [Hnd _]. apply Forall_app in Hb as [Hb _].
  split; [done|]. eapply Forall_impl; [exact Hb|]. intros x (l&Hl&He).
  pose proof (v_seid_encode_fields part l x ltac:(lia) ltac:(lia) He) as [Hp _].
  pose proof (v_seid_encode_Some part l x ltac:(lia) ltac:(lia) He) as (_&?&->&?&?).
  split; [done|]. rewrite v_seid_validate_spec by done. unfold V_NUM_PARTS in *.
  rewrite (proj2 (Z.leb_le _ _)), (proj2 (Z.ltb_lt _ _)) by u_lia. cbn. by rewrite Hp.
Qed.
End system.
