(* ===== verification/IdTeid.v ===== *)
(** TEID allocation across pods: block leases and the recycled free list of a
    partition, served by the refill script; per-pod rings; TEIDs held by
    sessions; frees and replies in flight, any of which may be lost. *)
From S2P Require Import Prelude Seid Dpdk Heap Redis Scripts World DbScript SessStore IdAlloc.
From S2P Require Import Flow Pod Server Preserve SessCas IdUnique.
Import ListDpdk MapServer FixedSha.

(** ** Keys *)

Lemma part_dec_length p : 0 <= p < V_NUM_PARTS → (length (dec p) ≤ 4)%nat.
Proof. intros Hp. apply dec_length; [|lia]. change (10 ^ Z.of_nat 4) with 10000. unfold V_NUM_PARTS in Hp. lia. Qed.

Lemma teid_free_key_full p : 0 <= p < V_NUM_PARTS → teid_free_key p = $"vpe:teid:" ++ dec p ++ $":free".
Proof.
  intros Hp. apply snprintf_fits. rewrite !length_app. pose proof (part_dec_length p Hp). cbn [length lit String.list_ascii_of_string]. lia.
Qed.

Lemma teid_next_key_full p : 0 <= p < V_NUM_PARTS → teid_next_key p = $"vpe:teid:" ++ dec p ++ $":next".
Proof.
  intros Hp. apply snprintf_fits. rewrite !length_app. pose proof (part_dec_length p Hp). cbn [length lit String.list_ascii_of_string]. lia.
Qed.

Lemma teid_keys_differ p : 0 <= p < V_NUM_PARTS → teid_free_key p ≠ teid_next_key p.
Proof.
  intros Hp. rewrite teid_free_key_full, teid_next_key_full by done. intros H. by repeat apply app_inv_head in H.
Qed.

(** ** The ring of a pod *)

Section ring.
Context {DP : Dpdk} {PP : PfcpPort}.
Variable part : Z.
Hypothesis Hpart : 0 <= part < V_NUM_PARTS.

Definition teid_ring_list (w : world) : list Z :=
  match g_teid_ring (w_ids w) !! part with Some r => ring_items r | None => [] end.

(** A TEID of the partition. *)
Definition teid_of (t : Z) : Prop := ∃ l, 0 <= l ∧ v_teid_encode part l = Some t.

(** The local indices a refill reply carries. *)
Definition reply_locals (reply : v_db_reply) : list Z :=
  match reply with
  | V_DB_REPLY_ARRAY (V_DB_REPLY_STRING tag :: l) =>
      if decide (tag = $"range") then
        match l with
        | [b; c] =>
            match parse_u64 b, parse_u64 c with
            | Some base, Some count => (λ i : nat, u64 (base + Z.of_nat i)) <$> seq 0 (Z.to_nat count)
            | _, _ => []
            end
        | _ => []
        end
      else if decide (tag = $"list") then omap parse_u64 l
      else []
  | _ => []
  end.

Definition enqueue_all (ls : list Z) (r : rte_ring) : rte_ring := foldl (λ r l, enqueue_teid part l r) r ls.

Lemma enqueue_range_all base n : ∀ a r,
  enqueue_range part base (Z.of_nat a) n r = enqueue_all ((λ i : nat, u64 (base + Z.of_nat i)) <$> seq a n) r.
Proof.
  induction n as [|n IH]; intros a r; [done|]. cbn [enqueue_range seq fmap list_fmap].
  replace (Z.of_nat a + 1) with (Z.of_nat (S a)) by lia. by rewrite IH.
Qed.

Lemma enqueue_list_all l : ∀ r, enqueue_list part l r = enqueue_all (omap parse_u64 l) r.
Proof. induction l as [|e l IH]; intros r; [done|]. cbn. rewrite IH. by destruct (parse_u64 e). Qed.

Lemma enqueue_teid_items l r :
  0 <= l < 2 ^ 32 → ∃ add, ring_items (enqueue_teid part l r) = ring_items r ++ add ∧
    (v_teid_local <$> add) ⊆+ [l] ∧ Forall teid_of add.
Proof.
  intros Hl. unfold enqueue_teid. rewrite u32_small by done.
  assert (∃ add : list Z, ring_items r = ring_items r ++ add ∧ (v_teid_local <$> add) ⊆+ [l] ∧ Forall teid_of add) as Hno.
  { exists []. rewrite app_nil_r. split; [done|]. split; [apply submseteq_nil_l|constructor]. }
  destruct (v_teid_encode part l) as [t|] eqn:E; [|done].
  destruct (rte_ring_enqueue r t) as [r'|] eqn:Er; cbn [default]; [|done].
  apply ring_enqueue_inv in Er as (Hi&_&_). exists [t]. split; [exact Hi|]. cbn.
  pose proof (v_teid_encode_fields part l t ltac:(lia) ltac:(lia) E) as [_ ->].
  split; [done|]. repeat constructor. exists l. split; [lia|done].
Qed.

Lemma enqueue_all_items ls : ∀ r, Forall (λ l, 0 <= l < 2 ^ 32) ls →
  ∃ add, ring_items (enqueue_all ls r) = ring_items r ++ add ∧ (v_teid_local <$> add) ⊆+ ls ∧ Forall teid_of add.
Proof.
  induction ls as [|l ls IH]; intros r; intros Hls.
  { exists []. rewrite app_nil_r. split; [done|]. split; [done|constructor]. }
  apply Forall_cons in Hls as [Hl Hls]. cbn [enqueue_all foldl].
  destruct (enqueue_teid_items l r Hl) as (add1&H1&Hs1&Hf1).
  destruct (IH (enqueue_teid part l r) Hls) as (add2&H2&Hs2&Hf2). unfold enqueue_all in H2.
  exists (add1 ++ add2). rewrite H2, H1, <- app_assoc. split; [done|]. split; [|by apply Forall_app].
  rewrite fmap_app. change (l :: ls) with ([l] ++ ls). by apply submseteq_app.
Qed.

Lemma teid_refill_ring_items reply r r' :
  teid_refill_ring part (Some reply) r = Some r' → Forall (λ l, 0 <= l < 2 ^ 32) (reply_locals reply) →
  ∃ add, ring_items r' = ring_items r ++ add ∧ (v_teid_local <$> add) ⊆+ reply_locals reply ∧ Forall teid_of add.
Proof.
  unfold teid_refill_ring, reply_locals. destruct reply as [| | | |els|]; try done.
  destruct els as [|[| | |tag| |] l]; try done. case_decide.
  - destruct l as [|b [|c [|]]]; try done. destruct (parse_u64 b) as [base|]; [|done].
    destruct (parse_u64 c) as [count|]; [|done]. cbn [mbind option_bind]. change 0 with (Z.of_nat 0) at 1.
    rewrite enqueue_range_all. intros [= <-]. apply enqueue_all_items.
  - case_decide; [|done]. rewrite enqueue_list_all. intros [= <-]. apply enqueue_all_items.
Qed.

Lemma teid_deliver_items status reply w w' :
  teid_refill_reply_cb part status (Some reply) w = Some (tt, w') → Forall (λ l, 0 <= l < 2 ^ 32) (reply_locals reply) →
  ∃ add, teid_ring_list w' = teid_ring_list w ++ add ∧ (v_teid_local <$> add) ⊆+ reply_locals reply ∧ Forall teid_of add.
Proof.
  intros Hr Hls. assert (∀ w1 : world, g_teid_ring (w_ids w1) = g_teid_ring (w_ids w) →
    ∃ add, teid_ring_list w1 = teid_ring_list w ++ add ∧ (v_teid_local <$> add) ⊆+ reply_locals reply ∧ Forall teid_of add) as Hno.
  { intros w1 H1. exists []. unfold teid_ring_list. rewrite H1, app_nil_r. split; [done|].
    split; [apply submseteq_nil_l|constructor]. }
  revert Hr. unfold teid_refill_reply_cb, mbind, SM_bind. cbn [clear_teid_inflight ids_modify modify].
  destruct (negb (status =? RET_CODE_OK)); [intros [= <-]; by apply Hno|].
  unfold teid_ring. cbn [w_ids set_ids ids_set_teid_inflight g_teid_ring].
  destruct (g_teid_ring (w_ids w) !! part) as [r|] eqn:E; [|done].
  destruct (teid_refill_ring part (Some reply) r) as [r'|] eqn:Er.
  2: { intros [= <-]. by apply Hno. }
  intros [= <-]. destruct (teid_refill_ring_items reply r r' Er Hls) as (add&Hi&Hadd).
  exists add. split; [|done]. unfold teid_ring_list. cbn [w_ids set_ids ids_set_teid_ring g_teid_ring].
  by rewrite lookup_insert_eq, E.
Qed.

(** *** Allocation *)

Definition teid_rings (ρ : gmap Z rte_ring) (w : world) : Prop := g_teid_ring (w_ids w) = ρ.

Lemma cmd_teid_rings ρ s cb argv : preserves (teid_rings ρ) (v_port_db_cmd_argv s cb argv).
Proof. unfold v_port_db_cmd_argv. pres_prim. Qed.

Lemma failed_refill_rings ρ : preserves (teid_rings ρ) (iu (fp_teid_refill_reply_cb part) RET_CODE_ERR None).
Proof. intros w a w' Hw. unfold iu. cbn. by intros [= _ <-]. Qed.

Lemma evalsha_teid_rings ρ s id keys argv :
  preserves (teid_rings ρ) (v_db_evalsha iu s id keys argv (fp_teid_refill_reply_cb part)).
Proof.
  intros w a w' Hw. unfold v_db_evalsha. case_match; [by intros [= _ <-]|].
  destruct (if V_STUB_DB_SHARDS <=? s then None else sha_cached (w_script w) s id) as [sha|]; [|by intros [= _ <-]].
  destruct (rte_mempool_get _) as [[o pool]|]; [|by intros [= _ <-]]. cbv zeta.
  destruct (scratch_copy_all _ _); [|by intros [= _ <-]].
  match goal with |- ?m ?w1 = _ → _ => assert (preserves (teid_rings ρ) m) as Hm; [|intros Hr; eapply Hm, Hr; exact Hw] end.
  apply preserves_bind; [|intros _; apply preserves_ret]. unfold issue_evalsha. apply preserves_bind; [apply cmd_teid_rings|].
  intros rc. apply preserves_when. cbn [ep_user]. apply preserves_bind; [apply failed_refill_rings|].
  intros _. by apply preserves_modify.
Qed.

Lemma teid_maybe_refill_rings ρ : preserves (teid_rings ρ) (teid_maybe_refill iu part).
Proof.
  unfold teid_maybe_refill. apply preserves_bind; [unfold teid_ring; pres_prim|]. intros r.
  apply preserves_bind; [apply preserves_gets|]. intros a. case_match; [apply preserves_ret|].
  case_decide; [apply preserves_ret|]. apply preserves_bind; [by apply preserves_modify|]. intros _. cbv zeta.
  apply preserves_bind.
  - case_decide; [apply preserves_ret|]. apply preserves_bind; [by apply preserves_modify|]. intros _. apply cmd_teid_rings.
  - intros _. apply preserves_bind; [apply evalsha_teid_rings|]. intros rc. apply preserves_when. by apply preserves_modify.
Qed.

(** v_teid_alloc hands out the oldest queued TEID, or 0. *)
Lemma teid_alloc_ring_list t w w' :
  v_teid_alloc iu part w = Some (t, w') → Forall teid_of (teid_ring_list w) →
  (teid_ring_list w = t :: teid_ring_list w' ∧ t ≠ 0) ∨ (t = 0 ∧ teid_ring_list w' ⊆+ teid_ring_list w).
Proof.
  unfold v_teid_alloc, mbind, SM_bind. destruct (teid_maybe_refill iu part w) as [[[] w1]|] eqn:E; [|done].
  apply (teid_maybe_refill_rings (g_teid_ring (w_ids w))) in E; [|done]. unfold teid_rings in E.
  unfold teid_ring, teid_ring_list. rewrite E.
  destruct (g_teid_ring (w_ids w) !! part) as [r|] eqn:Er; [|done].
  destruct (rte_ring_dequeue r) as [[x r']|] eqn:Ed.
  - cbn [ids_modify modify]. intros [= <- <-]. cbn [w_ids set_ids ids_set_teid_ring g_teid_ring].
    rewrite lookup_insert_eq. apply ring_dequeue_inv in Ed as [-> _]. intros [(l&Hl&He) _]%Forall_cons.
    apply v_teid_encode_Some in He as (_&_&_&Hu&H0); [|lia..]. rewrite u32_small by done. by left.
  - intros [= <- <-] _. right. by rewrite E, Er.
Qed.

(** The command a free hands to the shard, when it is accepted. *)
Lemma teid_free_effect t w w' :
  v_teid_free part t w = Some (tt, w') →
  teid_ring_list w' = teid_ring_list w ∧
  ∃ cmds, db_queue (w_db w') = db_queue (w_db w) ++ cmds ∧
    (cmds = [] ∨ dc_argv <$> cmds = [[$"RPUSH"; teid_free_key part; dec (v_teid_local t)]]).
Proof.
  unfold v_teid_free, v_port_db_cmd, v_port_db_cmd_argv, mbind, SM_bind.
  destruct (orb _ _); [intros [= <-]; split; [done|]; exists []; rewrite app_nil_r; by split; [|left]|].
  destruct (rte_mempool_get _) as [[o pool]|]; [|intros [= <-]; split; [done|]; exists []; rewrite app_nil_r; by split; [|left]].
  destruct (db_accept _ _); intros [= <-]; (split; [done|]).
  - eexists. split; [done|by right].
  - exists []. rewrite app_nil_r. by split; [|left].
Qed.
End ring.

(** ** The shard side: counter, free list and the commands on them *)

Section shard_side.
Context {R : Redis} {L : Lua} {SS : ScriptSha}.
Variable part : Z.
Hypothesis Hpart : 0 <= part < V_NUM_PARTS.

Definition next_at (sh : shard) (c : Z) : Prop :=
  (rview (sh_store sh) !! teid_next_key part = None ∧ c = 0) ∨
  (∃ ttl, rview (sh_store sh) !! teid_next_key part = Some (VStr (dec c), ttl)).

Definition free_at (sh : shard) (ls : list Z) : Prop :=
  ∃ ttl, as_list (rview (sh_store sh) !! teid_free_key part) = Some (dec <$> ls, ttl).

Definition refill_argv : list bytes :=
  evalsha_argv (script_sha V_SCRIPT_TEID_REFILL) [teid_free_key part; teid_next_key part]
    [dec V_ID_BLK_SIZE; dec V_TEID_FREE_FLOOR].
Definition seed_argv : list bytes := [$"SETNX"; teid_next_key part; $"1"].
Definition rpush_argv (l : Z) : list bytes := [$"RPUSH"; teid_free_key part; dec l].

(** The block [c, c'). *)
Definition block (c c' : Z) : list Z := (λ i : nat, c + Z.of_nat i) <$> seq 0 (Z.to_nat (c' - c)).

Lemma block_nil c : block c c = [].
Proof. unfold block. by replace (c - c) with 0 by lia. Qed.

Lemma block_elem c c' x : x ∈ block c c' → c <= x < c'.
Proof. unfold block. rewrite list_elem_of_fmap. intros (i&->&Hi%elem_of_seq). lia. Qed.

Lemma block_NoDup c c' : NoDup (block c c').
Proof. unfold block. apply NoDup_fmap_2_strong; [|apply NoDup_seq]. intros; lia. Qed.

Lemma omap_parse_dec ls :
  Forall (λ l, 0 <= l < 2 ^ 32) ls → omap parse_u64 (V_DB_REPLY_STRING <$> (dec <$> ls)) = ls.
Proof.
  induction 1 as [|l ls Hl _ IH]; [done|]. cbn. rewrite parse_buf_dec by (u_lia || lia). by rewrite <- IH at 2.
Qed.

Lemma refill_script_range s l ttl c :
  as_list (rview s !! teid_free_key part) = Some (l, ttl) → next_at (Shard s (λ _, true)) c →
  Z.of_nat (length l) <= V_TEID_FREE_FLOOR → 0 <= c → c + V_ID_BLK_SIZE < 2 ^ 32 →
  ∃ s', lua_teid_refill (teid_free_key part) (teid_next_key part) (dec V_ID_BLK_SIZE) (dec V_TEID_FREE_FLOOR) s =
      (inr (V_DB_REPLY_ARRAY [V_DB_REPLY_STRING $"range"; V_DB_REPLY_STRING (dec c); V_DB_REPLY_STRING (dec V_ID_BLK_SIZE)]), s') ∧
    ∃ ttl', rview s' = <[teid_next_key part := (VStr (dec (c + V_ID_BLK_SIZE)), ttl')]> (rview s).
Proof.
  intros Hl [[Hk ->]|[nttl Hk]] Hlen Hc Hb.
  - unfold lua_teid_refill. rewrite (script_bind_inr _ _ _ _ _ (llen_call s _ l ttl Hl)).
    rewrite (script_bind_inr _ _ _ _ _ (lua_coerce_dec V_TEID_FREE_FLOOR s ltac:(done))).
    cbn [lua_integer]. rewrite (proj2 (Z.ltb_ge _ _)) by lia.
    destruct (incrby_law s (teid_next_key part) V_ID_BLK_SIZE ltac:(done)) as [_ Hinc].
    destruct (Hinc Hk eq_refl) as (s'&He&Hv).
    assert (redis_call [$"INCRBY"; teid_next_key part; dec V_ID_BLK_SIZE] s = (inr (V_DB_REPLY_INTEGER V_ID_BLK_SIZE), s')) as Hi.
    { by eapply redis_call_inr. }
    exists s'. split; [|by exists None]. erewrite script_bind_inr; [|done]. cbv beta iota.
    rewrite (script_bind_inr _ _ _ _ _ Hi), (script_bind_inr _ _ _ _ _ (lua_coerce_dec V_ID_BLK_SIZE s' ltac:(done))).
    cbn [lua_integer]. by rewrite (lua_round_law V_ID_BLK_SIZE), lua_round_law, lua_tostring_law by done.
  - destruct (lua_teid_refill_range s _ _ l ttl c nttl V_ID_BLK_SIZE V_TEID_FREE_FLOOR Hl Hk) as (s'&He&Hv); try done.
    + change (2 ^ 32) with 4294967296 in Hb. change (10 ^ 14) with 100000000000000. lia.
    + exists s'. split; [done|by exists nttl].
Qed.

Lemma next_at_ext sh sh' c :
  rview (sh_store sh') !! teid_next_key part = rview (sh_store sh) !! teid_next_key part → next_at sh c → next_at sh' c.
Proof. unfold next_at. by intros ->. Qed.

Lemma free_at_ext sh sh' ls :
  rview (sh_store sh') !! teid_free_key part = rview (sh_store sh) !! teid_free_key part → free_at sh ls → free_at sh' ls.
Proof. unfold free_at. by intros ->. Qed.

(** A refill moves indices from the free list and the counter to its reply. *)
Lemma serve_refill sh c ls reply sh' :
  next_at sh c → free_at sh ls → 0 <= c → c + V_ID_BLK_SIZE < 2 ^ 32 → Forall (λ l, 0 <= l < 2 ^ 32) ls →
  serve refill_argv sh = (reply, sh') →
  ∃ c' ls', c <= c' <= c + V_ID_BLK_SIZE ∧ next_at sh' c' ∧ free_at sh' ls' ∧
    reply_locals reply ++ ls' ≡ₚ block c c' ++ ls.
Proof.
  intros Hn [ttl Hf] Hc Hb Hls. unfold refill_argv.
  destruct (sh_loaded sh V_SCRIPT_TEID_REFILL) eqn:El.
  2: { rewrite serve_noscript by done. intros [= <- <-]. exists c, ls. unfold V_ID_BLK_SIZE. split; [lia|].
       split; [done|]. split; [by exists ttl|]. by rewrite block_nil. }
  set (s := sh_store sh) in *.
  destruct (decide (V_TEID_FREE_FLOOR < Z.of_nat (length ls))) as [Hgt|Hle].
  - destruct (lua_teid_refill_list s (teid_free_key part) (teid_next_key part) (dec <$> ls) ttl V_ID_BLK_SIZE V_TEID_FREE_FLOOR Hf)
      as (s'&Hr&[ttl' Hf']&Ho); [done|done|by rewrite length_fmap|].
    rewrite (serve_evalsha sh V_SCRIPT_TEID_REFILL _ _ (V_DB_REPLY_ARRAY (V_DB_REPLY_STRING $"list" :: (V_DB_REPLY_STRING <$> take (Z.to_nat V_ID_BLK_SIZE) (dec <$> ls)))) s' El); [|cbn; lia|cbn [run_script]; fold s; by rewrite Hr].
    intros [= <- <-]. exists c, (drop (Z.to_nat V_ID_BLK_SIZE) ls). rewrite block_nil.
    split; [unfold V_ID_BLK_SIZE; lia|]. split.
    { eapply next_at_ext, Hn. cbn [sh_store]. apply Ho. intros H. by apply (teid_keys_differ part). }
    split; [exists ttl'; cbn [sh_store]; by rewrite fmap_drop|]. cbn [reply_locals].
    rewrite decide_False by done. rewrite decide_True by done.
    rewrite <- fmap_take, omap_parse_dec by (by apply Forall_take). by rewrite take_drop.
  - destruct (refill_script_range s (dec <$> ls) ttl c Hf) as (s'&Hr&ttl'&Hv); [done|rewrite length_fmap; lia|done|done|].
    rewrite (serve_evalsha sh V_SCRIPT_TEID_REFILL _ _ (V_DB_REPLY_ARRAY [V_DB_REPLY_STRING $"range"; V_DB_REPLY_STRING (dec c); V_DB_REPLY_STRING (dec V_ID_BLK_SIZE)]) s' El); [|cbn; lia|cbn [run_script]; fold s; by rewrite Hr].
    intros [= <- <-]. exists (c + V_ID_BLK_SIZE), ls. split; [unfold V_ID_BLK_SIZE; lia|]. split.
    { right. exists ttl'. cbn [sh_store]. by rewrite Hv, lookup_insert_eq. }
    split.
    { exists ttl. cbn [sh_store]. rewrite Hv, lookup_insert_ne by (intros H; by apply (teid_keys_differ part)). done. }
    cbn [reply_locals]. rewrite decide_True by done. unfold parse_u64. rewrite !parse_buf_dec by (done || lia || (unfold V_ID_BLK_SIZE in *; u_lia)).
    unfold block. replace (c + V_ID_BLK_SIZE - c) with V_ID_BLK_SIZE by lia. apply Permutation_app_tail.
    apply reflexive_eq, list_fmap_ext. intros i x Hx%lookup_seq. apply u64_small. unfold V_ID_BLK_SIZE in *. u_lia.
Qed.

(** A served free appends the index to the free list. *)
Lemma serve_rpush sh l ls reply sh' c :
  next_at sh c → free_at sh ls → serve (rpush_argv l) sh = (reply, sh') →
  next_at sh' c ∧ free_at sh' (ls ++ [l]).
Proof.
  intros Hn [ttl Hf]. unfold serve, rpush_argv. rewrite decide_False by done. rewrite decide_False by (by intros []).
  destruct (rpush_law (sh_store sh) (teid_free_key part) (dec l) (dec <$> ls) ttl Hf) as (s'&He&Hv). rewrite He.
  intros [= <- <-]. split.
  - eapply next_at_ext, Hn. cbn [sh_store]. rewrite Hv. unfold put_list.
    destruct ((dec <$> ls) ++ [dec l]); [rewrite lookup_delete_ne|rewrite lookup_insert_ne]; try done; by apply teid_keys_differ.
  - exists ttl. cbn [sh_store]. rewrite Hv, fmap_app. cbn [fmap list_fmap]. unfold put_list.
    destruct (_ ++ _) as [|x xs] eqn:E; [by apply app_nil in E as [_ ?]|]. by rewrite lookup_insert_eq.
Qed.

(** The seed moves an absent counter to 1. *)
Lemma serve_seed sh reply sh' c ls :
  next_at sh c → free_at sh ls → serve seed_argv sh = (reply, sh') → 
  ∃ c', c <= c' <= Z.max c 1 ∧ next_at sh' c' ∧ free_at sh' ls.
Proof.
  intros Hn Hf. unfold serve, seed_argv. rewrite decide_False by done. rewrite decide_False by (by intros []).
  destruct (setnx_law (sh_store sh) (teid_next_key part) $"1") as (s'&He&Hv). rewrite He. intros [= <- <-].
  assert (free_at (Shard s' (sh_loaded sh)) ls) as Hf'.
  { eapply free_at_ext, Hf. cbn [sh_store]. rewrite Hv. case_match; [done|].
    by rewrite lookup_insert_ne by (intros H'; by apply (teid_keys_differ part)). }
  destruct Hn as [[Hk ->]|[ttl Hk]]; rewrite Hk in Hv.
  - exists 1. split; [lia|]. split; [|done]. right. exists None. cbn [sh_store]. by rewrite Hv, lookup_insert_eq.
  - exists c. split; [lia|]. split; [|done]. right. exists ttl. cbn [sh_store]. by rewrite Hv.
Qed.
End shard_side.

(** ** The system *)

Section system.
Context {DP : Dpdk} {PP : PfcpPort} {R : Redis} {L : Lua} {SS : ScriptSha}.
Variable part : Z.

Record teid_system := TeidSystem {
  ts_pods : list world;            (* the pods *)
  ts_shard : shard;                (* the shard of shard_for_part(part) *)
  ts_flight : list v_db_reply;     (* refill replies on their way *)
  ts_live : list Z;                (* TEIDs allocated and not yet freed *)
  ts_freeing : list (list bytes);  (* RPUSH commands on their way *)
}.

(** The commands a step added to a pod's queue. *)
Definition queued (w w' : world) : list (list bytes) :=
  dc_argv <$> drop (length (db_queue (w_db w))) (db_queue (w_db w')).

Inductive teid_step : teid_system → teid_system → Prop :=
  | teid_alloc_step pods1 w pods2 sh fl lv fr t w' :
      v_teid_alloc iu part w = Some (t, w') →
      teid_step (TeidSystem (pods1 ++ w :: pods2) sh fl lv fr)
                (TeidSystem (pods1 ++ w' :: pods2) sh fl (if t =? 0 then lv else t :: lv) fr)
  | teid_free_step pods1 w pods2 sh fl lv1 t lv2 fr w' :
      (* a session gives its TEID back, from any pod *)
      v_teid_free part t w = Some (tt, w') →
      teid_step (TeidSystem (pods1 ++ w :: pods2) sh fl (lv1 ++ t :: lv2) fr)
                (TeidSystem (pods1 ++ w' :: pods2) sh fl (lv1 ++ lv2) (queued w w' ++ fr))
  | teid_rpush_step pods sh fl lv fr1 argv fr2 reply sh' :
      serve argv sh = (reply, sh') →
      teid_step (TeidSystem pods sh fl lv (fr1 ++ argv :: fr2)) (TeidSystem pods sh' fl lv (fr1 ++ fr2))
  | teid_rpush_lost_step pods sh fl lv fr1 argv fr2 :
      teid_step (TeidSystem pods sh fl lv (fr1 ++ argv :: fr2)) (TeidSystem pods sh fl lv (fr1 ++ fr2))
  | teid_refill_step pods sh fl lv fr reply sh' :
      serve (refill_argv part) sh = (reply, sh') →
      teid_step (TeidSystem pods sh fl lv fr) (TeidSystem pods sh' (reply :: fl) lv fr)
  | teid_seed_step pods sh fl lv fr reply sh' :
      serve (seed_argv part) sh = (reply, sh') →
      teid_step (TeidSystem pods sh fl lv fr) (TeidSystem pods sh' fl lv fr)
  | teid_deliver_step pods1 w pods2 sh fl1 reply fl2 lv fr w' :
      teid_refill_reply_cb part RET_CODE_OK (Some reply) w = Some (tt, w') →
      teid_step (TeidSystem (pods1 ++ w :: pods2) sh (fl1 ++ reply :: fl2) lv fr)
                (TeidSystem (pods1 ++ w' :: pods2) sh (fl1 ++ fl2) lv fr)
  | teid_lost_step pods sh fl1 reply fl2 lv fr :
      teid_step (TeidSystem pods sh (fl1 ++ reply :: fl2) lv fr) (TeidSystem pods sh (fl1 ++ fl2) lv fr)
  | teid_local_step pods1 w pods2 sh fl lv fr w' :
      (* anything else a pod does, and a restart, which empties its rings *)
      teid_ring_list part w' = teid_ring_list part w ∨ teid_ring_list part w' = [] →
      teid_step (TeidSystem (pods1 ++ w :: pods2) sh fl lv fr) (TeidSystem (pods1 ++ w' :: pods2) sh fl lv fr)
  | teid_shard_step pods sh fl lv fr sh' :
      (* any command on other keys, and SCRIPT LOAD or FLUSH *)
      (∀ k, k = teid_free_key part ∨ k = teid_next_key part → rview (sh_store sh') !! k = rview (sh_store sh) !! k) →
      teid_step (TeidSystem pods sh fl lv fr) (TeidSystem pods sh' fl lv fr).

Inductive teid_run : nat → teid_system → teid_system → Prop :=
  | teid_run_nil s : teid_run 0 s s
  | teid_run_snoc n s s1 s' : teid_run n s s1 → teid_step s1 s' → teid_run (S n) s s'.

Definition teid_initial (s : teid_system) : Prop :=
  ts_live s = [] ∧ ts_flight s = [] ∧ ts_freeing s = [] ∧ Forall (λ w, teid_ring_list part w = []) (ts_pods s) ∧
  rview (sh_store (ts_shard s)) !! teid_next_key part = None ∧
  rview (sh_store (ts_shard s)) !! teid_free_key part = None.

(** *** The invariant: every local index of [0, c) is in at most one place *)

Definition pod_teids (s : teid_system) : list Z := concat (teid_ring_list part <$> ts_pods s).
Definition freed (fr : list (list bytes)) : list Z := omap (λ argv, match argv with [_; _; x] => Some (strtoull x) | _ => None end) fr.

Definition places (s : teid_system) (ls : list Z) : list Z :=
  (v_teid_local <$> ts_live s) ++ (v_teid_local <$> pod_teids s) ++ concat (reply_locals <$> ts_flight s) ++
  freed (ts_freeing s) ++ ls.

Definition rpush_of (argv : list bytes) : Prop := ∃ l, 0 <= l < 2 ^ 32 ∧ argv = rpush_argv part l.

Record teid_inv_at (s : teid_system) (c : Z) (ls : list Z) : Prop := {
  ti_next : next_at part (ts_shard s) c;
  ti_free : free_at part (ts_shard s) ls;
  ti_teids : Forall (teid_of part) (ts_live s ++ pod_teids s);
  ti_rpush : Forall rpush_of (ts_freeing s);
  ti_nodup : NoDup (places s ls);
  ti_below : Forall (λ l, 0 <= l < c) (places s ls);
}.

Definition teid_inv (b : Z) (s : teid_system) : Prop := ∃ c ls, 0 <= c <= b ∧ teid_inv_at s c ls.

Hypothesis Hpart : 0 <= part < V_NUM_PARTS.

Lemma pod_split (pods1 pods2 : list world) w :
  concat (teid_ring_list part <$> (pods1 ++ w :: pods2)) ≡ₚ
    teid_ring_list part w ++ concat (teid_ring_list part <$> pods1) ++ concat (teid_ring_list part <$> pods2).
Proof. rewrite fmap_app, concat_app. cbn. solve_Permutation. Qed.

Lemma flights_split fl1 reply fl2 :
  concat (reply_locals <$> (fl1 ++ reply :: fl2)) ≡ₚ reply_locals reply ++ concat (reply_locals <$> (fl1 ++ fl2)).
Proof. rewrite !fmap_app, !concat_app. cbn. solve_Permutation. Qed.

(** A step that only moves or drops indices. *)
Lemma teid_shrink s s' c c' ls ls' :
  teid_inv_at s c ls → c <= c' → next_at part (ts_shard s') c' → free_at part (ts_shard s') ls' →
  Forall (teid_of part) (ts_live s' ++ pod_teids s') → Forall rpush_of (ts_freeing s') →
  places s' ls' ⊆+ places s ls → teid_inv_at s' c' ls'.
Proof.
  intros Hi Hc Hn Hf Ht Hr Hsub. split; try done.
  - eapply submseteq_NoDup, ti_nodup; [exact Hsub|exact Hi].
  - eapply Forall_impl; [eapply submseteq_Forall, ti_below; [exact Hsub|exact Hi]|]. cbn. lia.
Qed.

(** The same when counter and free list do not change. *)
Lemma teid_shrink_same b s s' c ls :
  0 <= c <= b → teid_inv_at s c ls → ts_shard s' = ts_shard s →
  Forall (teid_of part) (ts_live s' ++ pod_teids s') → Forall rpush_of (ts_freeing s') →
  places s' ls ⊆+ places s ls → teid_inv (b + V_ID_BLK_SIZE) s'.
Proof.
  intros Hb Hi Hsh Ht Hr Hsub. exists c, ls. split; [unfold V_ID_BLK_SIZE; lia|].
  eapply teid_shrink; try done; rewrite ?Hsh; [apply Hi|apply Hi].
Qed.

Lemma teid_below32 b s c ls x : teid_inv_at s c ls → c <= b → b < 2 ^ 32 → x ⊆+ places s ls → Forall (λ l, 0 <= l < 2 ^ 32) x.
Proof.
  intros Hi Hc Hb Hx. eapply Forall_impl; [eapply submseteq_Forall, ti_below; [exact Hx|exact Hi]|]. cbn. lia.
Qed.

Lemma pod_teids_eq pods sh fl lv fr : pod_teids (TeidSystem pods sh fl lv fr) = concat (teid_ring_list part <$> pods).
Proof. done. Qed.

Lemma teids_local_step pods1 w w' pods2 sh sh' fl fl' lv fr fr' :
  teid_ring_list part w' = teid_ring_list part w ∨ teid_ring_list part w' = [] →
  Forall (teid_of part) (lv ++ pod_teids (TeidSystem (pods1 ++ w :: pods2) sh fl lv fr)) →
  Forall (teid_of part) (lv ++ pod_teids (TeidSystem (pods1 ++ w' :: pods2) sh' fl' lv fr')).
Proof.
  intros Hw. rewrite !pod_teids_eq, !pod_split, !Forall_app. intros (?&?&?&?).
  destruct Hw as [->| ->]; [done|]. by repeat split; [|constructor| |].
Qed.

Lemma teid_alloc_inv b pods1 w pods2 sh fl lv fr t w' :
  v_teid_alloc iu part w = Some (t, w') →
  teid_inv b (TeidSystem (pods1 ++ w :: pods2) sh fl lv fr) →
  teid_inv (b + V_ID_BLK_SIZE) (TeidSystem (pods1 ++ w' :: pods2) sh fl (if t =? 0 then lv else t :: lv) fr).
Proof.
  intros Ha (c&ls&Hc&Hi). pose proof (ti_teids _ _ _ Hi) as Ht. pose proof (ti_rpush _ _ _ Hi) as Hr.
  cbn [ts_live ts_freeing] in *. rewrite pod_teids_eq, pod_split, !Forall_app in Ht. destruct Ht as (Hlv&Hw&H1&H2).
  destruct (teid_alloc_ring_list part Hpart t w w' Ha Hw) as [[Heq Hne]|[-> Hsub]].
  - rewrite (proj2 (Z.eqb_neq t 0)) by done. rewrite Heq in Hw. apply Forall_cons in Hw as [Ht Hw].
    eapply teid_shrink_same; try done; cbn [ts_live ts_freeing].
    + rewrite pod_teids_eq, pod_split, !Forall_app. repeat split; try done. by constructor.
    + unfold places. cbn [ts_live ts_flight ts_freeing]. rewrite !pod_teids_eq, !pod_split, Heq, !fmap_app.
      cbn [fmap list_fmap]. apply Permutation_submseteq. solve_Permutation.
  - cbn [Z.eqb]. eapply teid_shrink_same; try done; cbn [ts_live ts_freeing].
    + rewrite pod_teids_eq, pod_split, !Forall_app. repeat split; try done. by eapply submseteq_Forall.
    + unfold places. cbn [ts_live ts_flight ts_freeing]. rewrite !pod_teids_eq, !pod_split, !fmap_app.
      apply submseteq_skips_l, submseteq_skips_r, submseteq_skips_r. by apply fmap_submseteq.
Qed.

Lemma queued_free w w' t :
  v_teid_free part t w = Some (tt, w') → queued w w' = [] ∨ queued w w' = [rpush_argv part (v_teid_local t)].
Proof.
  intros H. destruct (teid_free_effect part t w w' H) as (_&cmds&Hq&Hc). unfold queued.
  rewrite Hq, drop_app_length. destruct Hc as [->|Hc]; [by left|right; exact Hc].
Qed.

Lemma teid_free_inv b pods1 w pods2 sh fl lv1 t lv2 fr w' :
  v_teid_free part t w = Some (tt, w') →
  teid_inv b (TeidSystem (pods1 ++ w :: pods2) sh fl (lv1 ++ t :: lv2) fr) →
  teid_inv (b + V_ID_BLK_SIZE) (TeidSystem (pods1 ++ w' :: pods2) sh fl (lv1 ++ lv2) (queued w w' ++ fr)).
Proof.
  intros Ha (c&ls&Hc&Hi). pose proof (ti_teids _ _ _ Hi) as Ht. pose proof (ti_rpush _ _ _ Hi) as Hr.
  destruct (teid_free_effect part t w w' Ha) as (Hring&_). cbn [ts_live ts_freeing] in *.
  assert (0 <= v_teid_local t < 2 ^ 32) as Hl.
  { rewrite v_teid_local_mod. u_lia. }
  rewrite Forall_app in Ht. destruct Ht as [[Hl1 [Ht Hl2]%Forall_cons]%Forall_app Hp].
  eapply teid_shrink_same; try done; cbn [ts_live ts_freeing].
  - apply Forall_app. split; [by apply Forall_app|]. revert Hp. rewrite !pod_teids_eq, !pod_split. by rewrite Hring.
  - apply Forall_app. split; [|done].
    destruct (queued_free w w' t Ha) as [->| ->]; [constructor|]. repeat constructor. by exists (v_teid_local t).
  - unfold places. cbn [ts_live ts_flight ts_freeing]. rewrite !pod_teids_eq, !pod_split, Hring, !fmap_app.
    cbn [fmap list_fmap]. destruct (queued_free w w' t Ha) as [->| ->]; cbn [app freed omap list_omap rpush_argv].
    + apply submseteq_skips_r, submseteq_skips_l. by apply submseteq_cons.
    + rewrite strtoull_dec by u_lia. apply Permutation_submseteq. fold (freed fr). solve_Permutation.
Qed.

Lemma freed_split fr1 l fr2 : is_u64 l →
  freed (fr1 ++ rpush_argv part l :: fr2) ≡ₚ l :: freed (fr1 ++ fr2).
Proof. intros Hl. unfold freed. rewrite !omap_app. cbn. rewrite strtoull_dec by done. solve_Permutation. Qed.

Lemma teid_rpush_inv b pods sh fl lv fr1 argv fr2 reply sh' :
  serve argv sh = (reply, sh') → teid_inv b (TeidSystem pods sh fl lv (fr1 ++ argv :: fr2)) →
  teid_inv (b + V_ID_BLK_SIZE) (TeidSystem pods sh' fl lv (fr1 ++ fr2)).
Proof.
  intros Ha (c&ls&Hc&Hi). pose proof (ti_rpush _ _ _ Hi) as Hr. cbn [ts_freeing] in Hr.
  apply Forall_app in Hr as [Hr1 [(l&Hl&->) Hr2]%Forall_cons].
  destruct (serve_rpush part Hpart sh l ls reply sh' c (ti_next _ _ _ Hi) (ti_free _ _ _ Hi) Ha) as [Hn Hf].
  exists c, (ls ++ [l]). split; [unfold V_ID_BLK_SIZE; lia|].
  eapply teid_shrink; try done; [apply Hi|by apply Forall_app|].
  unfold places. cbn [ts_live ts_flight ts_freeing]. rewrite freed_split by u_lia. rewrite !pod_teids_eq.
  apply Permutation_submseteq. solve_Permutation.
Qed.

Lemma teid_rpush_lost_inv b pods sh fl lv fr1 argv fr2 :
  teid_inv b (TeidSystem pods sh fl lv (fr1 ++ argv :: fr2)) →
  teid_inv (b + V_ID_BLK_SIZE) (TeidSystem pods sh fl lv (fr1 ++ fr2)).
Proof.
  intros (c&ls&Hc&Hi). pose proof (ti_rpush _ _ _ Hi) as Hr. cbn [ts_freeing] in Hr.
  apply Forall_app in Hr as [Hr1 [(l&Hl&->) Hr2]%Forall_cons].
  eapply teid_shrink_same; try done; [apply Hi|by apply Forall_app|].
  unfold places. cbn [ts_live ts_flight ts_freeing]. rewrite freed_split by u_lia. rewrite !pod_teids_eq.
  do 3 apply submseteq_skips_l. cbn [app]. by apply submseteq_cons.
Qed.

Lemma teid_refill_inv b pods sh fl lv fr reply sh' :
  serve (refill_argv part) sh = (reply, sh') → b + V_ID_BLK_SIZE < 2 ^ 32 →
  teid_inv b (TeidSystem pods sh fl lv fr) → teid_inv (b + V_ID_BLK_SIZE) (TeidSystem pods sh' (reply :: fl) lv fr).
Proof.
  intros Ha Hb (c&ls&Hc&Hi). set (s := TeidSystem pods sh fl lv fr) in *.
  assert (b < 2 ^ 32) as Hb' by (unfold V_ID_BLK_SIZE in *; lia).
  assert (Forall (λ l, 0 <= l < 2 ^ 32) ls) as Hls.
  { eapply teid_below32; [exact Hi|apply Hc|exact Hb'|]. unfold places. do 4 apply submseteq_inserts_l. done. }
  destruct (serve_refill part Hpart sh c ls reply sh' (ti_next _ _ _ Hi) (ti_free _ _ _ Hi)) as (c'&ls'&Hc'&Hn&Hf&Hp);
    [lia|unfold V_ID_BLK_SIZE in *; lia|done|done|].
  assert (places (TeidSystem pods sh' (reply :: fl) lv fr) ls' ≡ₚ block c c' ++ places s ls) as Hpl.
  { unfold places, s. cbn [ts_live ts_flight ts_freeing fmap list_fmap concat]. rewrite !pod_teids_eq.
    transitivity ((reply_locals reply ++ ls') ++ (v_teid_local <$> lv) ++
      (v_teid_local <$> concat (teid_ring_list part <$> pods)) ++ concat (reply_locals <$> fl) ++ freed fr).
    - clear. generalize (reply_locals reply). intros x. solve_Permutation.
    - rewrite Hp. clear. generalize (block c c'). intros x. solve_Permutation. }
  exists c', ls'. split; [lia|]. split; try done; [apply Hi|apply Hi| |]; rewrite Hpl.
  - apply NoDup_app. split; [apply block_NoDup|]. split; [|apply Hi].
    intros x Hx%block_elem Hin. pose proof (ti_below _ _ _ Hi) as Hbel. rewrite Forall_forall in Hbel.
    specialize (Hbel x Hin). cbn in Hbel. lia.
  - apply Forall_app. split.
    + apply Forall_forall. intros x Hx%block_elem. lia.
    + eapply Forall_impl; [apply (ti_below _ _ _ Hi)|]. cbn. lia.
Qed.

Lemma teid_deliver_inv b pods1 w pods2 sh fl1 reply fl2 lv fr w' :
  teid_refill_reply_cb part RET_CODE_OK (Some reply) w = Some (tt, w') → b < 2 ^ 32 →
  teid_inv b (TeidSystem (pods1 ++ w :: pods2) sh (fl1 ++ reply :: fl2) lv fr) →
  teid_inv (b + V_ID_BLK_SIZE) (TeidSystem (pods1 ++ w' :: pods2) sh (fl1 ++ fl2) lv fr).
Proof.
  intros Ha Hb (c&ls&Hc&Hi). pose proof (ti_teids _ _ _ Hi) as Ht. pose proof (ti_rpush _ _ _ Hi) as Hr.
  cbn [ts_live ts_freeing] in *. rewrite pod_teids_eq, pod_split, !Forall_app in Ht. destruct Ht as (Hlv&Hw&H1&H2).
  assert (Forall (λ l, 0 <= l < 2 ^ 32) (reply_locals reply)) as Hls.
  { eapply teid_below32; [exact Hi|apply Hc|done|]. unfold places. cbn [ts_flight]. rewrite flights_split.
    do 2 apply submseteq_inserts_l. do 2 apply submseteq_inserts_r. done. }
  destruct (teid_deliver_items part Hpart RET_CODE_OK reply w w' Ha Hls) as (add&Hring&Hadd&Hof).
  eapply teid_shrink_same; try done; cbn [ts_live ts_freeing].
  - rewrite pod_teids_eq, pod_split, Hring, !Forall_app. by repeat split.
  - unfold places. cbn [ts_live ts_flight ts_freeing]. rewrite !pod_teids_eq, !pod_split, flights_split, Hring, !fmap_app.
    apply submseteq_skips_l.
    etrans; [apply submseteq_app; [apply submseteq_app; [apply submseteq_skips_l, Hadd|done]|done]|].
    apply Permutation_submseteq. generalize (reply_locals reply). intros x. solve_Permutation.
Qed.

Lemma teid_step_inv b s s' :
  teid_step s s' → b + V_ID_BLK_SIZE < 2 ^ 32 → teid_inv b s → teid_inv (b + V_ID_BLK_SIZE) s'.
Proof.
  intros Hs Hb Hinv. assert (b < 2 ^ 32) as Hb' by (unfold V_ID_BLK_SIZE in *; lia). destruct Hs.
  - by eapply teid_alloc_inv.
  - by eapply teid_free_inv.
  - by eapply teid_rpush_inv.
  - by eapply teid_rpush_lost_inv.
  - by eapply teid_refill_inv.
  - destruct Hinv as (c&ls&Hc&Hi).
    destruct (serve_seed part Hpart sh reply sh' c ls (ti_next _ _ _ Hi) (ti_free _ _ _ Hi) H) as (c'&Hc'&Hn&Hf).
    exists c', ls. split; [unfold V_ID_BLK_SIZE; lia|]. eapply teid_shrink; try done; [lia|apply Hi|apply Hi].
  - by eapply teid_deliver_inv.
  - destruct Hinv as (c&ls&Hc&Hi). eapply teid_shrink_same; try done; [apply Hi|apply Hi|].
    unfold places. cbn [ts_live ts_flight ts_freeing]. rewrite !pod_teids_eq, flights_split.
    do 2 apply submseteq_skips_l. apply submseteq_skips_r. by apply submseteq_inserts_l.
  - destruct Hinv as (c&ls&Hc&Hi). eapply teid_shrink_same; try done; [|apply Hi|].
    + eapply teids_local_step; [done|apply Hi].
    + unfold places. cbn [ts_live ts_flight ts_freeing]. rewrite !pod_teids_eq, !pod_split, !fmap_app.
      apply submseteq_skips_l, submseteq_skips_r, submseteq_skips_r.
      destruct H as [->| ->]; [done|apply submseteq_nil_l].
  - destruct Hinv as (c&ls&Hc&Hi). exists c, ls. split; [unfold V_ID_BLK_SIZE; lia|].
    eapply teid_shrink; try done; [| |apply Hi|apply Hi].
    + eapply next_at_ext, (ti_next _ _ _ Hi). apply H. by right.
    + eapply free_at_ext, (ti_free _ _ _ Hi). apply H. by left.
Qed.

Lemma teid_run_inv n s s' :
  teid_run n s s' → Z.of_nat n * V_ID_BLK_SIZE < 2 ^ 32 → teid_inv 0 s → teid_inv (Z.of_nat n * V_ID_BLK_SIZE) s'.
Proof.
  induction 1 as [s|n s s1 s' Hrun IH Hstep]; intros Hn Hinv; [done|].
  replace (Z.of_nat (S n) * V_ID_BLK_SIZE) with (Z.of_nat n * V_ID_BLK_SIZE + V_ID_BLK_SIZE) in * by lia.
  apply (teid_step_inv _ s1); [done..|]. apply IH; [unfold V_ID_BLK_SIZE in *; lia|done].
Qed.

Lemma teid_initial_inv s : teid_initial s → teid_inv 0 s.
Proof.
  intros (Hl&Hf&Hr&Hp&Hn&Hfk). exists 0, []. split; [lia|].
  assert (pod_teids s = []) as Hpt.
  { unfold pod_teids. induction Hp as [|w pods Hw _ IH]; [done|]. cbn. by rewrite Hw. }
  split; unfold places; rewrite ?Hl, ?Hf, ?Hr, ?Hpt; try by constructor.
  exists None. by rewrite Hfk.
Qed.

(** C13: at any time the TEIDs held by sessions are pairwise different, not
    zero, and valid for the partition, whichever pods allocated and freed
    them: blocks leased from the counter, indices recycled through the free
    list, frees and refill replies delayed or lost, and pods that restart.
    This holds while fewer than 2^32 indices have been leased. *)
Theorem teid_unique_while_live n s s' :
  teid_initial s → teid_run n s s' → Z.of_nat n * V_ID_BLK_SIZE < 2 ^ 32 →
  NoDup (ts_live s') ∧ Forall (λ t, 0 < t < 2 ^ 31 ∧ v_teid_validate t = Some part) (ts_live s').
Proof.
  intros Hi Hrun Hn. destruct (teid_run_inv n s s' Hrun Hn (teid_initial_inv s Hi)) as (c&ls&_&Hinv).
  pose proof (ti_nodup _ _ _ Hinv) as Hnd. unfold places in Hnd. apply NoDup_app in Hnd as [Hnd _].
  pose proof (ti_teids _ _ _ Hinv) as Ht. apply Forall_app in Ht as [Ht _].
  split; [by eapply NoDup_fmap_1|]. eapply Forall_impl; [exact Ht|]. intros t (l&Hl&He).
  pose proof (v_teid_encode_fields part l t ltac:(lia) Hl He) as [Hp _].
  apply v_teid_encode_Some in He as (?&?&->&?&?); [|lia..]. unfold V_NUM_PARTS in *.
  split; [u_lia|]. rewrite v_teid_validate_spec by done.
  rewrite (proj2 (Z.ltb_lt _ _)), (proj2 (Z.ltb_lt _ _)) by u_lia. cbn. by rewrite Hp.
Qed.
End system.

(** ** Quarantine and truncation *)

Section extra.
Context {DP : Dpdk} {PP : PfcpPort} {R : Redis} {L : Lua} {SS : ScriptSha}.

(** C31: a freed index is quarantined.  When a refill recycles an index of the
    free list, at least 769 indices that were freed after it stay in the list
    (V_TEID_FREE_FLOOR + 1 - V_ID_BLK_SIZE, not V_TEID_FREE_FLOOR). *)
Theorem teid_quarantine part sh c ls reply sh' l :
  0 <= part < V_NUM_PARTS → next_at part sh c → free_at part sh ls → 0 <= c → c + V_ID_BLK_SIZE < 2 ^ 32 →
  Forall (λ l, 0 <= l < c) ls → NoDup ls → serve (refill_argv part) sh = (reply, sh') →
  l ∈ ls → l ∈ reply_locals reply →
  ∃ older younger, ls = older ++ younger ∧ l ∈ older ∧ free_at part sh' younger ∧ 769 <= Z.of_nat (length younger).
Proof.
  intros Hpart Hn [ttl Hf] Hc Hb Hbel Hnd Hs Hl Hr. unfold refill_argv in Hs.
  destruct (sh_loaded sh V_SCRIPT_TEID_REFILL) eqn:El.
  2: { rewrite serve_noscript in Hs by done. injection Hs as <- <-. by apply not_elem_of_nil in Hr. }
  set (s := sh_store sh) in *.
  destruct (decide (V_TEID_FREE_FLOOR < Z.of_nat (length ls))) as [Hgt|Hle].
  - destruct (lua_teid_refill_list s (teid_free_key part) (teid_next_key part) (dec <$> ls) ttl V_ID_BLK_SIZE V_TEID_FREE_FLOOR Hf)
      as (s'&Hrun&[ttl' Hf']&Ho); [done|done|by rewrite length_fmap|].
    rewrite (serve_evalsha sh V_SCRIPT_TEID_REFILL _ _ (V_DB_REPLY_ARRAY (V_DB_REPLY_STRING $"list" :: (V_DB_REPLY_STRING <$> take (Z.to_nat V_ID_BLK_SIZE) (dec <$> ls)))) s' El) in Hs; [|cbn; lia|cbn [run_script]; fold s; by rewrite Hrun].
    injection Hs as <- <-. exists (take (Z.to_nat V_ID_BLK_SIZE) ls), (drop (Z.to_nat V_ID_BLK_SIZE) ls).
    split; [by rewrite take_drop|]. split.
    { revert Hr. cbn [reply_locals]. rewrite decide_False by done. rewrite decide_True by done.
      rewrite <- fmap_take, (omap_parse_dec part Hpart); [done|]. apply Forall_take. eapply Forall_impl; [exact Hbel|].
      cbn. unfold V_ID_BLK_SIZE in Hb. lia. }
    split; [exists ttl'; cbn [sh_store]; by rewrite fmap_drop|]. rewrite length_drop.
    unfold V_TEID_FREE_FLOOR, V_ID_BLK_SIZE in *. lia.
  - destruct (refill_script_range part s (dec <$> ls) ttl c Hf) as (s'&Hrun&ttl'&Hv); [done|rewrite length_fmap; lia|done|done|].
    rewrite (serve_evalsha sh V_SCRIPT_TEID_REFILL _ _ (V_DB_REPLY_ARRAY [V_DB_REPLY_STRING $"range"; V_DB_REPLY_STRING (dec c); V_DB_REPLY_STRING (dec V_ID_BLK_SIZE)]) s' El) in Hs; [|cbn; lia|cbn [run_script]; fold s; by rewrite Hrun].
    injection Hs as <- <-. exfalso. revert Hr. cbn [reply_locals]. rewrite decide_True by done. unfold parse_u64.
    rewrite !parse_buf_dec by (done || lia || (unfold V_ID_BLK_SIZE in *; u_lia)).
    intros (i&->&Hi%elem_of_seq)%list_elem_of_fmap. rewrite Forall_forall in Hbel. specialize (Hbel _ Hl). cbn in Hbel.
    rewrite u64_small in Hbel by (unfold V_ID_BLK_SIZE in *; u_lia). lia.
Qed.

(** C36: beyond 2^32 leased indices the allocator hands out duplicates.
    enqueue_teid truncates the index to 32 bits before v_teid_encode checks
    its range, so index 2^32 + l puts the TEID of index l into the ring a
    second time instead of being refused. *)
Theorem teid_truncation_duplicates part l r :
  0 <= part < V_NUM_PARTS → 0 < l <= V_TEID_LOCAL_MASK → Z.of_nat (length (ring_items r)) + 1 < ring_cap r →
  ∃ t, v_teid_encode part l = Some t ∧ v_teid_encode part (2 ^ 32 + l) = None ∧
    ring_items (enqueue_teid part (2 ^ 32 + l) (enqueue_teid part l r)) = ring_items r ++ [t; t].
Proof.
  intros Hp Hl Hcap. change V_TEID_LOCAL_MASK with 2097151 in Hl.
  exists (part * 2 ^ 21 + l). rewrite !v_teid_encode_spec by lia. unfold V_NUM_PARTS in Hp.
  assert (v_teid_encode part l = Some (part * 2 ^ 21 + l)) as He.
  { rewrite v_teid_encode_spec by lia.
    by rewrite (proj2 (Z.ltb_lt part 1024)), (proj2 (Z.ltb_lt 0 l)), (proj2 (Z.ltb_lt l (2 ^ 21))) by (pow2_norm; lia). }
  rewrite v_teid_encode_spec in He by lia. split; [exact He|]. split.
  { rewrite (proj2 (Z.ltb_ge (2 ^ 32 + l) (2 ^ 21))) by (pow2_norm; lia). by rewrite andb_false_r. }
  rewrite <- v_teid_encode_spec in He by lia. unfold enqueue_teid.
  replace (u32 (2 ^ 32 + l)) with l by (u_lia). rewrite u32_small by u_lia. rewrite He.
  destruct (ring_enqueue_ok r (part * 2 ^ 21 + l)) as (r1&->&Hi1&Hc1); [lia|]. change (default r (Some r1)) with r1.
  destruct (ring_enqueue_ok r1 (part * 2 ^ 21 + l)) as (r2&->&Hi2&Hc2).
  { rewrite Hc1, Hi1, length_app. cbn [length]. lia. }
  change (default r1 (Some r2)) with r2. rewrite Hi2, Hi1. by rewrite <- app_assoc.
Qed.
End extra.
