(* ===== verification/IdExamples.v ===== *)
(** Concrete instances of the identifier theorems: one pod, partition 0. *)
From S2P Require Import Prelude Seid Dpdk Heap Redis Scripts World DbScript SessStore RetransCache IdAlloc.
From S2P Require Import DispatchQ NodeState Flow Pod StubPfcp Server IdUnique IdTeid.
Import ListDpdk MapServer StubCodec FixedSha.

Definition id_world : world :=
  World (Heap [] ∅) (Heap [] ∅) (Heap [] ∅) (DbPort (λ _, true) [1; 2; 3; 4] [] 0 (λ _, true))
    (VdpPort [] 0 (λ _, true))
    (DbScript (list_to_map ((λ s, (s, 2, script_sha V_SCRIPT_TEID_REFILL)) <$> seqZ 0 5)) [1] [])
    None None (IdAlloc {[0 := ([], 1023)]} {[0 := ([], 1023)]} ∅ ∅ ∅ true)
    (Dispatch ([], 1) ([], 1) (Heap [] ∅)) (NodeState [] [] 0 false None) 0 0 0.

Definition id_shard : shard := Shard (∅ : rkeys) (λ _, true).

(** The state after an operation, and what it returned. *)
Definition after {A} (m : M A) (w : world) : world := match m w with Some (_, w') => w' | None => w end.

Lemma after_eq {A} (m : M A) w a : fst <$> m w = Some a → m w = Some (a, after m w).
Proof. unfold after. destruct (m w) as [[b w']|]; [|done]. by intros [= ->]. Qed.

(** A lease is served and delivered, and the first SEID is allocated. *)
Definition seid_w1 : world := after (seid_refill_reply_cb 0 RET_CODE_OK (Some (V_DB_REPLY_INTEGER 256))) id_world.
Definition seid_w2 : world := after (v_seid_alloc 0) seid_w1.
Definition seid_sh1 : shard := (serve (seid_incrby 0) id_shard).2.

Lemma seid_unique_across_pods_witness :
  is_granted (IdSystem [seid_w2] seid_sh1 [] [2 ^ 60]) = [2 ^ 60] ∧
  Forall (λ x, x ≠ 0 ∧ v_seid_validate x = Some 0) (is_granted (IdSystem [seid_w2] seid_sh1 [] [2 ^ 60])).
Proof.
  split; [reflexivity|].
  refine (proj2 (seid_unique_across_pods 0 _ 3 (IdSystem [id_world] id_shard [] []) (IdSystem [seid_w2] seid_sh1 [] [2 ^ 60]) _ _ _)).
  - split; reflexivity || (intros H; discriminate H).
  - repeat split. repeat constructor.
  - eapply seid_run_snoc; [eapply seid_run_snoc; [eapply seid_run_snoc; [apply seid_run_nil|]|]|].
    + apply (seid_serve_step 0 _ _ _ _ (V_DB_REPLY_INTEGER 256) seid_sh1).
      apply injective_projections; [vm_compute; reflexivity|reflexivity].
    + apply (seid_deliver_step 0 [] id_world [] _ [] _ [] _ seid_w1). apply after_eq. vm_compute. reflexivity.
    + apply (seid_alloc_step 0 [] seid_w1 [] _ _ [] (2 ^ 60) seid_w2). apply after_eq. vm_compute. reflexivity.
  - reflexivity.
Defined.

(** Seed, refill, delivery, two allocations; one TEID is freed. *)
Definition teid_sh1 : shard := (serve (seed_argv 0) id_shard).2.
Definition teid_sh2 : shard := (serve (refill_argv 0) teid_sh1).2.
Definition first_range : v_db_reply :=
  V_DB_REPLY_ARRAY [V_DB_REPLY_STRING $"range"; V_DB_REPLY_STRING (dec 1); V_DB_REPLY_STRING (dec 256)].
Definition teid_w1 : world := after (teid_refill_reply_cb 0 RET_CODE_OK (Some first_range)) id_world.
Definition teid_w2 : world := after (v_teid_alloc iu 0) teid_w1.
Definition teid_w3 : world := after (v_teid_alloc iu 0) teid_w2.
Definition teid_w4 : world := after (v_teid_free 0 2) teid_w3.
Definition teid_end : teid_system := TeidSystem [teid_w4] teid_sh2 [] [1] (queued teid_w3 teid_w4).

Lemma teid_unique_while_live_witness :
  ts_live teid_end = [1] ∧ Forall (λ t, 0 < t < 2 ^ 31 ∧ v_teid_validate t = Some 0) (ts_live teid_end).
Proof.
  split; [reflexivity|].
  refine (proj2 (teid_unique_while_live 0 _ 6 (TeidSystem [id_world] id_shard [] [] []) teid_end _ _ _)).
  - split; reflexivity || (intros H; discriminate H).
  - repeat split. repeat constructor.
  - eapply teid_run_snoc; [eapply teid_run_snoc; [eapply teid_run_snoc; [eapply teid_run_snoc; [eapply teid_run_snoc; [eapply teid_run_snoc; [apply teid_run_nil|]|]|]|]|]|].
    + apply (teid_seed_step 0 _ _ _ _ _ (V_DB_REPLY_INTEGER 1) teid_sh1).
      apply injective_projections; [vm_compute; reflexivity|reflexivity].
    + apply (teid_refill_step 0 _ _ _ _ _ first_range teid_sh2).
      apply injective_projections; [vm_compute; reflexivity|reflexivity].
    + apply (teid_deliver_step 0 [] id_world [] _ [] _ [] _ _ teid_w1). apply after_eq. vm_compute. reflexivity.
    + apply (teid_alloc_step 0 [] teid_w1 [] _ _ [] _ 1 teid_w2). apply after_eq. vm_compute. reflexivity.
    + apply (teid_alloc_step 0 [] teid_w2 [] _ _ [1] _ 2 teid_w3). apply after_eq. vm_compute. reflexivity.
    + apply (teid_free_step 0 [] teid_w3 [] _ _ [] 2 [1] [] teid_w4). apply after_eq. vm_compute. reflexivity.
  - reflexivity.
Defined.

(** A free list of 1025 indices: the refill takes 256 and leaves 769. *)
Definition long_list : list Z := seqZ 1 1025.
Definition long_shard : shard :=
  Shard ({[teid_free_key 0 := (VList (dec <$> long_list), None); teid_next_key 0 := (VStr (dec 2000), None)]} : rkeys) (λ _, true).
Definition long_reply : v_db_reply := (serve (refill_argv 0) long_shard).1.

Lemma teid_quarantine_witness :
  ∃ older younger, long_list = older ++ younger ∧ 1 ∈ older ∧ 769 <= Z.of_nat (length younger).
Proof.
  destruct (teid_quarantine 0 long_shard 2000 long_list long_reply (serve (refill_argv 0) long_shard).2 1)
    as (older&younger&H1&H2&_&H4).
  - split; reflexivity || (intros H; discriminate H).
  - right. exists None. vm_compute. reflexivity.
  - exists None. vm_compute. reflexivity.
  - intros H; discriminate H.
  - reflexivity.
  - apply Forall_forall. intros x Hx%elem_of_seqZ. lia.
  - apply NoDup_seqZ.
  - apply surjective_pairing.
  - apply elem_of_seqZ. lia.
  - unfold long_reply. apply (bool_decide_unpack _). vm_compute. reflexivity.
  - exists older, younger. exact (conj H1 (conj H2 H4)).
Defined.

Definition empty_ring : rte_ring := (([], 1023) : ListDpdk.ring).

Lemma teid_truncation_duplicates_witness :
  ∃ t, v_teid_encode 3 1 = Some t ∧
    ring_items (enqueue_teid 3 (2 ^ 32 + 1) (enqueue_teid 3 1 empty_ring)) = [t; t].
Proof.
  destruct (teid_truncation_duplicates 3 1 empty_ring) as (t&H1&_&H3).
  - split; reflexivity || (intros H; discriminate H).
  - split; reflexivity || (intros H; discriminate H).
  - reflexivity.
  - exists t. exact (conj H1 H3).
Defined.
