(* ===== verification/StubExamples.v ===== *)
(** Concrete inputs for the properties of the adapters, the dispatch rings
    and the start-up: list-based rings and pools, the codec stub and a
    database client whose n-th connection attempt yields context n. *)
From S2P Require Import Prelude Dpdk Heap Redis World DispatchQ NodeState Pod StubPfcp Boot Safety Testbed.
From S2P Require Import Own Transport Main StubReply RetransCache Races.
From S2P Require StubTxn StubMem StubDb StubIo StubVdp.

(** The database client *)
Definition connect_nth (n : nat) (live : gset Z) : option (Z * bool) :=
  if decide (Z.of_nat n ∈ live) then None else Some (Z.of_nat n, false).

Lemma connect_nth_fresh n live c e : connect_nth n live = Some (c, e) → c ∉ live.
Proof. unfold connect_nth. case_decide; [done|]. by intros [= <- _]. Qed.

#[local] Instance client : StubDb.Hiredis := {
  redisAsyncConnect := connect_nth;
  redis_free_calls_back _ := true;
  event_base_new := true;
  redis_connect_fresh := connect_nth_fresh;
}.

(** A process state with nothing allocated and empty pools. *)
Definition w_base : world :=
  World (Heap [] ∅) (Heap [] ∅) (Heap [] ∅) (DbPort (λ _, false) [] [] 0 always) (VdpPort [] 0 always)
    (DbScript ∅ [] []) None None ids_zero (Dispatch ([], 4095) ([], 4095) (Heap [] ∅)) node_zero 0 0 0.

(** ** v_stub_txn *)

Lemma stub_txn_refines_contract_witness :
  ∃ T w, StubTxn.table_ok T ∧ w_txns w = StubTxn.contract_view T ∧
    ∃ T', StubTxn.v_port_txn_create T = (fst (StubTxn.v_port_txn_create T), T') ∧ StubTxn.table_ok T'.
Proof.
  destruct StubTxn.Example.one_txn as (T&t&HT&_). exists T, (set_txns (StubTxn.contract_view T) w_base).
  split; [exact HT|]. split; [reflexivity|].
  pose proof (StubTxn.stub_txn_refines_contract T (set_txns (StubTxn.contract_view T) w_base) HT eq_refl) as [Hc _].
  destruct (StubTxn.v_port_txn_create T) as [o T']. exists T'. split; [reflexivity|]. apply Hc.
Defined.

Lemma txn_find_correct_witness :
  ∃ T t, StubTxn.table_ok T ∧ StubTxn.v_port_txn_find_by_seid 0 T = Some (Some t).
Proof.
  destruct StubTxn.Example.one_txn as (T&t&HT&_&_&Hm). exists T, t. split; [exact HT|].
  assert (∀ u x r, hp_mem (StubTxn.tt_heap T) !! u = Some x → t_req x = Some r → is_Some (hp_mem (w_msgs w_base) !! r)) as Hr.
  { intros u x r Hx. rewrite Hm in Hx. apply lookup_singleton_Some in Hx as [_ <-]. intros [=]. }
  destruct (StubTxn.txn_find_correct T (w_msgs w_base) HT Hr) as [Hs _]. destruct (Hs 0) as (o&Ho&Hspec).
  rewrite Ho. destruct o as [u|].
  - destruct Hspec as (x&Hx&_). rewrite Hm in Hx. apply lookup_singleton_Some in Hx as [-> _]. reflexivity.
  - exfalso. apply (Hspec t (StubTxn.with_deadline 2000 txn_zero)); [rewrite Hm; apply lookup_singleton_eq|reflexivity].
Defined.

(** 1999 ms: nothing fires; 2000 ms: the transaction does. *)
Lemma hard_timeout_fires_once_witness :
  ∃ T t, StubTxn.table_ok T ∧
    (∃ T1, StubTxn.v_port_txn_test_advance_ms StubTxn.sweep 1999 (T, []) = Some (tt, (T1, []))) ∧
    ∃ T2, StubTxn.v_port_txn_test_advance_ms StubTxn.sweep 2000 (T, []) = Some (tt, (T2, [t])).
Proof.
  destruct StubTxn.Example.one_txn as (T&t&HT&Hf&Hn&Hm). exists T, t. split; [exact HT|].
  assert (∀ now u, StubTxn.expired_at T now u ↔ u = t ∧ 2000 <= now) as He.
  { intros now u. unfold StubTxn.expired_at. rewrite Hm. split.
    - intros (x&Hx&Hd). apply lookup_singleton_Some in Hx as [-> <-]. done.
    - intros [-> Hd]. exists (StubTxn.with_deadline 2000 txn_zero). split; [apply lookup_singleton_eq|done]. }
  split.
  - destruct (StubTxn.hard_timeout_fires_once T 1999 HT Hf) as (T1&out&Hr&_&_&_&Hout&_); rewrite ?Hn; try lia.
    exists T1. rewrite Hr. do 3 f_equal. destruct out as [|u out]; [reflexivity|exfalso].
    destruct (proj1 (Hout u) ltac:(left)) as (x&Hx&Hd). rewrite Hn in Hd. assert (StubTxn.expired_at T 1999 u) as H by (by exists x).
    apply He in H. lia.
  - destruct (StubTxn.hard_timeout_fires_once T 2000 HT Hf) as (T2&out&Hr&_&_&Hnd&Hout&_); rewrite ?Hn; try lia.
    exists T2. rewrite Hr. do 3 f_equal. rewrite Hn in Hout.
    assert (∀ u, u ∈ out ↔ u = t) as Ho by (intros u; rewrite Hout, He; split; [by intros [? _]|by intros ->]).
    destruct out as [|u [|v out]].
    + exfalso. by apply (not_elem_of_nil t), Ho.
    + f_equal. apply Ho. left.
    + exfalso. apply NoDup_cons in Hnd as [Hn1 _]. apply Hn1. rewrite (proj1 (Ho u) ltac:(left)), (proj1 (Ho v) ltac:(right; left)). left.
Defined.

(** ** v_stub_mem *)

Lemma small_ctx_pool : ∃ s p, StubMem.v_port_mem_init 4 StubMem.mem_zero = (RET_CODE_OK, s) ∧ StubMem.mem_rel s (Heap p ∅).
Proof.
  destruct (StubMem.v_port_mem_init 4 StubMem.mem_zero) as [rc s] eqn:E.
  assert (rc = RET_CODE_OK) as -> by (by injection E as <- _).
  destruct (StubMem.mem_init_rel 4 s E) as [p Hp]. by exists s, p.
Qed.

Lemma stub_mem_refines_contract_witness :
  ∃ s h w, StubMem.mem_rel s h ∧ w_ctxs w = h ∧ StubMem.v_port_ctx_pool_in_use s = 0.
Proof.
  destruct small_ctx_pool as (s&p&_&Hrel). exists s, (Heap p ∅), (set_ctxs (Heap p ∅) w_base).
  split; [exact Hrel|]. split; [reflexivity|].
  apply (StubMem.stub_mem_refines_contract s (Heap p ∅) (set_ctxs (Heap p ∅) w_base) Hrel eq_refl).
Defined.

Lemma stored_context_magic_witness :
  StubMem.magic_ok stub_ctx_cleared ∧ stub_serialize stub_ctx_cleared 2048 = Some stub_ctx_cleared.
Proof.
  split; [apply StubMem.cleared_magic|].
  apply (StubMem.stored_context_magic stub_ctx_cleared stub_ctx_cleared StubMem.cleared_magic).
Defined.

(** ** v_stub_db *)

Definition stale_arena : list node := replicate V_STUB_DB_REPLY_SCRATCH_CAP (scalar T_NIL 0 []).
Definition teid_list_reply : redisReply := REDIS_REPLY_ARRAY [REDIS_REPLY_STRING $"list"; REDIS_REPLY_STRING $"7"].

Lemma reply_conversion_faithful_witness :
  is_flat teid_list_reply = true ∧
  ∃ i a, on_reply_convert teid_list_reply stale_arena = (Some i, a) ∧ read_reply 2 (g_scratch a) i = Some (denote teid_list_reply).
Proof.
  split; [reflexivity|]. apply (reply_conversion_faithful teid_list_reply stale_arena); [apply length_replicate|reflexivity|].
  cbn. unfold V_STUB_DB_REPLY_SCRATCH_CAP. lia.
Defined.

Definition long_list : list redisReply := replicate 600 (REDIS_REPLY_INTEGER 0).

Lemma long_reply_overruns_witness :
  ∃ a, on_reply_convert (REDIS_REPLY_ARRAY long_list) stale_arena = (Some 0%nat, a) ∧ read_reply 2 (g_scratch a) 0 = None.
Proof.
  destruct (long_reply_overruns long_list stale_arena) as (a&n&Hc&_&_&_&_&Hr);
    [apply length_replicate|vm_compute; reflexivity|unfold long_list; rewrite length_replicate; unfold V_STUB_DB_REPLY_SCRATCH_CAP; lia|].
  exists a. by split.
Defined.

(** The port after start, one connection open. *)
Definition conn0 : StubDb.db_conn :=
  StubDb.set_pool (Some ([1; 2] : list Z)) (StubDb.v_port_db_on_reconnect (StubDb.conn_zero always)).
Definition port0 : db_port := DbPort (λ _, false) ([1; 2] : list Z) [] 0 always.

Lemma one_connection : ∃ s, StubDb.conn_ok s ∧ StubDb.db_rel s (StubDb.connected_upd 0 true port0) ∧
  0 ∈ StubDb.cn_live s ∧ StubDb.g_pending_pool s = Some ([1; 2] : list Z) ∧ StubDb.g_reconnect_cb s = true.
Proof.
  destruct (StubDb.conn_zero_ok always) as [H1 H2 H3].
  assert (StubDb.conn_ok conn0) as Hok by (by split).
  assert (StubDb.db_rel conn0 port0) as Hrel.
  { split; try reflexivity. intros i Hi. cbn. by rewrite lookup_replicate_2. }
  destruct (StubDb.shard_connect 0 conn0) as [[rc s]|] eqn:E; [|discriminate E].
  destruct (StubDb.shard_connect_ok 0 conn0 port0 rc s Hok Hrel) as [Hok' Hc]; [vm_compute; lia|reflexivity|exact E|].
  injection E as <- <-. eexists. split; [exact Hok'|]. destruct Hc as [(_&_&Hr)|(Hrc&_)]; [|discriminate Hrc].
  split; [exact Hr|]. split; [|by split]. cbn. apply elem_of_union_l, elem_of_singleton. reflexivity.
Qed.

Lemma db_init_connects_witness :
  ∃ s, StubDb.v_port_db_init (StubDb.conn_zero always) = Some (RET_CODE_OK, s) ∧ StubDb.conn_ok s.
Proof.
  destruct (StubDb.v_port_db_init (StubDb.conn_zero always)) as [[rc s]|] eqn:E; [|vm_compute in E; discriminate E].
  assert (rc = RET_CODE_OK) as ->.
  { assert (fst <$> StubDb.v_port_db_init (StubDb.conn_zero always) = Some RET_CODE_OK) as H by (vm_compute; reflexivity).
    rewrite E in H. by injection H. }
  exists s. split; [reflexivity|]. apply (StubDb.db_init_connects always s E).
Defined.

Lemma stub_db_refines_port_witness :
  ∃ s w, StubDb.conn_ok s ∧ StubDb.db_rel s (w_db w) ∧
    ∃ s' w', StubDb.v_port_db_cmd_argv 0 fp_seed_reply_cb [$"PING"] s = Some (RET_CODE_OK, s') ∧
      World.v_port_db_cmd_argv 0 fp_seed_reply_cb [$"PING"] w = Some (RET_CODE_OK, w').
Proof.
  destruct one_connection as (s&Hok&Hrel&_). exists s, (set_db (StubDb.connected_upd 0 true port0) w_base).
  split; [exact Hok|]. split; [exact Hrel|].
  destruct (StubDb.stub_db_refines_port s (set_db (StubDb.connected_upd 0 true port0) w_base) Hok Hrel) as [Hc _].
  destruct (Hc 0 fp_seed_reply_cb [$"PING"] (Z.le_refl 0)) as (rc&s'&w'&Hs&Hw&_).
  exists s', w'. assert (rc = RET_CODE_OK) as ->; [|by split]. by injection Hw as <- _.
Defined.

Lemma failed_connect_dangles_witness :
  ∃ s s', StubDb.release 0 s = Some (tt, s') ∧ ∃ shard, ∀ cb argv, StubDb.v_port_db_cmd_argv shard cb argv s' = None.
Proof.
  destruct one_connection as (s&Hok&_&Hl&Hp&_). exists s.
  destruct (StubDb.failed_connect_dangles s 0 ([1; 2] : list Z) 1 ([2] : list Z) Hok Hl Hp eq_refl) as (_&shard&s'&_&Hr&Hc&_).
  exists s'. split; [exact Hr|]. by exists shard.
Defined.

Lemma connection_lifecycle_witness :
  ∃ s s', StubDb.conn_ok s ∧ StubDb.v_port_db_fini s = Some (tt, s') ∧ StubDb.cn_live s' = ∅.
Proof.
  destruct one_connection as (s&Hok&_). destruct (StubDb.connection_lifecycle s Hok) as [_ (s'&Hf&Hl&_)].
  exists s, s'. split; [exact Hok|]. split; [exact Hf|exact Hl].
Defined.

(** ** v_stub_vdp *)

Lemma stub_vdp_refines_contract_witness :
  ∃ w, vdp_accept (w_vdp w) (vdp_issue_no (w_vdp w)) = true ∧
    StubVdp.v_port_vdp_session_create 0 0 fp_vdp_create_cb 1 (StubVdp.VdpStub false V_VDP_REJECT, StubVdp.count_issue w) =
    StubVdp.on_world (StubVdp.dispatch_then_complete (VDP_CREATE 0 0) fp_vdp_create_cb 1 V_VDP_ACCEPT) (StubVdp.VdpStub false V_VDP_REJECT, w).
Proof.
  exists w_base. split; [reflexivity|].
  apply (StubVdp.stub_vdp_refines_contract 0 0 fp_vdp_create_cb 1 (StubVdp.VdpStub false V_VDP_REJECT) w_base eq_refl).
Defined.

(** ** v_dispatch *)

Lemma empty_rings : ∃ d, v_dispatch_init = Some d ∧ disp_wf [] d ∧ rx_view d = [] ∧ tx_view d = [].
Proof.
  destruct v_dispatch_init as [d|] eqn:E; [|discriminate E]. exists d. split; [reflexivity|]. by apply init_wf.
Qed.

(** [n] datagrams arrive and [n] responses are queued. *)
Definition flood (n : nat) (d : dispatch) : dispatch :=
  Nat.iter n (λ d, (dispatch_tx_enqueue [] None (dispatch_rx [] None d)).2) d.

(** A worker takes a datagram. *)
Definition taken (s : list Z * dispatch) : list Z * dispatch :=
  match rte_ring_dequeue (g_rx_ring s.2) with
  | Some (m, r) => (m :: s.1, Dispatch r (g_tx_ring s.2) (g_msg_pool s.2))
  | None => s
  end.

Lemma flood_wf D n d : disp_wf D d → disp_wf D (flood n d).
Proof.
  intros Hd. unfold flood. apply Nat.iter_invariant; [|done]. intros d' Hd'.
  destruct (rx_spec D d' [] None Hd') as [H _]. pose proof (tx_spec D _ [] None H) as Ht.
  destruct (dispatch_tx_enqueue _ _ _) as [rc d'']. apply Ht.
Qed.

Lemma taken_wf s : disp_wf s.1 s.2 → disp_wf (taken s).1 (taken s).2.
Proof.
  intros Hs. unfold taken. destruct (rte_ring_dequeue _) as [[m r]|] eqn:Er; [|done].
  by apply (chan_pop s.1 s.2 true m r Hs Er).
Qed.

(** Both rings full, four workers busy, two more datagrams: the pool is dry
    while the receive ring has room. *)
Definition overload (n k l : nat) (d : dispatch) : list Z * dispatch :=
  let s := Nat.iter k taken ([], flood n d) in (s.1, flood l s.2).

Lemma overload_wf n k l d : disp_wf [] d → disp_wf (overload n k l d).1 (overload n k l d).2.
Proof.
  intros Hd. unfold overload. apply flood_wf.
  apply (Nat.iter_invariant k _ taken (λ s, disp_wf s.1 s.2)); [apply taken_wf|by apply flood_wf].
Qed.

Definition dry (d : dispatch) : list Z * dispatch := overload 4095 4 2 d.

Lemma dry_wf d : disp_wf [] d → disp_wf (dry d).1 (dry d).2.
Proof. apply overload_wf. Qed.

Definition dry_check (s : list Z * dispatch) : bool :=
  bool_decide (length s.1 = 4%nat) && exhausted s.1 s.2 && negb (ring_full (g_rx_ring s.2)).

Lemma dry_checks : match v_dispatch_init with Some d => dry_check (dry d) | None => false end = true.
Proof. vm_compute. reflexivity. Qed.

#[local] Opaque dry.

Lemma dry_state : ∃ D d, disp_wf D d ∧ length D = 4%nat ∧ exhausted D d = true ∧ ring_full (g_rx_ring d) = false.
Proof.
  destruct empty_rings as (d&E&Hd&_). pose proof dry_checks as H. rewrite E in H. apply dry_wf in Hd.
  destruct (dry d) as [D d']. unfold dry_check in H.
  apply andb_true_iff in H as [[HD%bool_decide_eq_true He]%andb_true_iff Hf%negb_true_iff]. by exists D, d'.
Qed.

Definition passes (d : dispatch) : bool :=
  negb (oversized $"abc" || exhausted [] d || ring_full (g_rx_ring d)) &&
  let d1 := dispatch_rx $"abc" None d in negb (oversized $"xyz" || exhausted [] d1 || ring_full (g_tx_ring d1)).

Lemma fresh_passes : match v_dispatch_init with Some d => passes d | None => false end = true.
Proof. vm_compute. reflexivity. Qed.

(** A datagram and a response pass; with the pool dry a datagram is lost. *)
Lemma datagram_channels_witness :
  (∃ d, disp_wf [] d ∧ rx_view d = [DispatchMsg $"abc" sockaddr_zero] ∧
     ∃ d', dispatch_drain 3 d = Some ([DispatchMsg $"xyz" sockaddr_zero], d') ∧ tx_view d' = []) ∧
  ∃ D d, disp_wf D d ∧ length D = 4%nat ∧ ring_full (g_rx_ring d) = false ∧
    rx_view (dispatch_rx $"abc" None d) = rx_view d.
Proof.
  split.
  - destruct empty_rings as (d&E&Hd&Hr&Ht). destruct (datagram_channels [] d Hd) as (Hrx&_).
    destruct (Hrx $"abc" None) as (Hd1&Ht1&Hr1).
    pose proof fresh_passes as Hp. rewrite E in Hp.
    apply andb_true_iff in Hp as [Hf%negb_true_iff Hf1%negb_true_iff].
    rewrite Hf, Hr in Hr1. rewrite Ht in Ht1.
    pose proof (datagram_channels [] _ Hd1) as (_&Htx&_). specialize (Htx $"xyz" None).
    rewrite Hf1, Ht1, Hr1 in Htx. destruct (dispatch_tx_enqueue _ _ _) as [rc d2]. destruct Htx as (Hd2&Hr2&_&Ht2).
    exists d2. split; [exact Hd2|]. split; [exact Hr2|].
    destruct (datagram_channels [] d2 Hd2) as (_&_&_&_&Hdr&_). destruct (Hdr 3%nat) as (d3&E3&_&Ht3&_).
    rewrite Ht2 in E3, Ht3. exists d3. split; [exact E3|exact Ht3].
  - destruct dry_state as (D&d&Hd&HD&He&Hf). exists D, d. split; [exact Hd|]. split; [exact HD|]. split; [exact Hf|].
    destruct (datagram_channels D d Hd) as (Hrx&_). destruct (Hrx $"abc" None) as (_&_&Hr).
    rewrite He in Hr. exact Hr.
Defined.

Lemma poll_takes_oldest_witness :
  ∃ w, disp_wf [] (w_disp w) ∧ ∀ k w', v_dispatch_worker_poll 32 (λ _, mret tt) w = Some (k, w') → 0 <= k <= 32.
Proof.
  destruct empty_rings as (d&_&Hd&_). exists (set_disp d w_base). split; [exact Hd|].
  apply (poll_takes_oldest (set_disp d w_base) (λ _, mret tt) 32 Hd).
Defined.

(** ** v_stub_pfcp *)

Lemma msg_pool_created : ∃ s p, StubIo.msg_rel s (Heap p ∅).
Proof.
  destruct (StubIo.v_port_pfcp_io_init StubIo.pfcp_zero) as [rc s] eqn:E.
  assert (rc = RET_CODE_OK) as ->.
  { assert (fst (StubIo.v_port_pfcp_io_init StubIo.pfcp_zero) = RET_CODE_OK) as H by (vm_compute; reflexivity).
    by rewrite E in H. }
  destruct (StubIo.io_init_rel s E) as [_ [p Hp]]. by exists s, p.
Qed.

Lemma stub_msgs_refine_port_witness :
  ∃ s h w, StubIo.msg_rel s h ∧ w_msgs w = h ∧ ∃ o s', StubIo.v_port_pfcp_decode (est_req 1) s = Some (o, s').
Proof.
  destruct msg_pool_created as (s&p&Hrel). exists s, (Heap p ∅), (set_msgs (Heap p ∅) w_base).
  split; [exact Hrel|]. split; [reflexivity|].
  destruct (StubIo.stub_msgs_refine_port s (Heap p ∅) (set_msgs (Heap p ∅) w_base) Hrel eq_refl) as [Hd _].
  destruct (Hd (est_req 1)) as (o&s'&h'&Ho&_). by exists o, s'.
Defined.

Lemma last_tx_observed_witness :
  StubIo.io_ok StubIo.pfcp_zero ∧
  StubIo.v_stub_pfcp_io_last_tx 512 (StubIo.send_all [DispatchMsg $"old" peer; DispatchMsg $"new" peer] StubIo.pfcp_zero) = ($"new", 3).
Proof.
  assert (StubIo.io_ok StubIo.pfcp_zero) as Hok by (split; [apply length_replicate|done]). split; [exact Hok|].
  apply (StubIo.last_tx_observed [DispatchMsg $"old" peer] (DispatchMsg $"new" peer) StubIo.pfcp_zero Hok). done.
Defined.

(** ** main *)

(** The first poll after the connections delivers the script loads; nothing
    else ever arrives, so the identifier gate fails. *)
Definition only_first (es : list event) (i : nat) : list event := match i with O => es | S _ => [] end.

Lemma boot_events_db : Forall (λ e, is_boot e = true) boot_events.
Proof. apply Forall_forall. intros e He. by repeat (apply elem_of_cons in He as [->|He]; [reflexivity|]); apply elem_of_nil in He. Qed.

Lemma startup_gate_witness :
  db_only (only_first boot_events) ∧
  ∃ r, main always always 0 0 1000 (only_first boot_events) (only_first []) (only_first []) = Some r.
Proof.
  assert (∀ es, Forall (λ e, is_boot e = true) es → db_only (only_first es)) as Hd by (intros es Hes [|i]; [exact Hes|constructor]).
  split; [apply Hd, boot_events_db|].
  destruct (startup_gate always always 0 0 1000 (only_first boot_events) (only_first []) (only_first [])) as (r&Hr&_);
    [apply Hd, boot_events_db|apply Hd; constructor|apply Hd; constructor|]. by exists r.
Defined.

(** ** Concurrent calls *)

(** The creation of pools under names, seen by the callers of one name: the
    first creation makes the pool, later ones are refused. *)
Definition create_named (n : bool) : option rte_mempool * bool :=
  if n then (None, true) else (rte_mempool_create V_RETRANS_PENDING_POOL_CAP, true).

Lemma create_named_taken n : n = true → create_named n = (None, n).
Proof. by intros ->. Qed.

Lemma create_named_takes n p n' : create_named n = (Some p, n') → n' = true.
Proof. intros H. destruct n; symmetry; exact (f_equal snd H). Qed.

Lemma lazy_pool_race_witness :
  ∃ sched s', sys_run (ensure_step bool create_named) sched ([PTest; PTest], PoolState bool None false) =
      ([PDone RET_CODE_OK; PDone RET_CODE_ERR], s') ∧ g_pool bool s' = None.
Proof.
  destruct (lazy_pool_race bool (λ n, n) create_named create_named_taken create_named_takes (PoolState bool None false)
    (ListDpdk.objects 1 (Z.to_nat V_RETRANS_PENDING_POOL_CAP)) true) as (sched&s'&Hrun&Hdead&_); [reflexivity|reflexivity|].
  exists sched, s'. split; [exact Hrun|]. apply (Hdead 0%nat []).
Defined.

Lemma slot_race_witness :
  ∃ T sched T' t u, StubTxn.v_port_txn_init None = (RET_CODE_OK, Some T) ∧
    sys_run create_step sched ([TSearch; TSearch], T) = ([TDone (Some t); TDone (Some u)], T') ∧ t ≠ u.
Proof.
  destruct StubTxn.Example.init_some as [T HT]. destruct (StubTxn.contract_init T HT) as [Hok _].
  destruct (StubTxn.init_all_free T HT) as [Hi Hfree].
  destruct (slot_race T 0 Hok Hi) as (sched&T'&t&u&Hrun&Htu&_); [unfold StubTxn.V_STUB_TXN_CAP in Hfree; lia|].
  exists T, sched, T', t, u. split; [exact HT|]. split; [exact Hrun|exact Htu].
Defined.
