(* ===== verification/ClusterExamples.v ===== *)
(** Concrete runs of the cluster and of a draining pod: the hypotheses of the
    theorems of ClusterInv.v, Effects.v, Drain.v and Verdict.v hold. *)
From S2P Require Import Prelude Seid Dpdk Heap Redis Scripts World DbScript SessStore RetransCache IdAlloc.
From S2P Require Import DispatchQ NodeState Flow Sweeper Pod StubPfcp Server Pools Own OwnPod Boot Safety Testbed.
From S2P Require Import Protocol Progress Procedures ProtocolRefine Answers Commands Registers Records Payload Cluster ClusterInv Effects Atomic Drain Supplies Onward Verdict Runs.

(** Empty shards. *)
Definition cluster0 : cluster := Cluster [] (λ _, Shard ∅ (λ _, false)) [].

Lemma cluster0_initial : cl_initial cluster0.
Proof. split; [done|]. split; [done|]. intros s part seid. exact (lookup_empty (M := gmap bytes) (make_key part seid)). Qed.

(** The first pod starts: connections, scripts, identifiers of partition 0. *)
Definition load_script : list cl_label := [ClServe 0 0; ClDeliver 0 0].
Definition pod0_starts : list cl_label :=
  [ClStart always always 0 0 1000] ++
  (seqZ 0 5 ≫= λ s, [ClPod 0 (EvReconnect s)] ++ load_script ++ load_script ++ load_script) ++
  [ClInit 0; ClServe 0 0; ClServe 0 1; ClServe 0 2; ClDeliver 0 2; ClDeliver 0 1; ClDeliver 0 0].

(** It takes an establishment. *)
Definition est_starts : list cl_label := pod0_starts ++ [ClPod 0 (EvRx (est_req 1) peer); ClPod 0 EvPoll].

(** The newest command of the pod is served, its reply delivered. *)
Definition LAST : nat := 3069.
Definition round_trip : list cl_label := [ClServe 0 LAST; ClDeliver 0 LAST].

(** Meanwhile the script caches are flushed, another pod starts and crashes. *)
Definition est_works : list cl_label :=
  round_trip ++ (ClFlush <$> seqZ 0 5) ++ round_trip ++ [ClStart always always 1 2 1000; ClPod 1 (EvReconnect 0)] ++
  round_trip ++ [ClServe 0 LAST; ClCrash 1; ClDeliver 0 LAST] ++ [ClPod 0 (EvVdp 0 V_VDP_ACCEPT); ClServe 0 LAST].

Definition est_ends : cl_label := ClDeliver 0 LAST.

Fixpoint in_progressb (i : nat) (t : Z) (ls : list cl_label) (cl : cluster) : bool :=
  match get_node cl i with Some nd => nd_running nd && is_some (procs (nd_world nd) !! t) | None => false end &&
  match ls with [] => true | l :: ls' => match cl_do l cl with Some cl1 => in_progressb i t ls' cl1 | None => false end end.

Lemma in_progressb_ok i t ls : ∀ cl, in_progressb i t ls cl = true → in_progress i t ls cl.
Proof.
  induction ls as [|l ls IH]; intros cl; cbn [in_progressb in_progress]; intros [H1 H2]%andb_true_iff.
  all: split; [destruct (get_node cl i) as [nd|] eqn:E; [|done]; apply andb_true_iff in H1 as [H1 H3];
    exists nd; split; [done|]; destruct (procs (nd_world nd) !! t); [by eexists|done]|].
  - done.
  - destruct (cl_do l cl); [by apply IH|done].
Qed.

(** The request of transaction [t] is worked on and answered, [sent] being
    every response so far. *)
Definition life_check (cb : v_retrans_cb_t) (t : Z) (works : list cl_label) (ends : cl_label) (sent : list (Z * Z))
    (o : option cluster) : bool :=
  match o with
  | Some cl0 =>
      match get_node cl0 0 with
      | Some nd0 =>
          nd_running nd0 && bool_decide (procs (nd_world nd0) !! t = Some (RLookup cb, 0%nat, 0)) &&
          is_some (txn_at (nd_world nd0) t) && is_some (req_of (nd_world nd0) t) && in_progressb 0 t works cl0 &&
          match cl_run works cl0 with
          | Some cl1 =>
              match get_node cl1 0, cl_do ends cl1 with
              | Some _, Some cl2 =>
                  match get_node cl2 0 with
                  | Some nd2 => bool_decide (procs (nd_world nd2) !! t = None) && bool_decide (responses_sent (nd_world nd2) = sent)
                  | None => false
                  end
              | _, _ => false
              end
          | None => false
          end
      | None => false
      end
  | None => false
  end.

(** The run in parts. *)
Lemma life_check_parts cb t works ends sent o : life_check cb t works ends sent o = true →
  ∃ cl0 nd0 x0 req cl1 nd1 cl2 nd2,
    o = Some cl0 ∧ running cl0 0 nd0 ∧
    procs (nd_world nd0) !! t = Some (RLookup cb, 0%nat, 0) ∧ txn_at (nd_world nd0) t = Some x0 ∧ req_of (nd_world nd0) t = Some req ∧
    cl_run works cl0 = Some cl1 ∧ in_progress 0 t works cl0 ∧ get_node cl1 0 = Some nd1 ∧
    cl_do ends cl1 = Some cl2 ∧ get_node cl2 0 = Some nd2 ∧ procs (nd_world nd2) !! t = None ∧
    responses_sent (nd_world nd2) = sent.
Proof.
  unfold life_check. intros H. destruct o as [cl0|]; [|discriminate H].
  destruct (get_node cl0 0) as [nd0|] eqn:G0; [|discriminate H].
  apply andb_true_iff in H as [H H2]. apply andb_true_iff in H as [H Hin]. apply andb_true_iff in H as [H Hq].
  apply andb_true_iff in H as [H Hx]. apply andb_true_iff in H as [Hr Hp%bool_decide_eq_true].
  destruct (txn_at (nd_world nd0) t) as [x0|] eqn:Ex; [|discriminate Hx].
  destruct (req_of (nd_world nd0) t) as [req|] eqn:Eq; [|discriminate Hq].
  destruct (cl_run works cl0) as [cl1|] eqn:E1; [|discriminate H2].
  destruct (get_node cl1 0) as [nd1|] eqn:G1; [|discriminate H2].
  destruct (cl_do ends cl1) as [cl2|] eqn:E2; [|discriminate H2].
  destruct (get_node cl2 0) as [nd2|] eqn:G2; [|discriminate H2].
  apply andb_true_iff in H2 as [Hn%bool_decide_eq_true Hs%bool_decide_eq_true].
  exists cl0, nd0, x0, req, cl1, nd1, cl2, nd2.
  split; [reflexivity|]. split; [exact (conj G0 Hr)|]. split; [exact Hp|]. split; [exact Ex|]. split; [exact Eq|]. split; [exact E1|].
  split; [exact (in_progressb_ok _ _ _ _ Hin)|]. split; [exact G1|]. split; [exact E2|]. split; [exact G2|].
  split; [exact Hn|exact Hs].
Qed.

(** The establishment is accepted. *)
Definition est_sent : list (Z * Z) := [(V_PFCP_CAUSE_REQUEST_ACCEPTED, first_seid)].

Lemma est_scenario_holds : life_check fp_retrans_lookup_cb 1 est_works est_ends est_sent (cl_run est_starts cluster0) = true.
Proof. vm_compute. reflexivity. Qed.

(** A modification of the session follows; the write script has to be loaded
    again while it waits. *)
Definition mod_starts : list cl_label :=
  est_starts ++ est_works ++ [est_ends; ClPod 0 (EvRx (mod_req 2 first_seid) peer); ClPod 0 EvPoll].
Definition next_trip : list cl_label := [ClServe 0 (S LAST); ClDeliver 0 (S LAST)].
Definition mod_works : list cl_label :=
  next_trip ++ next_trip ++ (ClFlush <$> seqZ 0 5) ++ next_trip ++ next_trip ++ next_trip.
Definition mod_ends : cl_label := ClPod 0 (EvVdp 0 V_VDP_ACCEPT).

Lemma accepted_took_effect_witness :
  ∃ cl0 cl1 nd1 nd2 x a, cl_run est_starts cluster0 = Some cl0 ∧ cl_run est_works cl0 = Some cl1 ∧ get_node cl1 0 = Some nd1 ∧
    replies 1 a (nd_world nd1) (nd_world nd2) ∧ responses_sent (nd_world nd2) = [(V_PFCP_CAUSE_REQUEST_ACCEPTED, first_seid)] ∧
    (a = Cause V_PFCP_CAUSE_REQUEST_ACCEPTED → took 0 fp_retrans_lookup_cb (session_key x) cl0 est_works).
Proof.
  destruct (life_check_parts _ _ _ _ _ _ est_scenario_holds) as (cl0&nd0&x0&_&cl1&nd1&cl2&nd2&H0&Hrun&Hp&Hx&_&H1&Hin&G1&H2&G2&Hn&Hs).
  assert (Z.of_nat (length est_starts) + Z.of_nat (length est_works) < 2 ^ 53 - 1) as Hlen by reflexivity.
  destruct (accepted_took_effect cluster0 est_starts cl0 est_works cl1 est_ends cl2 0 1 fp_retrans_lookup_cb nd0 x0 nd1 nd2
    cluster0_initial Hlen H0 Hrun Hp Hx H1 Hin G1 H2 G2 Hn) as (x&a&_&Ha&_&Ht).
  exists cl0, cl1, nd1, nd2, x, a. split; [exact H0|]. split; [exact H1|]. split; [exact G1|]. split; [exact Ha|].
  split; [exact Hs|exact Ht].
Defined.

Definition mod_sent : list (Z * Z) := est_sent ++ [(V_PFCP_CAUSE_REQUEST_ACCEPTED, first_seid)].

Lemma mod_scenario_holds : life_check fp_mod_retrans_lookup_cb 1 mod_works mod_ends mod_sent (cl_run mod_starts cluster0) = true.
Proof. vm_compute. reflexivity. Qed.

Lemma accepted_is_atomic_witness :
  ∃ cl0 cl1 nd1 nd2 x0 req x a, cl_run mod_starts cluster0 = Some cl0 ∧ cl_run mod_works cl0 = Some cl1 ∧ get_node cl1 0 = Some nd1 ∧
    replies 1 a (nd_world nd1) (nd_world nd2) ∧ responses_sent (nd_world nd2) = mod_sent ∧
    (a = Cause V_PFCP_CAUSE_REQUEST_ACCEPTED → ∃ part seid, session_key x = make_key part seid ∧
       (fp_mod_retrans_lookup_cb ≠ fp_retrans_lookup_cb → (part, seid) = ident x0) ∧
       atomically 0 fp_mod_retrans_lookup_cb req part seid cl0 mod_works).
Proof.
  destruct (life_check_parts _ _ _ _ _ _ mod_scenario_holds) as (cl0&nd0&x0&req&cl1&nd1&cl2&nd2&H0&Hrun&Hp&Hx&Hq&H1&Hin&G1&H2&G2&Hn&Hs).
  assert (Z.of_nat (length mod_starts) + Z.of_nat (length mod_works) < 2 ^ 53 - 1) as Hlen by reflexivity.
  destruct (accepted_is_atomic cluster0 mod_starts cl0 mod_works cl1 mod_ends cl2 0 1 fp_mod_retrans_lookup_cb nd0 x0 req nd1 nd2
    cluster0_initial Hlen H0 Hrun Hp Hx Hq H1 Hin G1 H2 G2 Hn) as (x&a&_&Ha&Ht).
  exists cl0, cl1, nd1, nd2, x0, req, x, a. split; [exact H0|]. split; [exact H1|]. split; [exact G1|]. split; [exact Ha|].
  split; [exact Hs|exact Ht].
Defined.

Lemma cluster_well_typed_witness :
  ∃ cl', cl_run est_starts cluster0 = Some cl' ∧
    ∀ s part seid, ∃ cur, rec_at (sh_store (cl_shards cl' s)) (make_key part seid) cur ∧
      ver_of cur <= Z.of_nat (length est_starts).
Proof.
  destruct (cluster_well_typed cluster0 est_starts cluster0_initial ltac:(by vm_compute)) as (cl'&E&_&_&H).
  exists cl'. split; [exact E|exact H].
Defined.

(** ** A draining pod *)

(** The oldest command fails, or the oldest data-plane operation succeeds. *)
Definition drain_sched (k : nat) (w : world) : event :=
  match db_queue (w_db w) with [] => EvVdp 0 V_VDP_ACCEPT | _ => EvReply 0 None end.

Lemma drain_sched_ok k w : quiescent w = false → completes_something (drain_sched k w) w.
Proof.
  unfold quiescent, drain_sched. intros H. destruct (db_queue (w_db w)) as [|c q] eqn:Eq.
  - destruct (vdp_queue (w_vdp w)) as [|v q] eqn:Ev; [discriminate H|]. cbn. rewrite Ev. by exists v.
  - cbn. rewrite Eq. by exists c.
Qed.

(** A pod in the middle of an establishment. *)
Lemma pod_comes_to_rest_witness :
  ∃ w es w', pod_reachable w ∧ proc1 w = Some (RLookup fp_retrans_lookup_cb, 0%nat, 0) ∧
    drive (load w) drain_sched w = Some (es, w') ∧ quiescent w' = true ∧ heap_live (w_txns w') = ∅.
Proof.
  destruct (scenario_reachable 5 est_begun begun eq_refl eq_refl) as (w&Hw&Hb).
  destruct (pod_comes_to_rest w drain_sched Hw (λ k w1 _, drain_sched_ok k w1)) as (es&w'&Hd&_&_&Hq&Ht&_).
  exists w, es, w'. split; [exact Hw|]. split; [|by split].
  unfold begun in Hb. by apply bool_decide_eq_true in Hb as [? _].
Defined.

(** ** A pod with supplies *)

(** The codec of the stubs asks for nothing more. *)
Lemma stub_codec_fits : codec_fits.
Proof.
  split; [done|done| |].
  - intros c. exists (take CTX_SIZE c). split; [done|]. rewrite length_take. unfold CTX_SIZE, BLOB_ROOM. lia.
  - intros data c c' blob p. cbn. unfold stub_deserialize, stub_serialize. destruct (Z.ltb_spec (Z.of_nat (length data)) (Z.of_nat CTX_SIZE)); [done|].
    intros [= <-]. cbn [Z.ltb]. destruct (_ <? _); [done|]. intros [= <-]. rewrite take_take, Nat.min_id, length_take.
    rewrite (proj2 (Z.ltb_ge _ _)) by lia. done.
Qed.

Lemma request_outcome_witness :
  ∃ w w' es1 cs a, pod_reachable w ∧ proc1 w = Some (RLookup fp_retrans_lookup_cb, 0%nat, 0) ∧
    pod_run est_rest w = Some (tt, w') ∧ answered_at 1 w es1 cs a ∧ answer_to fp_retrans_lookup_cb cs = Answered a.
Proof.
  destruct (scenario_split 7 6 _ est_rest _ _ eq_refl eq_refl ltac:(vm_compute; reflexivity))
    as (w&w'&Hr&[Hb Hc]%andb_true_iff&E&[Hw' _]%bool_decide_eq_true).
  apply bool_decide_eq_true in Hb as [Hw _].
  destruct (request_outcome stub_codec_fits est_rest w w' 1 fp_retrans_lookup_cb Hr ltac:(by repeat constructor) E Hw
    (provided_run_check_ok 1 est_rest w Hc)) as [(p&Hp&_)|(es1&es2&cs&a&_&Ha&Hv)].
  - exfalso. unfold proc1 in Hw'. rewrite Hw' in Hp. discriminate Hp.
  - exists w, w', es1, cs, a. split; [exact Hr|]. split; [exact Hw|]. split; [exact E|]. split; [exact Ha|exact Hv].
Defined.

(** A modification waits for the data plane. *)
Definition vdp_check (t : Z) (cl : cluster) : bool :=
  match get_node cl 0 with
  | Some nd => nd_running nd &&
      match hp_mem (w_txns (nd_world nd)) !! t with Some x => bool_decide (t_state x = TXN_ST_VDP_WAIT) | None => false end
  | None => false
  end.

Lemma mod_in_vdp_wait : match cl_run (mod_starts ++ mod_works) cluster0 with Some cl => vdp_check 1 cl | None => false end = true.
Proof. vm_compute. reflexivity. Qed.

Lemma vdp_timeout_deletes_nothing_witness :
  ∃ cl nd x, cl_run (mod_starts ++ mod_works) cluster0 = Some cl ∧ get_node cl 0 = Some nd ∧
    hp_mem (w_txns (nd_world nd)) !! 1 = Some x ∧ t_state x = TXN_ST_VDP_WAIT ∧
    timeout_action iu x (nd_world nd) = Some (tt, nd_world nd).
Proof.
  pose proof mod_in_vdp_wait as H.
  destruct (vdp_timeout_deletes_nothing cluster0 (mod_starts ++ mod_works) cluster0_initial) as (cl&E&Hv); [vm_compute; discriminate|].
  rewrite E in H. unfold vdp_check in H. destruct (get_node cl 0) as [nd|] eqn:G; [|discriminate H].
  apply andb_true_iff in H as [Hr H]. destruct (hp_mem (w_txns (nd_world nd)) !! 1) as [x|] eqn:Hx; [|discriminate H].
  apply bool_decide_eq_true in H. exists cl, nd, x. split; [exact E|]. split; [exact G|]. split; [exact Hx|]. split; [exact H|].
  apply (Hv 0%nat nd 1 x G Hr Hx H).
Defined.
